(** * Buffered I/O engine (fs/iomap/buffered-io.c): sub-block state tracker,
      read and write actors, ioend merging.

    The C code is embedded shallowly: every function below is the Rocq
    transcription of the C function of the same name, with the state it
    touches (folio, inode, read context) passed in and returned. *)

From Stdlib Require Import ZArith List Bool Lia.
From Stdlib Require Import Strings.Byte.
Import ListNotations.
Local Open Scope Z_scope.

(** ** Machine integers

    [unsigned] is 32 bits wide, [size_t], [u64] and [unsigned long] are 64
    bits wide, [loff_t] is a signed 64-bit integer.  Values are carried as
    [Z]; every C operation that can leave the range of its type is followed
    by the matching wrap. *)

Definition u32 (z : Z) : Z := z mod 2 ^ 32.
Definition u64 (z : Z) : Z := z mod 2 ^ 64.
Definition s64 (z : Z) : Z := (z + 2 ^ 63) mod 2 ^ 64 - 2 ^ 63.

(** [int], the type of [atomic_t] counters. *)
Definition s32 (z : Z) : Z := (z + 2 ^ 31) mod 2 ^ 32 - 2 ^ 31.

(** ** Bitmaps

    Modelled from the spec: the kernel bitmap helpers ([test_bit],
    [bitmap_set], [bitmap_full], [bitmap_fill] of linux/bitmap.h) are not
    among the sources.  The uptodate bitmap is "a bitmap of length
    blocks-per-page marking which blocks hold valid data"; it is carried as
    the integer whose binary digits are the bits. *)

Definition test_bit (nr : Z) (map : Z) : bool := Z.testbit map nr.

Definition bitmap_set (map : Z) (start nbits : Z) : Z :=
  Z.lor map (Z.shiftl (Z.ones nbits) start).

Definition bitmap_full (map : Z) (nbits : Z) : bool :=
  Z.land map (Z.ones nbits) =? Z.ones nbits.

Definition bitmap_fill (nbits : Z) : Z := Z.ones nbits.

(** ** Data model *)

(** [struct iomap_page]: the sub-block state record.  The spinlock is not
    represented: every function below runs its critical section as one
    step. *)
Record iomap_page : Type := mk_iop {
  read_bytes_pending : Z;
  write_bytes_pending : Z;
  uptodate : Z
}.

Definition iop_with_uptodate (iop : iomap_page) (map : Z) : iomap_page :=
  mk_iop (read_bytes_pending iop) (write_bytes_pending iop) map.

(** A folio: the head page's index and flags, its order, the attached
    private record ([PG_private] and [page_private] together) and its
    bytes. *)
Record folio : Type := mk_folio {
  index : Z;
  order : Z;
  PG_locked : bool;
  PG_dirty : bool;
  PG_writeback : bool;
  PG_error : bool;
  PG_uptodate : bool;
  private : option iomap_page;
  data : list byte
}.

(** The fields of [struct inode] the engine reads or writes. *)
Record inode : Type := mk_inode {
  i_size : Z;
  i_blkbits : Z
}.

(** Modelled from the spec: [PAGE_SHIFT], [folio_size] and
    [offset_in_folio] are declared in headers that are not among the
    sources; the spec's cache pages are 4096 bytes, a folio of order [n]
    is [2^n] pages and an offset in a folio is the position modulo its
    size. *)
Definition PAGE_SHIFT : Z := 12.
Definition PAGE_SIZE : Z := Z.shiftl 1 PAGE_SHIFT.

Definition folio_size (f : folio) : Z := Z.shiftl PAGE_SIZE (order f).

Definition offset_in_folio (f : folio) (p : Z) : Z :=
  Z.land (u64 p) (folio_size f - 1).

Definition i_blocks_per_folio (i : inode) (f : folio) : Z :=
  u32 (Z.shiftr (folio_size f) (i_blkbits i)).

Definition i_size_read (i : inode) : Z := i_size i.

(** Folio flag operations. *)
Definition FolioUptodate (f : folio) : bool := PG_uptodate f.
Definition FolioError (f : folio) : bool := PG_error f.

Definition SetFolioUptodate (f : folio) : folio :=
  mk_folio (index f) (order f) (PG_locked f) (PG_dirty f) (PG_writeback f)
           (PG_error f) true (private f) (data f).

Definition ClearFolioUptodate (f : folio) : folio :=
  mk_folio (index f) (order f) (PG_locked f) (PG_dirty f) (PG_writeback f)
           (PG_error f) false (private f) (data f).

Definition SetFolioError (f : folio) : folio :=
  mk_folio (index f) (order f) (PG_locked f) (PG_dirty f) (PG_writeback f)
           true (PG_uptodate f) (private f) (data f).

Definition ClearFolioError (f : folio) : folio :=
  mk_folio (index f) (order f) (PG_locked f) (PG_dirty f) (PG_writeback f)
           false (PG_uptodate f) (private f) (data f).

Definition unlock_folio (f : folio) : folio :=
  mk_folio (index f) (order f) false (PG_dirty f) (PG_writeback f)
           (PG_error f) (PG_uptodate f) (private f) (data f).

Definition folio_with_private (f : folio) (p : option iomap_page) : folio :=
  mk_folio (index f) (order f) (PG_locked f) (PG_dirty f) (PG_writeback f)
           (PG_error f) (PG_uptodate f) p (data f).

Definition folio_with_data (f : folio) (d : list byte) : folio :=
  mk_folio (index f) (order f) (PG_locked f) (PG_dirty f) (PG_writeback f)
           (PG_error f) (PG_uptodate f) (private f) d.

Definition folio_has_private (f : folio) : bool :=
  match private f with Some _ => true | None => false end.

(** [to_iomap_page]: the attached record when [folio_has_private], else
    NULL; both are read off the [private] field. *)
Definition to_iomap_page (f : folio) : option iomap_page := private f.

(** ** Sub-block state tracker *)

(** [iomap_page_create]: the record is allocated zeroed; its bitmap is
    filled when the folio is already uptodate. *)
Definition iomap_page_create (i : inode) (f : folio)
  : option iomap_page * folio :=
  let iop := to_iomap_page f in
  let nr_blocks := i_blocks_per_folio i f in
  match iop with
  | Some _ => (iop, f)
  | None =>
    if nr_blocks <=? 1 then (iop, f)
    else
      let map := if FolioUptodate f then bitmap_fill nr_blocks else 0 in
      let iop' := mk_iop 0 0 map in
      (Some iop', folio_with_private f (Some iop'))
  end.

(** [iomap_iop_set_range_uptodate].  [iop] is the record that
    [to_iomap_page(folio)] returns; the only caller checks
    [folio_has_private] first. *)
Definition iomap_iop_set_range_uptodate
    (i : inode) (f : folio) (iop : iomap_page) (off len : Z) : folio :=
  let first := u32 (Z.shiftr off (i_blkbits i)) in
  let last := u32 (Z.shiftr (u64 (off + len - 1)) (i_blkbits i)) in
  let map := bitmap_set (uptodate iop) first (u32 (last - first + 1)) in
  let f' := folio_with_private f (Some (iop_with_uptodate iop map)) in
  if bitmap_full map (i_blocks_per_folio i f) then SetFolioUptodate f'
  else f'.

(** [iomap_set_range_uptodate]: the spec's [mark_valid]. *)
Definition iomap_set_range_uptodate
    (i : inode) (f : folio) (off len : Z) : folio :=
  if FolioError f then f
  else
    match to_iomap_page f with
    | Some iop => iomap_iop_set_range_uptodate i f iop off len
    | None => SetFolioUptodate f
    end.

(** [iomap_is_partially_uptodate]'s scan [for (i = first; i <= last; i++)].
    [fuel] bounds the number of iterations; [None] stands for a scan that
    has not ended when the fuel is spent. *)
Fixpoint partially_uptodate_scan (fuel : nat) (map last i : Z) : option bool :=
  if i <=? last then
    if negb (test_bit i map) then Some false
    else
      match fuel with
      | O => None
      | S n => partially_uptodate_scan n map last (u32 (i + 1))
      end
  else Some true.

(** [iomap_is_partially_uptodate]; the scan is given as many iterations as
    there are indices from [first] to [last]. *)
Definition iomap_is_partially_uptodate
    (i : inode) (f : folio) (from count : Z) : option bool :=
  match to_iomap_page f with
  | None => Some false
  | Some iop =>
    let len := Z.min (u64 (folio_size f - from)) count in
    let first := u32 (Z.shiftr from (i_blkbits i)) in
    let last := u32 (Z.shiftr (u64 (from + len - 1)) (i_blkbits i)) in
    partially_uptodate_scan (Z.to_nat (last - first + 1)) (uptodate iop)
                            last first
  end.

(** *** iomap_adjust_read_range *)

(** The local variables the two scans of [iomap_adjust_read_range] update. *)
Record read_range : Type := mk_rr {
  rr_pos : Z;
  rr_poff : Z;
  rr_plen : Z;
  rr_first : Z;
  rr_last : Z
}.

(** "move forward for each leading block marked uptodate": returns the
    loop counter together with the updated locals. *)
Fixpoint skip_leading_uptodate
    (fuel : nat) (map block_size : Z) (i : Z) (r : read_range)
  : option (Z * read_range) :=
  if i <=? rr_last r then
    if negb (test_bit i map) then Some (i, r)
    else
      let r' := mk_rr (s64 (rr_pos r + block_size))
                      (u64 (rr_poff r + block_size))
                      (u64 (rr_plen r - block_size))
                      (u32 (rr_first r + 1))
                      (rr_last r) in
      match fuel with
      | O => None
      | S n => skip_leading_uptodate n map block_size (u32 (i + 1)) r'
      end
  else Some (i, r).

(** "truncate len if we find any trailing uptodate block(s)". *)
Fixpoint trim_trailing_uptodate
    (fuel : nat) (map block_size : Z) (i : Z) (r : read_range)
  : option read_range :=
  if i <=? rr_last r then
    if test_bit i map then
      Some (mk_rr (rr_pos r) (rr_poff r)
                  (u64 (rr_plen r
                        - u32 (u32 (rr_last r - i + 1) * block_size)))
                  (rr_first r)
                  (u32 (i - 1)))
    else
      match fuel with
      | O => None
      | S n => trim_trailing_uptodate n map block_size (u32 (i + 1)) r
      end
  else Some r.

(** [iomap_adjust_read_range]: returns the updated [*pos], [*offp] and
    [*lenp].  Each scan is given as many iterations as there are indices
    up to [last]; [None] stands for a scan that has not ended by then
    (possible only when [last] is the largest [unsigned], where the C loop
    condition [i <= last] never fails). *)
Definition iomap_adjust_read_range
    (i : inode) (f : folio) (pos length : Z) : option (Z * Z * Z) :=
  let iop := to_iomap_page f in
  let orig_pos := pos in
  let isize := i_size_read i in
  let block_bits := i_blkbits i in
  let block_size := u32 (Z.shiftl 1 block_bits) in
  let poff := offset_in_folio f pos in
  let plen := u64 (Z.min (s64 (u64 (folio_size f - poff))) length) in
  let first := u32 (Z.shiftr poff block_bits) in
  let last := u32 (Z.shiftr (u64 (poff + plen - 1)) block_bits) in
  let r0 := mk_rr pos poff plen first last in
  let scanned :=
    match iop with
    | Some p =>
      match skip_leading_uptodate (Z.to_nat (last - first + 1))
                                  (uptodate p) block_size first r0 with
      | Some (i1, r1) =>
        trim_trailing_uptodate (Z.to_nat (rr_last r1 - i1 + 1))
                               (uptodate p) block_size i1 r1
      | None => None
      end
    | None => Some r0
    end in
  match scanned with
  | None => None
  | Some r =>
    let plen' :=
      if (orig_pos <=? isize) && (isize <? s64 (orig_pos + length)) then
        let e := u32 (Z.shiftr (offset_in_folio f (isize - 1)) block_bits) in
        if (rr_first r <=? e) && (e <? rr_last r)
        then u64 (rr_plen r - u32 (u32 (rr_last r - e) * block_size))
        else rr_plen r
      else rr_plen r in
    Some (rr_pos r, rr_poff r, plen')
  end.

(** ** Extents *)

Inductive iomap_type : Type :=
  | IOMAP_HOLE
  | IOMAP_MAPPED
  | IOMAP_UNWRITTEN
  | IOMAP_INLINE.

Definition iomap_type_eqb (a b : iomap_type) : bool :=
  match a, b with
  | IOMAP_HOLE, IOMAP_HOLE => true
  | IOMAP_MAPPED, IOMAP_MAPPED => true
  | IOMAP_UNWRITTEN, IOMAP_UNWRITTEN => true
  | IOMAP_INLINE, IOMAP_INLINE => true
  | _, _ => false
  end.

(** [struct iomap].  [inline_data] holds the bytes the pointer of that name
    points to and [inline_data_off] is [offset_in_page] of that pointer;
    [page_done] tells whether [page_ops->page_done] is supplied. *)
Record iomap : Type := mk_iomap {
  addr : Z;
  offset : Z;
  length : Z;
  type : iomap_type;
  flags : Z;
  bdev : Z;
  inline_data : list byte;
  inline_data_off : Z;
  page_done : bool
}.

Definition iomap_with_flags (m : iomap) (fl : Z) : iomap :=
  mk_iomap (addr m) (offset m) (length m) (type m) fl (bdev m)
           (inline_data m) (inline_data_off m) (page_done m).

Definition iomap_with_inline_data (m : iomap) (d : list byte) : iomap :=
  mk_iomap (addr m) (offset m) (length m) (type m) (flags m) (bdev m)
           d (inline_data_off m) (page_done m).

(** ** Page bytes

    Modelled from the spec: [zero_user], [zero_user_segments] and [memcpy]
    on a mapped page are not among the sources; a range is "memory-zeroed"
    or overwritten in place. *)

Definition write_bytes (d : list byte) (start : Z) (src : list byte)
  : list byte :=
  firstn (Z.to_nat start) d ++ src
    ++ skipn (Z.to_nat start + List.length src) d.

Definition zero_user_segment (d : list byte) (start stop : Z) : list byte :=
  if start <? stop
  then write_bytes d start (repeat x00 (Z.to_nat (stop - start)))
  else d.

Definition zero_user_segments (d : list byte) (start1 end1 start2 end2 : Z)
  : list byte :=
  zero_user_segment (zero_user_segment d start1 end1) start2 end2.

Definition zero_user (d : list byte) (start size : Z) : list byte :=
  zero_user_segments d start (start + size) 0 0.

(** ** I/O requests

    Modelled from the spec: the I/O Submission Layer (linux/bio.h) is not
    among the sources.  A request has a start sector, a capacity bound and
    the memory regions queued so far; a region is merged into the last one
    when it continues it on the same page, appending fails when the region
    cannot be merged and the request is full. *)

Record bio_vec : Type := mk_bvec {
  bv_page : Z;
  bv_offset : Z;
  bv_len : Z
}.

Record bio : Type := mk_bio {
  bi_bdev : Z;
  bi_sector : Z;
  bi_size : Z;
  bi_max_vecs : Z;
  bi_rahead : bool;
  bi_io_vec : list bio_vec
}.

Definition SECTOR_SHIFT : Z := 9.
Definition UINT_MAX : Z := 2 ^ 32 - 1.

Definition bio_end_sector (b : bio) : Z :=
  u64 (bi_sector b + Z.shiftr (bi_size b) SECTOR_SHIFT).

Definition bio_full (b : bio) (len : Z) : bool :=
  (bi_max_vecs b <=? Z.of_nat (List.length (bi_io_vec b)))
  || (UINT_MAX - len <? bi_size b).

Definition bio_with_vecs (b : bio) (size : Z) (v : list bio_vec) : bio :=
  mk_bio (bi_bdev b) (bi_sector b) size (bi_max_vecs b) (bi_rahead b) v.

Definition __bio_try_merge_page (b : bio) (page len off : Z) : option bio :=
  match rev (bi_io_vec b) with
  | bv :: before =>
    if (bv_page bv =? page) && (bv_offset bv + bv_len bv =? off)
       && negb (UINT_MAX - len <? bi_size b)
    then Some (bio_with_vecs b (bi_size b + len)
                 (rev (mk_bvec (bv_page bv) (bv_offset bv) (bv_len bv + len)
                       :: before)))
    else None
  | [] => None
  end.

Definition __bio_add_page (b : bio) (page len off : Z) : bio :=
  bio_with_vecs b (bi_size b + len) (bi_io_vec b ++ [mk_bvec page off len]).

Definition bio_add_page (b : bio) (page len off : Z) : bio :=
  match __bio_try_merge_page b page len off with
  | Some b' => b'
  | None => if bio_full b len then b else __bio_add_page b page len off
  end.

Definition iomap_sector (m : iomap) (pos : Z) : Z :=
  Z.shiftr (u64 (addr m + pos - offset m)) SECTOR_SHIFT.

(** ** Read path *)

(** [struct iomap_readpage_ctx]; [rac] tells whether a readahead control
    is present.  [submitted] collects, oldest first, the requests handed to
    [submit_bio]. *)
Record iomap_readpage_ctx : Type := mk_ctx {
  cur_folio : folio;
  cur_folio_in_bio : bool;
  ctx_bio : option bio;
  rac : bool;
  submitted : list bio
}.

Definition ctx_with_folio (c : iomap_readpage_ctx) (f : folio)
  : iomap_readpage_ctx :=
  mk_ctx f (cur_folio_in_bio c) (ctx_bio c) (rac c) (submitted c).

(** [atomic_sub_and_test]: the counter after the subtraction and whether it
    reached zero. *)
Definition atomic_sub_and_test (n v : Z) : Z * bool :=
  let v' := s32 (v - n) in (v', v' =? 0).

Definition iop_with_read_pending (iop : iomap_page) (v : Z) : iomap_page :=
  mk_iop v (write_bytes_pending iop) (uptodate iop).

Definition iop_with_write_pending (iop : iomap_page) (v : Z) : iomap_page :=
  mk_iop (read_bytes_pending iop) v (uptodate iop).

(** [iomap_finish_folio_read].  [iop] points to the attached record, which
    the first branch may have updated in place; the counter is decremented
    in the record as it is then. *)
Definition iomap_finish_folio_read
    (i : inode) (f : folio) (offset len : Z) (error : Z) : folio :=
  let f1 :=
    if negb (error =? 0) then SetFolioError (ClearFolioUptodate f)
    else iomap_set_range_uptodate i f offset len in
  match to_iomap_page f1 with
  | None => unlock_folio f1
  | Some iop =>
    let (v, zero) := atomic_sub_and_test len (read_bytes_pending iop) in
    let f2 := folio_with_private f1 (Some (iop_with_read_pending iop v)) in
    if zero then unlock_folio f2 else f2
  end.

(** [FolioMulti]: the folio spans more than one page. *)
Definition FolioMulti (f : folio) : bool := negb (order f =? 0).

(** [iomap_read_inline_data].  [None] stands for a [BUG_ON] that fires. *)
Definition iomap_read_inline_data (i : inode) (f : folio) (m : iomap)
  : option folio :=
  let size := u64 (i_size_read i) in
  if FolioUptodate f then Some f
  else if negb (index f =? 0) then None
  else if FolioMulti f then None
  else if PAGE_SIZE - inline_data_off m <? size then None
  else
    let copied :=
      write_bytes (data f) 0 (firstn (Z.to_nat size) (inline_data m)) in
    let zeroed :=
      write_bytes copied size (repeat x00 (Z.to_nat (PAGE_SIZE - size))) in
    Some (SetFolioUptodate (folio_with_data f zeroed)).

(** Calls out of the engine that leave no trace in the modelled state are
    recorded as events, in the order they are made. *)
Inductive event : Type :=
  | EvMarkInodeDirty
  | EvIsizeExtended (from to : Z)
  | EvPageDone (pos ret : Z)
  | EvPutFolio
  | EvTruncatePagecacheRange (lstart lend : Z)
  | EvMappingSetError (err : Z).

(** [struct iomap_ioend], with [io_bio->bi_status] as [io_status] and the
    filesystem's annotation, when there is one, as [io_private].  The chain
    hanging off [io_list] is kept next to the ioend by the functions that
    build it. *)
Record iomap_ioend : Type := mk_ioend {
  io_type : iomap_type;
  io_flags : Z;
  io_size : Z;
  io_offset : Z;
  io_private : option Z;
  io_status : Z
}.

Definition ioend_with_size (e : iomap_ioend) (sz : Z) : iomap_ioend :=
  mk_ioend (io_type e) (io_flags e) sz (io_offset e) (io_private e)
           (io_status e).

Definition ioend_with_private (e : iomap_ioend) (p : option Z)
  : iomap_ioend :=
  mk_ioend (io_type e) (io_flags e) (io_size e) (io_offset e) p
           (io_status e).

(** The errno value of [EIO]. *)
Definition EIO : Z := 5.

Definition IOMAP_WRITE_F_UNSHARE : Z := Z.shiftl 1 0.

(** Kernel helpers the write path uses: the block size of an inode, the
    power-of-two rounding macros, the file position of a folio
    ([page_offset]), and the Cache Page Store's "mark dirty" and "end
    writeback", which set and clear the flag. *)
Definition i_blocksize (i : inode) : Z := u32 (Z.shiftl 1 (i_blkbits i)).

Definition round_down (x y : Z) : Z := Z.land x (Z.lnot (y - 1)).

Definition round_up (x y : Z) : Z := s64 (Z.lor (x - 1) (y - 1) + 1).

Definition folio_offset (f : folio) : Z :=
  s64 (Z.shiftl (index f) PAGE_SHIFT).

Definition iomap_set_page_dirty (f : folio) : folio :=
  mk_folio (index f) (order f) (PG_locked f) true (PG_writeback f)
           (PG_error f) (PG_uptodate f) (private f) (data f).

Definition end_folio_writeback (f : folio) : folio :=
  mk_folio (index f) (order f) (PG_locked f) (PG_dirty f) false
           (PG_error f) (PG_uptodate f) (private f) (data f).

Section Engine.

(** The extent flag bits and [BIO_MAX_PAGES] are declared in headers that
    are not among the sources; they are parameters of the development. *)
Variable IOMAP_F_NEW : Z.
Variable IOMAP_F_SHARED : Z.
Variable IOMAP_F_BUFFER_HEAD : Z.
Variable IOMAP_F_SIZE_CHANGED : Z.
Variable BIO_MAX_PAGES : Z.

(** Whether the first, opportunistic [bio_alloc] of the read actor
    succeeds. *)
Variable bio_alloc_succeeds : bool.

(** [submit_bio_wait] on a one-segment read of [len] bytes at [sector] of
    device [bdev]: the status and the bytes that arrived. *)
Variable submit_bio_wait : Z -> Z -> Z -> Z * list byte.

(** [block_write_end] of the buffer-head path: bytes accepted and the
    folio it leaves. *)
Variable block_write_end : Z -> Z -> Z -> folio -> Z * folio.

(** [iomap_apply] instantiated with the read actor: the extent iterator
    is given the inode, position, length and read context and returns the
    bytes processed (or an error) with the context it leaves. *)
Variable iomap_apply :
  inode -> Z -> Z -> iomap_readpage_ctx -> Z * iomap_readpage_ctx.

Definition iomap_block_needs_zeroing (i : inode) (m : iomap) (pos : Z)
  : bool :=
  negb (iomap_type_eqb (type m) IOMAP_MAPPED)
  || negb (Z.land (flags m) IOMAP_F_NEW =? 0)
  || (i_size_read i <=? pos).

(** The branch of [iomap_readpage_actor] taken when the range cannot go
    into the current request: the accumulated request, if any, is
    submitted and a fresh one starting at [sector] is allocated. *)
Definition readpage_new_bio (length : Z) (c : iomap_readpage_ctx)
    (m : iomap) (sector : Z) : iomap_readpage_ctx :=
  let nr_vecs := s32 (Z.shiftr (u64 (length + PAGE_SIZE - 1)) PAGE_SHIFT) in
  let sub :=
    match ctx_bio c with
    | Some b => submitted c ++ [b]
    | None => submitted c
    end in
  let cap :=
    if bio_alloc_succeeds then Z.min BIO_MAX_PAGES nr_vecs else 1 in
  mk_ctx (cur_folio c) (cur_folio_in_bio c)
         (Some (mk_bio (bdev m) sector 0 cap (rac c) []))
         (rac c) sub.

(** [bio_add_page(ctx->bio, &folio->page, plen, poff)]. *)
Definition ctx_bio_add_page (c : iomap_readpage_ctx) (plen poff : Z)
  : iomap_readpage_ctx :=
  match ctx_bio c with
  | Some b =>
    mk_ctx (cur_folio c) (cur_folio_in_bio c)
           (Some (bio_add_page b (index (cur_folio c)) plen poff))
           (rac c) (submitted c)
  | None => c
  end.

(** [iomap_readpage_actor]: the value returned and the context left.
    [None]: the call does not return ([BUG_ON], endless scan). *)
Definition iomap_readpage_actor
    (i : inode) (pos length : Z) (c : iomap_readpage_ctx) (m : iomap)
  : option (Z * iomap_readpage_ctx) :=
  let (iop, f) := iomap_page_create i (cur_folio c) in
  let orig_pos := pos in
  if iomap_type_eqb (type m) IOMAP_INLINE then
    match iomap_read_inline_data i f m with
    | Some f' => Some (PAGE_SIZE, ctx_with_folio c f')
    | None => None
    end
  else
    match iomap_adjust_read_range i f pos length with
    | None => None
    | Some (pos, poff, plen) =>
      let ret := s64 (pos - orig_pos + plen) in
      if plen =? 0 then Some (ret, ctx_with_folio c f)
      else if iomap_block_needs_zeroing i m pos then
        let zeroed := folio_with_data f (zero_user (data f) poff plen) in
        Some (ret,
              ctx_with_folio c (iomap_set_range_uptodate i zeroed poff plen))
      else
        let f1 :=
          match iop with
          | Some p =>
            folio_with_private f
              (Some (iop_with_read_pending p
                       (s32 (read_bytes_pending p + plen))))
          | None => f
          end in
        let c1 := mk_ctx f1 true (ctx_bio c) (rac c) (submitted c) in
        let sector := iomap_sector m pos in
        let fresh := ctx_bio_add_page (readpage_new_bio length c1 m sector)
                                      plen poff in
        match ctx_bio c1 with
        | Some b =>
          if bio_end_sector b =? sector then
            match __bio_try_merge_page b (index f1) plen poff with
            | Some b' =>
              Some (ret, mk_ctx f1 true (Some b') (rac c) (submitted c))
            | None =>
              if bio_full b plen then Some (ret, fresh)
              else Some (ret, ctx_bio_add_page c1 plen poff)
            end
          else Some (ret, fresh)
        | None => Some (ret, fresh)
        end
    end.

(** The [for (poff = 0; poff < folio_size(folio); poff += ret)] loop of
    [iomap_readpage].  [f] is the folio the call was given: its index and
    size stay what they are; its flags and record are read from the
    context, which points to it throughout. *)
Fixpoint iomap_readpage_loop
    (fuel : nat) (i : inode) (f : folio) (poff : Z) (c : iomap_readpage_ctx)
  : option iomap_readpage_ctx :=
  if poff <? folio_size f then
    let (r, c1) := iomap_apply i (s64 (folio_offset f + poff))
                               (s64 (folio_size f - poff)) c in
    let ret := s64 r in
    if ret <=? 0 then Some (ctx_with_folio c1 (SetFolioError (cur_folio c1)))
    else
      match fuel with
      | O => None
      | S n => iomap_readpage_loop n i f (u64 (poff + ret)) c1
      end
  else Some c.

(** [iomap_readpage]: the value returned and the context left; [None]
    stands for a loop that has not ended when its fuel is spent. *)
Definition iomap_readpage (i : inode) (f : folio)
  : option (Z * iomap_readpage_ctx) :=
  let c := mk_ctx f false None false [] in
  match iomap_readpage_loop (Z.to_nat (folio_size f)) i f 0 c with
  | None => None
  | Some c1 =>
    match ctx_bio c1 with
    | Some b =>
      Some (0, mk_ctx (cur_folio c1) (cur_folio_in_bio c1) (ctx_bio c1)
                      (rac c1) (submitted c1 ++ [b]))
    | None => Some (0, ctx_with_folio c1 (unlock_folio (cur_folio c1)))
    end
  end.

(** Whether some [iomap_apply] call of the [iomap_readpage] loop returns a
    value that is zero or negative. *)
Fixpoint readpage_apply_failed
    (fuel : nat) (i : inode) (f : folio) (poff : Z) (c : iomap_readpage_ctx)
  : bool :=
  if poff <? folio_size f then
    let (r, c1) := iomap_apply i (s64 (folio_offset f + poff))
                               (s64 (folio_size f - poff)) c in
    let ret := s64 r in
    if ret <=? 0 then true
    else
      match fuel with
      | O => false
      | S n => readpage_apply_failed n i f (u64 (poff + ret)) c1
      end
  else false.

(** ** Write path *)

Definition iomap_write_failed (i : inode) (pos len : Z) : list event :=
  let i_size := i_size_read i in
  if i_size <? s64 (pos + len)
  then [EvTruncatePagecacheRange (Z.max pos i_size) (s64 (pos + len))]
  else [].

(** [iomap_read_folio_sync]: status, and the folio with the bytes read. *)
Definition iomap_read_folio_sync
    (block_start : Z) (f : folio) (poff plen : Z) (m : iomap) : Z * folio :=
  let (status, bytes) :=
    submit_bio_wait (bdev m) (iomap_sector m block_start) plen in
  (status, folio_with_data f (write_bytes (data f) poff bytes)).

(** The [do { ... } while ((block_start += plen) < block_end)] loop of
    [__iomap_write_begin]. *)
Fixpoint write_begin_loop
    (fuel : nat) (i : inode) (flags : Z) (f : folio) (srcmap : iomap)
    (from to block_start block_end : Z) : option (Z * folio) :=
  match iomap_adjust_read_range i f block_start
                                (s64 (block_end - block_start)) with
  | None => None
  | Some (block_start, poff, plen) =>
    if plen =? 0 then Some (0, f)
    else
      let again (f' : folio) :=
        let block_start' := s64 (block_start + plen) in
        if block_start' <? block_end then
          match fuel with
          | O => None
          | S n =>
            write_begin_loop n i flags f' srcmap from to block_start'
                             block_end
          end
        else Some (0, f') in
      if (Z.land flags IOMAP_WRITE_F_UNSHARE =? 0)
         && ((from <=? poff) || (u64 (poff + plen) <=? from))
         && ((to <=? poff) || (u64 (poff + plen) <=? to))
      then again f
      else if iomap_block_needs_zeroing i srcmap block_start then
        if negb (Z.land flags IOMAP_WRITE_F_UNSHARE =? 0)
        then Some (- EIO, f)
        else
          let zeroed :=
            folio_with_data f
              (zero_user_segments (data f) poff from to (u64 (poff + plen)))
          in
          again (iomap_set_range_uptodate i zeroed poff plen)
      else
        let (status, f') :=
          iomap_read_folio_sync block_start f poff plen srcmap in
        if negb (status =? 0) then Some (status, f')
        else again (iomap_set_range_uptodate i f' poff plen)
  end.

Definition __iomap_write_begin
    (i : inode) (pos len flags : Z) (f : folio) (srcmap : iomap)
  : option (Z * folio) :=
  let block_size := i_blocksize i in
  let block_start := round_down pos block_size in
  let block_end := round_up (s64 (pos + len)) block_size in
  let from := offset_in_folio f pos in
  let to := u64 (from + len) in
  let (_, f1) := iomap_page_create i f in
  if FolioUptodate f1 then Some (0, f1)
  else
    write_begin_loop
      (Z.to_nat (Z.shiftr (block_end - block_start) (i_blkbits i)))
      i flags (ClearFolioError f1) srcmap from to block_start block_end.

Definition __iomap_write_end
    (i : inode) (pos len copied : Z) (f : folio) : Z * folio :=
  if (copied <? len) && negb (FolioUptodate f) then (0, f)
  else
    (copied,
     iomap_set_page_dirty
       (iomap_set_range_uptodate i f (offset_in_folio f pos) len)).

(** [iomap_write_end_inline]; [None] when the [BUG_ON] fires. *)
Definition iomap_write_end_inline
    (f : folio) (m : iomap) (pos copied : Z)
  : option (Z * iomap * list event) :=
  if PAGE_SIZE - inline_data_off m <? u64 (pos + copied) then None
  else
    let src := firstn (Z.to_nat copied) (skipn (Z.to_nat pos) (data f)) in
    Some (copied,
          iomap_with_inline_data m (write_bytes (inline_data m) pos src),
          [EvMarkInodeDirty]).

(** [iomap_write_end]: bytes reported, the inode, folio and extent
    descriptor it leaves, and the outside calls it made. *)
Definition iomap_write_end
    (i : inode) (pos len copied : Z) (f : folio) (m srcmap : iomap)
  : option (Z * inode * folio * iomap * list event) :=
  let old_size := i_size i in
  let written :=
    if iomap_type_eqb (type srcmap) IOMAP_INLINE then
      match iomap_write_end_inline f m pos copied with
      | Some (ret, m', ev) => Some (ret, f, m', ev)
      | None => None
      end
    else if negb (Z.land (flags srcmap) IOMAP_F_BUFFER_HEAD =? 0) then
      let (ret, f') := block_write_end pos len copied f in
      Some (ret, f', m, [])
    else
      let (ret, f') := __iomap_write_end i pos len copied f in
      Some (ret, f', m, [])
  in
  match written with
  | None => None
  | Some (ret, f1, m1, ev1) =>
    let grow := u64 old_size <? u64 (pos + ret) in
    let i' := if grow then mk_inode (s64 (pos + ret)) (i_blkbits i) else i in
    let m2 :=
      if grow
      then iomap_with_flags m1 (Z.lor (flags m1) IOMAP_F_SIZE_CHANGED)
      else m1 in
    let f2 := unlock_folio f1 in
    let ev2 := if old_size <? pos then [EvIsizeExtended old_size pos]
               else [] in
    let ev3 := if page_done m then [EvPageDone pos ret] else [] in
    let ev4 := if ret <? len then iomap_write_failed i' pos (u32 len)
               else [] in
    Some (ret, i', f2, m2, ev1 ++ ev2 ++ ev3 ++ [EvPutFolio] ++ ev4)
  end.

(** ** Writeback completion and ioend merging *)

Definition iomap_finish_folio_write
    (f : folio) (len : Z) (error : Z) : folio * list event :=
  let f1 := if negb (error =? 0) then SetFolioError f else f in
  let ev := if negb (error =? 0) then [EvMappingSetError (- EIO)] else [] in
  match to_iomap_page f1 with
  | None => (end_folio_writeback f1, ev)
  | Some iop =>
    let (v, zero) := atomic_sub_and_test len (write_bytes_pending iop) in
    let f2 := folio_with_private f1 (Some (iop_with_write_pending iop v)) in
    (if zero then end_folio_writeback f2 else f2, ev)
  end.

Definition iomap_ioend_can_merge (ioend next : iomap_ioend) : bool :=
  if negb (io_status ioend =? io_status next) then false
  else if negb (Z.lxor (Z.land (io_flags ioend) IOMAP_F_SHARED)
                       (Z.land (io_flags next) IOMAP_F_SHARED) =? 0)
  then false
  else if xorb (iomap_type_eqb (io_type ioend) IOMAP_UNWRITTEN)
               (iomap_type_eqb (io_type next) IOMAP_UNWRITTEN)
  then false
  else if negb (u64 (io_offset ioend + io_size ioend)
                =? u64 (io_offset next))
  then false
  else true.

(** The [while] loop of [iomap_ioend_try_merge]: [chain] is the list
    hanging off [ioend->io_list], [more_ioends] the caller's list.  The
    optional [merge_private] hook is given both ioends; it is represented by
    the private annotation it leaves on the first. *)
Fixpoint ioend_merge_loop
    (merge_private : option (iomap_ioend -> iomap_ioend -> option Z))
    (ioend : iomap_ioend) (chain more_ioends : list iomap_ioend)
  : iomap_ioend * list iomap_ioend * list iomap_ioend :=
  match more_ioends with
  | [] => (ioend, chain, [])
  | next :: rest =>
    if negb (iomap_ioend_can_merge ioend next)
    then (ioend, chain, more_ioends)
    else
      let grown := ioend_with_size ioend (u64 (io_size ioend + io_size next)) in
      let merged :=
        match io_private next, merge_private with
        | Some _, Some hook => ioend_with_private grown (hook grown next)
        | _, _ => grown
        end in
      ioend_merge_loop merge_private merged (chain ++ [next]) rest
  end.

Definition iomap_ioend_try_merge
    (ioend : iomap_ioend) (more_ioends : list iomap_ioend)
    (merge_private : option (iomap_ioend -> iomap_ioend -> option Z))
  : iomap_ioend * list iomap_ioend * list iomap_ioend :=
  ioend_merge_loop merge_private ioend [] more_ioends.

End Engine.

(** * Specification vocabulary *)

(** The invariant of the sub-block state record: the bitmap is full
    exactly when the folio's uptodate flag is set. *)
Definition uptodate_consistent (i : inode) (f : folio) : bool :=
  match to_iomap_page f with
  | Some iop =>
    Bool.eqb (bitmap_full (uptodate iop) (i_blocks_per_folio i f))
             (FolioUptodate f)
  | None => true
  end.

(** Every block touched by the bytes [off, off+len) is marked valid. *)
Definition range_valid (i : inode) (map : Z) (off len : Z) : Prop :=
  forall b : Z,
    Z.shiftr off (i_blkbits i) <= b <= Z.shiftr (off + len - 1) (i_blkbits i) ->
    test_bit b map = true.

Section EngineSteps.

Variable IOMAP_F_NEW : Z.
Variable IOMAP_F_BUFFER_HEAD : Z.
Variable IOMAP_F_SIZE_CHANGED : Z.
Variable submit_bio_wait : Z -> Z -> Z -> Z * list byte.
Variable block_write_end : Z -> Z -> Z -> folio -> Z * folio.

(** The operations of the engine that touch the bitmap or the uptodate
    flag of a folio, as one step function over inode and folio. *)
Inductive engine_op : Type :=
  | IopMarkValid (off len : Z)
  | MarkValid (off len : Z)
  | ReadCompletion (off len error : Z)
  | WriteBegin (pos len flags : Z) (srcmap : iomap)
  | WriteEnd (pos len copied : Z) (m srcmap : iomap)
  | WritebackCompletion (len error : Z).

Definition engine_step (i : inode) (f : folio) (op : engine_op)
  : option (inode * folio) :=
  match op with
  | IopMarkValid off len =>
    match to_iomap_page f with
    | Some iop => Some (i, iomap_iop_set_range_uptodate i f iop off len)
    | None => None
    end
  | MarkValid off len => Some (i, iomap_set_range_uptodate i f off len)
  | ReadCompletion off len error =>
    Some (i, iomap_finish_folio_read i f off len error)
  | WriteBegin pos len flags srcmap =>
    match __iomap_write_begin IOMAP_F_NEW submit_bio_wait
                              i pos len flags f srcmap with
    | Some (_, f') => Some (i, f')
    | None => None
    end
  | WriteEnd pos len copied m srcmap =>
    match iomap_write_end IOMAP_F_BUFFER_HEAD IOMAP_F_SIZE_CHANGED
                          block_write_end i pos len copied f m srcmap with
    | Some (_, i', f', _, _) => Some (i', f')
    | None => None
    end
  | WritebackCompletion len error =>
    Some (i, fst (iomap_finish_folio_write f len error))
  end.


End EngineSteps.


(** A non-empty byte range lying inside the folio. *)
Definition in_folio_range (f : folio) (r : Z * Z) : Prop :=
  0 <= fst r /\ 0 < snd r /\ fst r + snd r <= folio_size f.


(** Block size and folio order the engine is built for: block size between
    one byte and [2^31], folios of at most [2^19] pages. *)
Definition geometry_ok (i : inode) (f : folio) : Prop :=
  0 <= i_blkbits i <= 31 /\ 0 <= order f <= 19.

(** The bits [iomap_iop_set_range_uptodate] ors into the bitmap for a
    byte range, and the folio it leaves once the bitmap is [map]. *)
Definition range_bits (i : inode) (r : Z * Z) : Z :=
  let first := u32 (Z.shiftr (fst r) (i_blkbits i)) in
  let last := u32 (Z.shiftr (u64 (fst r + snd r - 1)) (i_blkbits i)) in
  Z.shiftl (Z.ones (u32 (last - first + 1))) first.

Definition folio_marked (i : inode) (f : folio) (iop : iomap_page) (map : Z)
  : folio :=
  let f' := folio_with_private f (Some (iop_with_uptodate iop map)) in
  if bitmap_full map (i_blocks_per_folio i f) then SetFolioUptodate f'
  else f'.

(** A file position or byte count that is a whole number of blocks. *)
Definition block_aligned (i : inode) (x : Z) : Prop :=
  x mod 2 ^ i_blkbits i = 0.

(** Blocks that subdivide the folio: the block size is at most the folio
    size, folios have at most [2^19] pages. *)
Definition blocks_in_folio (i : inode) (f : folio) : Prop :=
  0 <= order f <= 19 /\ 0 <= i_blkbits i <= 12 + order f.

(** The request [pos, pos+length) starts at or before end-of-file and
    extends past it. *)
Definition straddles_eof (i : inode) (pos length : Z) : Prop :=
  pos <= i_size i < pos + length.

(** Index, inside the folio, of the block holding the last byte of the
    file, as [iomap_adjust_read_range] computes it. *)
Definition eof_block (i : inode) (f : folio) : Z :=
  Z.shiftr (offset_in_folio f (i_size i - 1)) (i_blkbits i).

(** An ioend covers a byte range of a file: offset and size are not
    negative and the range ends below the largest file offset. *)
Definition ioend_in_file (e : iomap_ioend) : Prop :=
  0 <= io_offset e /\ 0 <= io_size e /\ io_offset e + io_size e < 2 ^ 63.

Definition same_shared_state (IOMAP_F_SHARED : Z) (a b : iomap_ioend) : Prop :=
  Z.land (io_flags a) IOMAP_F_SHARED = Z.land (io_flags b) IOMAP_F_SHARED.

Definition same_unwritten_state (a b : iomap_ioend) : Prop :=
  iomap_type_eqb (io_type a) IOMAP_UNWRITTEN
  = iomap_type_eqb (io_type b) IOMAP_UNWRITTEN.

(** The read-pending byte count of a folio (zero without a record). *)
Definition read_pending (f : folio) : Z :=
  match to_iomap_page f with
  | Some iop => read_bytes_pending iop
  | None => 0
  end.

(** Between two read contexts no read request was created, extended or
    submitted, and the folio's read-pending count did not move. *)
Definition no_read_issued (c c' : iomap_readpage_ctx) : Prop :=
  ctx_bio c' = ctx_bio c
  /\ submitted c' = submitted c
  /\ cur_folio_in_bio c' = cur_folio_in_bio c
  /\ read_pending (cur_folio c') = read_pending (cur_folio c).

(** The bytes [off, off+len) of the folio are all zero. *)
Definition zero_filled (f : folio) (off len : Z) : Prop :=
  forall k, off <= k < off + len ->
            nth_error (data f) (Z.to_nat k) = Some x00.

(** The blocks of [off, off+len) are valid: marked in the bitmap when the
    folio has a record, else the folio is uptodate. *)
Definition folio_range_valid (i : inode) (f : folio) (off len : Z) : Prop :=
  match to_iomap_page f with
  | Some iop => range_valid i (uptodate iop) off len
  | None => FolioUptodate f = true
  end.

(** * Further parts of the engine *)

(** ** Releasing the sub-block state record *)

(** [attach_page_private] and [detach_page_private] of linux/pagemap.h;
    the reference count they move is not represented. *)
Definition attach_page_private (f : folio) (d : iomap_page) : folio :=
  folio_with_private f (Some d).

Definition detach_page_private (f : folio) : option iomap_page * folio :=
  match private f with
  | None => (None, f)
  | Some d => (Some d, folio_with_private f None)
  end.

(** The [WARN_ON_ONCE] sites of the release path, by the condition that
    trips them. *)
Inductive warning : Type :=
  | WarnReadPending
  | WarnWritePending
  | WarnUptodateMismatch
  | WarnWriteback.

Definition WARN_ON_ONCE (cond : bool) (w : warning) : list warning :=
  if cond then [w] else [].

(** [iomap_page_release]: the folio without its record, and the warnings
    raised on the way. *)
Definition iomap_page_release (i : inode) (f : folio)
  : folio * list warning :=
  let (iop, f') := detach_page_private f in
  let nr_blocks := i_blocks_per_folio i f' in
  match iop with
  | None => (f', [])
  | Some p =>
    (f',
     WARN_ON_ONCE (negb (read_bytes_pending p =? 0)) WarnReadPending
     ++ WARN_ON_ONCE (negb (write_bytes_pending p =? 0)) WarnWritePending
     ++ WARN_ON_ONCE (negb (Bool.eqb (bitmap_full (uptodate p) nr_blocks)
                                     (FolioUptodate f')))
                     WarnUptodateMismatch)
  end.

(** [iomap_releasepage]: the value returned, the folio and the warnings. *)
Definition iomap_releasepage (i : inode) (f : folio)
  : Z * folio * list warning :=
  if PG_dirty f || PG_writeback f then (0, f, [])
  else
    let (f', w) := iomap_page_release i f in
    (1, f', w).

(** [cancel_dirty_page] of the Cache Page Store clears the dirty flag. *)
Definition cancel_dirty_page (f : folio) : folio :=
  mk_folio (index f) (order f) (PG_locked f) false (PG_writeback f)
           (PG_error f) (PG_uptodate f) (private f) (data f).

(** [iomap_invalidatepage]; [offset] and [len] are [unsigned int]. *)
Definition iomap_invalidatepage (i : inode) (f : folio) (offset len : Z)
  : folio * list warning :=
  if (offset =? 0) && (len =? PAGE_SIZE) then
    let w := WARN_ON_ONCE (PG_writeback f) WarnWriteback in
    let (f', w') := iomap_page_release i (cancel_dirty_page f) in
    (f', w ++ w')
  else (f, []).

(** ** The page cache and completion of requests *)

(** The folios of a file, by index: the part of the Cache Page Store the
    completion handlers reach through the pages of a request. *)
Definition page_cache : Type := Z -> folio.

Definition pc_set (pc : page_cache) (k : Z) (f : folio) : page_cache :=
  fun j => if j =? k then f else pc j.

(** [iomap_read_end_io]: [bio_for_each_folio_all] visits the regions of
    the request in order; [error] is [blk_status_to_errno(bio->bi_status)]. *)
Definition iomap_read_end_io
    (i : inode) (pc : page_cache) (b : bio) (error : Z) : page_cache :=
  fold_left
    (fun pc bv =>
       pc_set pc (bv_page bv)
              (iomap_finish_folio_read i (pc (bv_page bv))
                                       (bv_offset bv) (bv_len bv) error))
    (bi_io_vec b) pc.

(** [iomap_finish_ioend]: the payload of the ioend is the chain of
    requests from [io_inline_bio] to [io_bio], walked in that order.
    [quiet] is the [BIO_QUIET] flag of the first request; the last
    component tells whether the error message is printed. *)
Definition finish_bio_write (error : Z)
    (st : page_cache * list event) (b : bio) : page_cache * list event :=
  fold_left
    (fun st bv =>
       let (f', ev) :=
         iomap_finish_folio_write (fst st (bv_page bv)) (bv_len bv) error in
       (pc_set (fst st) (bv_page bv) f', snd st ++ ev))
    (bi_io_vec b) st.

Definition iomap_finish_ioend
    (pc : page_cache) (bios : list bio) (quiet : bool) (error : Z)
  : page_cache * list event * bool :=
  (fold_left (finish_bio_write error) bios (pc, []),
   negb (error =? 0) && negb quiet).

(** [iomap_finish_ioends]: the ioend, then the ioends merged into it, each
    given by its payload and [BIO_QUIET] flag. *)
Definition iomap_finish_ioends
    (pc : page_cache) (ioends : list (list bio * bool)) (error : Z)
  : page_cache * list event :=
  fold_left
    (fun st e =>
       let '(pc', ev, _) := iomap_finish_ioend (fst st) (fst e) (snd e) error in
       (pc', snd st ++ ev))
    ioends (pc, []).

(** ** Specification vocabulary of the completion handlers *)

(** Bytes of a list of regions, and of the regions of a request that lie
    in the folio of index [k]. *)
Definition seg_bytes (segs : list bio_vec) : Z :=
  fold_right (fun bv acc => bv_len bv + acc) 0 segs.

Definition segs_in (k : Z) (segs : list bio_vec) : list bio_vec :=
  filter (fun bv => bv_page bv =? k) segs.

Definition bio_bytes_in (k : Z) (b : bio) : Z :=
  seg_bytes (segs_in k (bi_io_vec b)).

(** All the regions of the payload of an ioend, in completion order. *)
Definition payload_segs (bios : list bio) : list bio_vec :=
  flat_map bi_io_vec bios.

Definition write_pending (f : folio) : Z :=
  match to_iomap_page f with
  | Some iop => write_bytes_pending iop
  | None => 0
  end.

(** The folio may be released without a warning. *)
Definition release_clean (i : inode) (f : folio) : Prop :=
  read_pending f = 0 /\ write_pending f = 0
  /\ uptodate_consistent i f = true.

(** The regions of a list of ioends, in completion order, and the bytes of
    them that lie in the folio of index [k]. *)
Definition ioends_segs (ioends : list (list bio * bool)) : list bio_vec :=
  flat_map (fun e => payload_segs (fst e)) ioends.

Definition ioends_bytes_in (k : Z) (ioends : list (list bio * bool)) : Z :=
  seg_bytes (segs_in k (ioends_segs ioends)).

(** The calls to [mapping_set_error] a completion with status [error]
    makes for the given regions. *)
Definition write_events (error : Z) (segs : list bio_vec) : list event :=
  flat_map (fun _ => if negb (error =? 0) then [EvMappingSetError (- EIO)]
                     else [])
           segs.

(** ** Helpers of linux/pagemap.h *)

(** Modelled from the spec: [folio_nr_pages] is declared in a header that
    is not among the sources; a folio of order [n] is [2^n] pages. *)
Definition folio_nr_pages (f : folio) : Z := Z.shiftl 1 (order f).

(** [folio_index]: [swap_index] is the value of [__page_file_index] when
    the folio is in the swap cache ([FolioSwapCache]), and [None] for a
    folio of a file. *)
Definition folio_index (swap_index : option Z) (f : folio) : Z :=
  match swap_index with
  | Some k => k
  | None => index f
  end.

Definition folio_next_index (f : folio) : Z :=
  u64 (index f + folio_nr_pages f).

(** [folio_contains]; [huge] is [PageHuge]. *)
Definition folio_contains (huge : bool) (swap_index : option Z)
    (f : folio) (idx : Z) : bool :=
  if huge then index f =? idx
  else u64 (idx - folio_index swap_index f) <? folio_nr_pages f.

Definition EFAULT : Z := 14.

(** [folio_mkwrite_check_truncate]; [mapping] tells whether
    [folio->page.mapping] is set. *)
Definition folio_mkwrite_check_truncate
    (mapping : bool) (swap_index : option Z) (f : folio) (i : inode) : Z :=
  let size := i_size_read i in
  let end_index := u64 (Z.shiftr size PAGE_SHIFT) in
  let index := folio_index swap_index f in
  let offset := offset_in_folio f size in
  if negb mapping then - EFAULT
  else if u64 (index + folio_nr_pages f - 1) <? end_index
  then s64 (folio_size f)
  else if (end_index <? index) || (offset =? 0) then - EFAULT
  else s64 offset.

(** [struct readahead_control]: the fields the accessors use. *)
Record readahead_control : Type := mk_rac {
  _index : Z;
  _nr_pages : Z;
  _batch_count : Z
}.

(** [readahead_folio]: the folio handed out, if any, and the control
    block it leaves; [None] when the [BUG_ON] fires.  [xa_load] reads the
    page cache at [_index]. *)
Definition readahead_folio (pc : page_cache) (r : readahead_control)
  : option (option folio * readahead_control) :=
  if _nr_pages r <? _batch_count r then None
  else
    let nr := u32 (_nr_pages r - _batch_count r) in
    let idx := u64 (_index r + _batch_count r) in
    if nr =? 0 then Some (None, mk_rac idx nr 0)
    else
      let f := pc idx in
      Some (Some f, mk_rac idx nr (u32 (folio_nr_pages f))).

Definition readahead_pos (r : readahead_control) : Z :=
  s64 (_index r * PAGE_SIZE).

Definition readahead_length (r : readahead_control) : Z :=
  s64 (_nr_pages r * PAGE_SIZE).

Definition readahead_index (r : readahead_control) : Z := _index r.

Definition readahead_count (r : readahead_control) : Z := _nr_pages r.

Definition readahead_batch_length (r : readahead_control) : Z :=
  s64 (u64 (_batch_count r * PAGE_SIZE)).

(** [dir_pages]. *)
Definition dir_pages (i : inode) : Z :=
  Z.shiftr (u64 (i_size i + PAGE_SIZE - 1)) PAGE_SHIFT.

(** A caller that takes folios from [readahead_folio] until it returns
    NULL: the folios, in the order handed out, and the control block
    left. *)
Fixpoint readahead_folios (fuel : nat) (pc : page_cache)
    (r : readahead_control) : option (list folio * readahead_control) :=
  match readahead_folio pc r with
  | None => None
  | Some (None, r') => Some ([], r')
  | Some (Some f, r') =>
    match fuel with
    | O => None
    | S n =>
      match readahead_folios n pc r' with
      | Some (l, r'') => Some (f :: l, r'')
      | None => None
      end
    end
  end.

(** The folios [fs] lie one after the other in the page cache from index
    [idx] on. *)
Fixpoint window_tiled (pc : page_cache) (idx : Z) (fs : list folio) : Prop :=
  match fs with
  | [] => True
  | f :: rest =>
    pc idx = f /\ 0 <= order f
    /\ window_tiled pc (idx + folio_nr_pages f) rest
  end.

Definition window_pages (fs : list folio) : Z :=
  fold_right (fun f acc => folio_nr_pages f + acc) 0 fs.

(** ** Building ioends *)

(** [iomap_ioend_compare]. *)
Definition iomap_ioend_compare (ia ib : iomap_ioend) : Z :=
  if io_offset ia <? io_offset ib then -1
  else if io_offset ib <? io_offset ia then 1
  else 0.

(** An ioend with its payload: the requests of the chain that were
    submitted when they filled up, oldest first, and [io_bio], the request
    still being filled. *)
Record ioend_state : Type := mk_ioend_state {
  ioend : iomap_ioend;
  io_chain : list bio;
  io_bio : bio
}.

(** [struct iomap_writepage_ctx]: the cached extent and the cached ioend. *)
Record iomap_writepage_ctx : Type := mk_wpc {
  wpc_iomap : iomap;
  wpc_ioend : option ioend_state
}.

Section Writeback.

Variable IOMAP_F_SHARED : Z.
Variable BIO_MAX_PAGES : Z.

Definition iomap_alloc_ioend (m : iomap) (offset sector : Z) : ioend_state :=
  mk_ioend_state
    (mk_ioend (type m) (flags m) 0 offset None 0)
    []
    (mk_bio (bdev m) sector 0 BIO_MAX_PAGES false []).

(** [iomap_chain_bio]: the new request; the caller records the submission
    of [prev]. *)
Definition iomap_chain_bio (prev : bio) : bio :=
  mk_bio (bi_bdev prev) (bio_end_sector prev) 0 BIO_MAX_PAGES
         (bi_rahead prev) [].

Definition iomap_can_add_to_ioend
    (m : iomap) (e : ioend_state) (offset sector : Z) : bool :=
  if negb (Z.land (flags m) IOMAP_F_SHARED
           =? Z.land (io_flags (ioend e)) IOMAP_F_SHARED) then false
  else if negb (iomap_type_eqb (type m) (io_type (ioend e))) then false
  else if negb (u64 offset
                =? u64 (io_offset (ioend e) + io_size (ioend e))) then false
  else if negb (sector =? bio_end_sector (io_bio e)) then false
  else true.

(** The second half of [iomap_add_to_ioend]: the block goes into the
    payload of [wpc->ioend], merged into the last region, or appended to
    the open request, or appended to a new request chained after it when
    it is full; then [io_size] grows by the block. *)
Definition ioend_add_block (e : ioend_state) (page len poff : Z)
  : ioend_state :=
  let e1 :=
    match __bio_try_merge_page (io_bio e) page len poff with
    | Some b' => mk_ioend_state (ioend e) (io_chain e) b'
    | None =>
      let e0 :=
        if bio_full (io_bio e) len
        then mk_ioend_state (ioend e) (io_chain e ++ [io_bio e])
                            (iomap_chain_bio (io_bio e))
        else e in
      mk_ioend_state (ioend e0) (io_chain e0)
                     (bio_add_page (io_bio e0) page len poff)
    end in
  mk_ioend_state
    (ioend_with_size (ioend e1) (u64 (io_size (ioend e1) + len)))
    (io_chain e1) (io_bio e1).

(** [iomap_add_to_ioend] for one block of the page [f] at file position
    [offset]: the folio, the writepage context and the caller's list of
    ioends to submit, as they are left. *)
Definition iomap_add_to_ioend
    (i : inode) (offset : Z) (f : folio) (wpc : iomap_writepage_ctx)
    (iolist : list ioend_state)
  : folio * iomap_writepage_ctx * list ioend_state :=
  let sector := iomap_sector (wpc_iomap wpc) offset in
  let len := i_blocksize i in
  let poff := u32 (Z.land offset (PAGE_SIZE - 1)) in
  let '(e, iolist') :=
    match wpc_ioend wpc with
    | Some e =>
      if iomap_can_add_to_ioend (wpc_iomap wpc) e offset sector
      then (e, iolist)
      else (iomap_alloc_ioend (wpc_iomap wpc) offset sector, e :: iolist)
    | None => (iomap_alloc_ioend (wpc_iomap wpc) offset sector, iolist)
    end in
  let f' :=
    match to_iomap_page f with
    | Some iop =>
      folio_with_private f
        (Some (iop_with_write_pending iop
                 (s32 (write_bytes_pending iop + len))))
    | None => f
    end in
  (f', mk_wpc (wpc_iomap wpc) (Some (ioend_add_block e (index f) len poff)),
   iolist').

End Writeback.

(** Bytes queued in a list of requests, and in the payload of an ioend. *)
Definition bios_size (l : list bio) : Z :=
  fold_right (fun b acc => bi_size b + acc) 0 l.

Definition payload_bytes (e : ioend_state) : Z :=
  bios_size (io_chain e ++ [io_bio e]).

(** The bytes a region of [len] bytes of page [page] adds for page [k]. *)
Definition bytes_for (k page len : Z) : Z := if page =? k then len else 0.

(** The byte counts of the payload agree with the ioend: every request
    carries the bytes of its regions, and [io_size] is their total. *)
Definition bio_sized (b : bio) : Prop :=
  bi_size b = seg_bytes (bi_io_vec b).

Definition ioend_sized (e : ioend_state) : Prop :=
  Forall bio_sized (io_chain e ++ [io_bio e])
  /\ io_size (ioend e) = payload_bytes e.

(** Sum of the sizes of a list of ioends. *)
Definition ioends_size (l : list iomap_ioend) : Z :=
  fold_right (fun e acc => io_size e + acc) 0 l.

(** Bytes of the page of index [k] queued in the payload of an ioend, and
    in the ioends a writeback pass holds: the cached one and those on its
    submit list. *)
Definition ioend_bytes_in (k : Z) (e : ioend_state) : Z :=
  seg_bytes (segs_in k (payload_segs (io_chain e ++ [io_bio e]))).

Definition held_ioends (wpc : iomap_writepage_ctx)
    (iolist : list ioend_state) : list ioend_state :=
  match wpc_ioend wpc with
  | Some e => e :: iolist
  | None => iolist
  end.

Definition queued_bytes_in (k : Z) (wpc : iomap_writepage_ctx)
    (iolist : list ioend_state) : Z :=
  fold_right (fun e acc => ioend_bytes_in k e + acc) 0
             (held_ioends wpc iolist).

(** ** Vocabulary: what an operation keeps *)

(** Every block marked valid in [f] is still marked valid in [f']; a
    folio that has a record keeps one. *)
Definition bits_kept (f f' : folio) : Prop :=
  forall p, to_iomap_page f = Some p ->
    exists p', to_iomap_page f' = Some p'
               /\ forall b, test_bit b (uptodate p) = true ->
                            test_bit b (uptodate p') = true.

(** The operation stays inside the engine: a write is not completed
    through the buffer-head path. *)
Definition native_op (IOMAP_F_BUFFER_HEAD : Z) (op : engine_op) : bool :=
  match op with
  | WriteEnd _ _ _ _ srcmap =>
    iomap_type_eqb (type srcmap) IOMAP_INLINE
    || (Z.land (flags srcmap) IOMAP_F_BUFFER_HEAD =? 0)
  | _ => true
  end.

(** ** Writing a page back *)

(** [enum mapping_flags] and the errno value of [ENOSPC]. *)
Definition AS_EIO : Z := 0.
Definition AS_ENOSPC : Z := 1.
Definition ENOSPC : Z := 28.

(** [struct address_space]: the flag word, the errors handed to
    [__filemap_set_wb_err], oldest first, and the folios of the file
    ([i_pages]), which the completion handlers reach through the pages of
    a request.  The copy of the error kept in the superblock is not
    represented. *)
Record address_space : Type := mk_mapping {
  as_flags : Z;
  as_wb_err : list Z;
  i_pages : page_cache
}.

Definition mapping_with_pages (m : address_space) (pc : page_cache)
  : address_space :=
  mk_mapping (as_flags m) (as_wb_err m) pc.

(** The page a writeback call works on is a folio of the file, held by
    the call: [mapping_with_folio] puts it at its index in the cache, which
    the call does before a completion handler can run. *)
Definition mapping_with_folio (m : address_space) (f : folio)
  : address_space :=
  mapping_with_pages m (pc_set (i_pages m) (index f) f).

Definition set_bit (nr : Z) (map : Z) : Z := Z.lor map (Z.shiftl 1 nr).

(** [mapping_set_error] of linux/pagemap.h. *)
Definition mapping_set_error (m : address_space) (error : Z)
  : address_space :=
  if error =? 0 then m
  else
    mk_mapping
      (set_bit (if error =? - ENOSPC then AS_ENOSPC else AS_EIO) (as_flags m))
      (as_wb_err m ++ [error]) (i_pages m).

(** The [mapping_set_error] calls among the outside calls of a completion
    handler, made on the mapping of the file in the order of the calls
    ([inode->i_mapping] is the mapping the pages of the file belong to). *)
Definition mapping_set_errors (m : address_space) (ev : list event)
  : address_space :=
  fold_left
    (fun m e =>
       match e with
       | EvMappingSetError err => mapping_set_error m err
       | _ => m
       end)
    ev m.

(** What a writeback pass does with its ioends and asks of the
    filesystem, in order: an ioend whose open request is submitted
    ([submit_bio]), an ioend whose open request is ended with an error
    instead ([bio_endio] after [bi_status] is set: the ioend is completed
    on the spot and never reaches the I/O Submission Layer), and a call of
    the [discard_page] hook. *)
Inductive wb_event : Type :=
  | WbSubmit (e : ioend_state)
  | WbFail (e : ioend_state) (error : Z)
  | WbDiscardPage (file_offset : Z).

(** The ioend an event hands to the I/O Submission Layer, and the ioend
    it fails. *)
Definition wb_event_ioend (ev : wb_event) : list ioend_state :=
  match ev with
  | WbSubmit e => [e]
  | WbFail _ _ => []
  | WbDiscardPage _ => []
  end.

Definition wb_event_failed (ev : wb_event) : list ioend_state :=
  match ev with
  | WbFail e _ => [e]
  | _ => []
  end.

(** The payload of an ioend as the completion handler walks it; the
    [BIO_QUIET] flag is not set by the write path. *)
Definition ioend_payload (e : ioend_state) : list bio * bool :=
  (io_chain e ++ [io_bio e], false).

(** The Cache Page Store's "mark under writeback" and "redirty". *)
Definition set_page_writeback (f : folio) : folio :=
  mk_folio (index f) (order f) (PG_locked f) (PG_dirty f) true
           (PG_error f) (PG_uptodate f) (private f) (data f).

Definition redirty_page_for_writepage (f : folio) : folio :=
  iomap_set_page_dirty f.

Section Writepage.

Variable IOMAP_F_SHARED : Z.
Variable BIO_MAX_PAGES : Z.

(** The filesystem's writeback operations: [map_blocks] is given the
    writepage context and a file offset and returns its status with the
    extent it leaves in [wpc->iomap]; [prepare_ioend] and [discard_page]
    are optional. *)
Variable map_blocks : iomap_writepage_ctx -> Z -> Z * iomap.
Variable prepare_ioend : option (ioend_state -> Z -> Z).
Variable discard_page : bool.

(** [iomap_submit_ioend]: the value returned, the mapping and what
    becomes of the ioend.  When the submission fails, [bio_endio] on the
    open request runs the completion handler at once, as the source says:
    [iomap_writepage_end_bio] calls [iomap_finish_ioend] on the ioend, which
    ends the writeback of the regions of its payload in the folios of the
    file and calls [mapping_set_error] on the mapping.  The handler is
    given [blk_status_to_errno] of [errno_to_blk_status] of the error; it
    only tests its argument against zero, and the status of a non-zero
    error is not zero. *)
Definition iomap_submit_ioend
    (mapping : address_space) (e : ioend_state) (error : Z)
  : Z * address_space * list wb_event :=
  let error :=
    match prepare_ioend with
    | Some hook => s32 (hook e error)
    | None => error
    end in
  if negb (error =? 0) then
    let (bios, quiet) := ioend_payload e in
    let '(pc, ev, _) := iomap_finish_ioend (i_pages mapping) bios quiet error in
    (error, mapping_set_errors (mapping_with_pages mapping pc) ev,
     [WbFail e error])
  else (0, mapping, [WbSubmit e]).

(** The walk of [iomap_writepage_map] over the blocks of the page:
    [n] blocks are left to look at, [blk] is the loop counter [i].
    Returns [error], [file_offset], the folio, the writepage context, the
    submit list and [count]. *)
Fixpoint writepage_map_loop
    (n : nat) (i : inode) (blk file_offset end_offset : Z) (f : folio)
    (wpc : iomap_writepage_ctx) (submit_list : list ioend_state) (count : Z)
  : Z * Z * folio * iomap_writepage_ctx * list ioend_state * Z :=
  match n with
  | O => (0, file_offset, f, wpc, submit_list, count)
  | S n' =>
    if file_offset <? end_offset then
      let next := u64 (file_offset + i_blocksize i) in
      let skip :=
        match to_iomap_page f with
        | Some iop => negb (test_bit blk (uptodate iop))
        | None => false
        end in
      if skip
      then writepage_map_loop n' i (blk + 1) next end_offset f wpc
                              submit_list count
      else
        let (error, m) := map_blocks wpc file_offset in
        let wpc1 := mk_wpc m (wpc_ioend wpc) in
        if negb (error =? 0)
        then (error, file_offset, f, wpc1, submit_list, count)
        else if iomap_type_eqb (type m) IOMAP_INLINE
        then writepage_map_loop n' i (blk + 1) next end_offset f wpc1
                                submit_list count
        else if iomap_type_eqb (type m) IOMAP_HOLE
        then writepage_map_loop n' i (blk + 1) next end_offset f wpc1
                                submit_list count
        else
          let '(f', wpc2, submit_list') :=
            iomap_add_to_ioend IOMAP_F_SHARED BIO_MAX_PAGES i file_offset f
                               wpc1 submit_list in
          writepage_map_loop n' i (blk + 1) next end_offset f' wpc2
                             submit_list' (s32 (count + 1))
    else (0, file_offset, f, wpc, submit_list, count)
  end.

(** The submission of the ioends on the submit list, first entry
    first: the error carried on, the mapping and the events. *)
Fixpoint submit_ioends
    (mapping : address_space) (l : list ioend_state) (error : Z)
  : Z * address_space * list wb_event :=
  match l with
  | [] => (error, mapping, [])
  | e :: rest =>
    let '(error2, mapping1, ev) := iomap_submit_ioend mapping e error in
    let error' :=
      if negb (error2 =? 0) && (error =? 0) then error2 else error in
    let '(err, mapping2, evs) := submit_ioends mapping1 rest error' in
    (err, mapping2, ev ++ evs)
  end.

(** [iomap_writepage_map]: the value returned, the folio, the writepage
    context and the mapping it leaves, and the events.  The page is a
    folio of the file: it is put at its index in the cache of the mapping
    before the ioends are submitted, where the completion of a failed
    ioend finds it, and looked at again afterwards. *)
Definition iomap_writepage_map
    (wpc : iomap_writepage_ctx) (mapping : address_space) (i : inode)
    (f : folio) (end_offset : Z)
  : Z * folio * iomap_writepage_ctx * address_space * list wb_event :=
  let '(error, file_offset, f1, wpc1, submit_list, count) :=
    writepage_map_loop (Z.to_nat (Z.shiftr PAGE_SIZE (i_blkbits i))) i 0
                       (u64 (folio_offset f)) end_offset f wpc [] 0 in
  let ev1 :=
    if negb (error =? 0) && discard_page then [WbDiscardPage file_offset]
    else [] in
  if negb (error =? 0) && (count =? 0) then
    (error, unlock_folio (ClearFolioUptodate f1), wpc1,
     mapping_set_error mapping error, ev1)
  else
    let f2 := unlock_folio (set_page_writeback f1) in
    let '(error', mapping1, ev2) :=
      submit_ioends (mapping_with_folio mapping f2) submit_list error in
    let f3 := i_pages mapping1 (index f2) in
    let f4 := if count =? 0 then end_folio_writeback f3 else f3 in
    (error', f4, wpc1, mapping_set_error mapping1 error', ev1 ++ ev2).

(** [iomap_do_writepage]; [in_reclaim] tells whether one of the two
    checks of [current->flags] refuses the call. *)
Definition iomap_do_writepage
    (in_reclaim : bool) (wpc : iomap_writepage_ctx) (mapping : address_space)
    (i : inode) (f : folio)
  : Z * folio * iomap_writepage_ctx * address_space * list wb_event :=
  let redirty :=
    (0, unlock_folio (redirty_page_for_writepage f), wpc, mapping, []) in
  if in_reclaim then redirty
  else
    let offset := i_size_read i in
    let end_index := u64 (Z.shiftr offset PAGE_SHIFT) in
    if index f <? end_index then
      iomap_writepage_map wpc mapping i f
                          (u64 (s64 (Z.shiftl (s64 (u64 (index f + 1))) PAGE_SHIFT)))
    else
      let offset_into_page := u32 (Z.land offset (PAGE_SIZE - 1)) in
      if (end_index <? index f)
         || ((index f =? end_index) && (offset_into_page =? 0))
      then redirty
      else
        let f' :=
          folio_with_data f
            (zero_user_segment (data f) offset_into_page PAGE_SIZE) in
        iomap_writepage_map wpc mapping i f' (u64 offset).

(** [iomap_writepage]: the page is written, then the ioend left cached
    in the context, if any, is submitted; the page is in the cache of the
    mapping when that submission runs. *)
Definition iomap_writepage
    (in_reclaim : bool) (wpc : iomap_writepage_ctx) (mapping : address_space)
    (i : inode) (f : folio)
  : Z * folio * iomap_writepage_ctx * address_space * list wb_event :=
  let '(ret, f', wpc', mapping', ev) :=
    iomap_do_writepage in_reclaim wpc mapping i f in
  match wpc_ioend wpc' with
  | None => (ret, f', wpc', mapping', ev)
  | Some e =>
    let '(ret', mapping'', ev') :=
      iomap_submit_ioend (mapping_with_folio mapping' f') e ret in
    (ret', i_pages mapping'' (index f'), wpc', mapping'', ev ++ ev')
  end.

End Writepage.

(** The ioends handed to the I/O Submission Layer by a list of events,
    and the ioends whose submission failed. *)
Definition events_ioends (evs : list wb_event) : list ioend_state :=
  flat_map wb_event_ioend evs.

Definition events_failed (evs : list wb_event) : list ioend_state :=
  flat_map wb_event_failed evs.

(** Bytes of page [k] in a list of ioends. *)
Definition ioends_queued_in (k : Z) (l : list ioend_state) : Z :=
  fold_right (fun e acc => ioend_bytes_in k e + acc) 0 l.

(** Every region queued in the ioends has a positive length. *)
Definition ioends_positive (l : list ioend_state) : Prop :=
  Forall (fun e => Forall (fun bv => 0 < bv_len bv)
                          (payload_segs (io_chain e ++ [io_bio e]))) l.

(** What the completion, with an error, of the ioends [l] leaves of the
    folio of index [k]: the regions of their payloads that lie in it are
    completed in order. *)
Definition failed_in (k : Z) (l : list ioend_state) (f : folio) : folio :=
  fold_left (fun f bv => fst (iomap_finish_folio_write f (bv_len bv) (- EIO)))
            (segs_in k (ioends_segs (map ioend_payload l))) f.

(** [f'] is [f] up to the write-pending count of its record. *)
Definition same_but_write_pending (f f' : folio) : Prop :=
  index f' = index f /\ order f' = order f
  /\ PG_locked f' = PG_locked f /\ PG_dirty f' = PG_dirty f
  /\ PG_writeback f' = PG_writeback f /\ PG_error f' = PG_error f
  /\ PG_uptodate f' = PG_uptodate f /\ data f' = data f
  /\ option_map uptodate (private f') = option_map uptodate (private f)
  /\ read_pending f' = read_pending f.

(** The components of the result of the writepage functions. *)
Definition wb_ret
    (r : Z * folio * iomap_writepage_ctx * address_space * list wb_event)
  : Z := fst (fst (fst (fst r))).

Definition wb_folio
    (r : Z * folio * iomap_writepage_ctx * address_space * list wb_event)
  : folio := snd (fst (fst (fst r))).

Definition wb_wpc
    (r : Z * folio * iomap_writepage_ctx * address_space * list wb_event)
  : iomap_writepage_ctx := snd (fst (fst r)).

Definition wb_mapping
    (r : Z * folio * iomap_writepage_ctx * address_space * list wb_event)
  : address_space := snd (fst r).

Definition wb_events
    (r : Z * folio * iomap_writepage_ctx * address_space * list wb_event)
  : list wb_event := snd r.

(** ** Vocabulary of the write path *)

(** Block [b] of the folio is valid: marked in the bitmap, or the folio
    is uptodate when it has no record. *)
Definition block_valid (f : folio) (b : Z) : Prop :=
  match to_iomap_page f with
  | Some p => test_bit b (uptodate p) = true
  | None => FolioUptodate f = true
  end.

(** Block [b] holds one of the bytes [from, to) of the folio. *)
Definition block_written (i : inode) (from to b : Z) : Prop :=
  from / 2 ^ i_blkbits i <= b <= (to - 1) / 2 ^ i_blkbits i.

(** Block [b] lies wholly inside the bytes [from, to) of the folio. *)
Definition block_inside (i : inode) (from to b : Z) : Prop :=
  from <= b * 2 ^ i_blkbits i /\ (b + 1) * 2 ^ i_blkbits i <= to.

(** The blocks [lo, hi) are ready for a write of the bytes [from, to):
    valid, or wholly overwritten by a write that is not an unshare. *)
Definition blocks_ready (i : inode) (flags from to : Z) (f : folio)
    (lo hi : Z) : Prop :=
  forall b, lo <= b < hi ->
    block_valid f b
    \/ (Z.land flags IOMAP_WRITE_F_UNSHARE = 0 /\ block_inside i from to b).

(** ** Vocabulary of the read path *)

(** The read requests a read context has built: those already handed to
    [submit_bio], oldest first, then the one still open. *)
Definition ctx_bios (c : iomap_readpage_ctx) : list bio :=
  submitted c
  ++ match ctx_bio c with
     | Some b => [b]
     | None => []
     end.

(** Bytes of the folio of index [k] carried by the requests of a read
    context. *)
Definition ctx_bytes_in (k : Z) (c : iomap_readpage_ctx) : Z :=
  fold_right (fun b acc => bio_bytes_in k b + acc) 0 (ctx_bios c).

(** An extent iterator for a range that lies in the single extent [m]:
    the read actor is called once, on the whole range; an actor that does
    not return is reported as no progress. *)
Definition single_extent_apply
    (IOMAP_F_NEW BIO_MAX_PAGES : Z) (bio_alloc_succeeds : bool) (m : iomap)
    (i : inode) (pos length : Z) (c : iomap_readpage_ctx)
  : Z * iomap_readpage_ctx :=
  match iomap_readpage_actor IOMAP_F_NEW BIO_MAX_PAGES bio_alloc_succeeds
                             i pos length c m with
  | Some r => r
  | None => (0, c)
  end.

(** Every region of every request of the list carries at least one
    byte. *)
Definition bios_positive (bios : list bio) : Prop :=
  Forall (fun b => Forall (fun bv => 0 < bv_len bv) (bi_io_vec b)) bios.

(** ** Zeroing and the tail of a truncated block *)

Definition EINTR : Z := 4.
Definition ENOMEM : Z := 12.

(** Modelled from the spec: [offset_in_page] is declared in a header that
    is not among the sources; it is the position modulo the page size, as
    [offset_in_folio] is the position modulo the folio size. *)
Definition offset_in_page (p : Z) : Z := Z.land (u64 p) (PAGE_SIZE - 1).

(** What the zeroing functions work on: the inode, the page cache, the
    flag [did_zero] points to ([None] for a null pointer) and the outside
    calls made so far. *)
Record zero_state : Type := mk_zs {
  zs_inode : inode;
  zs_pc : page_cache;
  zs_did_zero : option bool;
  zs_events : list event
}.

(** The source extent of an actor: [None] when [srcmap] points to the same
    descriptor as [iomap]. *)
Definition srcmap_of (m : iomap) (src : option iomap) : iomap :=
  match src with
  | Some s => s
  | None => m
  end.

Section Zeroing.

Variable IOMAP_F_NEW : Z.
Variable IOMAP_F_BUFFER_HEAD : Z.
Variable IOMAP_F_SIZE_CHANGED : Z.
Variable submit_bio_wait : Z -> Z -> Z -> Z * list byte.
Variable block_write_end : Z -> Z -> Z -> folio -> Z * folio.

(** [__block_write_begin_int], of the buffer-head layer: status and the
    folio it leaves. *)
Variable __block_write_begin_int : Z -> Z -> folio -> iomap -> Z * folio.

Variable fatal_signal_pending : bool.

(** [page_ops->page_prepare], when the extent has one. *)
Variable page_prepare : option (Z -> Z -> iomap -> Z).

(** [filemap_get_stable_folio]: the locked folio that holds the page of
    the given index, or nothing when none can be had. *)
Variable filemap_get_stable_folio : page_cache -> Z -> option folio.

Variable IS_DAX : bool.
Variable dax_iomap_zero : Z -> Z -> iomap -> Z.

(** [iomap_write_begin]: the status, the page cache, the folio handed to
    the caller on success and the outside calls; [None] when a [BUG_ON]
    fires.  The second [BUG_ON] is written without its guard: for
    [srcmap == iomap] it repeats the first. *)
Definition iomap_write_begin
    (i : inode) (pc : page_cache) (pos len fl : Z) (m srcmap : iomap)
  : option (Z * page_cache * option folio * list event) :=
  if u64 (offset m + length m) <? u64 (pos + len) then None
  else if u64 (offset srcmap + length srcmap) <? u64 (pos + len) then None
  else if fatal_signal_pending then Some (- EINTR, pc, None, [])
  else
    let prepared :=
      match page_prepare with
      | Some prepare => s32 (prepare pos len m)
      | None => 0
      end in
    if negb (prepared =? 0) then Some (prepared, pc, None, [])
    else
      let done := if page_done m then [EvPageDone pos 0] else [] in
      match filemap_get_stable_folio pc (u64 (Z.shiftr pos PAGE_SHIFT)) with
      | None => Some (- ENOMEM, pc, None, done)
      | Some f =>
        let begun :=
          if iomap_type_eqb (type srcmap) IOMAP_INLINE then
            match iomap_read_inline_data i f srcmap with
            | Some f' => Some (0, f')
            | None => None
            end
          else if negb (Z.land (flags m) IOMAP_F_BUFFER_HEAD =? 0) then
            let (status, f') := __block_write_begin_int pos len f srcmap in
            Some (s32 status, f')
          else
            __iomap_write_begin IOMAP_F_NEW submit_bio_wait
                                i pos len fl f srcmap
        in
        match begun with
        | None => None
        | Some (status, f') =>
          if negb (status =? 0) then
            Some (status, pc_set pc (index f') (unlock_folio f'), None,
                  [EvPutFolio] ++ iomap_write_failed i pos len ++ done)
          else Some (0, pc, Some f', [])
        end
      end.

(** [iomap_zero]: the value returned, the inode, the page cache, the
    extent descriptor and the outside calls. *)
Definition iomap_zero
    (i : inode) (pc : page_cache) (pos length : Z) (m : iomap)
    (src : option iomap)
  : option (Z * inode * page_cache * iomap * list event) :=
  let offset := u32 (offset_in_page pos) in
  let bytes := u32 (Z.min (u64 (PAGE_SIZE - offset)) (u64 length)) in
  match iomap_write_begin i pc pos bytes 0 m (srcmap_of m src) with
  | None => None
  | Some (status, pc1, got, ev) =>
    if negb (status =? 0) then Some (status, i, pc1, m, ev)
    else
      match got with
      | None => None
      | Some f =>
        let zeroed := folio_with_data f (zero_user (data f) offset bytes) in
        match iomap_write_end IOMAP_F_BUFFER_HEAD IOMAP_F_SIZE_CHANGED
                              block_write_end i pos bytes bytes zeroed m
                              (srcmap_of m src) with
        | None => None
        | Some (ret, i', f', m', ev') =>
          Some (s64 ret, i', pc_set pc1 (index f') f', m', ev ++ ev')
        end
      end
  end.

(** The [do { ... } while (length > 0)] loop of [iomap_zero_range_actor];
    [None] stands for a [BUG_ON] or for a loop that has not ended when its
    fuel is spent. *)
Fixpoint zero_range_actor_loop
    (fuel : nat) (pos length written : Z) (st : zero_state) (m : iomap)
    (src : option iomap) : option (Z * zero_state * iomap) :=
  let zeroed :=
    if IS_DAX then
      Some (s64 (dax_iomap_zero pos length m), zs_inode st, zs_pc st, m, [])
    else iomap_zero (zs_inode st) (zs_pc st) pos length m src in
  match zeroed with
  | None => None
  | Some (bytes, i', pc', m', ev) =>
    if bytes <? 0 then
      Some (bytes, mk_zs i' pc' (zs_did_zero st) (zs_events st ++ ev), m')
    else
      let pos' := s64 (pos + bytes) in
      let length' := s64 (length - bytes) in
      let written' := s64 (written + bytes) in
      let did_zero :=
        match zs_did_zero st with
        | Some _ => Some true
        | None => None
        end in
      let st' := mk_zs i' pc' did_zero (zs_events st ++ ev) in
      if 0 <? length' then
        match fuel with
        | O => None
        | S n => zero_range_actor_loop n pos' length' written' st' m' src
        end
      else Some (written', st', m')
  end.

Definition iomap_zero_range_actor
    (pos length : Z) (st : zero_state) (m : iomap) (src : option iomap)
  : option (Z * zero_state * iomap) :=
  if iomap_type_eqb (type (srcmap_of m src)) IOMAP_HOLE
     || iomap_type_eqb (type (srcmap_of m src)) IOMAP_UNWRITTEN
  then Some (length, st, m)
  else zero_range_actor_loop (Z.to_nat length) pos length 0 st m src.

(** The extent iterator, which is not among the sources, called with
    [iomap_zero_range_actor]: the value returned and the state left. *)
Variable iomap_apply : Z -> Z -> zero_state -> Z * zero_state.

Fixpoint zero_range_loop
    (fuel : nat) (pos len : Z) (st : zero_state) : option (Z * zero_state) :=
  if 0 <? len then
    let (r, st1) := iomap_apply pos len st in
    let ret := s64 r in
    if ret <=? 0 then Some (s32 ret, st1)
    else
      match fuel with
      | O => None
      | S n => zero_range_loop n (s64 (pos + ret)) (s64 (len - ret)) st1
      end
  else Some (0, st).

(** [iomap_zero_range]: the value returned and the state left; [None]
    stands for a loop that has not ended when its fuel is spent. *)
Definition iomap_zero_range (pos len : Z) (st : zero_state)
  : option (Z * zero_state) :=
  zero_range_loop (Z.to_nat len) pos len st.

Definition iomap_truncate_page (pos : Z) (st : zero_state)
  : option (Z * zero_state) :=
  let blocksize := i_blocksize (zs_inode st) in
  let off := u32 (Z.land pos (u32 (blocksize - 1))) in
  if off =? 0 then Some (0, st)
  else iomap_zero_range pos (u32 (blocksize - off)) st.

End Zeroing.


(** An extent iterator for a range that lies in the single extent [m]:
    the zeroing actor is called once, on the whole range; an actor that
    does not return is reported as no progress. *)
Definition zero_extent_apply
    (IOMAP_F_NEW IOMAP_F_BUFFER_HEAD IOMAP_F_SIZE_CHANGED : Z)
    (submit_bio_wait : Z -> Z -> Z -> Z * list byte)
    (block_write_end : Z -> Z -> Z -> folio -> Z * folio)
    (__block_write_begin_int : Z -> Z -> folio -> iomap -> Z * folio)
    (fatal_signal_pending : bool)
    (page_prepare : option (Z -> Z -> iomap -> Z))
    (filemap_get_stable_folio : page_cache -> Z -> option folio)
    (IS_DAX : bool) (dax_iomap_zero : Z -> Z -> iomap -> Z)
    (m : iomap) (src : option iomap)
    (pos len : Z) (st : zero_state) : Z * zero_state :=
  match iomap_zero_range_actor
          IOMAP_F_NEW IOMAP_F_BUFFER_HEAD IOMAP_F_SIZE_CHANGED
          submit_bio_wait block_write_end __block_write_begin_int
          fatal_signal_pending page_prepare filemap_get_stable_folio
          IS_DAX dax_iomap_zero pos len st m src with
  | Some (r, st', _) => (r, st')
  | None => (0, st)
  end.

(** ** Readahead *)

(** The state of a readahead pass: the page cache, the readahead control
    block and the read context.  [ctx->cur_folio] points into the page
    cache: it is kept as the index of the folio it points to, [None] for a
    null pointer. *)
Record readahead_state : Type := mk_ra {
  ra_pc : page_cache;
  ra_rac : readahead_control;
  ra_cur : option Z;
  ra_in_bio : bool;
  ra_bio : option bio;
  ra_submitted : list bio
}.

(** The read context of a readahead pass whose current folio is the one
    of index [k]. *)
Definition ra_ctx (st : readahead_state) (k : Z) : iomap_readpage_ctx :=
  mk_ctx (ra_pc st k) (ra_in_bio st) (ra_bio st) true (ra_submitted st).

(** Dropping the folio the context points to: it is unlocked unless some
    of it went into a request. *)
Definition ra_drop_folio (st : readahead_state) (k : Z) : page_cache :=
  if ra_in_bio st then ra_pc st
  else pc_set (ra_pc st) k (unlock_folio (ra_pc st k)).

(** The first test of the loop of [iomap_readahead_actor]: the folio the
    context points to is dropped once the position [p] is at a multiple of
    its size. *)
Definition ra_leave_folio (p : Z) (st : readahead_state) : readahead_state :=
  match ra_cur st with
  | Some k =>
    if offset_in_folio (ra_pc st k) p =? 0 then
      mk_ra (ra_drop_folio st k) (ra_rac st) None (ra_in_bio st)
            (ra_bio st) (ra_submitted st)
    else st
  | None => st
  end.

(** The second test: a context without a folio takes the next one of the
    window; [None] when the [BUG_ON] of [readahead_folio] fires. *)
Definition ra_take_folio (st : readahead_state) : option readahead_state :=
  match ra_cur st with
  | Some _ => Some st
  | None =>
    match readahead_folio (ra_pc st) (ra_rac st) with
    | None => None
    | Some (got, r) =>
      Some (mk_ra (ra_pc st) r
                  (match got with
                   | Some _ => Some (_index r)
                   | None => None
                   end)
                  false (ra_bio st) (ra_submitted st))
    end
  end.

Section Readahead.

Variable IOMAP_F_NEW : Z.
Variable BIO_MAX_PAGES : Z.
Variable bio_alloc_succeeds : bool.

(** The [for (done = 0; done < length; done += ret)] loop of
    [iomap_readahead_actor]; [None] stands for a [BUG_ON], for the use of
    a null folio pointer, or for a loop that has not ended when its fuel
    is spent. *)
Fixpoint readahead_actor_loop
    (fuel : nat) (i : inode) (pos length done : Z) (st : readahead_state)
    (m : iomap) : option (Z * readahead_state) :=
  if done <? length then
    match ra_take_folio (ra_leave_folio (s64 (pos + done)) st) with
    | None => None
    | Some st2 =>
      match ra_cur st2 with
      | None => None
      | Some k =>
        match iomap_readpage_actor
                IOMAP_F_NEW BIO_MAX_PAGES bio_alloc_succeeds
                i (s64 (pos + done)) (s64 (length - done)) (ra_ctx st2 k) m
        with
        | None => None
        | Some (ret, c) =>
          let st3 :=
            mk_ra (pc_set (ra_pc st2) k (cur_folio c)) (ra_rac st2) (Some k)
                  (cur_folio_in_bio c) (ctx_bio c) (submitted c) in
          match fuel with
          | O => None
          | S n =>
            readahead_actor_loop n i pos length (s64 (done + ret)) st3 m
          end
        end
      end
    end
  else Some (done, st).

Definition iomap_readahead_actor
    (i : inode) (pos length : Z) (st : readahead_state) (m : iomap)
  : option (Z * readahead_state) :=
  readahead_actor_loop (Z.to_nat length) i pos length 0 st m.

(** The extent iterator, which is not among the sources, called with
    [iomap_readahead_actor]. *)
Variable iomap_apply :
  inode -> Z -> Z -> readahead_state -> Z * readahead_state.

(** The [while (length > 0)] loop of [iomap_readahead]: the state left
    and whether [WARN_ON_ONCE] fired. *)
Fixpoint readahead_loop
    (fuel : nat) (i : inode) (pos length : Z) (st : readahead_state)
  : option (readahead_state * bool) :=
  if 0 <? length then
    let (r, st1) := iomap_apply i pos length st in
    let ret := s64 r in
    if ret <=? 0 then Some (st1, ret =? 0)
    else
      match fuel with
      | O => None
      | S n => readahead_loop n i (s64 (pos + ret)) (s64 (length - ret)) st1
      end
  else Some (st, false).

(** [iomap_readahead]: the page cache and the control block it leaves, the
    requests handed to [submit_bio], oldest first, and whether
    [WARN_ON_ONCE] fired. *)
Definition iomap_readahead
    (i : inode) (pc : page_cache) (r : readahead_control)
  : option (page_cache * readahead_control * list bio * bool) :=
  let pos := readahead_pos r in
  let length := readahead_length r in
  match readahead_loop (Z.to_nat length) i pos length
                       (mk_ra pc r None false None []) with
  | None => None
  | Some (st, warned) =>
    let sub :=
      match ra_bio st with
      | Some b => ra_submitted st ++ [b]
      | None => ra_submitted st
      end in
    let pc' :=
      match ra_cur st with
      | Some k => ra_drop_folio st k
      | None => ra_pc st
      end in
    Some (pc', ra_rac st, sub, warned)
  end.

End Readahead.

(** An extent iterator for a readahead window that lies in the single
    extent [m]: the readahead actor is called once, on the whole range; an
    actor that does not return is reported as no progress. *)
Definition readahead_extent_apply
    (IOMAP_F_NEW BIO_MAX_PAGES : Z) (bio_alloc_succeeds : bool) (m : iomap)
    (i : inode) (pos length : Z) (st : readahead_state)
  : Z * readahead_state :=
  match iomap_readahead_actor IOMAP_F_NEW BIO_MAX_PAGES bio_alloc_succeeds
                              i pos length st m with
  | Some r => r
  | None => (0, st)
  end.

(** Bytes of the folio of index [k] carried by a list of requests. *)
Definition bios_bytes_in (k : Z) (bios : list bio) : Z :=
  fold_right (fun b acc => bio_bytes_in k b + acc) 0 bios.

(** The folios [fs] of a readahead window lie one after the other in the
    page cache from index [idx] on, each at a multiple of its size, each
    with more than one block and with room in its read-pending count for
    [room] more bytes. *)
Fixpoint readahead_window (i : inode) (room : Z) (pc : page_cache) (idx : Z)
    (fs : list folio) : Prop :=
  match fs with
  | [] => True
  | f :: rest =>
    pc idx = f /\ index f = idx /\ idx mod folio_nr_pages f = 0
    /\ blocks_in_folio i f /\ 1 < i_blocks_per_folio i f
    /\ 0 <= read_pending f
    /\ read_pending f + room + folio_size f < 2 ^ 31
    /\ readahead_window i room pc (idx + folio_nr_pages f) rest
  end.

(** The requests a readahead pass has built: those handed to
    [submit_bio], oldest first, then the one still open. *)
Definition ra_bios (st : readahead_state) : list bio :=
  ra_submitted st
  ++ match ra_bio st with
     | Some b => [b]
     | None => []
     end.

(** Bytes of the folio of index [k] in the requests a readahead pass has
    built. *)
Definition ra_bytes_in (k : Z) (st : readahead_state) : Z :=
  bios_bytes_in k (ra_bios st).

(** Completion of a list of read requests, in order, each with its own
    status. *)
Definition complete_reads (i : inode) (pc : page_cache)
    (done : list (bio * Z)) : page_cache :=
  fold_left (fun pc be => iomap_read_end_io i pc (fst be) (snd be)) done pc.

(** The index at which the next folio of the window is looked up. *)
Definition ra_next (st : readahead_state) : Z :=
  _index (ra_rac st) + _batch_count (ra_rac st).

(** The state of the loop of [iomap_readahead_actor] after [done] bytes,
    on a window [fs0] of the page cache [pc0]: [dropped] are the folios
    the context has left behind and [rest] those it has not taken yet. *)
Definition readahead_inv
    (i : inode) (pos length : Z) (pc0 : page_cache) (fs0 : list folio)
    (done : Z) (st : readahead_state) (dropped rest : list folio) : Prop :=
  (0 <= done <= length /\ block_aligned i done)
  /\ (0 <= _index (ra_rac st) /\ 0 <= _batch_count (ra_rac st)
      /\ _nr_pages (ra_rac st)
         = _batch_count (ra_rac st) + window_pages rest
      /\ _nr_pages (ra_rac st) < 2 ^ 32
      /\ _index (ra_rac st) + _nr_pages (ra_rac st) < 2 ^ 50)
  /\ readahead_window i length (ra_pc st) (ra_next st) rest
  /\ pos + length = (ra_next st + window_pages rest) * 4096
  /\ fs0 = dropped
           ++ match ra_cur st with
              | Some k => [pc0 k]
              | None => []
              end
           ++ rest
  /\ (forall k, read_pending (ra_pc st k)
                = read_pending (pc0 k) + ra_bytes_in k st)
  /\ (forall k, 0 <= ra_bytes_in k st <= done)
  /\ (forall f, In f dropped ->
        index f < match ra_cur st with
                  | Some k => k
                  | None => ra_next st
                  end
        /\ PG_locked (ra_pc st (index f))
           = PG_locked f && (0 <? ra_bytes_in (index f) st))
  /\ (forall k, ra_next st <= k -> ra_bytes_in k st = 0)
  /\ (forall k, ra_next st <= k -> ra_pc st k = pc0 k)
  /\ (forall k, k * 4096 < pos -> ra_pc st k = pc0 k)
  /\ bios_positive (ra_bios st)
  /\ match ra_cur st with
     | None => pos + done = ra_next st * 4096
     | Some k =>
       k = _index (ra_rac st)
       /\ index (ra_pc st k) = k /\ index (pc0 k) = k
       /\ order (ra_pc st k) = order (pc0 k)
       /\ folio_nr_pages (ra_pc st k) = _batch_count (ra_rac st)
       /\ k mod folio_nr_pages (ra_pc st k) = 0
       /\ blocks_in_folio i (ra_pc st k)
       /\ 1 < i_blocks_per_folio i (ra_pc st k)
       /\ k * 4096 <= pos + done <= ra_next st * 4096
       /\ 0 <= read_pending (pc0 k)
       /\ read_pending (pc0 k) + length + folio_size (ra_pc st k) < 2 ^ 31
       /\ PG_locked (ra_pc st k) = PG_locked (pc0 k)
       /\ ra_in_bio st = (0 <? ra_bytes_in k st)
       /\ pos <= k * 4096
     end.

(** ** Unsharing *)

Section Unshare.

Variable IOMAP_F_NEW : Z.
Variable IOMAP_F_SHARED : Z.
Variable IOMAP_F_BUFFER_HEAD : Z.
Variable IOMAP_F_SIZE_CHANGED : Z.
Variable submit_bio_wait : Z -> Z -> Z -> Z * list byte.
Variable block_write_end : Z -> Z -> Z -> folio -> Z * folio.
Variable __block_write_begin_int : Z -> Z -> folio -> iomap -> Z * folio.
Variable fatal_signal_pending : bool.
Variable page_prepare : option (Z -> Z -> iomap -> Z).
Variable filemap_get_stable_folio : page_cache -> Z -> option folio.

(** The [do { ... } while (length)] loop of [iomap_unshare_actor]: the
    value returned, the inode, the page cache, the extent descriptor, the
    outside calls and whether [WARN_ON_ONCE] fired.  [None] stands for a
    [BUG_ON] or for a loop that has not ended when its fuel is spent. *)
Fixpoint unshare_loop
    (fuel : nat) (i : inode) (pc : page_cache) (pos length written : Z)
    (m : iomap) (src : option iomap) (ev : list event)
  : option (Z * inode * page_cache * iomap * list event * bool) :=
  let offset := offset_in_page pos in
  let bytes := u64 (Z.min (s64 (PAGE_SIZE - offset)) length) in
  match iomap_write_begin IOMAP_F_NEW IOMAP_F_BUFFER_HEAD submit_bio_wait
                          __block_write_begin_int fatal_signal_pending
                          page_prepare filemap_get_stable_folio
                          i pc pos (u32 bytes) IOMAP_WRITE_F_UNSHARE m
                          (srcmap_of m src) with
  | None => None
  | Some (begun, pc1, got, ev1) =>
    if negb (begun =? 0) then Some (begun, i, pc1, m, ev ++ ev1, false)
    else
      match got with
      | None => None
      | Some f =>
        match iomap_write_end IOMAP_F_BUFFER_HEAD IOMAP_F_SIZE_CHANGED
                              block_write_end i pos bytes bytes f m
                              (srcmap_of m src) with
        | None => None
        | Some (ret, i', f', m', ev2) =>
          let status := s64 ret in
          let pc2 := pc_set pc1 (index f') f' in
          let ev' := ev ++ ev1 ++ ev2 in
          if status =? 0 then Some (- EIO, i', pc2, m', ev', true)
          else
            let pos' := s64 (pos + status) in
            let written' := s64 (written + status) in
            let length' := s64 (length - status) in
            if length' =? 0 then Some (written', i', pc2, m', ev', false)
            else
              match fuel with
              | O => None
              | S n => unshare_loop n i' pc2 pos' length' written' m' src ev'
              end
        end
      end
  end.

Definition iomap_unshare_actor
    (i : inode) (pc : page_cache) (pos length : Z) (m : iomap)
    (src : option iomap)
  : option (Z * inode * page_cache * iomap * list event * bool) :=
  if Z.land (flags m) IOMAP_F_SHARED =? 0
  then Some (length, i, pc, m, [], false)
  else if iomap_type_eqb (type (srcmap_of m src)) IOMAP_HOLE
          || iomap_type_eqb (type (srcmap_of m src)) IOMAP_UNWRITTEN
  then Some (length, i, pc, m, [], false)
  else unshare_loop (Z.to_nat length) i pc pos length 0 m src [].

End Unshare.

(** ** Write faults *)

(** [lock_folio] (linux/pagemap.h): the caller holds the lock when it
    returns; [None] for a folio that is locked already, on which the call
    sleeps until the holder unlocks it. *)
Definition lock_folio (f : folio) : option folio :=
  if PG_locked f then None
  else Some (mk_folio (index f) (order f) true (PG_dirty f) (PG_writeback f)
                      (PG_error f) (PG_uptodate f) (private f) (data f)).

Section Mkwrite.

Variable IOMAP_F_BUFFER_HEAD : Z.
Variable __block_write_begin_int : Z -> Z -> folio -> iomap -> Z * folio.

(** [block_commit_write], [block_page_mkwrite_return] and the fault code
    [VM_FAULT_LOCKED] belong to the buffer-head layer and the memory
    manager. *)
Variable block_commit_write : folio -> Z -> Z -> folio.
Variable block_page_mkwrite_return : Z -> Z.
Variable VM_FAULT_LOCKED : Z.

(** [iomap_page_mkwrite_actor]: the value returned, the folio it leaves
    and whether [WARN_ON_ONCE] fired.  [set_folio_dirty] sets the dirty
    flag. *)
Definition iomap_page_mkwrite_actor
    (i : inode) (pos length : Z) (f : folio) (m : iomap)
  : Z * folio * bool :=
  if negb (Z.land (flags m) IOMAP_F_BUFFER_HEAD =? 0) then
    let (r, f1) := __block_write_begin_int pos length f m in
    let ret := s32 r in
    if negb (ret =? 0) then (ret, f1, false)
    else (length, block_commit_write f1 0 length, false)
  else
    (length, iomap_set_page_dirty (snd (iomap_page_create i f)),
     negb (FolioUptodate f)).

(** The extent iterator, which is not among the sources, called with
    [iomap_page_mkwrite_actor]. *)
Variable iomap_apply : inode -> Z -> Z -> folio -> Z * folio * bool.

(** The [while (length > 0)] loop of [iomap_page_mkwrite]: [inl ret] when
    it is left through [out_unlock], [inr tt] when it runs to its end;
    with the folio and whether a warning was raised. *)
Fixpoint mkwrite_loop
    (fuel : nat) (i : inode) (pos length : Z) (f : folio) (warned : bool)
  : option ((Z + unit) * folio * bool) :=
  if 0 <? length then
    let '(r, f1, w) := iomap_apply i pos length f in
    let ret := s64 r in
    if ret <=? 0 then Some (inl ret, f1, warned || w)
    else
      match fuel with
      | O => None
      | S n =>
        mkwrite_loop n i (s64 (pos + ret)) (u64 (length - ret)) f1
                     (warned || w)
      end
  else Some (inr tt, f, warned).

(** [iomap_page_mkwrite]: the fault code, the folio and whether a warning
    was raised; [mapping] and [swap_index] as for
    [folio_mkwrite_check_truncate]. *)
Definition iomap_page_mkwrite
    (mapping : bool) (swap_index : option Z) (i : inode) (f : folio)
  : option (Z * folio * bool) :=
  match lock_folio f with
  | None => None
  | Some f0 =>
    let ret := folio_mkwrite_check_truncate mapping swap_index f0 i in
    if ret <? 0
    then Some (block_page_mkwrite_return (s32 ret), unlock_folio f0, false)
    else
      let length := u64 ret in
      match mkwrite_loop (Z.to_nat length) i (folio_offset f0) length f0
                         false with
      | None => None
      | Some (inl ret', f1, w) =>
        Some (block_page_mkwrite_return (s32 ret'), unlock_folio f1, w)
      | Some (inr _, f1, w) => Some (VM_FAULT_LOCKED, f1, w)
      end
  end.

End Mkwrite.

(** An extent iterator for a folio that lies in the single extent [m]:
    the write-fault actor is called once, on the whole range. *)
Definition mkwrite_extent_apply
    (IOMAP_F_BUFFER_HEAD : Z)
    (__block_write_begin_int : Z -> Z -> folio -> iomap -> Z * folio)
    (block_commit_write : folio -> Z -> Z -> folio)
    (m : iomap) (i : inode) (pos length : Z) (f : folio)
  : Z * folio * bool :=
  iomap_page_mkwrite_actor IOMAP_F_BUFFER_HEAD __block_write_begin_int
                           block_commit_write i pos length f m.

(** * Properties *)

(** Closed arithmetic side conditions on concrete inputs. *)
Ltac concrete :=
  cbv; repeat split; try reflexivity;
  try (let H := fresh in intro H; discriminate H).

(** ** Machine integers *)

Lemma u32_small z : 0 <= z < 2 ^ 32 -> u32 z = z.
Proof. intros H. unfold u32. now apply Z.mod_small. Qed.

Lemma u64_small z : 0 <= z < 2 ^ 64 -> u64 z = z.
Proof. intros H. unfold u64. now apply Z.mod_small. Qed.

Lemma s64_small z : - 2 ^ 63 <= z < 2 ^ 63 -> s64 z = z.
Proof. intros H. unfold s64. rewrite Z.mod_small; lia. Qed.

Lemma s64_range z : - 2 ^ 63 <= s64 z < 2 ^ 63.
Proof.
  unfold s64. pose proof (Z.mod_pos_bound (z + 2 ^ 63) (2 ^ 64)). lia.
Qed.

(** ** Bitmaps *)

Lemma test_bit_bitmap_set map start nbits b :
  0 <= start -> 0 <= nbits ->
  test_bit b (bitmap_set map start nbits)
  = test_bit b map || ((start <=? b) && (b <? start + nbits)).
Proof.
  intros Hs Hn. unfold test_bit, bitmap_set.
  rewrite Z.lor_spec. f_equal.
  destruct (Z.leb_spec start b) as [Hb | Hb]; simpl.
  - rewrite Z.shiftl_spec by lia.
    destruct (Z.ltb_spec b (start + nbits)).
    + apply Z.ones_spec_low. lia.
    + apply Z.ones_spec_high. lia.
  - destruct (Z.neg_nonneg_cases b) as [Hneg | Hnn].
    + now apply Z.testbit_neg_r.
    + apply Z.shiftl_spec_low. lia.
Qed.

Lemma bitmap_full_spec map n :
  0 <= n ->
  bitmap_full map n = true <->
  (forall b, 0 <= b < n -> test_bit b map = true).
Proof.
  intros Hn. unfold bitmap_full, test_bit. rewrite Z.eqb_eq. split.
  - intros H b Hb.
    assert (Hbit : Z.testbit (Z.land map (Z.ones n)) b = true).
    { rewrite H. apply Z.ones_spec_low. lia. }
    rewrite Z.land_spec in Hbit. now apply andb_true_iff in Hbit.
  - intros H. apply Z.bits_inj'. intros b Hb.
    rewrite Z.land_spec.
    destruct (Z.ltb_spec b n).
    + rewrite H by lia. rewrite Z.ones_spec_low by lia. reflexivity.
    + rewrite Z.ones_spec_high by lia. apply andb_false_r.
Qed.

Lemma bitmap_full_lor map x n :
  bitmap_full map n = true -> bitmap_full (Z.lor map x) n = true.
Proof.
  unfold bitmap_full. rewrite !Z.eqb_eq. intros H.
  rewrite Z.land_lor_distr_l, H.
  apply Z.bits_inj'. intros b Hb.
  rewrite Z.lor_spec, Z.land_spec.
  destruct (Z.testbit (Z.ones n) b); simpl.
  - reflexivity.
  - apply andb_false_r.
Qed.

Lemma bitmap_full_zero n : 1 < n -> bitmap_full 0 n = false.
Proof.
  intros Hn. unfold bitmap_full. rewrite Z.land_0_l.
  apply Z.eqb_neq. intros H.
  assert (Hbit : Z.testbit (Z.ones n) 0 = true)
    by (apply Z.ones_spec_low; lia).
  rewrite <- H in Hbit. now rewrite Z.bits_0 in Hbit.
Qed.

Lemma bitmap_full_fill n : bitmap_full (bitmap_fill n) n = true.
Proof.
  unfold bitmap_full, bitmap_fill. rewrite Z.land_diag. apply Z.eqb_refl.
Qed.

(** ** The bitmap-full / uptodate invariant *)

Lemma uptodate_consistent_ext i i' f g :
  i_blkbits i' = i_blkbits i ->
  order g = order f ->
  private g = private f ->
  PG_uptodate g = PG_uptodate f ->
  uptodate_consistent i' g = uptodate_consistent i f.
Proof.
  intros Hb Ho Hp Hu.
  unfold uptodate_consistent, to_iomap_page, i_blocks_per_folio,
    folio_size, FolioUptodate.
  now rewrite Hb, Ho, Hp, Hu.
Qed.

Lemma consistent_iop_set_range i f iop off len :
  to_iomap_page f = Some iop ->
  uptodate_consistent i f = true ->
  uptodate_consistent i (iomap_iop_set_range_uptodate i f iop off len) = true.
Proof.
  intros Hiop H.
  unfold uptodate_consistent in H. rewrite Hiop in H.
  apply Bool.eqb_prop in H.
  unfold iomap_iop_set_range_uptodate.
  set (map := bitmap_set _ _ _).
  destruct (bitmap_full map (i_blocks_per_folio i f)) eqn:Hfull.
  - unfold uptodate_consistent; simpl.
    change (i_blocks_per_folio i _) with (i_blocks_per_folio i f).
    now rewrite Hfull.
  - unfold uptodate_consistent; simpl.
    change (i_blocks_per_folio i _) with (i_blocks_per_folio i f).
    rewrite Hfull. unfold FolioUptodate in *.
    destruct (PG_uptodate f); [ | reflexivity ].
    apply (bitmap_full_lor _ (Z.shiftl (Z.ones (u32 (u32 (Z.shiftr (u64 (off + len - 1)) (i_blkbits i)) - u32 (Z.shiftr off (i_blkbits i)) + 1))) (u32 (Z.shiftr off (i_blkbits i))))) in H.
    unfold map, bitmap_set in Hfull. congruence.
Qed.

Lemma consistent_set_range i f off len :
  uptodate_consistent i f = true ->
  uptodate_consistent i (iomap_set_range_uptodate i f off len) = true.
Proof.
  intros H. unfold iomap_set_range_uptodate.
  destruct (FolioError f); [ exact H | ].
  destruct (to_iomap_page f) as [iop | ] eqn:Hiop.
  - now apply consistent_iop_set_range.
  - unfold uptodate_consistent, to_iomap_page in *. simpl.
    now rewrite Hiop.
Qed.

Lemma consistent_page_create i f :
  uptodate_consistent i f = true ->
  uptodate_consistent i (snd (iomap_page_create i f)) = true.
Proof.
  intros H. unfold iomap_page_create.
  destruct (to_iomap_page f) as [iop | ] eqn:Hiop; [ exact H | ].
  destruct (Z.leb_spec (i_blocks_per_folio i f) 1) as [Hn | Hn];
    [ exact H | ].
  unfold uptodate_consistent; simpl.
  change (i_blocks_per_folio i _) with (i_blocks_per_folio i f).
  unfold FolioUptodate. destruct (PG_uptodate f).
  - now rewrite bitmap_full_fill.
  - now rewrite bitmap_full_zero.
Qed.

Lemma consistent_finish_folio_read i f off len error :
  (error =? 0) || negb (FolioUptodate f) = true ->
  uptodate_consistent i f = true ->
  uptodate_consistent i (iomap_finish_folio_read i f off len error) = true.
Proof.
  intros Hadm H. unfold iomap_finish_folio_read.
  set (f1 := if negb (error =? 0) then _ else _).
  assert (H1 : uptodate_consistent i f1 = true).
  { unfold f1. destruct (error =? 0); simpl in *.
    - now apply consistent_set_range.
    - apply negb_true_iff in Hadm.
      rewrite <- H.
      apply uptodate_consistent_ext; try reflexivity.
      simpl. unfold FolioUptodate in Hadm. now rewrite Hadm. }
  clearbody f1.
  destruct (to_iomap_page f1) as [iop | ] eqn:Hiop.
  - unfold uptodate_consistent in H1. rewrite Hiop in H1.
    destruct (atomic_sub_and_test len (read_bytes_pending iop)) as [v z].
    destruct z; unfold uptodate_consistent; simpl;
      change (i_blocks_per_folio i _) with (i_blocks_per_folio i f1);
      exact H1.
  - unfold uptodate_consistent, to_iomap_page in *. simpl.
    now rewrite Hiop.
Qed.



Section WritePathInvariant.

Variable IOMAP_F_NEW : Z.
Variable IOMAP_F_BUFFER_HEAD : Z.
Variable IOMAP_F_SIZE_CHANGED : Z.
Variable submit_bio_wait : Z -> Z -> Z -> Z * list byte.
Variable block_write_end : Z -> Z -> Z -> folio -> Z * folio.




End WritePathInvariant.

(** ** mark_valid on a folio flagged with an error *)

Lemma set_range_uptodate_on_error i f off len :
  FolioError f = true -> iomap_set_range_uptodate i f off len = f.
Proof.
  intros Herr. unfold iomap_set_range_uptodate. now rewrite Herr.
Qed.

(** C8: on a folio whose error flag is set, [iomap_set_range_uptodate]
    returns the folio as it was: bitmap, uptodate flag and every other
    field, for any offset and length. *)
Theorem set_range_uptodate_error_noop (i : inode) (f : folio) (off len : Z) :
  FolioError f = true ->
  iomap_set_range_uptodate i f off len = f.
Proof.
  intros Herr. unfold iomap_set_range_uptodate. now rewrite Herr.
Qed.

Lemma set_range_uptodate_error_noop_witness :
  let i := mk_inode 4096 9 in
  let f := mk_folio 3 0 true true false true false
                    (Some (mk_iop 0 0 5)) [] in
  FolioError f = true /\ iomap_set_range_uptodate i f 512 1024 = f.
Proof.
  split; [ reflexivity | ].
  apply (set_range_uptodate_error_noop (mk_inode 4096 9)
           (mk_folio 3 0 true true false true false
                     (Some (mk_iop 0 0 5)) []) 512 1024).
  reflexivity.
Defined.

(** ** mark_valid: idempotence and union *)

Lemma folio_size_pow f : 0 <= order f -> folio_size f = 2 ^ (12 + order f).
Proof.
  intros Ho. unfold folio_size, PAGE_SIZE, PAGE_SHIFT.
  rewrite !Z.shiftl_mul_pow2 by lia. rewrite Z.pow_add_r by lia. lia.
Qed.

Lemma folio_size_bounds f :
  0 <= order f <= 19 -> 4096 <= folio_size f <= 2 ^ 31.
Proof.
  intros Ho. rewrite folio_size_pow by lia. split.
  - change 4096 with (2 ^ 12). apply Z.pow_le_mono_r; lia.
  - apply Z.pow_le_mono_r; lia.
Qed.

Lemma shiftr_block x bits : 0 <= bits -> Z.shiftr x bits = x / 2 ^ bits.
Proof. intros. now apply Z.shiftr_div_pow2. Qed.

Lemma block_index_bounds x bits :
  0 <= bits -> 0 <= x -> 0 <= x / 2 ^ bits <= x.
Proof.
  intros Hb Hx.
  assert (Hp : 0 < 2 ^ bits) by (apply Z.pow_pos_nonneg; lia).
  split.
  - now apply Z.div_pos.
  - apply Z.div_le_upper_bound; nia.
Qed.


Lemma iop_set_range_marked i f iop off len :
  iomap_iop_set_range_uptodate i f iop off len
  = folio_marked i f iop (Z.lor (uptodate iop) (range_bits i (off, len))).
Proof. reflexivity. Qed.

Lemma test_bit_range_bits i f r b :
  geometry_ok i f -> in_folio_range f r -> 0 <= b ->
  test_bit b (range_bits i r)
  = (fst r / 2 ^ i_blkbits i <=? b)
    && (b <=? (fst r + snd r - 1) / 2 ^ i_blkbits i).
Proof.
  intros [Hbits Hord] [Hoff [Hlen Hin]] Hb.
  destruct r as [off len]. simpl in Hoff, Hlen, Hin |- *.
  pose proof (folio_size_bounds f Hord) as Hfs.
  assert (Hbits' : 0 <= i_blkbits i) by lia.
  pose proof (block_index_bounds off _ Hbits' Hoff) as Hfirst.
  assert (Hend : 0 <= off + len - 1) by lia.
  pose proof (block_index_bounds _ _ Hbits' Hend) as Hlast.
  assert (Hmono : off / 2 ^ i_blkbits i <= (off + len - 1) / 2 ^ i_blkbits i).
  { apply Z.div_le_mono; [ apply Z.pow_pos_nonneg | ]; lia. }
  unfold range_bits. simpl fst. simpl snd.
  rewrite (u64_small (off + len - 1)) by lia.
  rewrite !shiftr_block by lia.
  rewrite (u32_small (off / _)) by lia.
  rewrite (u32_small ((off + len - 1) / _)) by lia.
  rewrite u32_small by lia.
  pose proof (test_bit_bitmap_set 0 (off / 2 ^ i_blkbits i)
                ((off + len - 1) / 2 ^ i_blkbits i
                 - off / 2 ^ i_blkbits i + 1) b) as Hset.
  unfold bitmap_set, test_bit in Hset |- *.
  rewrite Z.lor_0_l, Z.bits_0 in Hset. simpl in Hset.
  rewrite Hset by lia.
  f_equal.
  destruct (Z.ltb_spec b (off / 2 ^ i_blkbits i
                          + ((off + len - 1) / 2 ^ i_blkbits i
                             - off / 2 ^ i_blkbits i + 1)));
    destruct (Z.leb_spec b ((off + len - 1) / 2 ^ i_blkbits i)); lia.
Qed.











(** ** iomap_is_partially_uptodate *)

Lemma partially_uptodate_scan_spec map last :
  forall fuel i,
    0 <= i <= last + 1 -> last + 1 < 2 ^ 32 ->
    (Z.to_nat (last + 1 - i) <= fuel)%nat ->
    exists b,
      partially_uptodate_scan fuel map last i = Some b
      /\ (b = true <-> forall k, i <= k <= last -> test_bit k map = true).
Proof.
  induction fuel as [ | n IH ]; intros i Hi Hlast Hfuel.
  - assert (i = last + 1) by lia. subst i. simpl.
    destruct (Z.leb_spec (last + 1) last); [ lia | ].
    exists true. split; [ reflexivity | ].
    split; [ intros _ k Hk; lia | reflexivity ].
  - simpl. destruct (Z.leb_spec i last) as [Hle | Hgt].
    + destruct (test_bit i map) eqn:Hbit; simpl.
      * rewrite u32_small by lia.
        destruct (IH (i + 1)) as [b [Hrun Hb]]; try lia.
        exists b. split; [ exact Hrun | ].
        rewrite Hb. split.
        -- intros H k Hk. destruct (Z.eq_dec k i) as [-> | Hne];
             [ exact Hbit | apply H; lia ].
        -- intros H k Hk. apply H. lia.
      * exists false. split; [ reflexivity | ].
        split; [ discriminate | ].
        intros H. rewrite H in Hbit by lia. discriminate.
    + exists true. split; [ reflexivity | ].
      split; [ intros _ k Hk; lia | reflexivity ].
Qed.

(** C10: without a record [iomap_is_partially_uptodate] answers false for
    every range, whatever the folio's uptodate flag says; with a record,
    for a non-empty range starting inside the folio, it answers true
    exactly when every block touched by the range, clipped to the folio,
    is marked valid in the bitmap. *)
Theorem is_partially_uptodate_spec
    (i : inode) (f : folio) (from count : Z) :
  geometry_ok i f ->
  0 <= from < folio_size f ->
  0 < count < 2 ^ 64 ->
  (to_iomap_page f = None ->
   forall from' count',
     iomap_is_partially_uptodate i f from' count' = Some false)
  /\ (forall iop,
        to_iomap_page f = Some iop ->
        exists b,
          iomap_is_partially_uptodate i f from count = Some b
          /\ (b = true <->
              range_valid i (uptodate iop) from
                          (Z.min (folio_size f - from) count))).
Proof.
  intros [Hbits Hord] Hfrom Hcount.
  unfold iomap_is_partially_uptodate. split.
  - intros -> from' count'. reflexivity.
  - intros iop ->.
    pose proof (folio_size_bounds f Hord) as Hfs.
    rewrite (u64_small (folio_size f - from)) by lia.
    set (len := Z.min (folio_size f - from) count).
    assert (Hlen : 0 < len <= folio_size f - from) by (unfold len; lia).
    assert (Hbits' : 0 <= i_blkbits i) by lia.
    pose proof (block_index_bounds from _ Hbits' (proj1 Hfrom)) as Hfirst.
    assert (Hend : 0 <= from + len - 1) by lia.
    pose proof (block_index_bounds _ _ Hbits' Hend) as Hlast.
    assert (Hmono : from / 2 ^ i_blkbits i
                    <= (from + len - 1) / 2 ^ i_blkbits i).
    { apply Z.div_le_mono; [ apply Z.pow_pos_nonneg | ]; lia. }
    rewrite (u64_small (from + len - 1)) by lia.
    unfold range_valid. rewrite !shiftr_block by lia.
    rewrite (u32_small (from / _)) by lia.
    rewrite (u32_small ((from + len - 1) / _)) by lia.
    apply partially_uptodate_scan_spec; lia.
Qed.

Lemma is_partially_uptodate_spec_witness :
  let i := mk_inode 4096 9 in
  let f := mk_folio 0 0 true false false false false
                    (Some (mk_iop 0 0 6)) [] in
  (to_iomap_page f = None ->
   forall from' count',
     iomap_is_partially_uptodate i f from' count' = Some false)
  /\ (forall iop,
        to_iomap_page f = Some iop ->
        exists b,
          iomap_is_partially_uptodate i f 512 1024 = Some b
          /\ (b = true <->
              range_valid i (uptodate iop) 512
                          (Z.min (folio_size f - 512) 1024))).
Proof.
  apply (is_partially_uptodate_spec
           (mk_inode 4096 9)
           (mk_folio 0 0 true false false false false
                     (Some (mk_iop 0 0 6)) []) 512 1024); concrete.
Defined.

(** ** iomap_adjust_read_range *)

Lemma rr_ext a b c d e a' b' c' d' e' :
  a = a' -> b = b' -> c = c' -> d = d' -> e = e' ->
  mk_rr a b c d e = mk_rr a' b' c' d' e'.
Proof. intros; subst; reflexivity. Qed.

(** Equal loop results whose components differ by arithmetic only. *)
Ltac same_range :=
  match goal with
  | |- Some (_, _) = Some (_, _) =>
    apply f_equal, f_equal2; [ lia | apply rr_ext; lia ]
  | |- Some _ = Some _ => apply f_equal, rr_ext; lia
  end.

Lemma skip_leading_uptodate_spec map bs last :
  0 < bs -> last + 1 < 2 ^ 32 ->
  forall fuel i pos poff plen,
    0 <= i <= last + 1 ->
    (Z.to_nat (last + 1 - i) <= fuel)%nat ->
    (last + 1 - i) * bs <= plen ->
    0 <= poff -> poff + plen < 2 ^ 64 ->
    - 2 ^ 63 <= pos -> pos + plen < 2 ^ 63 ->
    exists k,
      0 <= k <= last + 1 - i
      /\ skip_leading_uptodate fuel map bs i (mk_rr pos poff plen i last)
         = Some (i + k,
                 mk_rr (pos + k * bs) (poff + k * bs) (plen - k * bs)
                       (i + k) last)
      /\ (forall b, i <= b < i + k -> test_bit b map = true)
      /\ (i + k <= last -> test_bit (i + k) map = false).
Proof.
  intros Hbs Hlast.
  induction fuel as [ | n IH ]; intros i pos poff plen Hi Hfuel Hplen
                                       Hpoff Hpoff' Hpos Hpos'.
  - assert (i = last + 1) by lia. subst i.
    exists 0. simpl.
    destruct (Z.leb_spec (last + 1) last); [ lia | ].
    repeat split; try lia.
    same_range.
  - simpl. destruct (Z.leb_spec i last) as [Hle | Hgt].
    + destruct (test_bit i map) eqn:Hbit; simpl.
      * assert (Hbs' : bs <= plen) by nia.
        rewrite (u32_small (i + 1)) by lia.
        rewrite (s64_small (pos + bs)) by lia.
        rewrite (u64_small (poff + bs)) by lia.
        rewrite (u64_small (plen - bs)) by lia.
        destruct (IH (i + 1) (pos + bs) (poff + bs) (plen - bs))
          as [k [Hk [Hrun [Hset Hclear]]]]; try lia.
        exists (k + 1). split; [ lia | ]. split; [ | split ].
        -- rewrite Hrun. same_range.
        -- intros b Hb. destruct (Z.eq_dec b i) as [-> | Hne];
             [ exact Hbit | apply Hset; lia ].
        -- replace (i + (k + 1)) with (i + 1 + k) by lia. exact Hclear.
      * exists 0. repeat split; try lia.
        -- same_range.
        -- intros _. now rewrite Z.add_0_r.
    + exists 0. repeat split; try lia.
      same_range.
Qed.

Lemma trim_trailing_uptodate_spec map bs last pos poff first :
  0 < bs -> last + 1 < 2 ^ 32 ->
  forall fuel i plen,
    0 <= i <= last + 1 ->
    (i <= last -> test_bit i map = true -> 1 <= i) ->
    (Z.to_nat (last + 1 - i) <= fuel)%nat ->
    (last + 1 - i) * bs < 2 ^ 32 ->
    (last + 1 - i) * bs <= plen < 2 ^ 64 ->
    exists j,
      i <= j <= last + 1
      /\ trim_trailing_uptodate fuel map bs i (mk_rr pos poff plen first last)
         = Some (mk_rr pos poff (plen - (last + 1 - j) * bs) first (j - 1))
      /\ (forall b, i <= b < j -> test_bit b map = false)
      /\ (j <= last -> test_bit j map = true).
Proof.
  intros Hbs Hlast.
  induction fuel as [ | n IH ]; intros i plen Hi Hone Hfuel Hmul Hplen.
  - assert (i = last + 1) by lia. subst i.
    exists (last + 1). simpl.
    destruct (Z.leb_spec (last + 1) last); [ lia | ].
    repeat split; try lia.
    same_range.
  - simpl. destruct (Z.leb_spec i last) as [Hle | Hgt].
    + destruct (test_bit i map) eqn:Hbit.
      * exists i. specialize (Hone Hle eq_refl).
        rewrite (u32_small (last - i + 1)) by lia.
        rewrite (u32_small ((last - i + 1) * bs)) by nia.
        rewrite (u32_small (i - 1)) by lia.
        rewrite u64_small by nia.
        split; [ lia | ]. split; [ same_range | ].
        split; [ intros b Hb; lia | intros _; exact Hbit ].
      * rewrite (u32_small (i + 1)) by lia.
        destruct (IH (i + 1) plen) as [j [Hj [Hrun [Hclear Hset]]]];
          try lia; try nia.
        exists j. split; [ lia | ]. split; [ exact Hrun | ].
        split; [ | exact Hset ].
        intros b Hb. destruct (Z.eq_dec b i) as [-> | Hne];
          [ exact Hbit | apply Hclear; lia ].
    + exists (last + 1). repeat split; try lia.
      same_range.
Qed.

Lemma offset_in_folio_mod f p :
  0 <= order f -> offset_in_folio f p = u64 p mod folio_size f.
Proof.
  intros Ho. unfold offset_in_folio. rewrite folio_size_pow by lia.
  replace (2 ^ (12 + order f) - 1) with (Z.ones (12 + order f))
    by (rewrite Z.ones_equiv; lia).
  apply Z.land_ones. lia.
Qed.

Lemma div_pred_block a bs : 0 < bs -> (a * bs - 1) / bs = a - 1.
Proof.
  intros Hbs. symmetry.
  apply (Z.div_unique_pos _ _ _ (bs - 1)); lia.
Qed.

Lemma folio_blocks i f :
  blocks_in_folio i f ->
  exists N, 1 <= N /\ folio_size f = N * 2 ^ i_blkbits i
            /\ folio_size f <= 2 ^ 31 /\ 0 < 2 ^ i_blkbits i <= 2 ^ 31.
Proof.
  intros [Hord Hbits].
  exists (2 ^ (12 + order f - i_blkbits i)).
  assert (0 < 2 ^ (12 + order f - i_blkbits i))
    by (apply Z.pow_pos_nonneg; lia).
  assert (0 < 2 ^ i_blkbits i) by (apply Z.pow_pos_nonneg; lia).
  repeat split; try lia.
  - rewrite folio_size_pow by lia. rewrite <- Z.pow_add_r by lia.
    f_equal. lia.
  - apply folio_size_bounds. lia.
  - apply Z.pow_le_mono_r; lia.
Qed.

Lemma aligned_request i f pos length :
  blocks_in_folio i f ->
  0 <= pos < 2 ^ 63 -> block_aligned i pos ->
  0 < length -> block_aligned i length ->
  exists first0 c,
    0 <= first0 /\ 1 <= c
    /\ (first0 + c) * 2 ^ i_blkbits i <= folio_size f
    /\ offset_in_folio f pos = first0 * 2 ^ i_blkbits i
    /\ Z.min (folio_size f - first0 * 2 ^ i_blkbits i) length
       = c * 2 ^ i_blkbits i.
Proof.
  intros Hgeo Hpos Hapos Hlen Halen.
  destruct (folio_blocks i f Hgeo) as [N [HN [Hfs [Hfs' Hbs]]]].
  destruct Hgeo as [Hord Hbits].
  set (bs := 2 ^ i_blkbits i) in *.
  unfold block_aligned in *. fold bs in Hapos, Halen.
  apply Z.div_exact in Hapos; [ | lia ].
  apply Z.div_exact in Halen; [ | lia ].
  set (q := pos / bs) in *. set (L := length / bs) in *.
  assert (HL : 1 <= L) by nia.
  assert (Hq : 0 <= q) by nia.
  exists (q mod N), (Z.min (N - q mod N) L).
  pose proof (Z.mod_pos_bound q N ltac:(lia)) as Hmod.
  split; [ lia | ]. split; [ lia | ]. split; [ nia | ]. split.
  - rewrite offset_in_folio_mod by lia.
    rewrite u64_small by lia.
    rewrite Hfs, Hapos.
    rewrite (Z.mul_comm bs q), Z.mul_mod_distr_r by lia. reflexivity.
  - rewrite Hfs, Halen.
    destruct (Z.min_spec (N - q mod N) L) as [ [Hlt ->] | [Hge ->] ]; nia.
Qed.

Lemma trim_trailing_uptodate_done fuel map bs i r :
  rr_last r < i -> trim_trailing_uptodate fuel map bs i r = Some r.
Proof.
  intros H. destruct fuel; simpl;
    destruct (Z.leb_spec i (rr_last r)); try lia; reflexivity.
Qed.

Lemma adjust_scan_spec (iop : option iomap_page) bs pos first0 c last :
  0 < bs -> 0 <= first0 -> 1 <= c -> (first0 + c) * bs <= 2 ^ 31 ->
  0 <= pos -> pos + c * bs < 2 ^ 63 -> last = first0 + c - 1 ->
  exists k m,
    0 <= k /\ 0 <= m /\ k + m <= c /\ (m = 0 -> k = c)
    /\ match iop with
       | Some p =>
         match skip_leading_uptodate (Z.to_nat (last - first0 + 1))
                 (uptodate p) bs first0
                 (mk_rr pos (first0 * bs) (c * bs) first0 last) with
         | Some (i1, r1) =>
           trim_trailing_uptodate (Z.to_nat (rr_last r1 - i1 + 1))
                                  (uptodate p) bs i1 r1
         | None => None
         end
       | None => Some (mk_rr pos (first0 * bs) (c * bs) first0 last)
       end
       = Some (mk_rr (pos + k * bs) ((first0 + k) * bs) (m * bs)
                     (first0 + k) (first0 + k + m - 1))
    /\ (forall p, iop = Some p ->
          (forall b, first0 <= b < first0 + k ->
                     test_bit b (uptodate p) = true)
          /\ (forall b, first0 + k <= b < first0 + k + m ->
                        test_bit b (uptodate p) = false)
          /\ (k + m < c -> test_bit (first0 + k + m) (uptodate p) = true))
    /\ (iop = None -> k = 0 /\ m = c).
Proof.
  intros Hbs Hfirst Hc Hfit Hpos Hpos' ->.
  assert (Hlast : first0 + c - 1 + 1 < 2 ^ 32) by nia.
  destruct iop as [p | ].
  - destruct (skip_leading_uptodate_spec (uptodate p) bs (first0 + c - 1)
                Hbs Hlast
                (Z.to_nat (first0 + c - 1 - first0 + 1)) first0
                pos (first0 * bs) (c * bs))
      as [k [Hk [Hrun [Hset Hclr]]]]; try lia; try nia.
    rewrite Hrun. cbn [rr_last].
    destruct (Z.eq_dec k c) as [-> | Hkc].
    + exists c, 0. rewrite trim_trailing_uptodate_done by (cbn [rr_last]; lia).
      split; [ lia | ]. split; [ lia | ]. split; [ lia | ].
      split; [ lia | ]. split; [ same_range | ].
      split; [ | discriminate ].
      intros q Hq; injection Hq as <-.
      split; [ exact Hset | ]. split; [ intros b Hb; lia | lia ].
    + destruct (trim_trailing_uptodate_spec (uptodate p) bs
                  (first0 + c - 1) (pos + k * bs) (first0 * bs + k * bs)
                  (first0 + k) Hbs Hlast
                  (Z.to_nat (first0 + c - 1 - (first0 + k) + 1))
                  (first0 + k) (c * bs - k * bs))
        as [j [Hj [Hrun2 [Hclr2 Hset2]]]]; try lia; try nia.
      { intros Hle Hbit. rewrite Hclr in Hbit by lia. discriminate. }
      rewrite Hrun2.
      exists k, (j - (first0 + k)).
      assert (Hjk : first0 + k < j).
      { destruct (Z.eq_dec j (first0 + k)) as [-> | ]; [ | lia ].
        rewrite Hclr in Hset2 by lia.
        specialize (Hset2 ltac:(lia)). discriminate. }
      split; [ lia | ]. split; [ lia | ]. split; [ lia | ].
      split; [ lia | ]. split; [ same_range | ].
      split; [ | discriminate ].
      intros q Hq; injection Hq as <-.
      split; [ exact Hset | ]. split.
      * intros b Hb. apply Hclr2. lia.
      * intros Hlt.
        replace (first0 + k + (j - (first0 + k))) with j by lia.
        apply Hset2. lia.
  - exists 0, c.
    split; [ lia | ]. split; [ lia | ]. split; [ lia | ].
    split; [ lia | ]. split; [ same_range | ].
    split; [ discriminate | intros _; lia ].
Qed.

Lemma eof_block_range i f :
  blocks_in_folio i f -> 0 <= eof_block i f < 2 ^ 31.
Proof.
  intros Hgeo.
  destruct (folio_blocks i f Hgeo) as [N [HN [Hfs [Hfs' Hbs]]]].
  destruct Hgeo as [Hord Hbits].
  unfold eof_block. rewrite offset_in_folio_mod by lia.
  rewrite shiftr_block by lia.
  pose proof (Z.mod_pos_bound (u64 (i_size i - 1)) (folio_size f)
                ltac:(lia)) as Hmod.
  pose proof (block_index_bounds (u64 (i_size i - 1) mod folio_size f)
                (i_blkbits i) ltac:(lia) ltac:(lia)).
  lia.
Qed.

(** What [iomap_adjust_read_range] computes for a block-aligned request,
    counted in blocks: the request covers the [c] blocks from block
    [first0] of the folio, [k] leading blocks are skipped and [m] blocks
    are kept. *)
Lemma adjust_read_range_blocks (i : inode) (f : folio) (pos length : Z) :
  blocks_in_folio i f ->
  0 <= pos -> 0 < length -> pos + length < 2 ^ 63 ->
  block_aligned i pos -> block_aligned i length ->
  0 <= i_size i < 2 ^ 63 ->
  exists first0 c k m,
    (0 <= first0 /\ 1 <= c /\ 0 <= k /\ 0 <= m /\ k + m <= c)
    /\ (first0 + c) * 2 ^ i_blkbits i <= folio_size f
    /\ offset_in_folio f pos = first0 * 2 ^ i_blkbits i
    /\ Z.min (folio_size f - first0 * 2 ^ i_blkbits i) length
       = c * 2 ^ i_blkbits i
    /\ iomap_adjust_read_range i f pos length
       = Some (pos + k * 2 ^ i_blkbits i,
               (first0 + k) * 2 ^ i_blkbits i,
               m * 2 ^ i_blkbits i)
    /\ (m = 0 -> k = c)
    /\ (forall iop,
          to_iomap_page f = Some iop ->
          (forall b, first0 <= b < first0 + k ->
                     test_bit b (uptodate iop) = true)
          /\ (forall b, first0 + k <= b < first0 + k + m ->
                        test_bit b (uptodate iop) = false)
          /\ (k + m < c ->
              test_bit (first0 + k + m) (uptodate iop) = true
              \/ (straddles_eof i pos length
                  /\ first0 + k + m = eof_block i f + 1)))
    /\ (to_iomap_page f = None ->
        k = 0
        /\ (m = c
            \/ (straddles_eof i pos length
                /\ first0 + k + m = eof_block i f + 1)))
    /\ (straddles_eof i pos length ->
        first0 + k <= eof_block i f ->
        first0 + k + m <= eof_block i f + 1).
Proof.
  intros Hgeo Hpos Hlen Hend Hapos Halen Hisize.
  destruct (aligned_request i f pos length Hgeo ltac:(lia) Hapos Hlen Halen)
    as [first0 [c [Hfirst [Hc [Hfit [Hpoff Hmin]]]]]].
  destruct (folio_blocks i f Hgeo) as [N [HN [Hfs [Hfs' Hbs]]]].
  pose proof (eof_block_range i f Hgeo) as He.
  destruct Hgeo as [Hord Hbits].
  assert (Heof : offset_in_folio f (i_size i - 1) / 2 ^ i_blkbits i
                 = eof_block i f)
    by (unfold eof_block; now rewrite shiftr_block by lia).
  unfold iomap_adjust_read_range, i_size_read. cbv zeta.
  rewrite Hpoff.
  set (bs := 2 ^ i_blkbits i) in *.
  assert (Hcb : c * bs <= length) by lia.
  rewrite (u64_small (folio_size f - first0 * bs)) by nia.
  rewrite (s64_small (folio_size f - first0 * bs)) by nia.
  rewrite Hmin.
  rewrite (u64_small (c * bs)) by nia.
  rewrite (u64_small (first0 * bs + c * bs - 1)) by nia.
  rewrite !shiftr_block by lia. fold bs.
  rewrite Heof.
  rewrite (Z.div_mul first0 bs) by lia.
  replace (first0 * bs + c * bs - 1) with ((first0 + c) * bs - 1) by lia.
  rewrite div_pred_block by lia.
  rewrite (u32_small first0) by nia.
  rewrite (u32_small (first0 + c - 1)) by nia.
  rewrite Z.shiftl_1_l. fold bs.
  rewrite (u32_small bs) by lia.
  rewrite (s64_small (pos + length)) by lia.
  rewrite (u32_small (eof_block i f)) by lia.
  destruct (adjust_scan_spec (to_iomap_page f) bs pos first0 c
              (first0 + c - 1))
    as [k [m [Hk [Hm [Hkm [Hm0 [Hscan [Hsome Hnone]]]]]]]];
    try lia.
  rewrite Hscan. cbn [rr_pos rr_poff rr_plen rr_first rr_last].
  set (e := eof_block i f) in *.
  (* the end-of-file clipping, as a number of blocks m' *)
  assert (Hclip :
    exists m',
      (if (pos <=? i_size i) && (i_size i <? pos + length)
       then
         if (first0 + k <=? e) && (e <? first0 + k + m - 1)
         then u64 (m * bs - u32 (u32 (first0 + k + m - 1 - e) * bs))
         else m * bs
       else m * bs) = m' * bs
      /\ 0 <= m' <= m /\ (m' = 0 -> m = 0)
      /\ (m' < m -> straddles_eof i pos length /\ first0 + k + m' = e + 1)
      /\ (straddles_eof i pos length -> first0 + k <= e ->
          first0 + k + m' <= e + 1)).
  { unfold straddles_eof.
    assert (Hfc : first0 + c <= 2 ^ 31) by nia.
    destruct (Z.leb_spec pos (i_size i));
      [ destruct (Z.ltb_spec (i_size i) (pos + length)) | ];
      cbn [andb].
    - destruct (Z.leb_spec (first0 + k) e);
        [ destruct (Z.ltb_spec e (first0 + k + m - 1)) | ];
        cbn [andb].
      + exists (e - (first0 + k) + 1).
        assert (Hb1 : 0 <= first0 + k + m - 1 - e <= m) by lia.
        assert (Hb2 : (first0 + k + m - 1 - e) * bs <= m * bs)
          by (apply Z.mul_le_mono_nonneg_r; lia).
        assert (Hb3 : m * bs <= c * bs)
          by (apply Z.mul_le_mono_nonneg_r; lia).
        assert (Hb4 : c * bs <= 2 ^ 31) by nia.
        assert (Hb5 : 0 <= (first0 + k + m - 1 - e) * bs)
          by (apply Z.mul_nonneg_nonneg; lia).
        rewrite (u32_small (first0 + k + m - 1 - e)) by lia.
        rewrite (u32_small ((first0 + k + m - 1 - e) * bs)) by lia.
        rewrite u64_small by lia.
        split; [ lia | ]. repeat split; lia.
      + exists m. repeat split; lia.
      + exists m. repeat split; lia.
    - exists m. repeat split; lia.
    - exists m. repeat split; lia. }
  destruct Hclip as [m' [-> [Hm' [Hm'0 [Hclipped Hstraddle]]]]].
  exists first0, c, k, m'.
  split; [ lia | ]. split; [ exact Hfit | ]. split; [ reflexivity | ].
  split; [ exact Hmin | ]. split; [ reflexivity | ].
  split; [ intros Hz; apply Hm0, Hm'0, Hz | ].
  split.
  { intros iop Hiop. destruct (Hsome iop Hiop) as [Hset [Hclr Hnext]].
    split; [ exact Hset | ].
    split; [ intros b Hb; apply Hclr; lia | ].
    intros Hshort.
    destruct (Z.eq_dec m' m) as [-> | Hne].
    - left. apply Hnext. lia.
    - right. apply Hclipped. lia. }
  split; [ | exact Hstraddle ].
  intros Hno. destruct (Hnone Hno) as [-> ->].
  split; [ reflexivity | ].
  destruct (Z.eq_dec m' c) as [-> | Hne].
  - left. reflexivity.
  - right. apply Hclipped. lia.
Qed.

(** The span returned lies inside the request clipped to the folio, and
    the position moves with the offset. *)
Lemma adjust_read_range_contained (i : inode) (f : folio) (pos length : Z) :
  blocks_in_folio i f ->
  0 <= pos -> 0 < length -> pos + length < 2 ^ 63 ->
  block_aligned i pos -> block_aligned i length ->
  0 <= i_size i < 2 ^ 63 ->
  exists pos' poff plen,
    iomap_adjust_read_range i f pos length = Some (pos', poff, plen)
    /\ offset_in_folio f pos <= poff /\ 0 <= plen
    /\ poff + plen
       <= offset_in_folio f pos
          + Z.min (folio_size f - offset_in_folio f pos) length
    /\ pos' - pos = poff - offset_in_folio f pos.
Proof.
  intros Hgeo Hpos Hlen Hend Hapos Halen Hisize.
  destruct (adjust_read_range_blocks i f pos length Hgeo Hpos Hlen Hend
              Hapos Halen Hisize)
    as [first0 [c [k [m [Hcount [_ [Hpoff [Hmin [Hrun _]]]]]]]]].
  assert (Hbs : 0 < 2 ^ i_blkbits i)
    by (apply Z.pow_pos_nonneg; destruct Hgeo; lia).
  set (bs := 2 ^ i_blkbits i) in *.
  exists (pos + k * bs), ((first0 + k) * bs), (m * bs).
  rewrite Hpoff, Hmin.
  split; [ exact Hrun | ].
  assert (Hkm : (k + m) * bs <= c * bs)
    by (apply Z.mul_le_mono_nonneg_r; lia).
  assert (0 <= k * bs) by (apply Z.mul_nonneg_nonneg; lia).
  assert (0 <= m * bs) by (apply Z.mul_nonneg_nonneg; lia).
  repeat split; lia.
Qed.

(** C3 (amended): for a block-aligned request of positive length,
    [iomap_adjust_read_range] returns the request shrunk by whole blocks and
    contained in it (clipped to the folio), of length zero or more.  With a
    record, the blocks skipped in front are all marked valid, no block of
    the returned span is marked valid, and a span that stops short of the
    request stops right before a valid block or at the end-of-file block.
    When the request starts at or before end-of-file and extends past it,
    and the first block kept is not beyond the block holding the last file
    byte, the span ends with that block at the latest. *)
Theorem adjust_read_range_spec (i : inode) (f : folio) (pos length : Z) :
  blocks_in_folio i f ->
  0 <= pos -> 0 < length -> pos + length < 2 ^ 63 ->
  block_aligned i pos -> block_aligned i length ->
  0 <= i_size i < 2 ^ 63 ->
  exists pos' poff plen,
    iomap_adjust_read_range i f pos length = Some (pos', poff, plen)
    /\ (offset_in_folio f pos <= poff /\ 0 <= plen
        /\ poff + plen
           <= offset_in_folio f pos
              + Z.min (folio_size f - offset_in_folio f pos) length)
    /\ pos' - pos = poff - offset_in_folio f pos
    /\ (block_aligned i poff /\ block_aligned i plen)
    /\ (forall iop,
          to_iomap_page f = Some iop ->
          (forall b,
              offset_in_folio f pos / 2 ^ i_blkbits i <= b
                < poff / 2 ^ i_blkbits i ->
              test_bit b (uptodate iop) = true)
          /\ (forall b,
                 poff / 2 ^ i_blkbits i <= b
                   < (poff + plen) / 2 ^ i_blkbits i ->
                 test_bit b (uptodate iop) = false)
          /\ (poff + plen
              < offset_in_folio f pos
                + Z.min (folio_size f - offset_in_folio f pos) length ->
              test_bit ((poff + plen) / 2 ^ i_blkbits i) (uptodate iop)
              = true
              \/ (straddles_eof i pos length
                  /\ (poff + plen) / 2 ^ i_blkbits i = eof_block i f + 1)))
    /\ (to_iomap_page f = None ->
        poff = offset_in_folio f pos
        /\ (plen = Z.min (folio_size f - offset_in_folio f pos) length
            \/ (straddles_eof i pos length
                /\ (poff + plen) / 2 ^ i_blkbits i = eof_block i f + 1)))
    /\ (plen = 0 ->
        poff = offset_in_folio f pos
               + Z.min (folio_size f - offset_in_folio f pos) length)
    /\ (straddles_eof i pos length ->
        poff / 2 ^ i_blkbits i <= eof_block i f ->
        poff + plen <= (eof_block i f + 1) * 2 ^ i_blkbits i).
Proof.
  intros Hgeo Hpos Hlen Hend Hapos Halen Hisize.
  destruct (adjust_read_range_blocks i f pos length Hgeo Hpos Hlen Hend
              Hapos Halen Hisize)
    as [first0 [c [k [m [Hcount [Hfit [Hpoff [Hmin [Hrun [Hm0 [Hsome
         [Hnone Hstraddle]]]]]]]]]]]].
  assert (Hbs : 0 < 2 ^ i_blkbits i)
    by (apply Z.pow_pos_nonneg; destruct Hgeo; lia).
  set (bs := 2 ^ i_blkbits i) in *.
  assert (Hdiv0 : first0 * bs / bs = first0) by (apply Z.div_mul; lia).
  assert (Hdiv1 : (first0 + k) * bs / bs = first0 + k)
    by (apply Z.div_mul; lia).
  assert (Hdiv2 : ((first0 + k) * bs + m * bs) / bs = first0 + k + m).
  { replace ((first0 + k) * bs + m * bs) with ((first0 + k + m) * bs)
      by lia.
    apply Z.div_mul; lia. }
  assert (Hkm : (k + m) * bs <= c * bs)
    by (apply Z.mul_le_mono_nonneg_r; lia).
  assert (Hk0 : 0 <= k * bs) by (apply Z.mul_nonneg_nonneg; lia).
  assert (Hm0' : 0 <= m * bs) by (apply Z.mul_nonneg_nonneg; lia).
  exists (pos + k * bs), ((first0 + k) * bs), (m * bs).
  rewrite Hpoff, Hmin, Hdiv0, Hdiv1, Hdiv2.
  split; [ exact Hrun | ].
  split; [ lia | ].
  split; [ lia | ].
  split.
  { unfold block_aligned. fold bs. split; apply Z.mod_mul; lia. }
  split.
  { intros iop Hiop. destruct (Hsome iop Hiop) as [Hset [Hclr Hnext]].
    split; [ exact Hset | ]. split; [ exact Hclr | ].
    intros Hshort. apply Hnext.
    destruct (Z.lt_ge_cases (k + m) c) as [Hlt | Hge]; [ exact Hlt | ].
    assert (c * bs <= (k + m) * bs)
      by (apply Z.mul_le_mono_nonneg_r; lia).
    lia. }
  split.
  { intros Hno. destruct (Hnone Hno) as [-> Hm].
    split; [ lia | ].
    destruct Hm as [-> | Hclip]; [ left; reflexivity | right; exact Hclip ]. }
  split.
  { intros Hz.
    assert (m = 0).
    { destruct (Z.eq_dec m 0) as [Hm | Hm]; [ exact Hm | ].
      assert (1 * bs <= m * bs)
        by (apply Z.mul_le_mono_nonneg_r; lia).
      lia. }
    specialize (Hm0 H). subst. lia. }
  intros Hs Hle. specialize (Hstraddle Hs Hle).
  replace ((first0 + k) * bs + m * bs) with ((first0 + k + m) * bs) by lia.
  apply Z.mul_le_mono_nonneg_r; lia.
Qed.

Lemma adjust_read_range_spec_witness :
  let i := mk_inode 600 9 in
  let f := mk_folio 0 0 true false false false false
                    (Some (mk_iop 0 0 0)) [] in
  exists pos' poff plen,
    iomap_adjust_read_range i f 0 4096 = Some (pos', poff, plen)
    /\ (offset_in_folio f 0 <= poff /\ 0 <= plen
        /\ poff + plen
           <= offset_in_folio f 0
              + Z.min (folio_size f - offset_in_folio f 0) 4096)
    /\ pos' - 0 = poff - offset_in_folio f 0
    /\ (block_aligned i poff /\ block_aligned i plen)
    /\ (forall iop,
          to_iomap_page f = Some iop ->
          (forall b,
              offset_in_folio f 0 / 2 ^ i_blkbits i <= b
                < poff / 2 ^ i_blkbits i ->
              test_bit b (uptodate iop) = true)
          /\ (forall b,
                 poff / 2 ^ i_blkbits i <= b
                   < (poff + plen) / 2 ^ i_blkbits i ->
                 test_bit b (uptodate iop) = false)
          /\ (poff + plen
              < offset_in_folio f 0
                + Z.min (folio_size f - offset_in_folio f 0) 4096 ->
              test_bit ((poff + plen) / 2 ^ i_blkbits i) (uptodate iop)
              = true
              \/ (straddles_eof i 0 4096
                  /\ (poff + plen) / 2 ^ i_blkbits i = eof_block i f + 1)))
    /\ (to_iomap_page f = None ->
        poff = offset_in_folio f 0
        /\ (plen = Z.min (folio_size f - offset_in_folio f 0) 4096
            \/ (straddles_eof i 0 4096
                /\ (poff + plen) / 2 ^ i_blkbits i = eof_block i f + 1)))
    /\ (plen = 0 ->
        poff = offset_in_folio f 0
               + Z.min (folio_size f - offset_in_folio f 0) 4096)
    /\ (straddles_eof i 0 4096 ->
        poff / 2 ^ i_blkbits i <= eof_block i f ->
        poff + plen <= (eof_block i f + 1) * 2 ^ i_blkbits i).
Proof.
  apply (adjust_read_range_spec
           (mk_inode 600 9)
           (mk_folio 0 0 true false false false false
                     (Some (mk_iop 0 0 0)) []) 0 4096); concrete.
Defined.

(** C3 (as stated) fails.  File of 600 bytes in 512-byte blocks, blocks 0
    and 1 of the folio valid, request for the whole folio: the request
    straddles end-of-file, the last file byte lies in block 1, and the span
    returned is blocks 2 to 7, all of them beyond that block.  And for a
    request that is not block-aligned (100 bytes at offset 100, block 0
    valid) the returned length wraps around: the span is not inside the
    request. *)
Lemma adjust_read_range_keeps_blocks_past_eof :
  let i := mk_inode 600 9 in
  let f := mk_folio 0 0 true false false false false
                    (Some (mk_iop 0 0 3)) [] in
  straddles_eof i 0 4096
  /\ eof_block i f = 1
  /\ iomap_adjust_read_range i f 0 4096 = Some (1024, 1024, 3072)
  /\ iomap_adjust_read_range
       (mk_inode 100000 9)
       (mk_folio 0 0 true false false false false (Some (mk_iop 0 0 1)) [])
       100 100
     = Some (612, 612, 2 ^ 64 - 412).
Proof. concrete. Qed.

(** ** Write-end *)

Lemma set_range_uptodate_valid i f off len :
  geometry_ok i f -> in_folio_range f (off, len) ->
  FolioError f = false ->
  match private (iomap_set_range_uptodate i f off len) with
  | Some iop' => range_valid i (uptodate iop') off len
  | None => FolioUptodate (iomap_set_range_uptodate i f off len) = true
  end.
Proof.
  intros Hg Hr Herr. unfold iomap_set_range_uptodate. rewrite Herr.
  destruct (to_iomap_page f) as [iop | ] eqn:Hiop.
  - rewrite iop_set_range_marked. unfold folio_marked.
    assert (Hv : range_valid i (Z.lor (uptodate iop) (range_bits i (off, len)))
                             off len).
    { intros b Hb. destruct Hg as [Hbits Hord].
      destruct Hr as [Hoff [Hlen Hin]]. simpl in Hoff, Hlen, Hin.
      rewrite !shiftr_block in Hb by lia.
      assert (0 <= off / 2 ^ i_blkbits i)
        by (apply Z.div_pos; [ lia | apply Z.pow_pos_nonneg; lia ]).
      unfold test_bit. rewrite Z.lor_spec.
      change (Z.testbit (range_bits i (off, len)) b)
        with (test_bit b (range_bits i (off, len))).
      rewrite (test_bit_range_bits i f (off, len) b); try lia.
      - simpl fst. simpl snd.
        destruct (Z.leb_spec (off / 2 ^ i_blkbits i) b); [ | lia ].
        destruct (Z.leb_spec b ((off + len - 1) / 2 ^ i_blkbits i));
          [ | lia ].
        apply orb_true_r.
      - split; assumption.
      - repeat split; assumption. }
    now destruct (bitmap_full _ _).
  - unfold to_iomap_page in Hiop. simpl. now rewrite Hiop.
Qed.

(** C2 (amended): a short write ([copied < len]) on a folio that is not
    uptodate returns 0 and leaves the folio, bitmap and dirty state
    included, as it was.  Otherwise [__iomap_write_end] returns [copied] and
    marks the folio dirty; it marks the blocks of the written range valid
    when the folio's error flag is clear, and leaves bitmap and uptodate
    flag as they were when the error flag is set. *)
Theorem write_end_torn_or_marked
    (i : inode) (f : folio) (pos len copied : Z) :
  geometry_ok i f ->
  in_folio_range f (offset_in_folio f pos, len) ->
  0 <= copied <= len ->
  (copied < len /\ FolioUptodate f = false ->
   __iomap_write_end i pos len copied f = (0, f))
  /\ (copied = len \/ FolioUptodate f = true ->
      fst (__iomap_write_end i pos len copied f) = copied
      /\ PG_dirty (snd (__iomap_write_end i pos len copied f)) = true
      /\ (FolioError f = true ->
          snd (__iomap_write_end i pos len copied f)
          = iomap_set_page_dirty f)
      /\ (FolioError f = false ->
          match private (snd (__iomap_write_end i pos len copied f)) with
          | Some iop' =>
            range_valid i (uptodate iop') (offset_in_folio f pos) len
          | None =>
            FolioUptodate (snd (__iomap_write_end i pos len copied f)) = true
          end)).
Proof.
  intros Hg Hr Hcopied. unfold __iomap_write_end. split.
  - intros [Hlt Hup]. rewrite Hup.
    destruct (Z.ltb_spec copied len); [ reflexivity | lia ].
  - intros Hfull.
    assert (Hcond : (copied <? len) && negb (FolioUptodate f) = false).
    { destruct Hfull as [-> | ->].
      - now rewrite Z.ltb_irrefl.
      - apply andb_false_r. }
    rewrite Hcond. simpl.
    split; [ reflexivity | ]. split; [ reflexivity | ]. split.
    + intros Herr. now rewrite set_range_uptodate_on_error.
    + intros Herr.
      apply (set_range_uptodate_valid i f _ _ Hg Hr Herr).
Qed.

Lemma write_end_torn_or_marked_witness :
  let i := mk_inode 4096 9 in
  let f := mk_folio 0 0 true false false false false
                    (Some (mk_iop 0 0 0)) [] in
  (50 < 100 /\ FolioUptodate f = false ->
   __iomap_write_end i 100 100 50 f = (0, f))
  /\ (50 = 100 \/ FolioUptodate f = true ->
      fst (__iomap_write_end i 100 100 50 f) = 50
      /\ PG_dirty (snd (__iomap_write_end i 100 100 50 f)) = true
      /\ (FolioError f = true ->
          snd (__iomap_write_end i 100 100 50 f) = iomap_set_page_dirty f)
      /\ (FolioError f = false ->
          match private (snd (__iomap_write_end i 100 100 50 f)) with
          | Some iop' =>
            range_valid i (uptodate iop') (offset_in_folio f 100) 100
          | None =>
            FolioUptodate (snd (__iomap_write_end i 100 100 50 f)) = true
          end)).
Proof.
  apply (write_end_torn_or_marked
           (mk_inode 4096 9)
           (mk_folio 0 0 true false false false false
                     (Some (mk_iop 0 0 0)) []) 100 100 50); concrete.
Defined.

(** C2 (as stated) fails: a complete write ([copied = len]) into a folio
    whose error flag is set is reported in full and dirties the folio, yet
    the block it wrote stays unmarked in the bitmap. *)
Lemma write_end_on_error_folio_marks_nothing :
  let i := mk_inode 4096 9 in
  let f := mk_folio 0 0 true false false true false
                    (Some (mk_iop 0 0 0)) [] in
  __iomap_write_end i 0 512 512 f
  = (512, mk_folio 0 0 true true false true false (Some (mk_iop 0 0 0)) [])
  /\ test_bit 0 (uptodate (mk_iop 0 0 0)) = false
  /\ ~ range_valid i (uptodate (mk_iop 0 0 0)) 0 512.
Proof.
  split; [ reflexivity | ]. split; [ reflexivity | ].
  intros H. specialize (H 0). simpl in H.
  assert (Hb : test_bit 0 0 = true) by (apply H; concrete).
  discriminate Hb.
Qed.

Lemma land_lor_same a b : Z.land (Z.lor a b) b = b.
Proof.
  apply Z.bits_inj'. intros n Hn.
  rewrite Z.land_spec, Z.lor_spec.
  destruct (Z.testbit a n), (Z.testbit b n); reflexivity.
Qed.

(** C6 (amended): when [iomap_write_end] returns, the folio is unlocked,
    whether the write was complete, short or discarded; and with [ret] the
    number of bytes it reports (0 for a discarded torn write, [copied]
    otherwise on the engine's own paths), the recorded file size becomes
    [pos + ret] and the size-changed flag is set exactly when [pos + ret]
    exceeds the recorded size, which otherwise stays as it is. *)
Theorem write_end_size_and_unlock
    (IOMAP_F_BUFFER_HEAD IOMAP_F_SIZE_CHANGED : Z)
    (block_write_end : Z -> Z -> Z -> folio -> Z * folio)
    (i : inode) (f : folio) (pos len copied : Z) (m srcmap : iomap)
    (ret : Z) (i' : inode) (f' : folio) (m' : iomap) (ev : list event) :
  0 <= pos -> 0 <= copied <= len -> pos + len < 2 ^ 63 ->
  0 <= i_size i < 2 ^ 63 ->
  (forall p l c g, 0 <= c -> 0 <= fst (block_write_end p l c g) <= c) ->
  iomap_write_end IOMAP_F_BUFFER_HEAD IOMAP_F_SIZE_CHANGED block_write_end
                  i pos len copied f m srcmap
  = Some (ret, i', f', m', ev) ->
  PG_locked f' = false
  /\ (i_size i < pos + ret ->
      i_size i' = pos + ret
      /\ Z.land (flags m') IOMAP_F_SIZE_CHANGED = IOMAP_F_SIZE_CHANGED)
  /\ (pos + ret <= i_size i -> i' = i /\ flags m' = flags m)
  /\ (iomap_type_eqb (type srcmap) IOMAP_INLINE = false ->
      Z.land (flags srcmap) IOMAP_F_BUFFER_HEAD = 0 ->
      ret = if (copied <? len) && negb (FolioUptodate f) then 0 else copied).
Proof.
  intros Hpos Hcopied Hend Hsize Hbwe. unfold iomap_write_end.
  set (written := if iomap_type_eqb (type srcmap) IOMAP_INLINE then _ else _).
  assert (Hw : match written with
               | Some (r, _, m1, _) =>
                 0 <= r <= copied /\ flags m1 = flags m
                 /\ (iomap_type_eqb (type srcmap) IOMAP_INLINE = false ->
                     Z.land (flags srcmap) IOMAP_F_BUFFER_HEAD = 0 ->
                     r = if (copied <? len) && negb (FolioUptodate f)
                         then 0 else copied)
               | None => True
               end).
  { unfold written.
    destruct (iomap_type_eqb (type srcmap) IOMAP_INLINE).
    - unfold iomap_write_end_inline.
      destruct (PAGE_SIZE - inline_data_off m <? u64 (pos + copied));
        [ exact I | ].
      split; [ lia | ]. split; [ reflexivity | discriminate ].
    - destruct (Z.eqb_spec (Z.land (flags srcmap) IOMAP_F_BUFFER_HEAD) 0)
        as [Hbh | Hbh]; simpl.
      + unfold __iomap_write_end.
        destruct ((copied <? len) && negb (FolioUptodate f)); simpl;
          (split; [ lia | ]; split; reflexivity).
      + specialize (Hbwe pos len copied f ltac:(lia)).
        destruct (block_write_end pos len copied f) as [r g].
        simpl in Hbwe. split; [ lia | ]. split; [ reflexivity | ].
        intros _ H. contradiction. }
  destruct written as [ [ [ [r f1] m1] ev1] | ]; [ | discriminate ].
  destruct Hw as [Hr [Hfl Hret]].
  intros H. injection H as <- <- <- <- <-.
  rewrite (u64_small (i_size i)) by lia.
  rewrite (u64_small (pos + r)) by lia.
  split; [ reflexivity | ].
  destruct (Z.ltb_spec (i_size i) (pos + r)) as [Hgrow | Hkeep].
  - split; [ | split; [ intros; lia | exact Hret ] ].
    intros _. simpl. rewrite s64_small by lia.
    split; [ reflexivity | apply land_lor_same ].
  - split; [ intros; lia | ]. split; [ | exact Hret ].
    intros _. split; [ reflexivity | exact Hfl ].
Qed.

Lemma write_end_size_and_unlock_witness :
  let i := mk_inode 10 9 in
  let f := mk_folio 0 0 true false false false false
                    (Some (mk_iop 0 0 0)) [] in
  let m := mk_iomap 8192 0 65536 IOMAP_MAPPED 0 1 [] 0 false in
  let f' := mk_folio 0 0 false true false false false
                     (Some (mk_iop 0 0 1)) [] in
  let m' := mk_iomap 8192 0 65536 IOMAP_MAPPED 256 1 [] 0 false in
  PG_locked f' = false
  /\ (i_size i < 0 + 100 ->
      i_size (mk_inode 100 9) = 0 + 100 /\ Z.land (flags m') 256 = 256)
  /\ (0 + 100 <= i_size i -> mk_inode 100 9 = i /\ flags m' = flags m)
  /\ (iomap_type_eqb (type m) IOMAP_INLINE = false ->
      Z.land (flags m) 16 = 0 ->
      100 = if (100 <? 100) && negb (FolioUptodate f) then 0 else 100).
Proof.
  apply (write_end_size_and_unlock 16 256 (fun _ _ c g => (c, g))
           (mk_inode 10 9)
           (mk_folio 0 0 true false false false false
                     (Some (mk_iop 0 0 0)) [])
           0 100 100
           (mk_iomap 8192 0 65536 IOMAP_MAPPED 0 1 [] 0 false)
           (mk_iomap 8192 0 65536 IOMAP_MAPPED 0 1 [] 0 false)
           100 (mk_inode 100 9)
           (mk_folio 0 0 false true false false false
                     (Some (mk_iop 0 0 1)) [])
           (mk_iomap 8192 0 65536 IOMAP_MAPPED 256 1 [] 0 false)
           [EvPutFolio]);
    try (intros p l c g Hc; simpl; lia); concrete.
Defined.

(** C6 (as stated) fails: a torn write of 50 of 100 bytes at offset 0 of
    a 10-byte file has [pos + copied = 50] beyond the recorded size, and
    [iomap_write_end] reports 0 bytes, keeps the size at 10 and does not set
    the size-changed flag (the folio is unlocked). *)
Lemma torn_write_does_not_extend_size :
  let i := mk_inode 10 9 in
  let f := mk_folio 0 0 true false false false false
                    (Some (mk_iop 0 0 0)) [] in
  let m := mk_iomap 8192 0 65536 IOMAP_MAPPED 0 1 [] 0 false in
  i_size i < 0 + 50
  /\ iomap_write_end 16 256 (fun _ _ c g => (c, g)) i 0 100 50 f m m
     = Some (0, i, unlock_folio f, m,
             [EvPutFolio; EvTruncatePagecacheRange 10 100]).
Proof. concrete. Qed.

(** ** Ioend merging *)

Lemma ioend_can_merge_iff IOMAP_F_SHARED ioend next :
  ioend_in_file ioend -> ioend_in_file next ->
  iomap_ioend_can_merge IOMAP_F_SHARED ioend next = true <->
  io_status ioend = io_status next
  /\ same_shared_state IOMAP_F_SHARED ioend next
  /\ same_unwritten_state ioend next
  /\ io_offset next = io_offset ioend + io_size ioend.
Proof.
  intros [Ho [Hs He]] [Ho' [Hs' He']].
  unfold iomap_ioend_can_merge, same_shared_state, same_unwritten_state.
  rewrite (u64_small (io_offset ioend + io_size ioend)) by lia.
  rewrite (u64_small (io_offset next)) by lia.
  destruct (Z.eqb_spec (io_status ioend) (io_status next)) as [Hst | Hst];
    simpl; [ | split; [ discriminate | intros [H _]; contradiction ] ].
  destruct (Z.eqb_spec (Z.lxor (Z.land (io_flags ioend) IOMAP_F_SHARED)
                               (Z.land (io_flags next) IOMAP_F_SHARED)) 0)
    as [Hsh | Hsh]; simpl.
  - apply Z.lxor_eq in Hsh.
    destruct (iomap_type_eqb (io_type ioend) IOMAP_UNWRITTEN),
             (iomap_type_eqb (io_type next) IOMAP_UNWRITTEN); simpl;
      try (split; [ discriminate | intros [_ [_ [H _]]]; discriminate ]);
      (destruct (Z.eqb_spec (io_offset ioend + io_size ioend)
                            (io_offset next)) as [Hoff | Hoff]; simpl;
       [ split; [ intros _; repeat split; auto | reflexivity ]
       | split; [ discriminate | intros [_ [_ [_ H]]]; lia ] ]).
  - split; [ discriminate | ].
    intros [_ [H _]]. rewrite H, Z.lxor_nilpotent in Hsh. contradiction.
Qed.

(** C4: for two ioends that cover byte ranges of a file,
    [iomap_ioend_can_merge] holds exactly when they have the same completion
    status, the same SHARED flag state, the same Unwritten-type state, and
    the second starts at the first's offset plus its size.  When it holds,
    [iomap_ioend_try_merge] moves the second onto the first's chain and the
    first's size becomes the sum of the two sizes; when it does not, both
    the ioend and the list of further ioends are left as they were. *)
Theorem ioend_merge_spec
    (IOMAP_F_SHARED : Z) (ioend next : iomap_ioend)
    (merge_private : option (iomap_ioend -> iomap_ioend -> option Z)) :
  ioend_in_file ioend -> ioend_in_file next ->
  (iomap_ioend_can_merge IOMAP_F_SHARED ioend next = true <->
   io_status ioend = io_status next
   /\ same_shared_state IOMAP_F_SHARED ioend next
   /\ same_unwritten_state ioend next
   /\ io_offset next = io_offset ioend + io_size ioend)
  /\ (iomap_ioend_can_merge IOMAP_F_SHARED ioend next = true ->
      exists merged,
        iomap_ioend_try_merge IOMAP_F_SHARED ioend [next] merge_private
        = (merged, [next], [])
        /\ io_size merged = io_size ioend + io_size next
        /\ io_offset merged = io_offset ioend
        /\ io_type merged = io_type ioend
        /\ io_flags merged = io_flags ioend
        /\ io_status merged = io_status ioend)
  /\ (iomap_ioend_can_merge IOMAP_F_SHARED ioend next = false ->
      forall more,
        iomap_ioend_try_merge IOMAP_F_SHARED ioend (next :: more)
                              merge_private
        = (ioend, [], next :: more)).
Proof.
  intros Hin Hin'.
  split; [ now apply ioend_can_merge_iff | ].
  unfold iomap_ioend_try_merge. split.
  - intros Hcan.
    pose proof (proj1 (ioend_can_merge_iff IOMAP_F_SHARED ioend next
                         Hin Hin') Hcan) as [_ [_ [_ Hoff]]].
    destruct Hin as [Ho [Hs He]]. destruct Hin' as [Ho' [Hs' He']].
    simpl. rewrite Hcan. simpl.
    rewrite (u64_small (io_size ioend + io_size next)) by lia.
    destruct (io_private next) as [p | ]; [ destruct merge_private | ];
      eexists; (split; [ reflexivity | ]); simpl; repeat split; reflexivity.
  - intros Hcan more. simpl. now rewrite Hcan.
Qed.

Lemma ioend_merge_spec_witness :
  let ioend := mk_ioend IOMAP_MAPPED 0 4096 0 None 0 in
  let next := mk_ioend IOMAP_MAPPED 0 4096 4096 None 0 in
  (iomap_ioend_can_merge 4 ioend next = true <->
   io_status ioend = io_status next
   /\ same_shared_state 4 ioend next
   /\ same_unwritten_state ioend next
   /\ io_offset next = io_offset ioend + io_size ioend)
  /\ (iomap_ioend_can_merge 4 ioend next = true ->
      exists merged,
        iomap_ioend_try_merge 4 ioend [next] None = (merged, [next], [])
        /\ io_size merged = io_size ioend + io_size next
        /\ io_offset merged = io_offset ioend
        /\ io_type merged = io_type ioend
        /\ io_flags merged = io_flags ioend
        /\ io_status merged = io_status ioend)
  /\ (iomap_ioend_can_merge 4 ioend next = false ->
      forall more,
        iomap_ioend_try_merge 4 ioend (next :: more) None
        = (ioend, [], next :: more)).
Proof.
  apply (ioend_merge_spec 4
           (mk_ioend IOMAP_MAPPED 0 4096 0 None 0)
           (mk_ioend IOMAP_MAPPED 0 4096 4096 None 0) None); concrete.
Defined.

(** The spec's merge scenario: batches for [0,4096) and [4096,8192) with
    equal type and flags merge into one of length 8192; a gap or an
    Unwritten/Mapped mismatch prevents the merge. *)
Example ioend_merge_scenario :
  let a := mk_ioend IOMAP_MAPPED 0 4096 0 None 0 in
  let b := mk_ioend IOMAP_MAPPED 0 4096 4096 None 0 in
  let gap := mk_ioend IOMAP_MAPPED 0 4096 8192 None 0 in
  let unwritten := mk_ioend IOMAP_UNWRITTEN 0 4096 4096 None 0 in
  iomap_ioend_try_merge 4 a [b] None
  = (mk_ioend IOMAP_MAPPED 0 8192 0 None 0, [b], [])
  /\ iomap_ioend_try_merge 4 a [gap] None = (a, [], [gap])
  /\ iomap_ioend_try_merge 4 a [unwritten] None = (a, [], [unwritten]).
Proof. repeat split. Qed.

(** ** iomap_readpage *)

Section ReadPage.

Variable iomap_apply :
  inode -> Z -> Z -> iomap_readpage_ctx -> Z * iomap_readpage_ctx.

Lemma readpage_loop_ends i f :
  folio_size f < 2 ^ 63 ->
  forall fuel poff c,
    0 <= poff ->
    (Z.to_nat (folio_size f - poff) <= fuel)%nat ->
    exists c',
      iomap_readpage_loop iomap_apply fuel i f poff c = Some c'
      /\ (readpage_apply_failed iomap_apply fuel i f poff c = true ->
          FolioError (cur_folio c') = true).
Proof.
  intros Hfs.
  induction fuel as [ | n IH ]; intros poff c Hpoff Hfuel.
  - simpl. destruct (Z.ltb_spec poff (folio_size f)); [ lia | ].
    exists c. split; [ reflexivity | discriminate ].
  - simpl. destruct (Z.ltb_spec poff (folio_size f)) as [Hlt | Hge].
    + destruct (iomap_apply i (s64 (folio_offset f + poff))
                            (s64 (folio_size f - poff)) c) as [r c1].
      pose proof (s64_range r) as Hr.
      destruct (Z.leb_spec (s64 r) 0) as [Hfail | Hok].
      * eexists. split; [ reflexivity | ]. intros _. reflexivity.
      * rewrite (u64_small (poff + s64 r)) by lia.
        apply IH; lia.
    + exists c. split; [ reflexivity | discriminate ].
Qed.

End ReadPage.

(** C9: [iomap_readpage] returns, and what it returns is 0, whatever the
    extent iterator and the actor did; when one of the [iomap_apply] calls
    of its loop fails (returns zero or less), the context it leaves has the
    folio's error flag set. *)
Theorem readpage_returns_zero
    (iomap_apply :
       inode -> Z -> Z -> iomap_readpage_ctx -> Z * iomap_readpage_ctx)
    (i : inode) (f : folio) :
  0 <= order f <= 19 ->
  exists c,
    iomap_readpage iomap_apply i f = Some (0, c)
    /\ (readpage_apply_failed iomap_apply (Z.to_nat (folio_size f)) i f 0
                              (mk_ctx f false None false []) = true ->
        FolioError (cur_folio c) = true).
Proof.
  intros Hord. unfold iomap_readpage.
  pose proof (folio_size_bounds f Hord) as Hfs.
  destruct (readpage_loop_ends iomap_apply i f ltac:(lia)
              (Z.to_nat (folio_size f)) 0
              (mk_ctx f false None false []))
    as [c1 [Hrun Herr]]; try lia.
  rewrite Hrun.
  destruct (ctx_bio c1) as [b | ]; eexists; (split; [ reflexivity | ]);
    exact Herr.
Qed.

Lemma readpage_returns_zero_witness :
  let i := mk_inode 4096 9 in
  let f := mk_folio 0 0 true false false false false None [] in
  let failing :=
    fun (_ : inode) (_ _ : Z) (c : iomap_readpage_ctx) => (-5, c) in
  exists c,
    iomap_readpage failing i f = Some (0, c)
    /\ (readpage_apply_failed failing (Z.to_nat (folio_size f)) i f 0
                              (mk_ctx f false None false []) = true ->
        FolioError (cur_folio c) = true).
Proof.
  apply (readpage_returns_zero
           (fun (_ : inode) (_ _ : Z) (c : iomap_readpage_ctx) => (-5, c))
           (mk_inode 4096 9)
           (mk_folio 0 0 true false false false false None [])).
  concrete.
Defined.

(** A failing extent iterator: 0 is returned, the folio is flagged with an
    error and unlocked. *)
Example readpage_failure_sets_error :
  iomap_readpage
    (fun (_ : inode) (_ _ : Z) (c : iomap_readpage_ctx) => (-5, c))
    (mk_inode 4096 9)
    (mk_folio 0 0 true false false false false None [])
  = Some (0, mk_ctx (mk_folio 0 0 false false false true false None [])
                    false None false []).
Proof. reflexivity. Qed.

(** ** The read actor *)

Lemma page_create_frame i f :
  let f1 := snd (iomap_page_create i f) in
  fst (iomap_page_create i f) = to_iomap_page f1
  /\ order f1 = order f /\ index f1 = index f /\ data f1 = data f
  /\ PG_error f1 = PG_error f /\ PG_uptodate f1 = PG_uptodate f
  /\ read_pending f1 = read_pending f.
Proof.
  unfold iomap_page_create, read_pending.
  destruct (to_iomap_page f) as [p | ] eqn:Hp; simpl.
  - rewrite Hp. repeat split; reflexivity.
  - destruct (i_blocks_per_folio i f <=? 1); simpl.
    + rewrite Hp. repeat split; reflexivity.
    + repeat split; reflexivity.
Qed.

Lemma set_range_uptodate_frame i f off len :
  data (iomap_set_range_uptodate i f off len) = data f
  /\ read_pending (iomap_set_range_uptodate i f off len) = read_pending f
  /\ order (iomap_set_range_uptodate i f off len) = order f.
Proof.
  unfold iomap_set_range_uptodate, read_pending.
  destruct (FolioError f); [ repeat split; reflexivity | ].
  destruct (to_iomap_page f) as [p | ] eqn:Hp.
  - unfold iomap_iop_set_range_uptodate.
    destruct (bitmap_full _ _); simpl; repeat split; reflexivity.
  - unfold to_iomap_page in *. simpl. rewrite Hp.
    repeat split; reflexivity.
Qed.

Lemma zero_user_zeroes d poff plen k :
  0 <= poff -> 0 < plen -> poff + plen <= Z.of_nat (List.length d) ->
  poff <= k < poff + plen ->
  nth_error (zero_user d poff plen) (Z.to_nat k) = Some x00.
Proof.
  intros Hpoff Hplen Hlen Hk.
  unfold zero_user, zero_user_segments, zero_user_segment.
  destruct (Z.ltb_spec poff (poff + plen)); [ | lia ].
  change (0 <? 0) with false. cbv iota.
  unfold write_bytes.
  replace (poff + plen - poff) with plen by lia.
  assert (Hfirst : List.length (firstn (Z.to_nat poff) d) = Z.to_nat poff).
  { apply firstn_length_le. lia. }
  rewrite nth_error_app2 by lia.
  rewrite Hfirst.
  rewrite nth_error_app1 by (rewrite repeat_length; lia).
  apply nth_error_repeat. lia.
Qed.

Lemma needs_zeroing_iff NEW i m p :
  iomap_block_needs_zeroing NEW i m p = true <->
  type m <> IOMAP_MAPPED \/ Z.land (flags m) NEW <> 0 \/ i_size i <= p.
Proof.
  unfold iomap_block_needs_zeroing, i_size_read.
  rewrite !orb_true_iff, !negb_true_iff, Z.leb_le, Z.eqb_neq.
  assert (Hty : iomap_type_eqb (type m) IOMAP_MAPPED = false
                <-> type m <> IOMAP_MAPPED)
    by (destruct (type m); simpl; split; congruence).
  rewrite Hty. tauto.
Qed.

Lemma offset_in_folio_range f p :
  0 <= order f -> 0 <= offset_in_folio f p < folio_size f.
Proof.
  intros Ho. rewrite offset_in_folio_mod by lia.
  apply Z.mod_pos_bound. rewrite folio_size_pow by lia.
  apply Z.pow_pos_nonneg; lia.
Qed.

Section ReadActor.

Variable IOMAP_F_NEW : Z.
Variable BIO_MAX_PAGES : Z.
Variable bio_alloc_succeeds : bool.

Lemma readpage_actor_inline i pos length c m ret c' :
  type m = IOMAP_INLINE ->
  iomap_readpage_actor IOMAP_F_NEW BIO_MAX_PAGES bio_alloc_succeeds
                       i pos length c m = Some (ret, c') ->
  ret = PAGE_SIZE /\ no_read_issued c c'.
Proof.
  intros Hty. unfold iomap_readpage_actor.
  pose proof (page_create_frame i (cur_folio c)) as Hframe.
  destruct (iomap_page_create i (cur_folio c)) as [iop f1].
  simpl in Hframe. destruct Hframe as [_ [_ [_ [_ [_ [_ Hpend]]]]]].
  rewrite Hty. simpl.
  unfold iomap_read_inline_data.
  destruct (FolioUptodate f1).
  - intros H. injection H as <- <-.
    split; [ reflexivity | ]. repeat split; assumption.
  - destruct (negb (index f1 =? 0)); [ discriminate | ].
    destruct (FolioMulti f1); [ discriminate | ].
    destruct (PAGE_SIZE - inline_data_off m <? u64 (i_size_read i));
      [ discriminate | ].
    intros H. injection H as <- <-.
    split; [ reflexivity | ]. repeat split; assumption.
Qed.

Lemma read_inline_data_copies i f m :
  0 <= i_size i < 2 ^ 63 ->
  Z.of_nat (List.length (data f)) = PAGE_SIZE ->
  FolioUptodate f = false ->
  index f = 0 -> order f = 0 ->
  0 <= inline_data_off m ->
  i_size i <= PAGE_SIZE - inline_data_off m ->
  i_size i <= Z.of_nat (List.length (inline_data m)) ->
  iomap_read_inline_data i f m
  = Some (SetFolioUptodate
            (folio_with_data f
               (firstn (Z.to_nat (i_size i)) (inline_data m)
                ++ repeat x00 (Z.to_nat (PAGE_SIZE - i_size i))))).
Proof.
  intros Hsz Hdata Hup Hidx Hord Hoff Hfit Hpay.
  unfold iomap_read_inline_data, FolioMulti, i_size_read.
  rewrite Hup, Hidx, Hord. cbn [Z.eqb negb].
  assert (Hu : u64 (i_size i) = i_size i).
  { unfold u64. apply Z.mod_small. lia. }
  rewrite Hu.
  replace (PAGE_SIZE - inline_data_off m <? i_size i) with false
    by (symmetry; apply Z.ltb_ge; lia).
  do 3 f_equal.
  set (P := firstn (Z.to_nat (i_size i)) (inline_data m)).
  assert (HP : List.length P = Z.to_nat (i_size i)).
  { unfold P. rewrite length_firstn. apply Nat.min_l. lia. }
  unfold write_bytes. change (Z.to_nat 0) with 0%nat.
  cbn [firstn app Nat.add].
  rewrite firstn_app, HP, Nat.sub_diag. cbn [firstn].
  rewrite app_nil_r, <- HP, firstn_all, HP.
  rewrite repeat_length.
  rewrite skipn_all2; [ now rewrite app_nil_r | ].
  rewrite length_app, length_skipn, HP.
  unfold PAGE_SIZE in *. lia.
Qed.

Lemma readpage_actor_inline_copy i pos length c m :
  0 <= i_size i < 2 ^ 63 ->
  Z.of_nat (List.length (data (cur_folio c))) = folio_size (cur_folio c) ->
  type m = IOMAP_INLINE ->
  (FolioUptodate (cur_folio c) = true ->
   iomap_readpage_actor IOMAP_F_NEW BIO_MAX_PAGES bio_alloc_succeeds
                        i pos length c m
   = Some (PAGE_SIZE,
           ctx_with_folio c (snd (iomap_page_create i (cur_folio c)))))
  /\ (FolioUptodate (cur_folio c) = false ->
      index (cur_folio c) = 0 -> order (cur_folio c) = 0 ->
      0 <= inline_data_off m ->
      i_size i <= PAGE_SIZE - inline_data_off m ->
      i_size i <= Z.of_nat (List.length (inline_data m)) ->
      exists c',
        iomap_readpage_actor IOMAP_F_NEW BIO_MAX_PAGES bio_alloc_succeeds
                             i pos length c m
        = Some (PAGE_SIZE, c')
        /\ no_read_issued c c'
        /\ data (cur_folio c')
           = firstn (Z.to_nat (i_size i)) (inline_data m)
             ++ repeat x00 (Z.to_nat (PAGE_SIZE - i_size i))
        /\ FolioUptodate (cur_folio c') = true).
Proof.
  intros Hsz Hdata Hty. unfold iomap_readpage_actor.
  pose proof (page_create_frame i (cur_folio c)) as Hframe.
  destruct (iomap_page_create i (cur_folio c)) as [iop f1].
  simpl in Hframe. destruct Hframe as [_ [Hord [Hidx [Hdat [_ [Hup Hpend]]]]]].
  rewrite Hty. cbn [iomap_type_eqb snd]. split.
  - intros Hu. unfold iomap_read_inline_data, FolioUptodate in *.
    now rewrite Hup, Hu.
  - intros Hu Hi Ho Hoff Hfit Hpay.
    rewrite (read_inline_data_copies i f1 m Hsz); try assumption;
      try congruence.
    + eexists. split; [ reflexivity | ].
      split; [ repeat split; assumption | ]. split; reflexivity.
    + rewrite Hdat, Hdata. unfold folio_size. rewrite Ho. reflexivity.
    + unfold FolioUptodate in *. congruence.
Qed.

Lemma readpage_actor_extent i pos length c m :
  blocks_in_folio i (cur_folio c) ->
  Z.of_nat (List.length (data (cur_folio c))) = folio_size (cur_folio c) ->
  0 <= pos -> 0 < length -> pos + length < 2 ^ 63 ->
  block_aligned i pos -> block_aligned i length ->
  0 <= i_size i < 2 ^ 63 ->
  type m <> IOMAP_INLINE ->
  exists pos' poff plen c',
    iomap_adjust_read_range i (snd (iomap_page_create i (cur_folio c)))
                            pos length = Some (pos', poff, plen)
    /\ pos <= pos' /\ 0 <= plen
    /\ iomap_readpage_actor IOMAP_F_NEW BIO_MAX_PAGES bio_alloc_succeeds
                            i pos length c m
       = Some (pos' - pos + plen, c')
    /\ (type m <> IOMAP_MAPPED \/ Z.land (flags m) IOMAP_F_NEW <> 0
        \/ i_size i <= pos' ->
        no_read_issued c c'
        /\ zero_filled (cur_folio c') poff plen
        /\ (0 < plen -> FolioError (cur_folio c) = false ->
            folio_range_valid i (cur_folio c') poff plen))
    /\ (type m = IOMAP_MAPPED -> Z.land (flags m) IOMAP_F_NEW = 0 ->
        pos' < i_size i -> 0 < plen ->
        cur_folio_in_bio c' = true
        /\ ctx_bio c' <> None
        /\ (to_iomap_page (cur_folio c') <> None ->
            read_pending (cur_folio c')
            = s32 (read_pending (cur_folio c) + plen))).
Proof.
  intros Hgeo Hdata Hpos Hlen Hend Hapos Halen Hisize Hty.
  unfold iomap_readpage_actor.
  pose proof (page_create_frame i (cur_folio c)) as Hframe.
  destruct (iomap_page_create i (cur_folio c)) as [iop f1].
  simpl in Hframe |- *.
  destruct Hframe as [Hiop [Horder [Hindex [Hdat [Herr [Hup Hpend]]]]]].
  assert (Hgeo1 : blocks_in_folio i f1)
    by (unfold blocks_in_folio in *; now rewrite Horder).
  assert (Hfs : folio_size f1 = folio_size (cur_folio c))
    by (unfold folio_size; now rewrite Horder).
  destruct (adjust_read_range_contained i f1 pos length Hgeo1 Hpos Hlen
              Hend Hapos Halen Hisize)
    as [pos' [poff [plen [Hadj [Hlo [Hnn [Hhi Hdelta]]]]]]].
  pose proof (offset_in_folio_range f1 pos ltac:(destruct Hgeo1; lia))
    as Hoff.
  assert (Hin : poff + plen <= folio_size f1) by lia.
  exists pos', poff, plen.
  replace (iomap_type_eqb (type m) IOMAP_INLINE) with false
    by (destruct (type m); simpl; congruence).
  rewrite Hadj.
  rewrite (s64_small (pos' - pos + plen)) by lia.
  destruct (Z.eqb_spec plen 0) as [Hz | Hnz].
  - exists (ctx_with_folio c f1).
    split; [ reflexivity | ]. split; [ lia | ]. split; [ lia | ].
    split; [ reflexivity | ]. split.
    + intros _. split; [ repeat split; assumption | ].
      split; [ intros k Hk; lia | intros; lia ].
    + intros; lia.
  - destruct (iomap_block_needs_zeroing IOMAP_F_NEW i m pos') eqn:Hzero.
    + eexists. split; [ reflexivity | ]. split; [ lia | ]. split; [ lia | ].
      split; [ reflexivity | ]. split.
      * intros _.
        set (zeroed := folio_with_data f1 (zero_user (data f1) poff plen)).
        destruct (set_range_uptodate_frame i zeroed poff plen)
          as [Hd [Hp Ho]].
        split; [ | split ].
        -- repeat split; try reflexivity.
           simpl. rewrite Hp. exact Hpend.
        -- intros k Hk. simpl. rewrite Hd. simpl.
           apply zero_user_zeroes; try lia.
           rewrite Hdat, Hdata. lia.
        -- intros Hpl Hnoerr. simpl. unfold folio_range_valid.
           apply (set_range_uptodate_valid i zeroed poff plen).
           ++ destruct Hgeo1 as [Ho1 Hb1]. split; simpl; lia.
           ++ repeat split; simpl; try lia.
              change (folio_size zeroed) with (folio_size f1). lia.
           ++ unfold FolioError in *. simpl. now rewrite Herr.
      * intros Hm Hnew Hbelow _.
        apply needs_zeroing_iff in Hzero.
        destruct Hzero as [H | [H | H]]; [ contradiction | contradiction | lia ].
    + assert (Hread : ~ (type m <> IOMAP_MAPPED
                         \/ Z.land (flags m) IOMAP_F_NEW <> 0
                         \/ i_size i <= pos')).
      { intros H. apply needs_zeroing_iff in H. congruence. }
      set (f2 := match iop with
                 | Some p =>
                   folio_with_private f1
                     (Some (iop_with_read_pending p
                              (s32 (read_bytes_pending p + plen))))
                 | None => f1
                 end).
      assert (Hf2 : to_iomap_page f2 <> None ->
                    read_pending f2 = s32 (read_pending (cur_folio c) + plen)).
      { unfold f2. rewrite <- Hpend. unfold read_pending. rewrite <- Hiop.
        destruct iop as [p | ]; simpl; [ reflexivity | ].
        rewrite <- Hiop. intros H. now contradiction H. }
      cbn [ctx_bio cur_folio rac submitted].
      assert (Hfresh :
        forall c0, cur_folio c0 = f2 -> cur_folio_in_bio c0 = true ->
          let c1 := ctx_bio_add_page
                      (readpage_new_bio BIO_MAX_PAGES bio_alloc_succeeds
                                        length c0 m (iomap_sector m pos'))
                      plen poff in
          cur_folio_in_bio c1 = true /\ ctx_bio c1 <> None
          /\ cur_folio c1 = f2).
      { intros c0 Hc0 Hb0. unfold ctx_bio_add_page, readpage_new_bio.
        simpl. repeat split; try assumption. discriminate. }
      destruct (ctx_bio c) as [b | ] eqn:Hbio.
      * destruct (bio_end_sector b =? iomap_sector m pos').
        -- destruct (__bio_try_merge_page b (index f2) plen poff)
             as [b' | ] eqn:Hmerge.
           ++ eexists. split; [ reflexivity | ]. split; [ lia | ].
              split; [ lia | ]. split; [ reflexivity | ].
              split; [ intros H; contradiction | ].
              intros _ _ _ _. simpl.
              split; [ reflexivity | ]. split; [ discriminate | exact Hf2 ].
           ++ destruct (bio_full b plen).
              ** eexists. split; [ reflexivity | ]. split; [ lia | ].
                 split; [ lia | ]. split; [ reflexivity | ].
                 split; [ intros H; contradiction | ].
                 intros _ _ _ _.
                 destruct (Hfresh (mk_ctx f2 true (Some b) (rac c)
                                          (submitted c)) eq_refl eq_refl)
                   as [H1 [H2 H3]].
                 split; [ exact H1 | ]. split; [ exact H2 | ].
                 now rewrite H3.
              ** eexists. split; [ reflexivity | ]. split; [ lia | ].
                 split; [ lia | ]. split; [ reflexivity | ].
                 split; [ intros H; contradiction | ].
                 intros _ _ _ _. simpl.
                 split; [ reflexivity | ].
                 split; [ discriminate | exact Hf2 ].
        -- eexists. split; [ reflexivity | ]. split; [ lia | ].
           split; [ lia | ]. split; [ reflexivity | ].
           split; [ intros H; contradiction | ].
           intros _ _ _ _.
           destruct (Hfresh (mk_ctx f2 true (Some b) (rac c)
                                    (submitted c)) eq_refl eq_refl)
             as [H1 [H2 H3]].
           split; [ exact H1 | ]. split; [ exact H2 | ].
           now rewrite H3.
      * eexists. split; [ reflexivity | ]. split; [ lia | ].
        split; [ lia | ]. split; [ reflexivity | ].
        split; [ intros H; contradiction | ].
        intros _ _ _ _.
        destruct (Hfresh (mk_ctx f2 true None (rac c)
                                 (submitted c)) eq_refl eq_refl)
          as [H1 [H2 H3]].
        split; [ exact H1 | ]. split; [ exact H2 | ].
        now rewrite H3.
Qed.

End ReadActor.

(** C5 (amended): a read-actor invocation on an Inline extent reports
    the whole page and issues no read; it copies nothing into a page that
    is uptodate, which is left as [iomap_page_create] leaves it, and
    otherwise, for the page of index 0 of a one-page folio and a file size
    that fits the page behind the offset of the payload (the conditions
    under which no [BUG_ON] fires), it copies the first [i_size] bytes of
    the inline payload to the head of the page, fills the rest of the page
    with zeros and sets the uptodate flag.  On any other
    extent that is not Mapped, or is flagged NEW, or whose needed range
    starts at or past end-of-file, the needed range computed by
    [iomap_adjust_read_range] is filled with zero bytes and, unless the
    folio's error flag is set, marked valid at once; no read request is
    created, extended or submitted and the read-pending count is not
    incremented.  A Mapped extent that is not NEW, with a non-empty needed
    range starting below end-of-file, is queued for a storage read and the
    read-pending count grows by the length of the range. *)
Theorem readpage_actor_zeroes_or_reads
    (IOMAP_F_NEW BIO_MAX_PAGES : Z) (bio_alloc_succeeds : bool)
    (i : inode) (pos length : Z) (c : iomap_readpage_ctx) (m : iomap) :
  blocks_in_folio i (cur_folio c) ->
  Z.of_nat (List.length (data (cur_folio c))) = folio_size (cur_folio c) ->
  0 <= pos -> 0 < length -> pos + length < 2 ^ 63 ->
  block_aligned i pos -> block_aligned i length ->
  0 <= i_size i < 2 ^ 63 ->
  (type m = IOMAP_INLINE ->
   (forall ret c',
      iomap_readpage_actor IOMAP_F_NEW BIO_MAX_PAGES bio_alloc_succeeds
                           i pos length c m = Some (ret, c') ->
      ret = PAGE_SIZE /\ no_read_issued c c')
   /\ (FolioUptodate (cur_folio c) = true ->
       iomap_readpage_actor IOMAP_F_NEW BIO_MAX_PAGES bio_alloc_succeeds
                            i pos length c m
       = Some (PAGE_SIZE,
               ctx_with_folio c (snd (iomap_page_create i (cur_folio c)))))
   /\ (FolioUptodate (cur_folio c) = false ->
       index (cur_folio c) = 0 -> order (cur_folio c) = 0 ->
       0 <= inline_data_off m ->
       i_size i <= PAGE_SIZE - inline_data_off m ->
       i_size i <= Z.of_nat (List.length (inline_data m)) ->
       exists c',
         iomap_readpage_actor IOMAP_F_NEW BIO_MAX_PAGES bio_alloc_succeeds
                              i pos length c m
         = Some (PAGE_SIZE, c')
         /\ no_read_issued c c'
         /\ data (cur_folio c')
            = firstn (Z.to_nat (i_size i)) (inline_data m)
              ++ repeat x00 (Z.to_nat (PAGE_SIZE - i_size i))
         /\ FolioUptodate (cur_folio c') = true))
  /\ (type m <> IOMAP_INLINE ->
      exists pos' poff plen c',
        iomap_adjust_read_range i (snd (iomap_page_create i (cur_folio c)))
                                pos length = Some (pos', poff, plen)
        /\ pos <= pos' /\ 0 <= plen
        /\ iomap_readpage_actor IOMAP_F_NEW BIO_MAX_PAGES bio_alloc_succeeds
                                i pos length c m
           = Some (pos' - pos + plen, c')
        /\ (type m <> IOMAP_MAPPED \/ Z.land (flags m) IOMAP_F_NEW <> 0
            \/ i_size i <= pos' ->
            no_read_issued c c'
            /\ zero_filled (cur_folio c') poff plen
            /\ (0 < plen -> FolioError (cur_folio c) = false ->
                folio_range_valid i (cur_folio c') poff plen))
        /\ (type m = IOMAP_MAPPED -> Z.land (flags m) IOMAP_F_NEW = 0 ->
            pos' < i_size i -> 0 < plen ->
            cur_folio_in_bio c' = true
            /\ ctx_bio c' <> None
            /\ (to_iomap_page (cur_folio c') <> None ->
                read_pending (cur_folio c')
                = s32 (read_pending (cur_folio c) + plen)))).
Proof.
  intros Hgeo Hdata Hpos Hlen Hend Hapos Halen Hisize. split.
  - intros Hty. split.
    + intros ret c' Hrun.
      now apply (readpage_actor_inline IOMAP_F_NEW BIO_MAX_PAGES
                   bio_alloc_succeeds i pos length c m).
    + now apply readpage_actor_inline_copy.
  - intros Hty. now apply readpage_actor_extent.
Qed.

(** A fresh page of a file of three bytes kept inline. *)
Lemma readpage_actor_zeroes_or_reads_witness :
  let i := mk_inode 3 12 in
  let f := mk_folio 0 0 true false false false false None
                    (repeat xff 4096) in
  let c := mk_ctx f false None false [] in
  let m := mk_iomap 0 0 4096 IOMAP_INLINE 0 1 [x01; x02; x03] 0 false in
  (type m = IOMAP_INLINE ->
   (forall ret c',
      iomap_readpage_actor 1 256 true i 0 4096 c m = Some (ret, c') ->
      ret = PAGE_SIZE /\ no_read_issued c c')
   /\ (FolioUptodate (cur_folio c) = true ->
       iomap_readpage_actor 1 256 true i 0 4096 c m
       = Some (PAGE_SIZE,
               ctx_with_folio c (snd (iomap_page_create i (cur_folio c)))))
   /\ (FolioUptodate (cur_folio c) = false ->
       index (cur_folio c) = 0 -> order (cur_folio c) = 0 ->
       0 <= inline_data_off m ->
       i_size i <= PAGE_SIZE - inline_data_off m ->
       i_size i <= Z.of_nat (List.length (inline_data m)) ->
       exists c',
         iomap_readpage_actor 1 256 true i 0 4096 c m = Some (PAGE_SIZE, c')
         /\ no_read_issued c c'
         /\ data (cur_folio c')
            = firstn (Z.to_nat (i_size i)) (inline_data m)
              ++ repeat x00 (Z.to_nat (PAGE_SIZE - i_size i))
         /\ FolioUptodate (cur_folio c') = true))
  /\ (type m <> IOMAP_INLINE ->
      exists pos' poff plen c',
        iomap_adjust_read_range i (snd (iomap_page_create i (cur_folio c)))
                                0 4096 = Some (pos', poff, plen)
        /\ 0 <= pos' /\ 0 <= plen
        /\ iomap_readpage_actor 1 256 true i 0 4096 c m
           = Some (pos' - 0 + plen, c')
        /\ (type m <> IOMAP_MAPPED \/ Z.land (flags m) 1 <> 0
            \/ i_size i <= pos' ->
            no_read_issued c c'
            /\ zero_filled (cur_folio c') poff plen
            /\ (0 < plen -> FolioError (cur_folio c) = false ->
                folio_range_valid i (cur_folio c') poff plen))
        /\ (type m = IOMAP_MAPPED -> Z.land (flags m) 1 = 0 ->
            pos' < i_size i -> 0 < plen ->
            cur_folio_in_bio c' = true
            /\ ctx_bio c' <> None
            /\ (to_iomap_page (cur_folio c') <> None ->
                read_pending (cur_folio c')
                = s32 (read_pending (cur_folio c) + plen)))).
Proof.
  apply (readpage_actor_zeroes_or_reads 1 256 true
           (mk_inode 3 12) 0 4096
           (mk_ctx (mk_folio 0 0 true false false false false None
                             (repeat xff 4096))
                   false None false [])
           (mk_iomap 0 0 4096 IOMAP_INLINE 0 1 [x01; x02; x03] 0 false));
    concrete.
Defined.

(** C5 (as stated) fails on an Inline extent, which is not Mapped: the
    needed range is the whole page, and the actor fills its head with the
    three bytes of inline payload rather than with zeros. *)
Lemma readpage_actor_inline_copies_payload :
  let i := mk_inode 3 12 in
  let f := mk_folio 0 0 true false false false false None
                    (repeat xff 4096) in
  let c := mk_ctx f false None false [] in
  let m := mk_iomap 0 0 4096 IOMAP_INLINE 0 1 [x01; x02; x03] 0 false in
  type m <> IOMAP_MAPPED
  /\ iomap_adjust_read_range i (snd (iomap_page_create i f)) 0 4096
     = Some (0, 0, 4096)
  /\ exists c',
       iomap_readpage_actor 1 256 true i 0 4096 c m = Some (4096, c')
       /\ no_read_issued c c'
       /\ nth_error (data (cur_folio c')) 0 = Some x01
       /\ ~ zero_filled (cur_folio c') 0 4096.
Proof.
  split; [ discriminate | ]. split; [ reflexivity | ].
  eexists. split; [ vm_compute; reflexivity | ].
  split; [ repeat split | ]. split; [ reflexivity | ].
  intros H. specialize (H 0 ltac:(lia)). discriminate H.
Qed.

(** * Properties of the further parts *)

Lemma s32_small z : - 2 ^ 31 <= z < 2 ^ 31 -> s32 z = z.
Proof. intros H. unfold s32. rewrite Z.mod_small; lia. Qed.

Lemma pc_set_same pc k f : pc_set pc k f k = f.
Proof. unfold pc_set. now rewrite Z.eqb_refl. Qed.

Lemma pc_set_other pc k f j : j <> k -> pc_set pc k f j = pc j.
Proof.
  intros H. unfold pc_set. destruct (Z.eqb_spec j k); [ contradiction | easy ].
Qed.

(** What a request's completion does to one folio: the completions of the
    regions lying in it, in order. *)
Lemma fold_store_at (step : folio -> bio_vec -> folio) segs :
  forall pc k,
    fold_left (fun pc bv => pc_set pc (bv_page bv) (step (pc (bv_page bv)) bv))
              segs pc k
    = fold_left step (segs_in k segs) (pc k).
Proof.
  induction segs as [| bv segs IH]; intros pc k; simpl; [ reflexivity | ].
  rewrite IH. destruct (Z.eqb_spec (bv_page bv) k) as [-> | Hne]; simpl.
  - now rewrite pc_set_same.
  - rewrite pc_set_other by congruence. reflexivity.
Qed.

Lemma read_end_io_at i pc b error k :
  iomap_read_end_io i pc b error k
  = fold_left (fun f bv => iomap_finish_folio_read i f (bv_offset bv)
                                                   (bv_len bv) error)
              (segs_in k (bi_io_vec b)) (pc k).
Proof.
  unfold iomap_read_end_io.
  apply (fold_store_at
           (fun f bv => iomap_finish_folio_read i f (bv_offset bv)
                                                (bv_len bv) error)).
Qed.

Lemma segs_in_forall (P : bio_vec -> Prop) k segs :
  Forall P segs -> Forall P (segs_in k segs).
Proof.
  intros H. unfold segs_in. rewrite Forall_forall in *.
  intros bv Hin. apply filter_In in Hin. apply H, Hin.
Qed.

Lemma seg_bytes_nonneg segs :
  Forall (fun bv => 0 < bv_len bv) segs -> 0 <= seg_bytes segs.
Proof. induction 1; simpl; lia. Qed.

(** One completion on a folio with a record: the counter drops by the
    length, the lock is released when it reaches zero. *)
Lemma finish_folio_read_counter i f off len error p :
  to_iomap_page f = Some p ->
  0 < len <= read_bytes_pending p -> read_bytes_pending p < 2 ^ 31 ->
  exists p',
    to_iomap_page (iomap_finish_folio_read i f off len error) = Some p'
    /\ read_bytes_pending p' = read_bytes_pending p - len
    /\ PG_locked (iomap_finish_folio_read i f off len error)
       = PG_locked f && negb (read_bytes_pending p =? len).
Proof.
  intros Hp Hlen Hmax. unfold iomap_finish_folio_read.
  set (f1 := if negb (error =? 0) then _ else _).
  assert (H1 : exists p1, to_iomap_page f1 = Some p1
                          /\ read_bytes_pending p1 = read_bytes_pending p
                          /\ PG_locked f1 = PG_locked f).
  { unfold f1. destruct (error =? 0); simpl.
    - unfold iomap_set_range_uptodate. destruct (FolioError f).
      + now exists p.
      + rewrite Hp. rewrite iop_set_range_marked. unfold folio_marked.
        destruct (bitmap_full _ _); eexists; repeat split; reflexivity.
    - now exists p. }
  destruct H1 as [p1 [Hp1 [Hcnt Hlock]]]. clearbody f1.
  rewrite Hp1. unfold atomic_sub_and_test.
  rewrite Hcnt, s32_small by lia.
  destruct (Z.eqb_spec (read_bytes_pending p - len) 0) as [Hz | Hnz].
  - eexists. split; [ reflexivity | ]. split; [ reflexivity | ].
    simpl. replace (read_bytes_pending p =? len) with true
      by (symmetry; apply Z.eqb_eq; lia).
    now rewrite andb_false_r.
  - eexists. split; [ reflexivity | ]. split; [ reflexivity | ].
    simpl. replace (read_bytes_pending p =? len) with false
      by (symmetry; apply Z.eqb_neq; lia).
    now rewrite Hlock, andb_true_r.
Qed.

Lemma finish_reads_counter i error segs :
  forall f p,
    to_iomap_page f = Some p ->
    Forall (fun bv => 0 < bv_len bv) segs ->
    0 < seg_bytes segs <= read_bytes_pending p ->
    read_bytes_pending p < 2 ^ 31 ->
    let f' := fold_left (fun f bv => iomap_finish_folio_read
                                       i f (bv_offset bv) (bv_len bv) error)
                        segs f in
    read_pending f' = read_bytes_pending p - seg_bytes segs
    /\ PG_locked f'
       = PG_locked f && negb (read_bytes_pending p =? seg_bytes segs).
Proof.
  induction segs as [| bv segs IH]; intros f p Hp Hpos Htot Hmax; simpl in *.
  - lia.
  - inversion Hpos as [| ? ? Hbv Hrest]; subst.
    pose proof (seg_bytes_nonneg _ Hrest) as Hnn.
    destruct (finish_folio_read_counter i f (bv_offset bv) (bv_len bv) error p
                Hp ltac:(lia) Hmax) as [p1 [Hp1 [Hc1 Hl1]]].
    destruct segs as [| bv2 segs].
    + simpl. unfold read_pending. rewrite Hp1, Hc1, Hl1.
      simpl. now rewrite Z.add_0_r.
    + assert (Hpos2 : 0 < seg_bytes (bv2 :: segs)).
      { inversion Hrest; subst. pose proof (seg_bytes_nonneg segs ltac:(assumption)).
        simpl. lia. }
      destruct (IH _ p1 Hp1 Hrest ltac:(lia) ltac:(lia)) as [Hc Hl].
      split.
      * rewrite Hc, Hc1. lia.
      * rewrite Hl, Hl1, Hc1.
        replace (read_bytes_pending p =? bv_len bv) with false
          by (symmetry; apply Z.eqb_neq; lia).
        rewrite andb_true_r. f_equal. f_equal.
        destruct (Z.eqb_spec (read_bytes_pending p - bv_len bv)
                             (seg_bytes (bv2 :: segs)));
          destruct (Z.eqb_spec (read_bytes_pending p)
                               (bv_len bv + seg_bytes (bv2 :: segs)));
          try reflexivity; lia.
Qed.

Lemma read_end_io_counter i pc b error k p :
  to_iomap_page (pc k) = Some p ->
  Forall (fun bv => 0 < bv_len bv) (bi_io_vec b) ->
  0 < bio_bytes_in k b <= read_bytes_pending p ->
  read_bytes_pending p < 2 ^ 31 ->
  read_pending (iomap_read_end_io i pc b error k)
  = read_bytes_pending p - bio_bytes_in k b
  /\ PG_locked (iomap_read_end_io i pc b error k)
     = PG_locked (pc k) && negb (read_bytes_pending p =? bio_bytes_in k b).
Proof.
  intros Hp Hpos Htot Hmax. rewrite read_end_io_at.
  apply finish_reads_counter; auto using segs_in_forall.
Qed.

(** X1: completion of a read request takes the bytes it carried for a
    folio off that folio's read-pending count, and unlocks the folio
    exactly when the count reaches zero. *)
Theorem read_end_io_accounting i pc b error k p :
  to_iomap_page (pc k) = Some p ->
  Forall (fun bv => 0 < bv_len bv) (bi_io_vec b) ->
  0 < bio_bytes_in k b <= read_bytes_pending p ->
  read_bytes_pending p < 2 ^ 31 ->
  read_pending (iomap_read_end_io i pc b error k)
  = read_bytes_pending p - bio_bytes_in k b
  /\ PG_locked (iomap_read_end_io i pc b error k)
     = PG_locked (pc k) && negb (read_bytes_pending p =? bio_bytes_in k b).
Proof.
  intros Hp Hpos Htot Hmax. now apply read_end_io_counter.
Qed.

Lemma read_end_io_accounting_witness :
  let f := mk_folio 0 0 true false false false false
                    (Some (mk_iop 1536 0 1)) [] in
  let pc : page_cache := fun _ => f in
  let b := mk_bio 0 8 1024 4 false [mk_bvec 0 512 1024] in
  read_pending (iomap_read_end_io (mk_inode 4096 9) pc b 0 0)
  = read_bytes_pending (mk_iop 1536 0 1) - bio_bytes_in 0 b
  /\ PG_locked (iomap_read_end_io (mk_inode 4096 9) pc b 0 0)
     = PG_locked (pc 0)
       && negb (read_bytes_pending (mk_iop 1536 0 1) =? bio_bytes_in 0 b).
Proof.
  intros f pc b.
  apply (read_end_io_accounting (mk_inode 4096 9) pc b 0 0 (mk_iop 1536 0 1)).
  - reflexivity.
  - repeat constructor.
  - cbv. split; [ reflexivity | discriminate ].
  - reflexivity.
Defined.

(** A failed completion flags the folio and clears its uptodate flag,
    whatever its state. *)
Lemma finish_folio_read_failed i f off len error :
  error <> 0 ->
  PG_error (iomap_finish_folio_read i f off len error) = true
  /\ PG_uptodate (iomap_finish_folio_read i f off len error) = false.
Proof.
  intros He. unfold iomap_finish_folio_read.
  replace (error =? 0) with false by (symmetry; now apply Z.eqb_neq).
  simpl. destruct (private f) as [p |]; simpl.
  - destruct (s32 (read_bytes_pending p - len) =? 0); simpl; auto.
  - auto.
Qed.

Lemma segs_in_nonempty k segs bv :
  In bv segs -> bv_page bv = k -> segs_in k segs <> [].
Proof.
  intros Hin Hk Hnil.
  assert (H : In bv (segs_in k segs)).
  { unfold segs_in. apply filter_In. split; [ assumption | ].
    now apply Z.eqb_eq. }
  rewrite Hnil in H. destruct H.
Qed.

Lemma segs_in_empty k segs :
  (forall bv, In bv segs -> bv_page bv <> k) -> segs_in k segs = [].
Proof.
  induction segs as [| bv segs IH]; intros H; simpl; [ reflexivity | ].
  destruct (Z.eqb_spec (bv_page bv) k) as [Heq | _].
  - exfalso. apply (H bv); [ now left | assumption ].
  - apply IH. intros bv' Hin. apply H. now right.
Qed.

Lemma fold_last_step {A B} (step : A -> B -> A) (P : A -> Prop) segs :
  (forall a b, P (step a b)) -> segs <> [] ->
  forall a, P (fold_left step segs a).
Proof.
  intros Hstep Hne a.
  destruct (exists_last Hne) as [front [lst ->]].
  rewrite fold_left_app. simpl. apply Hstep.
Qed.

(** X2: when a read request fails, every folio it carried a region of is
    flagged with an error and loses its uptodate flag; folios it carried
    nothing of are left as they were. *)
Theorem read_end_io_failure i pc b error k :
  error <> 0 ->
  ((exists bv, In bv (bi_io_vec b) /\ bv_page bv = k) ->
   PG_error (iomap_read_end_io i pc b error k) = true
   /\ PG_uptodate (iomap_read_end_io i pc b error k) = false)
  /\ ((forall bv, In bv (bi_io_vec b) -> bv_page bv <> k) ->
      iomap_read_end_io i pc b error k = pc k).
Proof.
  intros He. rewrite read_end_io_at. split.
  - intros [bv [Hin Hk]].
    apply (fold_last_step
             (fun f bv => iomap_finish_folio_read i f (bv_offset bv)
                                                  (bv_len bv) error)
             (fun f => PG_error f = true /\ PG_uptodate f = false)).
    + intros a b0. now apply finish_folio_read_failed.
    + eapply segs_in_nonempty; eauto.
  - intros Hno. now rewrite segs_in_empty.
Qed.

Lemma read_end_io_failure_witness :
  let f := mk_folio 0 0 true false false false true None [] in
  let pc : page_cache := fun _ => f in
  let b := mk_bio 0 8 4096 4 false [mk_bvec 3 0 4096] in
  ((exists bv, In bv (bi_io_vec b) /\ bv_page bv = 3) ->
   PG_error (iomap_read_end_io (mk_inode 4096 12) pc b (-5) 3) = true
   /\ PG_uptodate (iomap_read_end_io (mk_inode 4096 12) pc b (-5) 3) = false)
  /\ ((forall bv, In bv (bi_io_vec b) -> bv_page bv <> 3) ->
      iomap_read_end_io (mk_inode 4096 12) pc b (-5) 3 = pc 3).
Proof.
  intros f pc b.
  apply (read_end_io_failure (mk_inode 4096 12) pc b (-5) 3). discriminate.
Defined.

(** What a completion leaves of the state the validity of a range is read
    from. *)
Lemma finish_folio_read_frame i f off len error :
  let f1 := if negb (error =? 0) then SetFolioError (ClearFolioUptodate f)
            else iomap_set_range_uptodate i f off len in
  let g := iomap_finish_folio_read i f off len error in
  option_map uptodate (private g) = option_map uptodate (private f1)
  /\ PG_uptodate g = PG_uptodate f1 /\ PG_error g = PG_error f1
  /\ order g = order f1 /\ index g = index f1 /\ data g = data f1
  /\ PG_dirty g = PG_dirty f1 /\ PG_writeback g = PG_writeback f1.
Proof.
  intros f1 g. unfold g, iomap_finish_folio_read. fold f1.
  unfold to_iomap_page. destruct (private f1) as [p |] eqn:Hp; simpl.
  - destruct (s32 (read_bytes_pending p - len) =? 0); simpl; rewrite ?Hp;
      repeat split; reflexivity.
  - rewrite Hp. repeat split; reflexivity.
Qed.

Lemma folio_range_valid_ext i f g off len :
  option_map uptodate (private g) = option_map uptodate (private f) ->
  PG_uptodate g = PG_uptodate f ->
  folio_range_valid i f off len -> folio_range_valid i g off len.
Proof.
  unfold folio_range_valid, to_iomap_page, FolioUptodate.
  intros Hp Hu. destruct (private f), (private g); simpl in Hp;
    try discriminate; [ | congruence ].
  injection Hp as ->. auto.
Qed.

Lemma set_range_uptodate_keeps i f off len :
  PG_error (iomap_set_range_uptodate i f off len) = PG_error f
  /\ order (iomap_set_range_uptodate i f off len) = order f
  /\ index (iomap_set_range_uptodate i f off len) = index f.
Proof.
  unfold iomap_set_range_uptodate, FolioError.
  destruct (PG_error f) eqn:He; [ auto | ].
  unfold to_iomap_page. destruct (private f) as [p |].
  - rewrite iop_set_range_marked. unfold folio_marked.
    destruct (bitmap_full _ _); simpl; auto.
  - simpl; auto.
Qed.

(** Marking a range never invalidates another one. *)
Lemma set_range_uptodate_mono i f off len o l :
  folio_range_valid i f o l ->
  folio_range_valid i (iomap_set_range_uptodate i f off len) o l.
Proof.
  unfold iomap_set_range_uptodate. destruct (FolioError f); [ auto | ].
  unfold folio_range_valid, to_iomap_page.
  destruct (private f) as [p |] eqn:Hp.
  - rewrite iop_set_range_marked. unfold folio_marked.
    intros Hv.
    assert (Hv' : range_valid i (Z.lor (uptodate p) (range_bits i (off, len)))
                              o l).
    { intros b Hb. unfold test_bit. rewrite Z.lor_spec.
      specialize (Hv b Hb). unfold test_bit in Hv. now rewrite Hv. }
    destruct (bitmap_full _ _); simpl; exact Hv'.
  - intros _. simpl. rewrite Hp. reflexivity.
Qed.

Lemma finish_reads_valid i segs :
  forall f,
    FolioError f = false -> geometry_ok i f ->
    Forall (fun bv => in_folio_range f (bv_offset bv, bv_len bv)) segs ->
    let f' := fold_left (fun f bv => iomap_finish_folio_read
                                       i f (bv_offset bv) (bv_len bv) 0)
                        segs f in
    (forall bv, In bv segs ->
                folio_range_valid i f' (bv_offset bv) (bv_len bv))
    /\ (forall o l, folio_range_valid i f o l -> folio_range_valid i f' o l).
Proof.
  induction segs as [| bv segs IH]; intros f He Hg Hin; simpl.
  - split; [ intros ? [] | auto ].
  - inversion Hin as [| ? ? Hbv Hrest]; subst.
    pose proof (finish_folio_read_frame i f (bv_offset bv) (bv_len bv) 0)
      as Hfr. simpl in Hfr.
    destruct Hfr as [Hp [Hu [Her [Hord _]]]].
    pose proof (set_range_uptodate_keeps i f (bv_offset bv) (bv_len bv))
      as [Ke [Ko _]].
    set (g := iomap_finish_folio_read i f (bv_offset bv) (bv_len bv) 0) in *.
    assert (Hge : FolioError g = false)
      by (unfold FolioError in *; congruence).
    assert (Hgg : geometry_ok i g).
    { unfold geometry_ok in *. rewrite Hord, Ko. exact Hg. }
    assert (Hgin : Forall (fun bv => in_folio_range g (bv_offset bv, bv_len bv))
                          segs).
    { rewrite Forall_forall in *. intros x Hx. specialize (Hrest x Hx).
      unfold in_folio_range, folio_size in *. rewrite Hord, Ko. exact Hrest. }
    destruct (IH g Hge Hgg Hgin) as [IHin IHmono].
    assert (Hstep : forall o l, folio_range_valid i f o l ->
                                folio_range_valid i g o l).
    { intros o l Hv. apply (folio_range_valid_ext i _ g o l Hp Hu).
      now apply set_range_uptodate_mono. }
    split.
    + intros x [-> | Hx]; [ | now apply IHin ].
      apply IHmono. apply (folio_range_valid_ext i _ g _ _ Hp Hu).
      pose proof (set_range_uptodate_valid i f (bv_offset x) (bv_len x)
                    Hg Hbv He) as Hv.
      unfold folio_range_valid, to_iomap_page. exact Hv.
    + intros o l Hv. apply IHmono, Hstep, Hv.
Qed.

(** X3: when a read request succeeds, every region it carried is valid
    afterwards (marked in the folio's bitmap, or the folio uptodate when
    it has no record), provided the folios were not flagged with an error. *)
Theorem read_end_io_success i pc b :
  (forall bv, In bv (bi_io_vec b) ->
              FolioError (pc (bv_page bv)) = false
              /\ geometry_ok i (pc (bv_page bv))
              /\ in_folio_range (pc (bv_page bv)) (bv_offset bv, bv_len bv)) ->
  forall bv, In bv (bi_io_vec b) ->
    folio_range_valid i (iomap_read_end_io i pc b 0 (bv_page bv))
                      (bv_offset bv) (bv_len bv).
Proof.
  intros H bv Hin. rewrite read_end_io_at.
  destruct (H bv Hin) as [He [Hg _]].
  assert (Hall : Forall (fun x => in_folio_range (pc (bv_page bv))
                                                 (bv_offset x, bv_len x))
                        (segs_in (bv_page bv) (bi_io_vec b))).
  { unfold segs_in. rewrite Forall_forall. intros x Hx.
    apply filter_In in Hx. destruct Hx as [Hx Hk].
    apply Z.eqb_eq in Hk. rewrite <- Hk. apply (H x Hx). }
  destruct (finish_reads_valid i _ _ He Hg Hall) as [Hv _].
  apply Hv. unfold segs_in. apply filter_In.
  split; [ assumption | apply Z.eqb_refl ].
Qed.

Lemma read_end_io_success_witness :
  let f := mk_folio 0 0 true false false false false
                    (Some (mk_iop 1024 0 0)) [] in
  let pc : page_cache := fun _ => f in
  let bv := mk_bvec 0 512 1024 in
  let b := mk_bio 0 8 1024 4 false [bv] in
  folio_range_valid (mk_inode 4096 9)
                    (iomap_read_end_io (mk_inode 4096 9) pc b 0 (bv_page bv))
                    (bv_offset bv) (bv_len bv).
Proof.
  intros f pc bv b.
  apply (read_end_io_success (mk_inode 4096 9) pc b).
  - intros x [<- | []]. cbv. repeat split; discriminate.
  - left. reflexivity.
Defined.

(** *** Writeback completion *)

Lemma finish_folio_write_events f len error :
  snd (iomap_finish_folio_write f len error)
  = if negb (error =? 0) then [EvMappingSetError (- EIO)] else [].
Proof.
  unfold iomap_finish_folio_write.
  destruct (to_iomap_page _) as [p |]; [ | reflexivity ].
  destruct (atomic_sub_and_test _ _). reflexivity.
Qed.

Lemma finish_segs_write error segs :
  forall pc ev,
    fold_left
      (fun st bv =>
         let (f', ev) :=
           iomap_finish_folio_write (fst st (bv_page bv)) (bv_len bv) error in
         (pc_set (fst st) (bv_page bv) f', snd st ++ ev))
      segs (pc, ev)
    = (fold_left
         (fun pc bv =>
            pc_set pc (bv_page bv)
                   (fst (iomap_finish_folio_write (pc (bv_page bv))
                                                  (bv_len bv) error)))
         segs pc,
       ev ++ write_events error segs).
Proof.
  induction segs as [| bv segs IH]; intros pc ev; simpl.
  - now rewrite app_nil_r.
  - pose proof (finish_folio_write_events (pc (bv_page bv)) (bv_len bv) error)
      as Hev.
    destruct (iomap_finish_folio_write (pc (bv_page bv)) (bv_len bv) error)
      as [f' e]. simpl in *. subst e.
    rewrite IH. now rewrite <- app_assoc.
Qed.

Lemma write_events_app error a b :
  write_events error (a ++ b) = write_events error a ++ write_events error b.
Proof. unfold write_events. apply flat_map_app. Qed.

Lemma finish_bios_write error bios :
  forall pc ev,
    fold_left (finish_bio_write error) bios (pc, ev)
    = (fold_left
         (fun pc bv =>
            pc_set pc (bv_page bv)
                   (fst (iomap_finish_folio_write (pc (bv_page bv))
                                                  (bv_len bv) error)))
         (payload_segs bios) pc,
       ev ++ write_events error (payload_segs bios)).
Proof.
  induction bios as [| b bios IH]; intros pc ev; simpl.
  - now rewrite app_nil_r.
  - unfold finish_bio_write at 2. rewrite finish_segs_write, IH.
    rewrite fold_left_app, write_events_app, app_assoc. reflexivity.
Qed.

Lemma finish_ioend_eq pc bios quiet error :
  iomap_finish_ioend pc bios quiet error
  = (fold_left
       (fun pc bv =>
          pc_set pc (bv_page bv)
                 (fst (iomap_finish_folio_write (pc (bv_page bv))
                                                (bv_len bv) error)))
       (payload_segs bios) pc,
     write_events error (payload_segs bios),
     negb (error =? 0) && negb quiet).
Proof. unfold iomap_finish_ioend. now rewrite finish_bios_write. Qed.

Lemma finish_ioends_gen error ioends :
  forall pc ev,
    fold_left
      (fun st e =>
         let '(pc', ev, _) :=
           iomap_finish_ioend (fst st) (fst e) (snd e) error in
         (pc', snd st ++ ev))
      ioends (pc, ev)
    = (fold_left
         (fun pc bv =>
            pc_set pc (bv_page bv)
                   (fst (iomap_finish_folio_write (pc (bv_page bv))
                                                  (bv_len bv) error)))
         (ioends_segs ioends) pc,
       ev ++ write_events error (ioends_segs ioends)).
Proof.
  induction ioends as [| e ioends IH]; intros pc ev.
  - simpl. now rewrite app_nil_r.
  - cbn [fold_left fst snd]. rewrite finish_ioend_eq. rewrite IH.
    change (ioends_segs (e :: ioends))
      with (payload_segs (fst e) ++ ioends_segs ioends).
    rewrite fold_left_app, write_events_app, app_assoc. reflexivity.
Qed.

Lemma finish_ioends_eq pc ioends error :
  iomap_finish_ioends pc ioends error
  = (fold_left
       (fun pc bv =>
          pc_set pc (bv_page bv)
                 (fst (iomap_finish_folio_write (pc (bv_page bv))
                                                (bv_len bv) error)))
       (ioends_segs ioends) pc,
     write_events error (ioends_segs ioends)).
Proof. unfold iomap_finish_ioends. now rewrite finish_ioends_gen. Qed.

Lemma finish_ioends_at pc ioends error k :
  fst (iomap_finish_ioends pc ioends error) k
  = fold_left (fun f bv => fst (iomap_finish_folio_write f (bv_len bv) error))
              (segs_in k (ioends_segs ioends)) (pc k).
Proof.
  rewrite finish_ioends_eq. simpl.
  apply (fold_store_at
           (fun f bv => fst (iomap_finish_folio_write f (bv_len bv) error))).
Qed.

Lemma finish_folio_write_counter f len error p :
  to_iomap_page f = Some p ->
  0 < len <= write_bytes_pending p -> write_bytes_pending p < 2 ^ 31 ->
  exists p',
    to_iomap_page (fst (iomap_finish_folio_write f len error)) = Some p'
    /\ write_bytes_pending p' = write_bytes_pending p - len
    /\ PG_writeback (fst (iomap_finish_folio_write f len error))
       = PG_writeback f && negb (write_bytes_pending p =? len).
Proof.
  intros Hp Hlen Hmax. unfold iomap_finish_folio_write.
  set (f1 := if negb (error =? 0) then _ else _).
  assert (H1 : to_iomap_page f1 = Some p /\ PG_writeback f1 = PG_writeback f).
  { unfold f1. destruct (error =? 0); simpl; auto. }
  destruct H1 as [Hp1 Hwb]. clearbody f1.
  rewrite Hp1. unfold atomic_sub_and_test. rewrite s32_small by lia.
  destruct (Z.eqb_spec (write_bytes_pending p - len) 0) as [Hz | Hnz]; simpl.
  - eexists. split; [ reflexivity | ]. split; [ reflexivity | ].
    replace (write_bytes_pending p =? len) with true
      by (symmetry; apply Z.eqb_eq; lia).
    now rewrite andb_false_r.
  - eexists. split; [ reflexivity | ]. split; [ reflexivity | ].
    replace (write_bytes_pending p =? len) with false
      by (symmetry; apply Z.eqb_neq; lia).
    now rewrite Hwb, andb_true_r.
Qed.

Lemma finish_writes_counter error segs :
  forall f p,
    to_iomap_page f = Some p ->
    Forall (fun bv => 0 < bv_len bv) segs ->
    0 < seg_bytes segs <= write_bytes_pending p ->
    write_bytes_pending p < 2 ^ 31 ->
    let f' := fold_left
                (fun f bv => fst (iomap_finish_folio_write f (bv_len bv) error))
                segs f in
    write_pending f' = write_bytes_pending p - seg_bytes segs
    /\ PG_writeback f'
       = PG_writeback f && negb (write_bytes_pending p =? seg_bytes segs).
Proof.
  induction segs as [| bv segs IH]; intros f p Hp Hpos Htot Hmax; simpl in *.
  - lia.
  - inversion Hpos as [| ? ? Hbv Hrest]; subst.
    pose proof (seg_bytes_nonneg _ Hrest) as Hnn.
    destruct (finish_folio_write_counter f (bv_len bv) error p
                Hp ltac:(lia) Hmax) as [p1 [Hp1 [Hc1 Hl1]]].
    destruct segs as [| bv2 segs].
    + simpl. unfold write_pending. rewrite Hp1, Hc1, Hl1.
      simpl. now rewrite Z.add_0_r.
    + assert (Hpos2 : 0 < seg_bytes (bv2 :: segs)).
      { inversion Hrest; subst.
        pose proof (seg_bytes_nonneg segs ltac:(assumption)). simpl. lia. }
      destruct (IH _ p1 Hp1 Hrest ltac:(lia) ltac:(lia)) as [Hc Hl].
      split.
      * rewrite Hc, Hc1. lia.
      * rewrite Hl, Hl1, Hc1.
        replace (write_bytes_pending p =? bv_len bv) with false
          by (symmetry; apply Z.eqb_neq; lia).
        rewrite andb_true_r. f_equal. f_equal.
        destruct (Z.eqb_spec (write_bytes_pending p - bv_len bv)
                             (seg_bytes (bv2 :: segs)));
          destruct (Z.eqb_spec (write_bytes_pending p)
                               (bv_len bv + seg_bytes (bv2 :: segs)));
          try reflexivity; lia.
Qed.

(** X4: completion of a chain of merged ioends takes the bytes their
    payloads carried for a folio off that folio's write-pending count, and
    ends the folio's writeback exactly when the count reaches zero. *)
Theorem finish_ioends_accounting pc ioends error k p :
  to_iomap_page (pc k) = Some p ->
  Forall (fun bv => 0 < bv_len bv) (ioends_segs ioends) ->
  0 < ioends_bytes_in k ioends <= write_bytes_pending p ->
  write_bytes_pending p < 2 ^ 31 ->
  write_pending (fst (iomap_finish_ioends pc ioends error) k)
  = write_bytes_pending p - ioends_bytes_in k ioends
  /\ PG_writeback (fst (iomap_finish_ioends pc ioends error) k)
     = PG_writeback (pc k)
       && negb (write_bytes_pending p =? ioends_bytes_in k ioends).
Proof.
  intros Hp Hpos Htot Hmax. rewrite finish_ioends_at.
  apply finish_writes_counter; auto using segs_in_forall.
Qed.

Lemma finish_ioends_accounting_witness :
  let f := mk_folio 0 0 false false true false true
                    (Some (mk_iop 0 1024 255)) [] in
  let pc : page_cache := fun _ => f in
  let e1 := ([mk_bio 0 8 512 4 false [mk_bvec 0 0 512]], false) in
  let e2 := ([mk_bio 0 9 512 4 false [mk_bvec 0 512 512]], false) in
  write_pending (fst (iomap_finish_ioends pc [e1; e2] 0) 0)
  = write_bytes_pending (mk_iop 0 1024 255) - ioends_bytes_in 0 [e1; e2]
  /\ PG_writeback (fst (iomap_finish_ioends pc [e1; e2] 0) 0)
     = PG_writeback (pc 0)
       && negb (write_bytes_pending (mk_iop 0 1024 255)
                =? ioends_bytes_in 0 [e1; e2]).
Proof.
  intros f pc e1 e2.
  apply (finish_ioends_accounting pc [e1; e2] 0 0 (mk_iop 0 1024 255)).
  - reflexivity.
  - repeat constructor.
  - cbv. split; [ reflexivity | discriminate ].
  - reflexivity.
Defined.

Lemma finish_folio_write_failed f len error :
  error <> 0 -> PG_error (fst (iomap_finish_folio_write f len error)) = true.
Proof.
  intros He. unfold iomap_finish_folio_write.
  replace (error =? 0) with false by (symmetry; now apply Z.eqb_neq).
  simpl. destruct (private f) as [p |]; simpl; [ | reflexivity ].
  destruct (s32 (write_bytes_pending p - len) =? 0); reflexivity.
Qed.

Lemma write_events_failed error segs :
  error <> 0 ->
  write_events error segs
  = repeat (EvMappingSetError (- EIO)) (List.length segs).
Proof.
  intros He. unfold write_events.
  replace (error =? 0) with false by (symmetry; now apply Z.eqb_neq).
  cbn [negb].
  induction segs as [| a segs IH]; [ reflexivity | ].
  cbn [flat_map List.length repeat app]. now rewrite IH.
Qed.

(** X5: when writeback fails, every folio referenced by the payload of
    the ioends is flagged with an error, and the file's error state is
    set to -EIO once for every region completed. *)
Theorem finish_ioends_failure pc ioends error :
  error <> 0 ->
  (forall bv, In bv (ioends_segs ioends) ->
     PG_error (fst (iomap_finish_ioends pc ioends error) (bv_page bv)) = true)
  /\ snd (iomap_finish_ioends pc ioends error)
     = repeat (EvMappingSetError (- EIO))
              (List.length (ioends_segs ioends)).
Proof.
  intros He. split.
  - intros bv Hin. rewrite finish_ioends_at.
    apply (fold_last_step
             (fun f bv => fst (iomap_finish_folio_write f (bv_len bv) error))
             (fun f => PG_error f = true)).
    + intros a b0. now apply finish_folio_write_failed.
    + eapply segs_in_nonempty; eauto.
  - rewrite finish_ioends_eq. simpl. now apply write_events_failed.
Qed.

Lemma finish_ioends_failure_witness :
  let f := mk_folio 0 0 false false true false true None [] in
  let pc : page_cache := fun _ => f in
  let e1 := ([mk_bio 0 8 4096 4 false [mk_bvec 0 0 4096]], false) in
  let e2 := ([mk_bio 0 16 4096 4 false [mk_bvec 1 0 4096]], true) in
  (forall bv, In bv (ioends_segs [e1; e2]) ->
     PG_error (fst (iomap_finish_ioends pc [e1; e2] (-5)) (bv_page bv)) = true)
  /\ snd (iomap_finish_ioends pc [e1; e2] (-5))
     = repeat (EvMappingSetError (- EIO))
              (List.length (ioends_segs [e1; e2])).
Proof.
  intros f pc e1 e2.
  apply (finish_ioends_failure pc [e1; e2] (-5)). discriminate.
Defined.

(** *** Release *)

Lemma folio_with_private_same f : private f = None -> folio_with_private f None = f.
Proof. destruct f; simpl. now intros ->. Qed.

Lemma page_release_folio i f :
  fst (iomap_page_release i f) = folio_with_private f None.
Proof.
  unfold iomap_page_release, detach_page_private.
  destruct (private f) eqn:Hp; simpl; [ reflexivity | ].
  now rewrite folio_with_private_same.
Qed.

Lemma page_release_clean i f :
  release_clean i f ->
  iomap_page_release i f = (folio_with_private f None, []).
Proof.
  intros [Hr [Hw Hc]].
  unfold iomap_page_release, detach_page_private.
  unfold read_pending, write_pending, uptodate_consistent, to_iomap_page in *.
  destruct (private f) as [p |] eqn:Hp.
  - unfold WARN_ON_ONCE. rewrite Hr, Hw.
    change (i_blocks_per_folio i (folio_with_private f None))
      with (i_blocks_per_folio i f).
    change (FolioUptodate (folio_with_private f None)) with (FolioUptodate f).
    rewrite Hc. reflexivity.
  - now rewrite folio_with_private_same.
Qed.

(** X6: releasing the record of a folio raises no warning exactly when
    both pending counts are zero and the bitmap is full exactly when the
    folio is uptodate; the record is detached in every case. *)
Theorem page_release_warns i f :
  (snd (iomap_page_release i f) = [] <-> release_clean i f)
  /\ to_iomap_page (fst (iomap_page_release i f)) = None.
Proof.
  split; [ | now rewrite page_release_folio ].
  unfold iomap_page_release, detach_page_private, release_clean,
    read_pending, write_pending, uptodate_consistent, to_iomap_page,
    i_blocks_per_folio, FolioUptodate, folio_size, WARN_ON_ONCE.
  destruct (private f) as [p |] eqn:Hp; simpl; [ | tauto ].
  destruct (Z.eqb_spec (read_bytes_pending p) 0) as [Hr | Hr];
    destruct (Z.eqb_spec (write_bytes_pending p) 0) as [Hw | Hw];
    destruct (Bool.eqb _ _) eqn:Hc; simpl;
    split; try discriminate; try tauto; intros [? [? ?]];
    try contradiction; discriminate.
Qed.

Lemma finish_folio_read_other i f off len error :
  let g := iomap_finish_folio_read i f off len error in
  PG_dirty g = PG_dirty f /\ PG_writeback g = PG_writeback f
  /\ write_pending g = write_pending f.
Proof.
  unfold iomap_finish_folio_read, iomap_set_range_uptodate, write_pending,
    to_iomap_page, FolioError.
  destruct (error =? 0); simpl;
    [ destruct (PG_error f) eqn:He | ];
    destruct (private f) as [p |] eqn:Hp; simpl;
    rewrite ?iop_set_range_marked; unfold folio_marked;
    try destruct (bitmap_full _ _); simpl; rewrite ?Hp;
    try destruct (s32 (read_bytes_pending p - len) =? 0); simpl;
    rewrite ?Hp; auto.
Qed.

Lemma finish_reads_inv i error segs :
  forall f,
    uptodate_consistent i f = true ->
    (error =? 0) || negb (FolioUptodate f) = true ->
    let f' := fold_left (fun f bv => iomap_finish_folio_read
                                       i f (bv_offset bv) (bv_len bv) error)
                        segs f in
    uptodate_consistent i f' = true
    /\ PG_dirty f' = PG_dirty f /\ PG_writeback f' = PG_writeback f
    /\ write_pending f' = write_pending f.
Proof.
  induction segs as [| bv segs IH]; intros f Hc Hadm; simpl; [ auto | ].
  pose proof (consistent_finish_folio_read i f (bv_offset bv) (bv_len bv)
                error Hadm Hc) as Hc1.
  pose proof (finish_folio_read_other i f (bv_offset bv) (bv_len bv) error)
    as [Hd [Hw Hp]].
  assert (Hadm1 : (error =? 0)
                  || negb (FolioUptodate
                             (iomap_finish_folio_read i f (bv_offset bv)
                                                      (bv_len bv) error))
                  = true).
  { destruct (Z.eqb_spec error 0) as [| Hne]; [ reflexivity | ].
    destruct (finish_folio_read_failed i f (bv_offset bv) (bv_len bv) error
                Hne) as [_ Hu].
    unfold FolioUptodate. now rewrite Hu. }
  destruct (IH _ Hc1 Hadm1) as [H1 [H2 [H3 H4]]].
  repeat split; congruence.
Qed.

(** X7: a clean folio whose outstanding reads are all carried by one
    request is unlocked when that request completes, and can then be
    released: [iomap_releasepage] detaches the record, reports success and
    raises no warning. *)
Theorem read_completion_then_release i pc b error k p :
  to_iomap_page (pc k) = Some p ->
  uptodate_consistent i (pc k) = true ->
  (error =? 0) || negb (FolioUptodate (pc k)) = true ->
  write_bytes_pending p = 0 ->
  PG_dirty (pc k) = false -> PG_writeback (pc k) = false ->
  Forall (fun bv => 0 < bv_len bv) (bi_io_vec b) ->
  0 < bio_bytes_in k b < 2 ^ 31 ->
  read_bytes_pending p = bio_bytes_in k b ->
  let f' := iomap_read_end_io i pc b error k in
  PG_locked f' = false
  /\ iomap_releasepage i f' = (1, folio_with_private f' None, []).
Proof.
  intros Hp Hc Hadm Hw Hd Hwb Hpos Htot Hrd f'.
  destruct (read_end_io_counter i pc b error k p Hp Hpos
              ltac:(lia) ltac:(lia)) as [Hcnt Hlock].
  fold f' in Hcnt, Hlock.
  assert (Hinv := finish_reads_inv i error (segs_in k (bi_io_vec b)) (pc k)
                    Hc Hadm).
  simpl in Hinv. rewrite <- read_end_io_at in Hinv. fold f' in Hinv.
  destruct Hinv as [Hc' [Hd' [Hwb' Hw']]].
  split.
  - rewrite Hlock, Hrd, Z.eqb_refl. now rewrite andb_false_r.
  - unfold iomap_releasepage. rewrite Hd', Hwb', Hd, Hwb. simpl.
    assert (Hclean : release_clean i f').
    { unfold release_clean. rewrite Hcnt, Hw'. unfold write_pending.
      rewrite Hp. repeat split; [ lia | assumption | assumption ]. }
    pose proof (page_release_clean i f' Hclean) as Hrel.
    rewrite Hrel. reflexivity.
Qed.

Lemma read_completion_then_release_witness :
  let f := mk_folio 0 0 true false false false false
                    (Some (mk_iop 1024 0 0)) [] in
  let pc : page_cache := fun _ => f in
  let b := mk_bio 0 8 1024 4 false [mk_bvec 0 512 1024] in
  let f' := iomap_read_end_io (mk_inode 4096 9) pc b 0 0 in
  PG_locked f' = false
  /\ iomap_releasepage (mk_inode 4096 9) f'
     = (1, folio_with_private f' None, []).
Proof.
  intros f pc b.
  apply (read_completion_then_release (mk_inode 4096 9) pc b 0 0
                                      (mk_iop 1024 0 0));
    try reflexivity.
  - repeat constructor.
  - cbv. split; reflexivity.
Defined.

Lemma bitmap_full_empty n : 0 < n -> bitmap_full 0 n = false.
Proof.
  intros Hn. unfold bitmap_full. rewrite Z.land_0_l.
  apply Z.eqb_neq. rewrite Z.ones_equiv.
  assert (2 <= 2 ^ n).
  { change 2 with (2 ^ 1) at 1. apply Z.pow_le_mono_r; lia. }
  lia.
Qed.

(** X8: the read actor creates the record before it looks at the extent
    type, and the inline copy sets the folio uptodate without touching the
    bitmap: reading an Inline extent into a fresh page of more than one
    block leaves the page uptodate with an empty bitmap, and releasing it
    trips the bitmap warning. *)
Theorem inline_read_leaves_bitmap_empty
    NEW BMP (bas : bool) i pos length c m :
  type m = IOMAP_INLINE ->
  to_iomap_page (cur_folio c) = None ->
  FolioUptodate (cur_folio c) = false ->
  1 < i_blocks_per_folio i (cur_folio c) ->
  index (cur_folio c) = 0 -> order (cur_folio c) = 0 ->
  u64 (i_size i) <= PAGE_SIZE - inline_data_off m ->
  exists c',
    iomap_readpage_actor NEW BMP bas i pos length c m = Some (PAGE_SIZE, c')
    /\ FolioUptodate (cur_folio c') = true
    /\ to_iomap_page (cur_folio c') = Some (mk_iop 0 0 0)
    /\ uptodate_consistent i (cur_folio c') = false
    /\ snd (iomap_page_release i (cur_folio c')) = [WarnUptodateMismatch].
Proof.
  intros Ht Hp Hu Hn Hidx Hord Hsz.
  unfold iomap_readpage_actor, iomap_page_create.
  rewrite Hp, Ht, Hu.
  replace (i_blocks_per_folio i (cur_folio c) <=? 1) with false
    by (symmetry; apply Z.leb_gt; lia).
  cbn [iomap_type_eqb].
  unfold iomap_read_inline_data, FolioMulti, i_size_read.
  change (FolioUptodate (folio_with_private (cur_folio c) (Some (mk_iop 0 0 0))))
    with (FolioUptodate (cur_folio c)).
  change (index (folio_with_private (cur_folio c) (Some (mk_iop 0 0 0))))
    with (index (cur_folio c)).
  change (order (folio_with_private (cur_folio c) (Some (mk_iop 0 0 0))))
    with (order (cur_folio c)).
  rewrite Hu, Hidx, Hord. cbn [Z.eqb negb].
  replace (PAGE_SIZE - inline_data_off m <? u64 (i_size i)) with false
    by (symmetry; apply Z.ltb_ge; lia).
  eexists. split; [ reflexivity | ].
  cbn [cur_folio ctx_with_folio].
  assert (Hfull : bitmap_full 0 (i_blocks_per_folio i (cur_folio c)) = false)
    by (apply bitmap_full_empty; lia).
  unfold iomap_page_release, detach_page_private, uptodate_consistent,
    to_iomap_page, WARN_ON_ONCE.
  cbn [private SetFolioUptodate folio_with_data folio_with_private
       read_bytes_pending write_bytes_pending uptodate FolioUptodate
       PG_uptodate].
  change (i_blocks_per_folio i _) with (i_blocks_per_folio i (cur_folio c)).
  rewrite Hfull. repeat split; reflexivity.
Qed.

Lemma inline_read_leaves_bitmap_empty_witness :
  let f := mk_folio 0 0 true false false false false None
                    (repeat x00 4096) in
  let c := mk_ctx f false None false [] in
  let m := mk_iomap 0 0 100 IOMAP_INLINE 0 0 (repeat x01 100) 0 false in
  exists c',
    iomap_readpage_actor 4 16 true (mk_inode 100 9) 0 4096 c m
    = Some (PAGE_SIZE, c')
    /\ FolioUptodate (cur_folio c') = true
    /\ to_iomap_page (cur_folio c') = Some (mk_iop 0 0 0)
    /\ uptodate_consistent (mk_inode 100 9) (cur_folio c') = false
    /\ snd (iomap_page_release (mk_inode 100 9) (cur_folio c'))
       = [WarnUptodateMismatch].
Proof.
  intros f c m.
  apply (inline_read_leaves_bitmap_empty 4 16 true (mk_inode 100 9) 0 4096
                                         c m);
    try reflexivity.
  cbv. discriminate.
Defined.

Lemma folio_nr_pages_pow f : 0 <= order f -> folio_nr_pages f = 2 ^ order f.
Proof.
  intros H. unfold folio_nr_pages. rewrite Z.shiftl_mul_pow2 by lia. lia.
Qed.

Lemma folio_size_pages f :
  0 <= order f -> folio_size f = folio_nr_pages f * 4096.
Proof.
  intros H. rewrite folio_nr_pages_pow, folio_size_pow by lia.
  rewrite Z.pow_add_r by lia. change (2 ^ 12) with 4096. lia.
Qed.

(** The value of the truncation check for a folio of a file. *)
Lemma check_truncate_value (f : folio) (i : inode) :
  0 <= order f <= 19 ->
  0 <= index f < 2 ^ 51 ->
  index f mod folio_nr_pages f = 0 ->
  0 <= i_size i < 2 ^ 63 ->
  folio_mkwrite_check_truncate true None f i
  = if folio_offset f <? i_size i
    then Z.min (folio_size f) (i_size i - folio_offset f)
    else - EFAULT.
Proof.
  intros Hord Hidx Halign Hsz.
  pose proof (folio_nr_pages_pow f ltac:(lia)) as Hnr.
  pose proof (folio_size_pages f ltac:(lia)) as Hfs.
  assert (Hn : 1 <= folio_nr_pages f <= 2 ^ 19).
  { rewrite Hnr. split.
    - change 1 with (2 ^ 0). apply Z.pow_le_mono_r; lia.
    - apply Z.pow_le_mono_r; lia. }
  set (n := folio_nr_pages f) in *.
  unfold folio_mkwrite_check_truncate, folio_index, i_size_read.
  cbn [negb]. fold n.
  assert (Hoff : folio_offset f = index f * 4096).
  { unfold folio_offset, PAGE_SHIFT. rewrite Z.shiftl_mul_pow2 by lia.
    change (2 ^ 12) with 4096. apply s64_small. lia. }
  assert (Hend : u64 (Z.shiftr (i_size i) PAGE_SHIFT) = i_size i / 4096).
  { unfold PAGE_SHIFT. rewrite Z.shiftr_div_pow2 by lia.
    change (2 ^ 12) with 4096.
    apply u64_small.
    pose proof (Z.div_pos (i_size i) 4096 ltac:(lia) ltac:(lia)).
    assert (i_size i / 4096 <= i_size i)
      by (apply Z.div_le_upper_bound; lia).
    lia. }
  rewrite Hend, Hoff. rewrite (u64_small (index f + n - 1)) by lia.
  assert (Hofs : offset_in_folio f (i_size i) = i_size i mod (n * 4096)).
  { rewrite offset_in_folio_mod by lia. rewrite u64_small by lia.
    now rewrite Hfs. }
  rewrite Hofs, Hfs.
  pose proof (Z.div_mod (i_size i) 4096 ltac:(lia)) as Hdm.
  pose proof (Z.mod_pos_bound (i_size i) 4096 ltac:(lia)) as Hmb.
  set (q := i_size i / 4096) in *. set (r := i_size i mod 4096) in *.
  destruct (Z.ltb_spec (index f + n - 1) q) as [Hin | Hnin].
  - (* wholly inside *)
    replace (index f * 4096 <? i_size i) with true
      by (symmetry; apply Z.ltb_lt; nia).
    rewrite Z.min_l by nia. apply s64_small. lia.
  - destruct (Z.ltb_spec q (index f)) as [Hpast | Hnpast]; cbn [orb].
    + replace (index f * 4096 <? i_size i) with false
        by (symmetry; apply Z.ltb_ge; nia).
      reflexivity.
    + (* the folio holds end-of-file *)
      assert (Hmod : i_size i mod (n * 4096) = i_size i - index f * 4096).
      { apply Z.mod_divide in Halign; [ | lia ].
        destruct Halign as [c Hc].
        symmetry. apply (Z.mod_unique _ _ c); [ left; nia | nia ]. }
      rewrite Hmod.
      destruct (Z.eqb_spec (i_size i - index f * 4096) 0) as [Hz | Hnz].
      * replace (index f * 4096 <? i_size i) with false
          by (symmetry; apply Z.ltb_ge; lia).
        reflexivity.
      * replace (index f * 4096 <? i_size i) with true
          by (symmetry; apply Z.ltb_lt; nia).
        rewrite Z.min_r by nia. apply s64_small. nia.
Qed.

(** X9: for a folio of a file that lies at a multiple of its size, the
    truncation check of the write-fault path returns the number of bytes
    of the folio that lie below end-of-file, and -EFAULT when there are
    none. *)
Theorem mkwrite_check_truncate_spec (f : folio) (i : inode) :
  0 <= order f <= 19 ->
  0 <= index f < 2 ^ 51 ->
  index f mod folio_nr_pages f = 0 ->
  0 <= i_size i < 2 ^ 63 ->
  folio_mkwrite_check_truncate true None f i
  = if folio_offset f <? i_size i
    then Z.min (folio_size f) (i_size i - folio_offset f)
    else - EFAULT.
Proof.
  intros Hord Hidx Halign Hsz. now apply check_truncate_value.
Qed.


Lemma mkwrite_check_truncate_spec_witness :
  folio_mkwrite_check_truncate
    true None (mk_folio 2 1 true true false false true None [])
    (mk_inode 10000 12)
  = if folio_offset (mk_folio 2 1 true true false false true None [])
       <? i_size (mk_inode 10000 12)
    then Z.min (folio_size (mk_folio 2 1 true true false false true None []))
               (i_size (mk_inode 10000 12)
                - folio_offset
                    (mk_folio 2 1 true true false false true None []))
    else - EFAULT.
Proof.
  apply (mkwrite_check_truncate_spec
           (mk_folio 2 1 true true false false true None [])
           (mk_inode 10000 12)); cbv; try reflexivity;
    split; try reflexivity; discriminate.
Defined.

Lemma folio_nr_pages_pos f : 0 <= order f -> 1 <= folio_nr_pages f.
Proof.
  intros H. rewrite folio_nr_pages_pow by lia.
  change 1 with (2 ^ 0) at 1. apply Z.pow_le_mono_r; lia.
Qed.

Lemma window_pages_nonneg pc fs :
  forall idx, window_tiled pc idx fs -> 0 <= window_pages fs.
Proof.
  induction fs as [| f fs IH]; intros idx H; simpl in *; [ lia | ].
  destruct H as [_ [Ho Ht]]. pose proof (folio_nr_pages_pos f Ho).
  specialize (IH _ Ht). lia.
Qed.

Lemma readahead_folios_gen pc fs :
  forall r,
    0 <= _index r -> 0 <= _batch_count r ->
    _nr_pages r = _batch_count r + window_pages fs ->
    _nr_pages r < 2 ^ 32 -> _index r + _nr_pages r < 2 ^ 64 ->
    window_tiled pc (_index r + _batch_count r) fs ->
    readahead_folios (List.length fs) pc r
    = Some (fs, mk_rac (_index r + _nr_pages r) 0 0).
Proof.
  induction fs as [| f fs IH]; intros r Hi Hb Hnr Hmax Hend Ht.
  - simpl in Hnr. cbn [List.length readahead_folios]. unfold readahead_folio.
    replace (_nr_pages r <? _batch_count r) with false
      by (symmetry; apply Z.ltb_ge; lia).
    replace (_nr_pages r - _batch_count r) with 0 by lia.
    change (u32 0 =? 0) with true. cbv iota.
    rewrite u64_small by lia. do 3 f_equal. lia.
  - cbn [window_tiled] in Ht. destruct Ht as [Hpc [Ho Ht]].
    pose proof (folio_nr_pages_pos f Ho) as Hf.
    pose proof (window_pages_nonneg pc fs _ Ht) as Hw.
    cbn [window_pages fold_right] in Hnr. fold (window_pages fs) in Hnr.
    cbn [List.length readahead_folios]. unfold readahead_folio.
    replace (_nr_pages r <? _batch_count r) with false
      by (symmetry; apply Z.ltb_ge; lia).
    rewrite (u32_small (_nr_pages r - _batch_count r)) by lia.
    replace (_nr_pages r - _batch_count r =? 0) with false
      by (symmetry; apply Z.eqb_neq; lia).
    rewrite u64_small by lia. rewrite Hpc.
    rewrite (u32_small (folio_nr_pages f)) by lia.
    rewrite IH; cbn [_index _nr_pages _batch_count]; try lia; try assumption.
    do 3 f_equal. lia.
Qed.

(** X10: a caller of [readahead_folio] that starts with a fresh control
    block and goes on until NULL is handed exactly the folios of the
    readahead window, each once and in file order, and leaves the control
    block empty at the end of the window. *)
Theorem readahead_folio_enumerates pc fs r :
  _batch_count r = 0 ->
  0 <= _index r -> _nr_pages r = window_pages fs ->
  _nr_pages r < 2 ^ 32 -> _index r + _nr_pages r < 2 ^ 64 ->
  window_tiled pc (_index r) fs ->
  readahead_folios (List.length fs) pc r
  = Some (fs, mk_rac (_index r + _nr_pages r) 0 0).
Proof.
  intros Hb Hi Hnr Hmax Hend Ht.
  apply readahead_folios_gen; rewrite ?Hb, ?Z.add_0_r; try lia; assumption.
Qed.

Lemma readahead_folio_enumerates_witness :
  let f0 := mk_folio 4 1 true false false false false None [] in
  let f1 := mk_folio 6 0 true false false false false None [] in
  let pc : page_cache := fun k => if k =? 4 then f0 else f1 in
  readahead_folios (List.length [f0; f1]) pc (mk_rac 4 3 0)
  = Some ([f0; f1],
          mk_rac (_index (mk_rac 4 3 0) + _nr_pages (mk_rac 4 3 0)) 0 0).
Proof.
  intros f0 f1 pc.
  apply (readahead_folio_enumerates pc [f0; f1] (mk_rac 4 3 0));
    try reflexivity; try (cbv; discriminate).
  cbv. repeat split; discriminate.
Defined.

(** X11: the comparison function handed to the list sort orders ioends
    by their starting file offset: it is antisymmetric and transitive, is
    zero exactly on equal offsets and negative exactly on a smaller one. *)
Theorem ioend_compare_orders_by_offset (a b c : iomap_ioend) :
  (iomap_ioend_compare a b < 0 <-> io_offset a < io_offset b)
  /\ (iomap_ioend_compare a b = 0 <-> io_offset a = io_offset b)
  /\ iomap_ioend_compare b a = - iomap_ioend_compare a b
  /\ (iomap_ioend_compare a b <= 0 -> iomap_ioend_compare b c <= 0 ->
      iomap_ioend_compare a c <= 0).
Proof.
  unfold iomap_ioend_compare.
  destruct (Z.ltb_spec (io_offset a) (io_offset b));
    destruct (Z.ltb_spec (io_offset b) (io_offset a));
    destruct (Z.ltb_spec (io_offset b) (io_offset c));
    destruct (Z.ltb_spec (io_offset c) (io_offset b));
    destruct (Z.ltb_spec (io_offset a) (io_offset c));
    destruct (Z.ltb_spec (io_offset c) (io_offset a));
    repeat split; intros; lia.
Qed.

Lemma ioend_merge_loop_spec SHARED hook more :
  forall e chain0 merged chain rest,
    ioend_in_file e -> Forall ioend_in_file more ->
    ioend_merge_loop SHARED hook e chain0 more = (merged, chain, rest) ->
    exists ch,
      chain = chain0 ++ ch /\ ch ++ rest = more
      /\ io_offset merged = io_offset e
      /\ io_size merged = io_size e + ioends_size ch
      /\ io_type merged = io_type e /\ io_flags merged = io_flags e
      /\ io_status merged = io_status e
      /\ Forall (fun n => io_status n = io_status e
                          /\ same_shared_state SHARED e n
                          /\ same_unwritten_state e n) ch
      /\ match rest with
         | [] => True
         | next :: _ => iomap_ioend_can_merge SHARED merged next = false
         end.
Proof.
  induction more as [| next more IH];
    intros e chain0 merged chain rest He Hmore Hloop; simpl in Hloop.
  - injection Hloop as <- <- <-. exists []. rewrite app_nil_r. simpl.
    repeat split; auto; lia.
  - inversion Hmore as [| ? ? Hn Hrest]; subst.
    destruct (iomap_ioend_can_merge SHARED e next) eqn:Hcm; simpl in Hloop.
    + pose proof (proj1 (ioend_can_merge_iff SHARED e next He Hn) Hcm)
        as [Hst [Hsh [Hun Hoff]]].
      destruct He as [He1 [He2 He3]]. destruct Hn as [Hn1 [Hn2 Hn3]].
      set (grown := ioend_with_size e (u64 (io_size e + io_size next))) in *.
      set (m1 := match io_private next with
                 | Some _ =>
                   match hook with
                   | Some h => ioend_with_private grown (h grown next)
                   | None => grown
                   end
                 | None => grown
                 end) in *.
      assert (Hm1 : io_offset m1 = io_offset e
                    /\ io_size m1 = io_size e + io_size next
                    /\ io_type m1 = io_type e /\ io_flags m1 = io_flags e
                    /\ io_status m1 = io_status e).
      { assert (Hg : io_size grown = io_size e + io_size next)
          by (unfold grown; simpl; apply u64_small; lia).
        unfold m1. destruct (io_private next); [ destruct hook | ];
          simpl; repeat split; auto. }
      destruct Hm1 as [Mo [Ms [Mt [Mf Mst]]]].
      assert (Hin1 : ioend_in_file m1)
        by (unfold ioend_in_file; rewrite Mo, Ms; lia).
      destruct (IH m1 (chain0 ++ [next]) merged chain rest Hin1 Hrest Hloop)
        as [ch [Hc [Hr [Ho [Hs [Ht [Hf [Hstat [Hall Hhead]]]]]]]]].
      exists (next :: ch). rewrite <- app_assoc in Hc. simpl in *.
      repeat split; try congruence; try lia.
      constructor.
      * repeat split; auto.
      * rewrite Forall_forall in *. intros n Hnin.
        destruct (Hall n Hnin) as [A [B C]].
        unfold same_shared_state, same_unwritten_state in *.
        rewrite Mst, Mf, Mt in *. auto.
    + injection Hloop as <- <- <-. exists []. rewrite app_nil_r. simpl.
      repeat split; auto; lia.
Qed.

(** X12: merging takes the longest run at the head of the caller's list
    in which every ioend continues the merged one: the run is moved to the
    chain in order, the merged size is the sum of the sizes, offset, type,
    flags and status stay those of the first ioend, and the ioend left at
    the head of the list, if any, cannot be merged. *)
Theorem ioend_try_merge_run SHARED ioend more hook merged chain rest :
  ioend_in_file ioend -> Forall ioend_in_file more ->
  iomap_ioend_try_merge SHARED ioend more hook = (merged, chain, rest) ->
  chain ++ rest = more
  /\ io_offset merged = io_offset ioend
  /\ io_size merged = io_size ioend + ioends_size chain
  /\ io_type merged = io_type ioend /\ io_flags merged = io_flags ioend
  /\ io_status merged = io_status ioend
  /\ Forall (fun n => io_status n = io_status ioend
                      /\ same_shared_state SHARED ioend n
                      /\ same_unwritten_state ioend n) chain
  /\ match rest with
     | [] => True
     | next :: _ => iomap_ioend_can_merge SHARED merged next = false
     end.
Proof.
  intros He Hmore Hm. unfold iomap_ioend_try_merge in Hm.
  destruct (ioend_merge_loop_spec SHARED hook more ioend [] merged chain rest
              He Hmore Hm) as [ch [Hc H]].
  simpl in Hc. subst ch. exact H.
Qed.

Lemma ioend_try_merge_run_witness :
  let a := mk_ioend IOMAP_MAPPED 0 4096 0 None 0 in
  let b := mk_ioend IOMAP_MAPPED 0 8192 4096 None 0 in
  let c := mk_ioend IOMAP_MAPPED 0 4096 12288 None 0 in
  let d := mk_ioend IOMAP_MAPPED 0 4096 20480 None 0 in
  let merged := mk_ioend IOMAP_MAPPED 0 16384 0 None 0 in
  [b; c] ++ [d] = [b; c; d]
  /\ io_offset merged = io_offset a
  /\ io_size merged = io_size a + ioends_size [b; c]
  /\ io_type merged = io_type a /\ io_flags merged = io_flags a
  /\ io_status merged = io_status a
  /\ Forall (fun n => io_status n = io_status a
                      /\ same_shared_state 4 a n
                      /\ same_unwritten_state a n) [b; c]
  /\ iomap_ioend_can_merge 4 merged d = false.
Proof.
  intros a b c d merged.
  apply (ioend_try_merge_run 4 a [b; c; d] None merged [b; c] [d]).
  - cbv. repeat split; discriminate.
  - repeat constructor; cbv; discriminate.
  - reflexivity.
Defined.

Lemma seg_bytes_app a b : seg_bytes (a ++ b) = seg_bytes a + seg_bytes b.
Proof. induction a as [| x a IH]; simpl; [ reflexivity | rewrite IH; lia ]. Qed.

Lemma seg_bytes_rev l : seg_bytes (rev l) = seg_bytes l.
Proof.
  induction l as [| x l IH]; simpl; [ reflexivity | ].
  rewrite seg_bytes_app, IH. simpl. lia.
Qed.

Lemma segs_in_app k a b : segs_in k (a ++ b) = segs_in k a ++ segs_in k b.
Proof. unfold segs_in. apply filter_app. Qed.

Lemma segs_in_rev k l : segs_in k (rev l) = rev (segs_in k l).
Proof.
  induction l as [| x l IH]; simpl; [ reflexivity | ].
  rewrite segs_in_app, IH. simpl.
  destruct (bv_page x =? k); simpl; [ reflexivity | now rewrite app_nil_r ].
Qed.

Lemma bytes_in_rev k l :
  seg_bytes (segs_in k (rev l)) = seg_bytes (segs_in k l).
Proof. now rewrite segs_in_rev, seg_bytes_rev. Qed.

Lemma try_merge_page_spec b page len off b' :
  __bio_try_merge_page b page len off = Some b' ->
  bi_size b' = bi_size b + len
  /\ seg_bytes (bi_io_vec b') = seg_bytes (bi_io_vec b) + len
  /\ (forall k, seg_bytes (segs_in k (bi_io_vec b'))
                = seg_bytes (segs_in k (bi_io_vec b)) + bytes_for k page len)
  /\ bi_bdev b' = bi_bdev b /\ bi_sector b' = bi_sector b.
Proof.
  unfold __bio_try_merge_page.
  destruct (rev (bi_io_vec b)) as [| bv before] eqn:Hrev; [ discriminate | ].
  destruct ((bv_page bv =? page) && (bv_offset bv + bv_len bv =? off)
            && negb (UINT_MAX - len <? bi_size b)) eqn:Hc; [ | discriminate ].
  intros H. injection H as <-.
  apply andb_prop in Hc. destruct Hc as [Hc _].
  apply andb_prop in Hc. destruct Hc as [Hpg _]. apply Z.eqb_eq in Hpg.
  assert (Hv : bi_io_vec b = rev (bv :: before))
    by (rewrite <- Hrev; now rewrite rev_involutive).
  cbn [bi_size bi_io_vec bio_with_vecs bi_bdev bi_sector].
  rewrite Hv. simpl rev.
  repeat split; auto.
  - rewrite !seg_bytes_app. simpl. lia.
  - intros k. rewrite !segs_in_app, !seg_bytes_app. unfold bytes_for. simpl.
    rewrite Hpg. destruct (page =? k); simpl; lia.
Qed.

Lemma bio_add_page_spec b page len off :
  __bio_try_merge_page b page len off = None ->
  bio_full b len = false ->
  let b' := bio_add_page b page len off in
  bi_size b' = bi_size b + len
  /\ seg_bytes (bi_io_vec b') = seg_bytes (bi_io_vec b) + len
  /\ (forall k, seg_bytes (segs_in k (bi_io_vec b'))
                = seg_bytes (segs_in k (bi_io_vec b)) + bytes_for k page len)
  /\ bi_bdev b' = bi_bdev b /\ bi_sector b' = bi_sector b.
Proof.
  intros Hm Hf. unfold bio_add_page. rewrite Hm, Hf.
  unfold __bio_add_page. simpl. repeat split; auto.
  - rewrite seg_bytes_app. simpl. lia.
  - intros k. rewrite segs_in_app, seg_bytes_app. unfold bytes_for. simpl.
    destruct (page =? k); simpl; lia.
Qed.

Lemma bios_size_app a b : bios_size (a ++ b) = bios_size a + bios_size b.
Proof. induction a as [| x a IH]; simpl; [ reflexivity | rewrite IH; lia ]. Qed.

Lemma payload_segs_app a b :
  payload_segs (a ++ b) = payload_segs a ++ payload_segs b.
Proof. unfold payload_segs. apply flat_map_app. Qed.

Lemma ioend_bytes_in_eq k e :
  ioend_bytes_in k e
  = seg_bytes (segs_in k (payload_segs (io_chain e)))
    + seg_bytes (segs_in k (bi_io_vec (io_bio e))).
Proof.
  unfold ioend_bytes_in. rewrite payload_segs_app, segs_in_app, seg_bytes_app.
  simpl. now rewrite app_nil_r.
Qed.

Lemma payload_bytes_eq e :
  payload_bytes e = bios_size (io_chain e) + bi_size (io_bio e).
Proof. unfold payload_bytes. rewrite bios_size_app. simpl. lia. Qed.

Lemma ioend_sized_eq e :
  ioend_sized e <->
  Forall bio_sized (io_chain e) /\ bio_sized (io_bio e)
  /\ io_size (ioend e) = bios_size (io_chain e) + bi_size (io_bio e).
Proof.
  unfold ioend_sized. rewrite payload_bytes_eq, Forall_app.
  split.
  - intros [[A B] C]. inversion B; subst. auto.
  - intros [A [B C]]. auto.
Qed.

Lemma i_blocksize_range i : 0 <= i_blocksize i <= UINT_MAX.
Proof.
  unfold i_blocksize, u32, UINT_MAX.
  pose proof (Z.mod_pos_bound (Z.shiftl 1 (i_blkbits i)) (2 ^ 32)
                ltac:(lia)). lia.
Qed.

(** What appending a block does to an ioend whose byte counts agree. *)
Lemma ioend_add_block_spec BMP e page len poff :
  0 < BMP -> 0 <= len <= UINT_MAX ->
  ioend_sized e -> io_size (ioend e) + len < 2 ^ 64 ->
  0 <= io_size (ioend e) ->
  let e' := ioend_add_block BMP e page len poff in
  ioend_sized e'
  /\ io_size (ioend e') = io_size (ioend e) + len
  /\ io_offset (ioend e') = io_offset (ioend e)
  /\ io_type (ioend e') = io_type (ioend e)
  /\ io_flags (ioend e') = io_flags (ioend e)
  /\ (forall k, ioend_bytes_in k e'
                = ioend_bytes_in k e + bytes_for k page len).
Proof.
  intros HB Hlen Hs Hmax Hnn. apply ioend_sized_eq in Hs.
  destruct Hs as [Hch [Hbio Hsz]].
  unfold ioend_add_block.
  destruct (__bio_try_merge_page (io_bio e) page len poff) as [b' |] eqn:Hm.
  - destruct (try_merge_page_spec _ _ _ _ _ Hm) as [S1 [S2 [S3 _]]].
    cbn [ioend io_chain io_bio ioend_with_size io_size io_offset io_type
         io_flags].
    rewrite u64_small by lia.
    split; [ | repeat split; auto ].
    + apply ioend_sized_eq. cbn [ioend io_chain io_bio ioend_with_size io_size].
      unfold bio_sized in *. repeat split; auto; lia.
    + intros k. rewrite !ioend_bytes_in_eq. cbn [io_chain io_bio].
      rewrite S3. lia.
  - destruct (bio_full (io_bio e) len) eqn:Hfull.
    + set (nb := iomap_chain_bio BMP (io_bio e)).
      assert (Hnm : __bio_try_merge_page nb page len poff = None)
        by reflexivity.
      assert (Hnf : bio_full nb len = false).
      { unfold bio_full, nb, iomap_chain_bio.
        cbn [bi_max_vecs bi_io_vec bi_size List.length Z.of_nat].
        apply orb_false_iff. split; [ apply Z.leb_gt | apply Z.ltb_ge ]; lia. }
      destruct (bio_add_page_spec nb page len poff Hnm Hnf)
        as [S1 [S2 [S3 _]]].
      cbn [ioend io_chain io_bio ioend_with_size io_size io_offset io_type
           io_flags].
      rewrite u64_small by lia.
      split; [ | repeat split; auto ].
      * apply ioend_sized_eq.
        cbn [ioend io_chain io_bio ioend_with_size io_size].
        rewrite Forall_app, bios_size_app. unfold bio_sized in *.
        rewrite S1, S2. simpl. repeat split; auto; lia.
      * intros k. rewrite !ioend_bytes_in_eq. cbn [io_chain io_bio].
        rewrite payload_segs_app, segs_in_app, seg_bytes_app, S3.
        simpl. rewrite app_nil_r. lia.
    + destruct (bio_add_page_spec (io_bio e) page len poff Hm Hfull)
        as [S1 [S2 [S3 _]]].
      cbn [ioend io_chain io_bio ioend_with_size io_size io_offset io_type
           io_flags].
      rewrite u64_small by lia.
      split; [ | repeat split; auto ].
      * apply ioend_sized_eq.
        cbn [ioend io_chain io_bio ioend_with_size io_size].
        unfold bio_sized in *. repeat split; auto; lia.
      * intros k. rewrite !ioend_bytes_in_eq. cbn [io_chain io_bio].
        rewrite S3. lia.
Qed.

Lemma alloc_ioend_sized BMP m offset sector :
  ioend_sized (iomap_alloc_ioend BMP m offset sector).
Proof.
  apply ioend_sized_eq. unfold iomap_alloc_ioend, bio_sized. simpl.
  repeat split; auto.
Qed.

Lemma can_add_to_ioend_spec SHARED m e offset sector :
  iomap_can_add_to_ioend SHARED m e offset sector = true ->
  Z.land (flags m) SHARED = Z.land (io_flags (ioend e)) SHARED
  /\ type m = io_type (ioend e)
  /\ u64 offset = u64 (io_offset (ioend e) + io_size (ioend e))
  /\ sector = bio_end_sector (io_bio e).
Proof.
  unfold iomap_can_add_to_ioend.
  destruct (Z.eqb_spec (Z.land (flags m) SHARED)
                       (Z.land (io_flags (ioend e)) SHARED));
    [ | discriminate ].
  destruct (iomap_type_eqb (type m) (io_type (ioend e))) eqn:Ht;
    [ | discriminate ].
  destruct (Z.eqb_spec (u64 offset)
                       (u64 (io_offset (ioend e) + io_size (ioend e))));
    [ | discriminate ].
  destruct (Z.eqb_spec sector (bio_end_sector (io_bio e)));
    [ | discriminate ].
  intros _. repeat split; auto.
  destruct (type m), (io_type (ioend e)); simpl in Ht;
    try discriminate; reflexivity.
Qed.

(** X13: after a block is added, the writepage context caches an ioend
    of the type and SHARED state of the cached extent whose byte range
    ends right after that block, and whose size is the number of bytes in
    its payload; the cached extent is not touched. *)
Theorem add_to_ioend_extends SHARED BMP i offset f wpc iolist :
  0 < BMP ->
  (forall e, wpc_ioend wpc = Some e ->
             ioend_sized e /\ 0 <= io_size (ioend e)
             /\ io_size (ioend e) + i_blocksize i < 2 ^ 64) ->
  exists e',
    snd (fst (iomap_add_to_ioend SHARED BMP i offset f wpc iolist))
    = mk_wpc (wpc_iomap wpc) (Some e')
    /\ ioend_sized e'
    /\ u64 (io_offset (ioend e') + io_size (ioend e'))
       = u64 (offset + i_blocksize i)
    /\ io_type (ioend e') = type (wpc_iomap wpc)
    /\ Z.land (io_flags (ioend e')) SHARED
       = Z.land (flags (wpc_iomap wpc)) SHARED.
Proof.
  intros HB Hw. pose proof (i_blocksize_range i) as Hlen.
  unfold iomap_add_to_ioend.
  set (sector := iomap_sector (wpc_iomap wpc) offset).
  set (page := index f).
  set (poff := u32 (Z.land offset (PAGE_SIZE - 1))).
  set (fresh := iomap_alloc_ioend BMP (wpc_iomap wpc) offset sector).
  assert (Hfresh :
    let e' := ioend_add_block BMP fresh page (i_blocksize i) poff in
    ioend_sized e'
    /\ u64 (io_offset (ioend e') + io_size (ioend e'))
       = u64 (offset + i_blocksize i)
    /\ io_type (ioend e') = type (wpc_iomap wpc)
    /\ Z.land (io_flags (ioend e')) SHARED
       = Z.land (flags (wpc_iomap wpc)) SHARED).
  { destruct (ioend_add_block_spec BMP fresh page (i_blocksize i) poff HB Hlen
                (alloc_ioend_sized _ _ _ _))
      as [A [B [C [D [E _]]]]].
    - unfold fresh, iomap_alloc_ioend, UINT_MAX in *. cbn [ioend io_size]. lia.
    - unfold fresh, iomap_alloc_ioend. cbn [ioend io_size]. lia.
    - cbv zeta. split; [ exact A | ].
      rewrite B, C, D, E. unfold fresh, iomap_alloc_ioend.
      cbn [ioend io_size io_offset io_type io_flags].
      repeat split; auto. }
  destruct (wpc_ioend wpc) as [e |] eqn:Hwe.
  - destruct (iomap_can_add_to_ioend SHARED (wpc_iomap wpc) e offset sector)
      eqn:Hcan.
    + destruct (Hw e eq_refl) as [Hs [Hnn Hmax]].
      destruct (can_add_to_ioend_spec _ _ _ _ _ Hcan) as [Cf [Ct [Co _]]].
      destruct (ioend_add_block_spec BMP e page (i_blocksize i) poff HB Hlen
                  Hs Hmax Hnn) as [A [B [C [D [E _]]]]].
      eexists. split; [ reflexivity | ]. split; [ exact A | ].
      rewrite B, C, D, E. repeat split; auto.
      unfold u64 in *. rewrite Z.add_assoc.
      rewrite <- Zplus_mod_idemp_l, <- Co, Zplus_mod_idemp_l. reflexivity.
    + eexists. split; [ reflexivity | ]. exact Hfresh.
  - eexists. split; [ reflexivity | ]. exact Hfresh.
Qed.

Lemma add_to_ioend_extends_witness :
  let m := mk_iomap 8192 0 65536 IOMAP_MAPPED 0 1 [] 0 false in
  let f := mk_folio 0 0 true false false false true
                    (Some (mk_iop 0 512 255)) [] in
  let e := mk_ioend_state (mk_ioend IOMAP_MAPPED 0 512 0 None 0) []
                          (mk_bio 1 16 512 16 false [mk_bvec 0 0 512]) in
  let wpc := mk_wpc m (Some e) in
  exists e',
    snd (fst (iomap_add_to_ioend 4 16 (mk_inode 4096 9) 512 f wpc []))
    = mk_wpc (wpc_iomap wpc) (Some e')
    /\ ioend_sized e'
    /\ u64 (io_offset (ioend e') + io_size (ioend e'))
       = u64 (512 + i_blocksize (mk_inode 4096 9))
    /\ io_type (ioend e') = type (wpc_iomap wpc)
    /\ Z.land (io_flags (ioend e')) 4 = Z.land (flags (wpc_iomap wpc)) 4.
Proof.
  intros m f e wpc.
  apply (add_to_ioend_extends 4 16 (mk_inode 4096 9) 512 f wpc []).
  - reflexivity.
  - intros e0 H. injection H as <-.
    split; [ split; [ repeat constructor | reflexivity ] | ].
    split; [ cbv; discriminate | reflexivity ].
Defined.

Lemma ioend_add_block_bytes BMP e page len poff k :
  0 < BMP -> 0 <= len <= UINT_MAX ->
  ioend_bytes_in k (ioend_add_block BMP e page len poff)
  = ioend_bytes_in k e + bytes_for k page len.
Proof.
  intros HB Hlen. unfold ioend_add_block.
  destruct (__bio_try_merge_page (io_bio e) page len poff) as [b' |] eqn:Hm.
  - destruct (try_merge_page_spec _ _ _ _ _ Hm) as [_ [_ [S3 _]]].
    rewrite !ioend_bytes_in_eq. cbn [io_chain io_bio]. rewrite S3. lia.
  - destruct (bio_full (io_bio e) len) eqn:Hfull.
    + set (nb := iomap_chain_bio BMP (io_bio e)).
      assert (Hnm : __bio_try_merge_page nb page len poff = None)
        by reflexivity.
      assert (Hnf : bio_full nb len = false).
      { unfold bio_full, nb, iomap_chain_bio.
        cbn [bi_max_vecs bi_io_vec bi_size List.length Z.of_nat].
        apply orb_false_iff. split; [ apply Z.leb_gt | apply Z.ltb_ge ]; lia. }
      destruct (bio_add_page_spec nb page len poff Hnm Hnf)
        as [_ [_ [S3 _]]].
      rewrite !ioend_bytes_in_eq. cbn [io_chain io_bio].
      rewrite payload_segs_app, segs_in_app, seg_bytes_app, S3.
      simpl. rewrite app_nil_r. lia.
    + destruct (bio_add_page_spec (io_bio e) page len poff Hm Hfull)
        as [_ [_ [S3 _]]].
      rewrite !ioend_bytes_in_eq. cbn [io_chain io_bio]. rewrite S3. lia.
Qed.

Lemma alloc_ioend_bytes BMP m offset sector k :
  ioend_bytes_in k (iomap_alloc_ioend BMP m offset sector) = 0.
Proof. reflexivity. Qed.

Lemma add_to_ioend_queued SHARED BMP i offset f wpc iolist k :
  0 < BMP ->
  queued_bytes_in k
    (snd (fst (iomap_add_to_ioend SHARED BMP i offset f wpc iolist)))
    (snd (iomap_add_to_ioend SHARED BMP i offset f wpc iolist))
  = queued_bytes_in k wpc iolist + bytes_for k (index f) (i_blocksize i).
Proof.
  intros HB. pose proof (i_blocksize_range i) as Hlen.
  unfold iomap_add_to_ioend, queued_bytes_in, held_ioends.
  destruct (wpc_ioend wpc) as [e |].
  - destruct (iomap_can_add_to_ioend _ _ _ _ _);
      cbn [fst snd wpc_ioend fold_right];
      rewrite ioend_add_block_bytes by assumption;
      rewrite ?alloc_ioend_bytes; lia.
  - cbn [fst snd wpc_ioend fold_right].
    rewrite ioend_add_block_bytes by assumption.
    rewrite alloc_ioend_bytes. lia.
Qed.

(** X14: adding a block of a page to the writeback batch counts its
    bytes in the page's write-pending count and queues as many bytes of
    that page in the payloads held by the pass, and of no other page: a
    count that equals the queued bytes of the page still does
    afterwards. *)
Theorem add_to_ioend_accounting SHARED BMP i offset f wpc iolist p :
  0 < BMP ->
  to_iomap_page f = Some p ->
  0 <= write_bytes_pending p ->
  write_bytes_pending p + i_blocksize i < 2 ^ 31 ->
  write_bytes_pending p = queued_bytes_in (index f) wpc iolist ->
  let r := iomap_add_to_ioend SHARED BMP i offset f wpc iolist in
  write_pending (fst (fst r)) = write_bytes_pending p + i_blocksize i
  /\ write_pending (fst (fst r))
     = queued_bytes_in (index f) (snd (fst r)) (snd r)
  /\ (forall k, k <> index f ->
       queued_bytes_in k (snd (fst r)) (snd r)
       = queued_bytes_in k wpc iolist).
Proof.
  intros HB Hp Hnn Hmax Hq r.
  pose proof (i_blocksize_range i) as Hlen.
  assert (Hwp : write_pending (fst (fst r))
                = write_bytes_pending p + i_blocksize i).
  { unfold r, iomap_add_to_ioend. rewrite Hp.
    destruct (match wpc_ioend wpc with Some _ => _ | None => _ end).
    cbn [fst snd]. unfold write_pending, to_iomap_page. simpl.
    apply s32_small. lia. }
  split; [ exact Hwp | ]. split.
  - rewrite Hwp. unfold r. rewrite add_to_ioend_queued by assumption.
    unfold bytes_for. rewrite Z.eqb_refl. lia.
  - intros k Hk. unfold r. rewrite add_to_ioend_queued by assumption.
    unfold bytes_for.
    replace (index f =? k) with false by (symmetry; apply Z.eqb_neq; lia).
    lia.
Qed.

Lemma add_to_ioend_accounting_witness :
  let m := mk_iomap 8192 0 65536 IOMAP_MAPPED 0 1 [] 0 false in
  let p := mk_iop 0 512 255 in
  let f := mk_folio 0 0 true false false false true (Some p) [] in
  let e := mk_ioend_state (mk_ioend IOMAP_MAPPED 0 512 0 None 0) []
                          (mk_bio 1 16 512 16 false [mk_bvec 0 0 512]) in
  let wpc := mk_wpc m (Some e) in
  let r := iomap_add_to_ioend 4 16 (mk_inode 4096 9) 512 f wpc [] in
  write_pending (fst (fst r))
  = write_bytes_pending p + i_blocksize (mk_inode 4096 9)
  /\ write_pending (fst (fst r))
     = queued_bytes_in (index f) (snd (fst r)) (snd r)
  /\ (forall k, k <> index f ->
       queued_bytes_in k (snd (fst r)) (snd r)
       = queued_bytes_in k wpc []).
Proof.
  intros m p f e wpc.
  apply (add_to_ioend_accounting 4 16 (mk_inode 4096 9) 512 f wpc [] p);
    try reflexivity.
  cbv. discriminate.
Defined.

Lemma bits_kept_refl f : bits_kept f f.
Proof. intros p Hp. exists p. auto. Qed.

Lemma bits_kept_trans f g h : bits_kept f g -> bits_kept g h -> bits_kept f h.
Proof.
  intros H1 H2 p Hp. destruct (H1 p Hp) as [q [Hq Hpq]].
  destruct (H2 q Hq) as [r [Hr Hqr]]. exists r. auto.
Qed.

(** Same record bitmap: nothing is lost. *)
Lemma bits_kept_same f g :
  option_map uptodate (private g) = option_map uptodate (private f) ->
  bits_kept f g.
Proof.
  unfold bits_kept, to_iomap_page. intros H p Hp. rewrite Hp in H.
  destruct (private g) as [q |]; simpl in H; [ | discriminate ].
  injection H as H. exists q. rewrite H. auto.
Qed.

Lemma bits_kept_set_range i f off len :
  bits_kept f (iomap_set_range_uptodate i f off len).
Proof.
  unfold iomap_set_range_uptodate. destruct (FolioError f);
    [ apply bits_kept_refl | ].
  intros p Hp. rewrite Hp. rewrite iop_set_range_marked. unfold folio_marked.
  exists (iop_with_uptodate p (Z.lor (uptodate p) (range_bits i (off, len)))).
  split.
  - destruct (bitmap_full _ _); reflexivity.
  - intros b Hb. simpl. unfold test_bit in *. rewrite Z.lor_spec, Hb.
    reflexivity.
Qed.

Lemma bits_kept_finish_read i f off len error :
  bits_kept f (iomap_finish_folio_read i f off len error).
Proof.
  destruct (finish_folio_read_frame i f off len error) as [Hp _].
  eapply bits_kept_trans; [ | apply bits_kept_same; exact Hp ].
  destruct (error =? 0); simpl.
  - apply bits_kept_set_range.
  - apply bits_kept_same. reflexivity.
Qed.

Lemma bits_kept_finish_write f len error :
  bits_kept f (fst (iomap_finish_folio_write f len error)).
Proof.
  apply bits_kept_same. unfold iomap_finish_folio_write, to_iomap_page.
  destruct (error =? 0); simpl; destruct (private f) as [p |] eqn:Hp; simpl;
    try destruct (s32 (write_bytes_pending p - len) =? 0); simpl;
    rewrite ?Hp; reflexivity.
Qed.

Lemma bits_kept_page_create i f :
  bits_kept f (snd (iomap_page_create i f)).
Proof.
  unfold iomap_page_create, to_iomap_page.
  destruct (private f) eqn:Hp; simpl; [ apply bits_kept_refl | ].
  intros p Hp'. unfold to_iomap_page in Hp'. congruence.
Qed.

Section WriteBeginKeeps.

Variable IOMAP_F_NEW : Z.
Variable submit_bio_wait : Z -> Z -> Z -> Z * list byte.

Lemma bits_kept_write_begin_loop fuel i flags srcmap from to block_end :
  forall f block_start status f',
    write_begin_loop IOMAP_F_NEW submit_bio_wait fuel i flags f srcmap
                     from to block_start block_end = Some (status, f') ->
    bits_kept f f'.
Proof.
  induction fuel as [| n IH]; intros f block_start status f' H;
    simpl in H;
    destruct (iomap_adjust_read_range i f block_start
                                      (s64 (block_end - block_start)))
      as [[[bs poff] plen] |]; try discriminate;
    (destruct (plen =? 0);
     [ injection H as _ <-; apply bits_kept_refl | ]).
  - (* no fuel left: the loop ends here or fails *)
    destruct ((Z.land flags IOMAP_WRITE_F_UNSHARE =? 0)
              && ((from <=? poff) || (u64 (poff + plen) <=? from))
              && ((to <=? poff) || (u64 (poff + plen) <=? to))).
    + destruct (s64 (bs + plen) <? block_end); [ discriminate | ].
      injection H as _ <-. apply bits_kept_refl.
    + destruct (iomap_block_needs_zeroing IOMAP_F_NEW i srcmap bs).
      * destruct (negb (Z.land flags IOMAP_WRITE_F_UNSHARE =? 0)).
        -- injection H as _ <-. apply bits_kept_refl.
        -- destruct (s64 (bs + plen) <? block_end); [ discriminate | ].
           injection H as _ <-.
           eapply bits_kept_trans; [ | apply bits_kept_set_range ].
           apply bits_kept_same. reflexivity.
      * unfold iomap_read_folio_sync in H.
        destruct (submit_bio_wait _ _ _) as [st bytes].
        destruct (negb (st =? 0)).
        -- injection H as _ <-. apply bits_kept_same. reflexivity.
        -- destruct (s64 (bs + plen) <? block_end); [ discriminate | ].
           injection H as _ <-.
           eapply bits_kept_trans; [ | apply bits_kept_set_range ].
           apply bits_kept_same. reflexivity.
  - destruct ((Z.land flags IOMAP_WRITE_F_UNSHARE =? 0)
              && ((from <=? poff) || (u64 (poff + plen) <=? from))
              && ((to <=? poff) || (u64 (poff + plen) <=? to))).
    + destruct (s64 (bs + plen) <? block_end).
      * eapply IH; eauto.
      * injection H as _ <-. apply bits_kept_refl.
    + destruct (iomap_block_needs_zeroing IOMAP_F_NEW i srcmap bs).
      * destruct (negb (Z.land flags IOMAP_WRITE_F_UNSHARE =? 0)).
        -- injection H as _ <-. apply bits_kept_refl.
        -- eapply bits_kept_trans;
             [ eapply bits_kept_trans;
               [ apply bits_kept_same
               | apply (bits_kept_set_range i _ poff plen) ] | ].
           ++ instantiate (1 := folio_with_data f _). reflexivity.
           ++ destruct (s64 (bs + plen) <? block_end).
              ** eapply IH; eauto.
              ** injection H as _ <-. apply bits_kept_refl.
      * unfold iomap_read_folio_sync in H.
        destruct (submit_bio_wait _ _ _) as [st bytes].
        destruct (negb (st =? 0)).
        -- injection H as _ <-. apply bits_kept_same. reflexivity.
        -- eapply bits_kept_trans;
             [ eapply bits_kept_trans;
               [ apply bits_kept_same
               | apply (bits_kept_set_range i _ poff plen) ] | ].
           ++ instantiate (1 := folio_with_data f _). reflexivity.
           ++ destruct (s64 (bs + plen) <? block_end).
              ** eapply IH; eauto.
              ** injection H as _ <-. apply bits_kept_refl.
Qed.

Lemma bits_kept_write_begin i pos len flags f srcmap status f' :
  __iomap_write_begin IOMAP_F_NEW submit_bio_wait i pos len flags f srcmap
    = Some (status, f') ->
  bits_kept f f'.
Proof.
  unfold __iomap_write_begin. intros H.
  pose proof (bits_kept_page_create i f) as Hc.
  destruct (iomap_page_create i f) as [iop f1]. simpl in Hc.
  destruct (FolioUptodate f1).
  - injection H as _ <-. exact Hc.
  - eapply bits_kept_trans; [ exact Hc | ].
    eapply bits_kept_trans;
      [ | eapply bits_kept_write_begin_loop; exact H ].
    apply bits_kept_same. reflexivity.
Qed.

End WriteBeginKeeps.

Lemma bits_kept_write_end BH SC bwe i pos len copied f m srcmap r i' f' m' ev :
  iomap_type_eqb (type srcmap) IOMAP_INLINE
  || (Z.land (flags srcmap) BH =? 0) = true ->
  iomap_write_end BH SC bwe i pos len copied f m srcmap
    = Some (r, i', f', m', ev) ->
  bits_kept f f'.
Proof.
  intros Hn. unfold iomap_write_end.
  destruct (iomap_type_eqb (type srcmap) IOMAP_INLINE) eqn:Hi.
  - destruct (iomap_write_end_inline f m pos copied) as [[[ret m1] ev1] |];
      [ | discriminate ].
    intros H. injection H as _ _ <- _ _. apply bits_kept_same. reflexivity.
  - simpl in Hn. rewrite Hn. cbn [negb].
    unfold __iomap_write_end.
    destruct ((copied <? len) && negb (FolioUptodate f)).
    + intros H. injection H as _ _ <- _ _. apply bits_kept_same. reflexivity.
    + intros H. injection H as _ _ <- _ _.
      eapply bits_kept_trans; [ apply bits_kept_set_range | ].
      apply bits_kept_same. reflexivity.
Qed.

(** X15: no operation of the engine ever clears a bit of the valid
    bitmap or drops the record: whatever was marked valid before a step is
    marked valid after it. *)
Theorem valid_bits_never_cleared NEW BH SC sbw bwe i f op i' f' :
  native_op BH op = true ->
  engine_step NEW BH SC sbw bwe i f op = Some (i', f') ->
  bits_kept f f'.
Proof.
  intros Hn.
  destruct op as [off len | off len | off len error | pos len fl srcmap
                | pos len copied m srcmap | len error]; simpl in *.
  - destruct (to_iomap_page f) as [p |] eqn:Hp; [ | discriminate ].
    intros H. injection H as _ <-.
    pose proof (bits_kept_set_range i f off len) as Hk.
    unfold iomap_set_range_uptodate in Hk. rewrite Hp in Hk.
    destruct (FolioError f) eqn:He; [ | exact Hk ].
    intros q Hq. rewrite Hp in Hq. injection Hq as <-.
    rewrite iop_set_range_marked. unfold folio_marked.
    exists (iop_with_uptodate p (Z.lor (uptodate p) (range_bits i (off, len)))).
    split.
    + destruct (bitmap_full _ _); reflexivity.
    + intros b Hb. simpl. unfold test_bit in *. rewrite Z.lor_spec, Hb.
      reflexivity.
  - intros H. injection H as _ <-. apply bits_kept_set_range.
  - intros H. injection H as _ <-. apply bits_kept_finish_read.
  - destruct (__iomap_write_begin NEW sbw i pos len fl f srcmap)
      as [[st g] |] eqn:Hw; [ | discriminate ].
    intros H. injection H as _ <-.
    eapply bits_kept_write_begin; eauto.
  - destruct (iomap_write_end BH SC bwe i pos len copied f m srcmap)
      as [[[[[r i1] f1] m1] ev] |] eqn:Hw; [ | discriminate ].
    intros H. injection H as _ <-.
    eapply bits_kept_write_end; eauto.
  - intros H. injection H as _ <-. apply bits_kept_finish_write.
Qed.

Lemma valid_bits_never_cleared_witness :
  let i := mk_inode 4096 9 in
  let f := mk_folio 0 0 true false false false false
                    (Some (mk_iop 0 0 1)) [] in
  let op := ReadCompletion 512 512 (-5) in
  native_op 8 op = true
  /\ bits_kept f (iomap_finish_folio_read i f 512 512 (-5)).
Proof.
  intros i f op. split; [ reflexivity | ].
  apply (valid_bits_never_cleared
           4 8 16 (fun _ _ _ => (0, [])) (fun _ _ _ g => (0, g))
           i f op i (iomap_finish_folio_read i f 512 512 (-5)));
    reflexivity.
Defined.

Lemma i_blocksize_pow i :
  0 <= i_blkbits i <= 12 ->
  i_blocksize i = 2 ^ i_blkbits i /\ 1 <= i_blocksize i <= 4096.
Proof.
  intros H. unfold i_blocksize. rewrite Z.shiftl_mul_pow2 by lia.
  rewrite Z.mul_1_l.
  assert (1 <= 2 ^ i_blkbits i <= 2 ^ 12).
  { split.
    - change 1 with (2 ^ 0). apply Z.pow_le_mono_r; lia.
    - apply Z.pow_le_mono_r; lia. }
  change (2 ^ 12) with 4096 in *.
  rewrite u32_small by lia. lia.
Qed.

Lemma page_blocks i :
  0 <= i_blkbits i <= 12 ->
  Z.shiftr PAGE_SIZE (i_blkbits i) * i_blocksize i = 4096
  /\ 0 <= Z.shiftr PAGE_SIZE (i_blkbits i) <= 4096.
Proof.
  intros H. destruct (i_blocksize_pow i H) as [Hb Hr]. rewrite Hb.
  assert (Hq : Z.shiftr PAGE_SIZE (i_blkbits i) = 2 ^ (12 - i_blkbits i)).
  { rewrite Z.shiftr_div_pow2 by lia. change PAGE_SIZE with (2 ^ 12).
    replace 12 with (12 - i_blkbits i + i_blkbits i) at 1 by lia.
    rewrite Z.pow_add_r by lia. apply Z.div_mul. lia. }
  rewrite Hq. rewrite <- Z.pow_add_r by lia.
  replace (12 - i_blkbits i + i_blkbits i) with 12 by lia.
  split; [ reflexivity | ].
  assert (1 <= 2 ^ (12 - i_blkbits i) <= 2 ^ 12).
  { split.
    - change 1 with (2 ^ 0). apply Z.pow_le_mono_r; lia.
    - apply Z.pow_le_mono_r; lia. }
  change (2 ^ 12) with 4096 in *. lia.
Qed.

Lemma same_but_write_pending_refl f : same_but_write_pending f f.
Proof. unfold same_but_write_pending. repeat split; reflexivity. Qed.

Lemma same_but_write_pending_trans f g h :
  same_but_write_pending f g -> same_but_write_pending g h ->
  same_but_write_pending f h.
Proof.
  unfold same_but_write_pending. intros H1 H2.
  repeat match goal with H : _ /\ _ |- _ => destruct H end.
  repeat split; congruence.
Qed.

Lemma add_to_ioend_folio SHARED BMP i offset f wpc iolist :
  fst (fst (iomap_add_to_ioend SHARED BMP i offset f wpc iolist))
  = match to_iomap_page f with
    | Some iop =>
      folio_with_private f
        (Some (iop_with_write_pending iop
                 (s32 (write_bytes_pending iop + i_blocksize i))))
    | None => f
    end.
Proof.
  unfold iomap_add_to_ioend.
  destruct (match wpc_ioend wpc with Some _ => _ | None => _ end).
  reflexivity.
Qed.

Lemma add_to_ioend_same SHARED BMP i offset f wpc iolist :
  same_but_write_pending
    f (fst (fst (iomap_add_to_ioend SHARED BMP i offset f wpc iolist))).
Proof.
  rewrite add_to_ioend_folio. unfold to_iomap_page, same_but_write_pending,
    read_pending, to_iomap_page.
  destruct (private f) as [p |] eqn:Hp; simpl; rewrite ?Hp;
    repeat split; reflexivity.
Qed.

Lemma add_to_ioend_iomap SHARED BMP i offset f wpc iolist :
  wpc_iomap (snd (fst (iomap_add_to_ioend SHARED BMP i offset f wpc iolist)))
  = wpc_iomap wpc.
Proof.
  unfold iomap_add_to_ioend.
  destruct (match wpc_ioend wpc with Some _ => _ | None => _ end).
  reflexivity.
Qed.

Lemma bio_add_positive b page len off :
  0 < len ->
  Forall (fun bv => 0 < bv_len bv) (bi_io_vec b) ->
  Forall (fun bv => 0 < bv_len bv) (bi_io_vec (bio_add_page b page len off)).
Proof.
  intros Hl Hb. unfold bio_add_page, __bio_try_merge_page.
  destruct (rev (bi_io_vec b)) as [| bv before] eqn:Hrev.
  - destruct (bio_full b len); [ assumption | ].
    simpl. apply Forall_app. split; [ assumption | ].
    repeat constructor. simpl. lia.
  - assert (Hv : bi_io_vec b = rev (bv :: before))
      by (rewrite <- Hrev; now rewrite rev_involutive).
    rewrite Hv in Hb. apply Forall_rev in Hb. rewrite rev_involutive in Hb.
    inversion Hb as [| ? ? Hbv Hbefore]; subst.
    destruct ((bv_page bv =? page) && (bv_offset bv + bv_len bv =? off)
              && negb (UINT_MAX - len <? bi_size b)).
    + cbn [bi_io_vec bio_with_vecs]. apply Forall_rev.
      constructor; [ simpl; lia | assumption ].
    + destruct (bio_full b len).
      * rewrite Hv. apply Forall_rev. now constructor.
      * simpl. apply Forall_app. split.
        -- rewrite Hv. apply Forall_rev. now constructor.
        -- repeat constructor. simpl. lia.
Qed.

Lemma try_merge_positive b page len off b' :
  0 < len ->
  Forall (fun bv => 0 < bv_len bv) (bi_io_vec b) ->
  __bio_try_merge_page b page len off = Some b' ->
  Forall (fun bv => 0 < bv_len bv) (bi_io_vec b').
Proof.
  intros Hl Hb Hm.
  pose proof (bio_add_positive b page len off Hl Hb) as H.
  unfold bio_add_page in H. now rewrite Hm in H.
Qed.

Lemma payload_segs_snoc chain b :
  payload_segs (chain ++ [b]) = payload_segs chain ++ bi_io_vec b.
Proof. rewrite payload_segs_app. simpl. now rewrite app_nil_r. Qed.

Lemma ioend_add_block_positive BMP e page len poff :
  0 < len ->
  Forall (fun bv => 0 < bv_len bv) (payload_segs (io_chain e ++ [io_bio e])) ->
  let e' := ioend_add_block BMP e page len poff in
  Forall (fun bv => 0 < bv_len bv)
         (payload_segs (io_chain e' ++ [io_bio e'])).
Proof.
  intros Hl H. rewrite payload_segs_snoc in H. apply Forall_app in H.
  destruct H as [Hc Hb]. unfold ioend_add_block.
  destruct (__bio_try_merge_page (io_bio e) page len poff) as [b' |] eqn:Hm.
  - cbn [io_chain io_bio]. rewrite payload_segs_snoc. apply Forall_app.
    split; [ assumption | ]. eapply try_merge_positive; eauto.
  - destruct (bio_full (io_bio e) len); cbn [io_chain io_bio];
      rewrite payload_segs_snoc; apply Forall_app; split.
    + rewrite payload_segs_snoc. apply Forall_app. auto.
    + apply bio_add_positive; [ assumption | constructor ].
    + assumption.
    + apply bio_add_positive; assumption.
Qed.

Lemma add_to_ioend_positive SHARED BMP i offset f wpc iolist :
  0 < i_blocksize i ->
  ioends_positive (held_ioends wpc iolist) ->
  ioends_positive
    (held_ioends
       (snd (fst (iomap_add_to_ioend SHARED BMP i offset f wpc iolist)))
       (snd (iomap_add_to_ioend SHARED BMP i offset f wpc iolist))).
Proof.
  intros Hl H. unfold iomap_add_to_ioend, held_ioends, ioends_positive in *.
  assert (Hfresh : forall m o s,
    Forall (fun bv => 0 < bv_len bv)
           (payload_segs (io_chain (iomap_alloc_ioend BMP m o s)
                          ++ [io_bio (iomap_alloc_ioend BMP m o s)])))
    by (intros; constructor).
  destruct (wpc_ioend wpc) as [e |].
  - inversion H as [| ? ? He Hrest]; subst.
    destruct (iomap_can_add_to_ioend _ _ _ _ _); cbn [fst snd wpc_ioend];
      constructor; auto using ioend_add_block_positive.
  - cbn [fst snd wpc_ioend]. constructor;
      auto using ioend_add_block_positive.
Qed.

Section WritepageProofs.

Variable SHARED : Z.
Variable BMP : Z.
Variable map_blocks : iomap_writepage_ctx -> Z -> Z * iomap.
Variable prepare_ioend : option (ioend_state -> Z -> Z).
Variable discard_page : bool.

Hypothesis BMP_pos : 0 < BMP.

Lemma queued_iomap_irrelevant k m wpc sl :
  queued_bytes_in k (mk_wpc m (wpc_ioend wpc)) sl = queued_bytes_in k wpc sl.
Proof. reflexivity. Qed.

Lemma writepage_map_loop_spec i eo :
  0 <= i_blkbits i <= 12 ->
  forall n blk fo f wpc sl count p error fo' f' wpc' sl' count',
    to_iomap_page f = Some p ->
    0 <= write_bytes_pending p ->
    write_bytes_pending p + Z.of_nat n * i_blocksize i < 2 ^ 31 ->
    0 <= count -> count + Z.of_nat n < 2 ^ 31 ->
    write_bytes_pending p = queued_bytes_in (index f) wpc sl ->
    writepage_map_loop SHARED BMP map_blocks n i blk fo eo f wpc sl count
    = (error, fo', f', wpc', sl', count') ->
    exists p',
      to_iomap_page f' = Some p'
      /\ write_bytes_pending p' = queued_bytes_in (index f) wpc' sl'
      /\ write_bytes_pending p'
         = write_bytes_pending p + (count' - count) * i_blocksize i
      /\ count <= count' <= count + Z.of_nat n
      /\ same_but_write_pending f f'
      /\ (count' = count -> sl' = sl)
      /\ (ioends_positive (held_ioends wpc sl) ->
          ioends_positive (held_ioends wpc' sl')).
Proof.
  intros Hbits. destruct (i_blocksize_pow i Hbits) as [_ Hlen].
  induction n as [| n IH];
    intros blk fo f wpc sl count p error fo' f' wpc' sl' count'
           Hp Hnn Hmax Hc Hcmax Hq Hloop.
  - simpl in Hloop. injection Hloop as <- <- <- <- <- <-.
    exists p. split; [ exact Hp | ]. split; [ exact Hq | ].
    split; [ lia | ]. split; [ lia | ].
    split; [ apply same_but_write_pending_refl | ]. split; auto.
  - cbn [writepage_map_loop] in Hloop.
    assert (Hstop : (error, fo', f', wpc', sl', count')
                    = (error, fo', f, wpc, sl, count) ->
            exists p',
              to_iomap_page f' = Some p'
              /\ write_bytes_pending p' = queued_bytes_in (index f) wpc' sl'
              /\ write_bytes_pending p'
                 = write_bytes_pending p + (count' - count) * i_blocksize i
              /\ count <= count' <= count + Z.of_nat (S n)
              /\ same_but_write_pending f f'
              /\ (count' = count -> sl' = sl)
              /\ (ioends_positive (held_ioends wpc sl) ->
                  ioends_positive (held_ioends wpc' sl'))).
    { intros E. injection E as -> -> -> ->.
      exists p. split; [ exact Hp | ]. split; [ exact Hq | ].
      split; [ lia | ]. split; [ lia | ].
      split; [ apply same_but_write_pending_refl | ]. split; auto. }
    assert (Hnext : forall m,
      writepage_map_loop SHARED BMP map_blocks n i (blk + 1)
                         (u64 (fo + i_blocksize i)) eo f
                         (mk_wpc m (wpc_ioend wpc)) sl count
      = (error, fo', f', wpc', sl', count') ->
      exists p',
        to_iomap_page f' = Some p'
        /\ write_bytes_pending p' = queued_bytes_in (index f) wpc' sl'
        /\ write_bytes_pending p'
           = write_bytes_pending p + (count' - count) * i_blocksize i
        /\ count <= count' <= count + Z.of_nat (S n)
        /\ same_but_write_pending f f'
        /\ (count' = count -> sl' = sl)
        /\ (ioends_positive (held_ioends wpc sl) ->
            ioends_positive (held_ioends wpc' sl'))).
    { intros m E.
      destruct (IH (blk + 1) (u64 (fo + i_blocksize i)) f
                   (mk_wpc m (wpc_ioend wpc)) sl count p error fo' f' wpc'
                   sl' count' Hp Hnn ltac:(lia) Hc ltac:(lia) Hq E)
        as [p' [A [B [C [D [S0 [F G]]]]]]].
      exists p'. split; [ exact A | ]. split; [ exact B | ].
      split; [ exact C | ]. split; [ lia | ]. split; [ exact S0 | ].
      split; [ exact F | exact G ]. }
    destruct (fo <? eo).
    + rewrite Hp in Hloop.
      destruct (negb (test_bit blk (uptodate p))).
      * destruct wpc as [m0 e0]. apply (Hnext m0). exact Hloop.
      * destruct (map_blocks wpc fo) as [err m] eqn:Hmb.
        destruct (negb (err =? 0)).
        -- injection Hloop as <- <- <- <- <- <-.
           exists p. split; [ exact Hp | ]. split; [ exact Hq | ].
           split; [ lia | ]. split; [ lia | ].
           split; [ apply same_but_write_pending_refl | ]. split; auto.
        -- destruct (iomap_type_eqb (type m) IOMAP_INLINE);
             [ apply (Hnext m); exact Hloop | ].
           destruct (iomap_type_eqb (type m) IOMAP_HOLE);
             [ apply (Hnext m); exact Hloop | ].
           set (wpc1 := mk_wpc m (wpc_ioend wpc)) in *.
           pose proof (add_to_ioend_queued SHARED BMP i fo f wpc1 sl
                                           (index f) BMP_pos) as Hqa.
           pose proof (add_to_ioend_folio SHARED BMP i fo f wpc1 sl) as Hfa.
           pose proof (add_to_ioend_same SHARED BMP i fo f wpc1 sl) as Hsa.
           pose proof (add_to_ioend_positive SHARED BMP i fo f wpc1 sl
                         ltac:(lia)) as Hpa.
           destruct (iomap_add_to_ioend SHARED BMP i fo f wpc1 sl)
             as [[fa wpca] sla].
           cbn [fst snd] in Hqa, Hfa, Hsa, Hpa.
           rewrite Hp in Hfa.
           rewrite s32_small in Hfa by lia.
           rewrite s32_small in Hloop by lia.
           set (pa := iop_with_write_pending
                        p (write_bytes_pending p + i_blocksize i)) in *.
           assert (Hpa' : to_iomap_page fa = Some pa) by (now subst fa).
           assert (Hidx : index fa = index f) by (now subst fa).
           unfold bytes_for in Hqa. rewrite Z.eqb_refl in Hqa.
           destruct (IH (blk + 1) (u64 (fo + i_blocksize i)) fa wpca sla
                        (count + 1) pa error fo' f' wpc' sl' count' Hpa')
             as [p' [A [B [C [D [S0 [F G]]]]]]];
             try (unfold pa; simpl; lia).
           ++ unfold pa. simpl. rewrite Hidx, Hqa.
              unfold wpc1. rewrite queued_iomap_irrelevant. lia.
           ++ exact Hloop.
           ++ exists p'. rewrite Hidx in B. unfold pa in C. simpl in C.
              split; [ exact A | ]. split; [ exact B | ].
              split; [ lia | ]. split; [ lia | ].
              split; [ eapply same_but_write_pending_trans; eauto | ].
              split; [ intros; lia | ].
              intros Hpos. apply G. apply Hpa. exact Hpos.
    + injection Hloop as <- <- <- <- <- <-. apply Hstop. reflexivity.
Qed.

Lemma add_to_ioend_cached i fo f wpc sl :
  0 <= i_blkbits i <= 12 ->
  Forall (fun e => 0 <= ioend_bytes_in (index f) e) (held_ioends wpc sl) ->
  let r := iomap_add_to_ioend SHARED BMP i fo f wpc sl in
  Forall (fun e => 0 <= ioend_bytes_in (index f) e)
         (held_ioends (snd (fst r)) (snd r))
  /\ exists e, wpc_ioend (snd (fst r)) = Some e
               /\ i_blocksize i <= ioend_bytes_in (index f) e.
Proof.
  intros Hbits Hnn. pose proof (i_blocksize_range i) as Hlen.
  destruct (i_blocksize_pow i Hbits) as [_ Hpos].
  unfold iomap_add_to_ioend, held_ioends in *.
  assert (Hadd : forall e,
    0 <= ioend_bytes_in (index f) e ->
    i_blocksize i
    <= ioend_bytes_in (index f)
         (ioend_add_block BMP e (index f) (i_blocksize i)
            (u32 (Z.land fo (PAGE_SIZE - 1))))).
  { intros e He. rewrite ioend_add_block_bytes by assumption.
    unfold bytes_for. rewrite Z.eqb_refl. lia. }
  assert (Hfresh : forall m o s,
    0 <= ioend_bytes_in (index f) (iomap_alloc_ioend BMP m o s))
    by (intros; rewrite alloc_ioend_bytes; lia).
  destruct (wpc_ioend wpc) as [e |].
  - inversion Hnn as [| ? ? He Hrest]; subst.
    destruct (iomap_can_add_to_ioend _ _ _ _ _); cbn [fst snd wpc_ioend].
    + split.
      * constructor; [ | assumption ].
        specialize (Hadd e He). lia.
      * eexists. split; [ reflexivity | now apply Hadd ].
    + split.
      * constructor; [ | constructor; assumption ].
        specialize (Hadd _ (Hfresh (wpc_iomap wpc) fo
                              (iomap_sector (wpc_iomap wpc) fo))). lia.
      * eexists. split; [ reflexivity | apply Hadd, Hfresh ].
  - cbn [fst snd wpc_ioend]. split.
    + constructor; [ | assumption ].
      specialize (Hadd _ (Hfresh (wpc_iomap wpc) fo
                            (iomap_sector (wpc_iomap wpc) fo))). lia.
    + eexists. split; [ reflexivity | apply Hadd, Hfresh ].
Qed.

(** The bytes of the page in each ioend the pass holds are never
    negative, and once a block was added the cached ioend holds at least a
    block of the page. *)
Lemma writepage_map_loop_cached i eo k :
  0 <= i_blkbits i <= 12 ->
  forall n blk fo f wpc sl count error fo' f' wpc' sl' count',
    index f = k ->
    0 <= count -> count + Z.of_nat n < 2 ^ 31 ->
    Forall (fun e => 0 <= ioend_bytes_in k e) (held_ioends wpc sl) ->
    writepage_map_loop SHARED BMP map_blocks n i blk fo eo f wpc sl count
    = (error, fo', f', wpc', sl', count') ->
    Forall (fun e => 0 <= ioend_bytes_in k e) (held_ioends wpc' sl')
    /\ ((exists e, wpc_ioend wpc = Some e
                   /\ i_blocksize i <= ioend_bytes_in k e)
        \/ count < count' ->
        exists e, wpc_ioend wpc' = Some e
                  /\ i_blocksize i <= ioend_bytes_in k e).
Proof.
  intros Hbits.
  induction n as [| n IH];
    intros blk fo f wpc sl count error fo' f' wpc' sl' count'
           Hk Hc Hcmax Hnn Hloop.
  - simpl in Hloop. injection Hloop as <- <- <- <- <- <-.
    split; [ exact Hnn | ]. intros [H | H]; [ exact H | lia ].
  - cbn [writepage_map_loop] in Hloop.
    assert (Hnext : forall m,
      writepage_map_loop SHARED BMP map_blocks n i (blk + 1)
                         (u64 (fo + i_blocksize i)) eo f
                         (mk_wpc m (wpc_ioend wpc)) sl count
      = (error, fo', f', wpc', sl', count') ->
      Forall (fun e => 0 <= ioend_bytes_in k e) (held_ioends wpc' sl')
      /\ ((exists e, wpc_ioend wpc = Some e
                     /\ i_blocksize i <= ioend_bytes_in k e)
          \/ count < count' ->
          exists e, wpc_ioend wpc' = Some e
                    /\ i_blocksize i <= ioend_bytes_in k e)).
    { intros m E.
      apply (IH (blk + 1) (u64 (fo + i_blocksize i)) f
                (mk_wpc m (wpc_ioend wpc)) sl count error fo' f' wpc' sl'
                count' Hk Hc ltac:(lia) Hnn E). }
    destruct (fo <? eo).
    + destruct (match to_iomap_page f with
                | Some iop => negb (test_bit blk (uptodate iop))
                | None => false
                end).
      * destruct wpc as [m0 e0]. apply (Hnext m0). exact Hloop.
      * destruct (map_blocks wpc fo) as [err m] eqn:Hmb.
        destruct (negb (err =? 0)).
        -- injection Hloop as <- <- <- <- <- <-.
           split; [ exact Hnn | ]. intros [H | H]; [ exact H | lia ].
        -- destruct (iomap_type_eqb (type m) IOMAP_INLINE);
             [ apply (Hnext m); exact Hloop | ].
           destruct (iomap_type_eqb (type m) IOMAP_HOLE);
             [ apply (Hnext m); exact Hloop | ].
           set (wpc1 := mk_wpc m (wpc_ioend wpc)) in *.
           subst k.
           pose proof (add_to_ioend_cached i fo f wpc1 sl Hbits Hnn) as Hca.
           pose proof (add_to_ioend_folio SHARED BMP i fo f wpc1 sl) as Hfa.
           cbv zeta in Hca.
           destruct (iomap_add_to_ioend SHARED BMP i fo f wpc1 sl)
             as [[fa wpca] sla].
           cbn [fst snd] in Hca, Hfa. destruct Hca as [Hnn' Hhas].
           assert (Hidx : index fa = index f).
           { subst fa. destruct (to_iomap_page f); reflexivity. }
           rewrite s32_small in Hloop by lia.
           destruct (IH (blk + 1) (u64 (fo + i_blocksize i)) fa wpca sla
                        (count + 1) error fo' f' wpc' sl' count' Hidx
                        ltac:(lia) ltac:(lia) Hnn' Hloop) as [A B].
           split; [ exact A | ]. intros _. apply B. left. exact Hhas.
    + injection Hloop as <- <- <- <- <- <-.
      split; [ exact Hnn | ]. intros [H | H]; [ exact H | lia ].
Qed.

End WritepageProofs.

Lemma events_ioends_app a b :
  events_ioends (a ++ b) = events_ioends a ++ events_ioends b.
Proof. unfold events_ioends. apply flat_map_app. Qed.

Lemma events_failed_app a b :
  events_failed (a ++ b) = events_failed a ++ events_failed b.
Proof. unfold events_failed. apply flat_map_app. Qed.

Lemma queued_held k wpc sl :
  queued_bytes_in k wpc sl = ioends_queued_in k (held_ioends wpc sl).
Proof. reflexivity. Qed.

Lemma ioends_queued_in_app k a b :
  ioends_queued_in k (a ++ b) = ioends_queued_in k a + ioends_queued_in k b.
Proof.
  induction a as [| e a IH]; simpl; [ reflexivity | ].
  unfold ioends_queued_in in *. simpl. rewrite IH. lia.
Qed.

Lemma ioends_queued_in_nonneg k l :
  Forall (fun e => 0 <= ioend_bytes_in k e) l -> 0 <= ioends_queued_in k l.
Proof.
  induction 1 as [| e l He Hl IH]; unfold ioends_queued_in in *; simpl; lia.
Qed.

Lemma ioends_segs_payload_bytes k l :
  ioends_bytes_in k (map ioend_payload l) = ioends_queued_in k l.
Proof.
  unfold ioends_bytes_in.
  induction l as [| e l IH]; [ reflexivity | ].
  change (ioends_segs (map ioend_payload (e :: l)))
    with (payload_segs (io_chain e ++ [io_bio e])
          ++ ioends_segs (map ioend_payload l)).
  rewrite segs_in_app, seg_bytes_app, IH. reflexivity.
Qed.

Lemma ioends_segs_payload_positive l :
  ioends_positive l ->
  Forall (fun bv => 0 < bv_len bv) (ioends_segs (map ioend_payload l)).
Proof.
  induction 1 as [| e l He Hl IH]; [ constructor | ].
  change (ioends_segs (map ioend_payload (e :: l)))
    with (payload_segs (io_chain e ++ [io_bio e])
          ++ ioends_segs (map ioend_payload l)).
  apply Forall_app. auto.
Qed.

Lemma seg_bytes_zero l :
  Forall (fun bv => 0 < bv_len bv) l -> seg_bytes l = 0 -> l = [].
Proof.
  intros H. destruct H as [| bv l Hbv Hl]; [ reflexivity | ].
  pose proof (seg_bytes_nonneg l Hl). simpl. lia.
Qed.

Lemma ioend_bytes_positive k e :
  Forall (fun bv => 0 < bv_len bv) (payload_segs (io_chain e ++ [io_bio e])) ->
  0 <= ioend_bytes_in k e.
Proof.
  intros H. unfold ioend_bytes_in. apply seg_bytes_nonneg.
  now apply segs_in_forall.
Qed.

Lemma ioends_positive_nonneg k l :
  ioends_positive l -> Forall (fun e => 0 <= ioend_bytes_in k e) l.
Proof.
  unfold ioends_positive. intros H. eapply Forall_impl; [ | exact H ].
  intros e He. now apply ioend_bytes_positive.
Qed.

(** *** Completion of the regions of a folio, whatever their lengths *)

Lemma s32_sub_s32 a b : s32 (s32 a - b) = s32 (a - b).
Proof.
  unfold s32.
  replace ((a + 2 ^ 31) mod 2 ^ 32 - 2 ^ 31 - b + 2 ^ 31)
    with ((a + 2 ^ 31) mod 2 ^ 32 - b) by lia.
  rewrite Zminus_mod_idemp_l. f_equal. f_equal. lia.
Qed.

Lemma finish_folio_write_error_any f len e1 e2 :
  e1 <> 0 -> e2 <> 0 ->
  fst (iomap_finish_folio_write f len e1)
  = fst (iomap_finish_folio_write f len e2).
Proof.
  intros H1 H2. unfold iomap_finish_folio_write.
  replace (e1 =? 0) with false by (symmetry; now apply Z.eqb_neq).
  replace (e2 =? 0) with false by (symmetry; now apply Z.eqb_neq).
  cbn [negb].
  destruct (to_iomap_page (SetFolioError f)) as [p |]; [ | reflexivity ].
  destruct (atomic_sub_and_test len (write_bytes_pending p)). reflexivity.
Qed.

Lemma finish_writes_error_any e1 e2 segs :
  e1 <> 0 -> e2 <> 0 ->
  forall f,
    fold_left (fun f bv => fst (iomap_finish_folio_write f (bv_len bv) e1))
              segs f
    = fold_left (fun f bv => fst (iomap_finish_folio_write f (bv_len bv) e2))
                segs f.
Proof.
  intros H1 H2. induction segs as [| bv segs IH]; intros f; simpl;
    [ reflexivity | ].
  rewrite (finish_folio_write_error_any f (bv_len bv) e1 e2 H1 H2).
  apply IH.
Qed.

Lemma finish_folio_write_frame f len error p :
  to_iomap_page f = Some p ->
  let f' := fst (iomap_finish_folio_write f len error) in
  to_iomap_page f'
  = Some (iop_with_write_pending p (s32 (write_bytes_pending p - len)))
  /\ index f' = index f /\ order f' = order f
  /\ PG_locked f' = PG_locked f /\ PG_dirty f' = PG_dirty f
  /\ PG_uptodate f' = PG_uptodate f /\ data f' = data f
  /\ PG_error f' = PG_error f || negb (error =? 0).
Proof.
  intros Hp. unfold iomap_finish_folio_write.
  set (f1 := if negb (error =? 0) then _ else _).
  assert (H1 : to_iomap_page f1 = Some p /\ index f1 = index f
               /\ order f1 = order f /\ PG_locked f1 = PG_locked f
               /\ PG_dirty f1 = PG_dirty f /\ PG_uptodate f1 = PG_uptodate f
               /\ data f1 = data f
               /\ PG_error f1 = PG_error f || negb (error =? 0)).
  { unfold f1. destruct (error =? 0); simpl;
      rewrite ?orb_false_r, ?orb_true_r; auto 10. }
  clearbody f1. destruct H1 as [Hp1 [A [B [C [D [E [F G]]]]]]].
  rewrite Hp1. unfold atomic_sub_and_test.
  destruct (s32 (write_bytes_pending p - len) =? 0); simpl; auto 10.
Qed.

(** The completions of a list of regions of a folio that has a record:
    the count drops by their bytes, in the arithmetic of the counter, and
    nothing but the count, the writeback flag and the error flag moves. *)
Lemma finish_writes_frame error segs :
  forall f p,
    to_iomap_page f = Some p ->
    - 2 ^ 31 <= write_bytes_pending p < 2 ^ 31 ->
    let f' := fold_left
                (fun f bv => fst (iomap_finish_folio_write f (bv_len bv) error))
                segs f in
    exists p',
      to_iomap_page f' = Some p'
      /\ write_bytes_pending p' = s32 (write_bytes_pending p - seg_bytes segs)
      /\ uptodate p' = uptodate p
      /\ read_bytes_pending p' = read_bytes_pending p
      /\ index f' = index f /\ order f' = order f
      /\ PG_locked f' = PG_locked f /\ PG_dirty f' = PG_dirty f
      /\ PG_uptodate f' = PG_uptodate f /\ data f' = data f
      /\ PG_error f'
         = PG_error f
           || (negb (error =? 0) && negb (Nat.eqb (List.length segs) 0)).
Proof.
  induction segs as [| bv segs IH]; intros f p Hp Hr; cbn [fold_left].
  - exists p. cbn [seg_bytes fold_right List.length Nat.eqb negb].
    rewrite Z.sub_0_r, s32_small by lia.
    rewrite andb_false_r, orb_false_r. auto 12.
  - destruct (finish_folio_write_frame f (bv_len bv) error p Hp)
      as [Hp1 [A [B [C [D [E [F G]]]]]]].
    set (f1 := fst (iomap_finish_folio_write f (bv_len bv) error)) in *.
    set (p1 := iop_with_write_pending
                 p (s32 (write_bytes_pending p - bv_len bv))) in *.
    assert (Hr1 : - 2 ^ 31 <= write_bytes_pending p1 < 2 ^ 31).
    { unfold p1. simpl. unfold s32.
      pose proof (Z.mod_pos_bound (write_bytes_pending p - bv_len bv + 2 ^ 31)
                                  (2 ^ 32) ltac:(lia)). lia. }
    destruct (IH f1 p1 Hp1 Hr1)
      as [p' [Hp' [Hc [Hu [Hrd [A' [B' [C' [D' [E' [F' G']]]]]]]]]]].
    exists p'. split; [ exact Hp' | ]. split.
    { rewrite Hc. unfold p1. simpl. rewrite s32_sub_s32.
      f_equal. lia. }
    split; [ rewrite Hu; reflexivity | ].
    split; [ rewrite Hrd; reflexivity | ].
    split; [ congruence | ]. split; [ congruence | ].
    split; [ congruence | ]. split; [ congruence | ].
    split; [ congruence | ]. split; [ congruence | ].
    rewrite G', G. cbn [List.length Nat.eqb negb].
    destruct (PG_error f), (error =? 0), (Nat.eqb (List.length segs) 0);
      reflexivity.
Qed.

Lemma mapping_set_error_pages m error :
  i_pages (mapping_set_error m error) = i_pages m.
Proof. unfold mapping_set_error. now destruct (error =? 0). Qed.

Lemma mapping_set_errors_pages ev :
  forall m, i_pages (mapping_set_errors m ev) = i_pages m.
Proof.
  unfold mapping_set_errors.
  induction ev as [| e ev IH]; intros m; cbn [fold_left]; [ reflexivity | ].
  rewrite IH. destruct e; try reflexivity. apply mapping_set_error_pages.
Qed.

Lemma failed_in_app k a b f :
  failed_in k (a ++ b) f = failed_in k b (failed_in k a f).
Proof.
  unfold failed_in. rewrite map_app.
  unfold ioends_segs. rewrite flat_map_app, segs_in_app, fold_left_app.
  reflexivity.
Qed.

(** What the completions of failed ioends leave of a folio that has a
    record, when their regions have positive lengths and the count covers
    them. *)
Lemma failed_in_counter k l f p :
  to_iomap_page f = Some p ->
  ioends_positive l ->
  ioends_queued_in k l <= write_bytes_pending p < 2 ^ 31 ->
  let f' := failed_in k l f in
  write_pending f' = write_bytes_pending p - ioends_queued_in k l
  /\ PG_writeback f'
     = PG_writeback f
       && negb ((0 <? ioends_queued_in k l)
                && (write_bytes_pending p =? ioends_queued_in k l))
  /\ PG_error f' = PG_error f || (0 <? ioends_queued_in k l).
Proof.
  intros Hp Hpos Hq. unfold failed_in.
  pose proof (ioends_segs_payload_bytes k l) as Hb.
  unfold ioends_bytes_in in Hb.
  pose proof (segs_in_forall _ k _ (ioends_segs_payload_positive l Hpos))
    as Hposs.
  set (segs := segs_in k (ioends_segs (map ioend_payload l))) in *.
  pose proof (seg_bytes_nonneg segs Hposs) as Hnn.
  destruct (Z.ltb_spec 0 (ioends_queued_in k l)) as [Hsome | Hnone].
  - destruct (finish_writes_counter (- EIO) segs f p Hp Hposs ltac:(lia)
                ltac:(lia)) as [Hc Hw].
    destruct (finish_writes_frame (- EIO) segs f p Hp ltac:(lia))
      as [p' [_ [_ [_ [_ [_ [_ [_ [_ [_ [_ He]]]]]]]]]]].
    rewrite Hc, Hw, He, Hb. split; [ reflexivity | ].
    split; [ reflexivity | ]. f_equal.
    destruct segs; [ simpl in Hb; lia | reflexivity ].
  - assert (Hnil : segs = []) by (apply seg_bytes_zero; [ assumption | lia ]).
    rewrite Hnil. cbn [fold_left]. unfold write_pending. rewrite Hp.
    rewrite andb_false_l, andb_true_r, orb_false_r.
    split; [ lia | ]. split; reflexivity.
Qed.

Lemma failed_in_frame k l f p :
  to_iomap_page f = Some p ->
  - 2 ^ 31 <= write_bytes_pending p < 2 ^ 31 ->
  let f' := failed_in k l f in
  exists p',
    to_iomap_page f' = Some p'
    /\ write_bytes_pending p'
       = s32 (write_bytes_pending p - ioends_queued_in k l)
    /\ uptodate p' = uptodate p
    /\ read_bytes_pending p' = read_bytes_pending p
    /\ index f' = index f /\ order f' = order f
    /\ PG_locked f' = PG_locked f /\ PG_dirty f' = PG_dirty f
    /\ PG_uptodate f' = PG_uptodate f /\ data f' = data f.
Proof.
  intros Hp Hr. unfold failed_in.
  pose proof (ioends_segs_payload_bytes k l) as Hb.
  unfold ioends_bytes_in in Hb.
  destruct (finish_writes_frame
              (- EIO) (segs_in k (ioends_segs (map ioend_payload l))) f p
              Hp Hr)
    as [p' [A [B [C [D [E [F [G [H [I [J _]]]]]]]]]]].
  exists p'. rewrite <- Hb. auto 12.
Qed.

Section WritepageTheorems.

Variable SHARED : Z.
Variable BMP : Z.
Variable map_blocks : iomap_writepage_ctx -> Z -> Z * iomap.
Variable prepare_ioend : option (ioend_state -> Z -> Z).
Variable discard_page : bool.

Hypothesis BMP_pos : 0 < BMP.

(** A submission either hands the ioend over and touches nothing, or
    fails it and completes its regions with an error. *)
Lemma submit_ioend_spec mapping e error k :
  forall ret mapping' ev,
    iomap_submit_ioend prepare_ioend mapping e error = (ret, mapping', ev) ->
    (ret = 0 /\ mapping' = mapping /\ ev = [WbSubmit e])
    \/ (ret <> 0 /\ (exists err, ev = [WbFail e err])
        /\ i_pages mapping' k = failed_in k [e] (i_pages mapping k)).
Proof.
  intros ret mapping' ev. unfold iomap_submit_ioend.
  set (err := match prepare_ioend with
              | Some hook => s32 (hook e error)
              | None => error
              end).
  destruct (Z.eqb_spec err 0) as [Hz | Hnz]; cbn [negb].
  - intros H. injection H as <- <- <-. left. auto.
  - cbn [ioend_payload]. rewrite finish_ioend_eq.
    intros H. injection H as <- <- <-. right.
    split; [ exact Hnz | ]. split; [ eexists; reflexivity | ].
    rewrite mapping_set_errors_pages. cbn [i_pages mapping_with_pages].
    rewrite (fold_store_at
               (fun f bv => fst (iomap_finish_folio_write f (bv_len bv) err))).
    unfold failed_in.
    change (ioends_segs (map ioend_payload [e]))
      with (payload_segs (io_chain e ++ [io_bio e]) ++ []).
    rewrite app_nil_r.
    apply finish_writes_error_any; [ exact Hnz | discriminate ].
Qed.

(** The ioends of the submit list are handed over or failed, each once;
    the folios of the file are left as the completions of the failed ones
    leave them. *)
Lemma submit_ioends_spec k l :
  forall mapping error err mapping' evs,
    submit_ioends prepare_ioend mapping l error = (err, mapping', evs) ->
    i_pages mapping' k = failed_in k (events_failed evs) (i_pages mapping k)
    /\ ioends_queued_in k l
       = ioends_queued_in k (events_ioends evs)
         + ioends_queued_in k (events_failed evs)
    /\ (forall P : ioend_state -> Prop,
          Forall P l ->
          Forall P (events_ioends evs) /\ Forall P (events_failed evs))
    /\ (error <> 0 -> err = error)
    /\ (events_failed evs = [] -> err = error /\ mapping' = mapping).
Proof.
  induction l as [| e l IH]; intros mapping error err mapping' evs Hsub.
  - cbn [submit_ioends] in Hsub. injection Hsub as <- <- <-.
    split; [ reflexivity | ]. split; [ reflexivity | ].
    split; [ intros P _; split; constructor | ]. auto.
  - cbn [submit_ioends] in Hsub.
    destruct (iomap_submit_ioend prepare_ioend mapping e error)
      as [[error2 mapping1] ev] eqn:Hone.
    destruct (submit_ioends prepare_ioend mapping1 l
                (if negb (error2 =? 0) && (error =? 0) then error2
                 else error))
      as [[err0 mapping2] evs0] eqn:Hrest.
    injection Hsub as <- <- <-.
    destruct (IH _ _ _ _ _ Hrest) as [Hpg [Hq [Hall [Herr Hnone]]]].
    rewrite events_ioends_app, events_failed_app, !ioends_queued_in_app.
    destruct (submit_ioend_spec mapping e error k _ _ _ Hone)
      as [[Hr [Hm Hev]] | [Hr [[err1 Hev] Hpg1]]]; subst ev.
    + subst error2 mapping1.
      change (events_failed [WbSubmit e]) with (@nil ioend_state).
      change (events_ioends [WbSubmit e]) with [e].
      cbn [app]. split; [ exact Hpg | ].
      split; [ unfold ioends_queued_in in *; simpl; lia | ].
      split.
      { intros P HP. inversion HP as [| ? ? He Hl]; subst.
        destruct (Hall P Hl) as [H1 H2].
        split; [ constructor | ]; assumption. }
      cbn [Z.eqb negb andb] in Herr, Hnone. auto.
    + change (events_failed [WbFail e err1]) with [e].
      change (events_ioends [WbFail e err1]) with (@nil ioend_state).
      cbn [app]. split.
      { change (e :: events_failed evs0) with ([e] ++ events_failed evs0).
        rewrite failed_in_app, <- Hpg1. exact Hpg. }
      split; [ unfold ioends_queued_in in *; simpl; lia | ].
      split.
      { intros P HP. inversion HP as [| ? ? He Hl]; subst.
        destruct (Hall P Hl) as [H1 H2].
        split; [ | constructor ]; assumption. }
      split; [ | discriminate ].
      intros Hne.
      assert (Hif : (if negb (error2 =? 0) && (error =? 0) then error2
                     else error) = error).
      { replace (error =? 0) with false by (symmetry; now apply Z.eqb_neq).
        now rewrite andb_false_r. }
      rewrite Hif in Herr. now apply Herr.
Qed.

(** What [iomap_writepage_map] leaves of a page that has a record and
    nothing pending, whatever the regions of the cached ioend are. *)
Lemma writepage_map_frame wpc mapping i f eo p :
  0 <= i_blkbits i <= 12 ->
  to_iomap_page f = Some p ->
  write_bytes_pending p = 0 ->
  queued_bytes_in (index f) wpc [] = 0 ->
  forall ret f' wpc' mapping' ev,
    iomap_writepage_map SHARED BMP map_blocks prepare_ioend discard_page
                        wpc mapping i f eo
    = (ret, f', wpc', mapping', ev) ->
    PG_locked f' = false
    /\ index f' = index f /\ order f' = order f
    /\ PG_dirty f' = PG_dirty f
    /\ data f' = data f
    /\ option_map uptodate (private f') = Some (uptodate p)
    /\ to_iomap_page f' <> None
    /\ (ret <> 0 -> write_pending f' = 0 ->
        f' = unlock_folio (ClearFolioUptodate f)
        /\ mapping' = mapping_set_error mapping ret)
    /\ (PG_uptodate f' = PG_uptodate f \/ (ret <> 0 /\ write_pending f' = 0)).
Proof.
  intros Hbits Hp Hz Hq ret f' wpc' mapping' ev.
  destruct (i_blocksize_pow i Hbits) as [_ Hlen].
  destruct (page_blocks i Hbits) as [Hn Hnr].
  unfold iomap_writepage_map.
  destruct (writepage_map_loop SHARED BMP map_blocks
              (Z.to_nat (Z.shiftr PAGE_SIZE (i_blkbits i))) i 0
              (u64 (folio_offset f)) eo f wpc [] 0)
    as [[[[[error fo] f1] wpc1] sl] count] eqn:Hloop.
  assert (H1 : 0 <= write_bytes_pending p) by lia.
  assert (H2 : write_bytes_pending p
               + Z.of_nat (Z.to_nat (Z.shiftr PAGE_SIZE (i_blkbits i)))
                 * i_blocksize i < 2 ^ 31)
    by (rewrite Z2Nat.id by lia; lia).
  assert (H3 : 0 + Z.of_nat (Z.to_nat (Z.shiftr PAGE_SIZE (i_blkbits i)))
               < 2 ^ 31)
    by (rewrite Z2Nat.id by lia; lia).
  assert (H4 : write_bytes_pending p = queued_bytes_in (index f) wpc [])
    by lia.
  destruct (writepage_map_loop_spec SHARED BMP map_blocks BMP_pos i eo Hbits
              _ _ _ _ _ _ _ p _ _ _ _ _ _ Hp H1 H2 (Z.le_refl 0) H3 H4 Hloop)
    as [p1 [Hp1 [HB [HC [HD [HS [HF HG]]]]]]].
  assert (Hnn0 : Forall (fun e => 0 <= ioend_bytes_in (index f) e)
                        (held_ioends wpc [])).
  { unfold queued_bytes_in in Hq. unfold held_ioends in *.
    destruct (wpc_ioend wpc); [ | constructor ].
    constructor; [ simpl in Hq; lia | constructor ]. }
  destruct (writepage_map_loop_cached SHARED BMP map_blocks BMP_pos i eo
              (index f) Hbits _ _ _ _ _ _ _ _ _ _ _ _ _ eq_refl
              (Z.le_refl 0) H3 Hnn0 Hloop) as [Hnn Hhas].
  rewrite Z2Nat.id in HD by lia.
  destruct HS as [Si [So [Sl [Sd [Sw [Se [Su [Sda [Sb Sr]]]]]]]]].
  assert (Hb1 : option_map uptodate (private f1) = Some (uptodate p)).
  { rewrite Sb. unfold to_iomap_page in Hp. now rewrite Hp. }
  assert (Hwp : write_bytes_pending p1 = count * i_blocksize i) by lia.
  assert (Hrange : 0 <= write_bytes_pending p1 < 2 ^ 31) by nia.
  assert (Hup : uptodate p1 = uptodate p).
  { unfold to_iomap_page in Hp1. rewrite Hp1 in Hb1. simpl in Hb1.
    congruence. }
  destruct (negb (error =? 0) && (count =? 0)) eqn:Hdone.
  - (* nothing was added and the mapping failed *)
    apply andb_prop in Hdone. destruct Hdone as [He Hc0].
    apply Z.eqb_eq in Hc0. subst count.
    intros H. injection H as <- <- <- <- <-.
    unfold write_pending, to_iomap_page in *.
    cbn [private unlock_folio ClearFolioUptodate PG_locked PG_writeback
         index order PG_dirty PG_error data PG_uptodate].
    rewrite Hp1.
    split; [ reflexivity | ]. split; [ exact Si | ]. split; [ exact So | ].
    split; [ exact Sd | ]. split; [ exact Sda | ].
    split; [ simpl; now rewrite Hup | ]. split; [ discriminate | ].
    split.
    { intros _ _. split; [ | reflexivity ].
      assert (Hw1 : write_bytes_pending p1 = write_bytes_pending p) by lia.
      unfold read_pending, to_iomap_page in Sr. rewrite Hp, Hp1 in Sr.
      assert (Hpp : p1 = p) by (destruct p, p1; simpl in *; congruence).
      clear - Si So Sl Sd Sw Se Su Sda Hp Hp1 Hpp.
      destruct f, f1. simpl in *. congruence. }
    right. apply negb_true_iff, Z.eqb_neq in He.
    split; [ assumption | lia ].
  - set (f2 := unlock_folio (set_page_writeback f1)).
    destruct (submit_ioends prepare_ioend (mapping_with_folio mapping f2)
                            sl error)
      as [[error' mapping1] ev2] eqn:Hsub.
    intros H. injection H as <- <- <- <- <-.
    destruct (submit_ioends_spec (index f2) sl _ _ _ _ _ Hsub)
      as [Hpg [Hpart [Hall [Herr Hnone]]]].
    cbn [i_pages mapping_with_folio mapping_with_pages] in Hpg.
    rewrite pc_set_same in Hpg.
    assert (Hp2 : to_iomap_page f2 = Some p1) by exact Hp1.
    destruct (failed_in_frame (index f2) (events_failed ev2) f2 p1 Hp2
                ltac:(lia))
      as [p3 [Hp3 [Hc3 [Hu3 [Hr3 [A [B [C [D [E F]]]]]]]]]].
    rewrite <- Hpg in *.
    set (f3 := i_pages mapping1 (index f2)) in *.
    assert (Hframe : forall g,
      g = f3 \/ g = end_folio_writeback f3 ->
      PG_locked g = false
      /\ index g = index f /\ order g = order f
      /\ PG_dirty g = PG_dirty f
      /\ data g = data f
      /\ option_map uptodate (private g) = Some (uptodate p)
      /\ to_iomap_page g <> None
      /\ PG_uptodate g = PG_uptodate f
      /\ write_pending g = write_bytes_pending p3).
    { intros g [-> | ->];
        unfold write_pending, to_iomap_page in *;
        cbn [end_folio_writeback PG_locked index order PG_dirty data private
             PG_uptodate];
        rewrite C, A, B, D, F, E, Hp3;
        cbn [option_map];
        (split; [ reflexivity | ]); (split; [ exact Si | ]);
        (split; [ exact So | ]); (split; [ exact Sd | ]);
        (split; [ exact Sda | ]);
        (split; [ f_equal; congruence | ]);
        (split; [ discriminate | ]); (split; [ exact Su | reflexivity ]). }
    assert (Hg : (if count =? 0 then end_folio_writeback f3 else f3) = f3
                 \/ (if count =? 0 then end_folio_writeback f3 else f3)
                    = end_folio_writeback f3)
      by (destruct (count =? 0); auto).
    destruct (Hframe _ Hg) as [G1 [G2 [G3 [G4 [G5 [G6 [G7 [G8 G9]]]]]]]].
    split; [ exact G1 | ]. split; [ exact G2 | ]. split; [ exact G3 | ].
    split; [ exact G4 | ]. split; [ exact G5 | ]. split; [ exact G6 | ].
    split; [ exact G7 | ]. split; [ | left; exact G8 ].
    intros Hret Hzero. exfalso.
    change (write_pending (if count =? 0 then end_folio_writeback f3 else f3)
            = 0) in Hzero.
    rewrite G9, Hc3 in Hzero.
    destruct (Z.eqb_spec count 0) as [Hc0 | Hc0].
    + (* nothing was queued: the mapping did not fail, nothing is
         submitted *)
      subst count. specialize (HF eq_refl). subst sl.
      cbn [submit_ioends] in Hsub. injection Hsub as <- _ _.
      rewrite andb_true_r in Hdone.
      destruct (Z.eqb_spec error 0); [ contradiction | discriminate ].
    + (* the cached ioend holds a block of the page *)
      destruct (Hhas ltac:(right; lia)) as [e [Hce Hbe]].
      rewrite queued_held in HB. unfold held_ioends in HB, Hnn.
      rewrite Hce in HB, Hnn.
      inversion Hnn as [| ? ? _ Hsl]; subst.
      destruct (Hall _ Hsl) as [Hs1 Hs2].
      pose proof (ioends_queued_in_nonneg _ _ Hs1) as Hq1.
      pose proof (ioends_queued_in_nonneg _ _ Hs2) as Hq2.
      change (index f2) with (index f1) in *. rewrite Si in *.
      assert (Hcons : ioends_queued_in (index f) (e :: sl)
                      = ioend_bytes_in (index f) e
                        + ioends_queued_in (index f) sl) by reflexivity.
      rewrite s32_small in Hzero by lia. lia.
Qed.

(** The same under the assumption that the regions of the cached ioend
    have positive lengths: the accounting of the bytes that were queued. *)
Lemma writepage_map_core wpc mapping i f eo p :
  0 <= i_blkbits i <= 12 ->
  to_iomap_page f = Some p ->
  write_bytes_pending p = 0 ->
  queued_bytes_in (index f) wpc [] = 0 ->
  ioends_positive (held_ioends wpc []) ->
  PG_writeback f = false ->
  forall ret f' wpc' mapping' ev,
    iomap_writepage_map SHARED BMP map_blocks prepare_ioend discard_page
                        wpc mapping i f eo
    = (ret, f', wpc', mapping', ev) ->
    write_pending f' = queued_bytes_in (index f) wpc' (events_ioends ev)
    /\ 0 <= write_pending f' < 2 ^ 31
    /\ PG_writeback f' = negb (write_pending f' =? 0)
    /\ PG_error f'
       = PG_error f || (0 <? ioends_queued_in (index f) (events_failed ev))
    /\ ioends_positive (held_ioends wpc' (events_ioends ev))
    /\ ioends_positive (events_failed ev).
Proof.
  intros Hbits Hp Hz Hq Hpos Hwb ret f' wpc' mapping' ev.
  destruct (i_blocksize_pow i Hbits) as [_ Hlen].
  destruct (page_blocks i Hbits) as [Hn Hnr].
  unfold iomap_writepage_map.
  destruct (writepage_map_loop SHARED BMP map_blocks
              (Z.to_nat (Z.shiftr PAGE_SIZE (i_blkbits i))) i 0
              (u64 (folio_offset f)) eo f wpc [] 0)
    as [[[[[error fo] f1] wpc1] sl] count] eqn:Hloop.
  assert (H1 : 0 <= write_bytes_pending p) by lia.
  assert (H2 : write_bytes_pending p
               + Z.of_nat (Z.to_nat (Z.shiftr PAGE_SIZE (i_blkbits i)))
                 * i_blocksize i < 2 ^ 31)
    by (rewrite Z2Nat.id by lia; lia).
  assert (H3 : 0 + Z.of_nat (Z.to_nat (Z.shiftr PAGE_SIZE (i_blkbits i)))
               < 2 ^ 31)
    by (rewrite Z2Nat.id by lia; lia).
  assert (H4 : write_bytes_pending p = queued_bytes_in (index f) wpc [])
    by lia.
  destruct (writepage_map_loop_spec SHARED BMP map_blocks BMP_pos i eo Hbits
              _ _ _ _ _ _ _ p _ _ _ _ _ _ Hp H1 H2 (Z.le_refl 0) H3 H4 Hloop)
    as [p1 [Hp1 [HB [HC [HD [HS [HF HG]]]]]]].
  specialize (HG Hpos).
  destruct (writepage_map_loop_cached SHARED BMP map_blocks BMP_pos i eo
              (index f) Hbits _ _ _ _ _ _ _ _ _ _ _ _ _ eq_refl
              (Z.le_refl 0) H3
              (ioends_positive_nonneg (index f) _ Hpos) Hloop)
    as [Hnn Hhas].
  rewrite Z2Nat.id in HD by lia.
  destruct HS as [Si [So [Sl [Sd [Sw [Se [Su [Sda [Sb Sr]]]]]]]]].
  assert (Hwp : write_bytes_pending p1 = count * i_blocksize i) by lia.
  assert (Hrange : 0 <= write_bytes_pending p1 < 2 ^ 31) by nia.
  assert (Hev : forall (b : bool),
            events_ioends (if b then [WbDiscardPage fo] else []) = []
            /\ events_failed (if b then [WbDiscardPage fo] else []) = [])
    by (intros [|]; split; reflexivity).
  destruct (Hev (negb (error =? 0) && discard_page)) as [Hev1 Hev2].
  destruct (negb (error =? 0) && (count =? 0)) eqn:Hdone.
  - (* nothing was added and the mapping failed *)
    apply andb_prop in Hdone. destruct Hdone as [He Hc0].
    apply Z.eqb_eq in Hc0. subst count.
    specialize (HF eq_refl). subst sl.
    intros H. injection H as <- <- <- <- <-.
    rewrite Hev1, Hev2. unfold write_pending, to_iomap_page in *.
    cbn [private unlock_folio ClearFolioUptodate PG_locked PG_writeback
         index order PG_dirty PG_error data PG_uptodate].
    rewrite Hp1, Hwp, Z.mul_0_l.
    rewrite HB in Hwp. rewrite Hwp. rewrite Sw, Hwb, Se.
    split; [ reflexivity | ]. split; [ lia | ]. split; [ reflexivity | ].
    split; [ now rewrite orb_false_r | ].
    split; [ exact HG | constructor ].
  - set (f2 := unlock_folio (set_page_writeback f1)).
    destruct (submit_ioends prepare_ioend (mapping_with_folio mapping f2)
                            sl error)
      as [[error' mapping1] ev2] eqn:Hsub.
    intros H. injection H as <- <- <- <- <-.
    destruct (submit_ioends_spec (index f2) sl _ _ _ _ _ Hsub)
      as [Hpg [Hpart [Hall [Herr Hnone]]]].
    cbn [i_pages mapping_with_folio mapping_with_pages] in Hpg.
    rewrite pc_set_same in Hpg.
    rewrite events_ioends_app, events_failed_app, Hev1, Hev2.
    cbn [app].
    assert (Hp2 : to_iomap_page f2 = Some p1) by exact Hp1.
    assert (Hheld : ioends_positive sl
                    /\ ioends_positive (held_ioends wpc1 [])).
    { unfold held_ioends, ioends_positive in *.
      destruct (wpc_ioend wpc1).
      - inversion HG; subst. split; [ assumption | ].
        constructor; [ assumption | constructor ].
      - split; [ exact HG | constructor ]. }
    destruct Hheld as [Hsl Hcached].
    destruct (Hall _ Hsl) as [Hps Hpf].
    assert (Hposout : ioends_positive (held_ioends wpc1 (events_ioends ev2))).
    { unfold held_ioends, ioends_positive in *.
      destruct (wpc_ioend wpc1).
      - inversion Hcached; subst. constructor; assumption.
      - exact Hps. }
    pose proof (ioends_queued_in_nonneg
                  _ _ (ioends_positive_nonneg (index f) _ Hps)) as Hq1.
    pose proof (ioends_queued_in_nonneg
                  _ _ (ioends_positive_nonneg (index f) _ Hpf)) as Hq2.
    pose proof (ioends_queued_in_nonneg
                  _ _ (ioends_positive_nonneg (index f) _ Hcached)) as Hq3.
    change (index f2) with (index f1) in *. rewrite Si in *.
    assert (Hsplit : write_bytes_pending p1
                     = queued_bytes_in (index f) wpc1 (events_ioends ev2)
                       + ioends_queued_in (index f) (events_failed ev2)).
    { rewrite HB. rewrite !queued_held. unfold held_ioends.
      destruct (wpc_ioend wpc1);
        [ change (ioends_queued_in (index f) (i0 :: sl))
            with (ioend_bytes_in (index f) i0 + ioends_queued_in (index f) sl);
          change (ioends_queued_in (index f) (i0 :: events_ioends ev2))
            with (ioend_bytes_in (index f) i0
                  + ioends_queued_in (index f) (events_ioends ev2))
        | ]; lia. }
    assert (Hcachedq : queued_bytes_in (index f) wpc1 (events_ioends ev2)
                       = ioends_queued_in (index f) (held_ioends wpc1 [])
                         + ioends_queued_in (index f) (events_ioends ev2)).
    { rewrite queued_held. unfold held_ioends.
      destruct (wpc_ioend wpc1);
        [ change (ioends_queued_in (index f) (i0 :: events_ioends ev2))
            with (ioend_bytes_in (index f) i0
                  + ioends_queued_in (index f) (events_ioends ev2));
          change (ioends_queued_in (index f) [i0])
            with (ioend_bytes_in (index f) i0 + 0)
        | change (ioends_queued_in (index f) []) with 0 ]; lia. }
    destruct (failed_in_counter (index f) (events_failed ev2) f2 p1 Hp2 Hpf
                ltac:(lia)) as [Hc [Hw He]].
    rewrite <- Hpg in *.
    set (f3 := i_pages mapping1 (index f)) in *.
    change (PG_writeback f2) with true in Hw.
    change (PG_error f2) with (PG_error f1) in He. rewrite Se in He.
    destruct (Z.eqb_spec count 0) as [Hc0 | Hc0].
    + (* nothing to write *)
      subst count. specialize (HF eq_refl). subst sl.
      cbn [submit_ioends] in Hsub. injection Hsub as _ _ <-.
      change (events_failed []) with (@nil ioend_state) in *.
      change (events_ioends []) with (@nil ioend_state) in *.
      change (ioends_queued_in (index f) []) with 0 in *.
      unfold write_pending, to_iomap_page in *.
      cbn [end_folio_writeback private PG_writeback PG_error].
      destruct (private f3) as [p3 |] eqn:Hp3.
      * split; [ lia | ]. split; [ lia | ].
        split; [ replace (write_bytes_pending p3 =? 0) with true
                   by (symmetry; apply Z.eqb_eq; lia); reflexivity | ].
        split; [ exact He | ]. split; [ exact Hposout | constructor ].
      * split; [ lia | ]. split; [ lia | ]. split; [ reflexivity | ].
        split; [ exact He | ]. split; [ exact Hposout | constructor ].
    + (* the cached ioend holds a block of the page *)
      destruct (Hhas ltac:(right; lia)) as [e [Hce Hbe]].
      assert (Hcq : i_blocksize i
                    <= ioends_queued_in (index f) (held_ioends wpc1 [])).
      { unfold held_ioends. rewrite Hce.
        change (ioends_queued_in (index f) [e])
          with (ioend_bytes_in (index f) e + 0). lia. }
      split; [ lia | ]. split; [ lia | ].
      split.
      { rewrite Hw, Hc.
        replace (write_bytes_pending p1
                 =? ioends_queued_in (index f) (events_failed ev2))
          with false by (symmetry; apply Z.eqb_neq; lia).
        replace (write_bytes_pending p1
                 - ioends_queued_in (index f) (events_failed ev2) =? 0)
          with false by (symmetry; apply Z.eqb_neq; lia).
        now rewrite andb_false_r. }
      split; [ exact He | ]. split; [ exact Hposout | exact Hpf ].
Qed.

End WritepageTheorems.

Lemma wb_result_eta
    (r : Z * folio * iomap_writepage_ctx * address_space * list wb_event) :
  r = (wb_ret r, wb_folio r, wb_wpc r, wb_mapping r, wb_events r).
Proof. destruct r as [[[[a b] c] d] e]. reflexivity. Qed.

(** X16: writing back a page that has a record and nothing pending
    leaves it unlocked, with a write-pending count equal to the bytes of
    the page queued in the ioends that were handed to the I/O Submission
    Layer or are cached in the context, and under writeback exactly when
    that count is not zero.  An ioend whose submission failed was
    completed on the spot: its bytes are off the count, and the page is
    flagged with an error exactly when it was flagged before or had bytes
    in such an ioend.  The valid bitmap is not touched. *)
Theorem writepage_map_accounting
    SHARED BMP map_blocks prepare_ioend discard_page wpc mapping i f eo p :
  0 < BMP ->
  0 <= i_blkbits i <= 12 ->
  to_iomap_page f = Some p ->
  write_bytes_pending p = 0 ->
  queued_bytes_in (index f) wpc [] = 0 ->
  ioends_positive (held_ioends wpc []) ->
  PG_writeback f = false ->
  let r := iomap_writepage_map SHARED BMP map_blocks prepare_ioend
                               discard_page wpc mapping i f eo in
  PG_locked (wb_folio r) = false
  /\ write_pending (wb_folio r)
     = queued_bytes_in (index f) (wb_wpc r) (events_ioends (wb_events r))
  /\ PG_writeback (wb_folio r) = negb (write_pending (wb_folio r) =? 0)
  /\ PG_error (wb_folio r)
     = PG_error f
       || (0 <? ioends_queued_in (index f) (events_failed (wb_events r)))
  /\ option_map uptodate (private (wb_folio r)) = Some (uptodate p).
Proof.
  intros HB Hbits Hp Hz Hq Hpos Hwb r.
  destruct (writepage_map_frame SHARED BMP map_blocks prepare_ioend
              discard_page HB wpc mapping i f eo p Hbits Hp Hz Hq
              _ _ _ _ _ (wb_result_eta r))
    as [A [_ [_ [_ [_ [J _]]]]]].
  destruct (writepage_map_core SHARED BMP map_blocks prepare_ioend
              discard_page HB wpc mapping i f eo p Hbits Hp Hz Hq Hpos Hwb
              _ _ _ _ _ (wb_result_eta r))
    as [B [_ [D [E _]]]].
  auto.
Qed.

Lemma testbit_set_bit nr map : 0 <= nr -> test_bit nr (set_bit nr map) = true.
Proof.
  intros H. unfold test_bit, set_bit. rewrite Z.lor_spec.
  rewrite Z.shiftl_spec by lia. rewrite Z.sub_diag. simpl.
  apply orb_true_r.
Qed.

(** X17: a mapping failure before any block of the page was queued
    leaves the page unlocked and not under writeback, records the error in
    the file's mapping ([AS_EIO] or [AS_ENOSPC] is set), and clears the
    uptodate flag without touching the bitmap: a page that was uptodate
    with a full bitmap no longer satisfies the record's invariant. *)
Theorem writepage_map_failure
    SHARED BMP map_blocks prepare_ioend discard_page wpc mapping i f eo p :
  0 < BMP ->
  0 <= i_blkbits i <= 12 ->
  to_iomap_page f = Some p ->
  write_bytes_pending p = 0 ->
  queued_bytes_in (index f) wpc [] = 0 ->
  PG_writeback f = false ->
  FolioUptodate f = true ->
  uptodate_consistent i f = true ->
  let r := iomap_writepage_map SHARED BMP map_blocks prepare_ioend
                               discard_page wpc mapping i f eo in
  wb_ret r <> 0 ->
  write_pending (wb_folio r) = 0 ->
  wb_folio r = unlock_folio (ClearFolioUptodate f)
  /\ uptodate_consistent i (wb_folio r) = false
  /\ (test_bit AS_EIO (as_flags (wb_mapping r)) = true
      \/ test_bit AS_ENOSPC (as_flags (wb_mapping r)) = true)
  /\ In (wb_ret r) (as_wb_err (wb_mapping r)).
Proof.
  intros HB Hbits Hp Hz Hq Hwb Hu Hc r Hret Hpend.
  destruct (writepage_map_frame SHARED BMP map_blocks prepare_ioend
              discard_page HB wpc mapping i f eo p Hbits Hp Hz Hq
              _ _ _ _ _ (wb_result_eta r))
    as [_ [_ [_ [_ [_ [_ [_ [L _]]]]]]]].
  destruct (L Hret Hpend) as [L1 K].
  split; [ exact L1 | ]. split.
  - rewrite L1. unfold uptodate_consistent, to_iomap_page in *.
    cbn [private unlock_folio ClearFolioUptodate FolioUptodate PG_uptodate].
    rewrite Hp in *.
    change (i_blocks_per_folio i (unlock_folio (ClearFolioUptodate f)))
      with (i_blocks_per_folio i f).
    rewrite Hu in Hc. apply eqb_prop in Hc. now rewrite Hc.
  - rewrite K. unfold mapping_set_error.
    replace (wb_ret r =? 0) with false by (symmetry; now apply Z.eqb_neq).
    cbn [as_flags as_wb_err]. split.
    + destruct (wb_ret r =? - ENOSPC); [ right | left ];
        apply testbit_set_bit; unfold AS_ENOSPC, AS_EIO; lia.
    + apply in_or_app. right. now left.
Qed.

(** A page of eight blocks whose first block is mapped away from the
    others: the ioend of the first block goes to the submit list when the
    second block is added, and its submission fails. *)
Lemma writepage_map_accounting_witness :
  let ma := mk_iomap 8192 0 65536 IOMAP_MAPPED 0 1 [] 0 false in
  let mb := mk_iomap 1048576 0 65536 IOMAP_MAPPED 0 1 [] 0 false in
  let p := mk_iop 0 0 255 in
  let f := mk_folio 0 0 true false false false true (Some p) [] in
  let r := iomap_writepage_map
             4 16 (fun _ off => (0, if off =? 0 then ma else mb))
             (Some (fun _ _ => -5)) false
             (mk_wpc ma None) (mk_mapping 0 [] (fun _ => f))
             (mk_inode 4096 9) f 4096 in
  PG_locked (wb_folio r) = false
  /\ write_pending (wb_folio r)
     = queued_bytes_in (index f) (wb_wpc r) (events_ioends (wb_events r))
  /\ PG_writeback (wb_folio r) = negb (write_pending (wb_folio r) =? 0)
  /\ PG_error (wb_folio r)
     = PG_error f
       || (0 <? ioends_queued_in (index f) (events_failed (wb_events r)))
  /\ option_map uptodate (private (wb_folio r)) = Some (uptodate p).
Proof.
  intros ma mb p f.
  apply (writepage_map_accounting
           4 16 (fun _ off => (0, if off =? 0 then ma else mb))
           (Some (fun _ _ => -5)) false
           (mk_wpc ma None) (mk_mapping 0 [] (fun _ => f))
           (mk_inode 4096 9) f 4096 p);
    [ reflexivity | cbv; split; discriminate | reflexivity | reflexivity
    | reflexivity | constructor | reflexivity ].
Defined.

(** The same pass, by its values: the failed submission returns -5, the
    block of the failed ioend is off the count, which is left at the
    seven blocks of the cached ioend, the page is flagged with an error
    and stays under writeback, and the mapping has the error of the
    completion and the error returned. *)
Lemma writepage_map_failed_submission :
  let ma := mk_iomap 8192 0 65536 IOMAP_MAPPED 0 1 [] 0 false in
  let mb := mk_iomap 1048576 0 65536 IOMAP_MAPPED 0 1 [] 0 false in
  let p := mk_iop 0 0 255 in
  let f := mk_folio 0 0 true false false false true (Some p) [] in
  let r := iomap_writepage_map
             4 16 (fun _ off => (0, if off =? 0 then ma else mb))
             (Some (fun _ _ => -5)) false
             (mk_wpc ma None) (mk_mapping 0 [] (fun _ => f))
             (mk_inode 4096 9) f 4096 in
  wb_ret r = -5
  /\ wb_folio r
     = mk_folio 0 0 false false true true true (Some (mk_iop 0 3584 255)) []
  /\ i_pages (wb_mapping r) 0 = wb_folio r
  /\ as_wb_err (wb_mapping r) = [-5; -5]
  /\ ioends_queued_in 0 (events_failed (wb_events r)) = 512
  /\ events_ioends (wb_events r) = []
  /\ queued_bytes_in 0 (wb_wpc r) [] = 3584.
Proof. vm_compute. repeat split; reflexivity. Qed.

Lemma writepage_map_failure_witness :
  let m := mk_iomap 8192 0 65536 IOMAP_MAPPED 0 1 [] 0 false in
  let p := mk_iop 0 0 255 in
  let f := mk_folio 0 0 true false false false true (Some p) [] in
  let r := iomap_writepage_map 4 16 (fun _ _ => (-5, m)) None true
                               (mk_wpc m None) (mk_mapping 0 [] (fun _ => f))
                               (mk_inode 4096 9) f 1024 in
  wb_folio r = unlock_folio (ClearFolioUptodate f)
  /\ uptodate_consistent (mk_inode 4096 9) (wb_folio r) = false
  /\ (test_bit AS_EIO (as_flags (wb_mapping r)) = true
      \/ test_bit AS_ENOSPC (as_flags (wb_mapping r)) = true)
  /\ In (wb_ret r) (as_wb_err (wb_mapping r)).
Proof.
  intros m p f.
  apply (writepage_map_failure 4 16 (fun _ _ => (-5, m)) None true
           (mk_wpc m None) (mk_mapping 0 [] (fun _ => f)) (mk_inode 4096 9)
           f 1024 p);
    try reflexivity.
  - cbv. split; discriminate.
  - cbv. discriminate.
Defined.

(** X18: outside reclaim, a page that starts at or past end-of-file is
    redirtied and unlocked and nothing is mapped; any other page is
    written up to the smaller of its end and end-of-file, after the bytes
    of the page past end-of-file were zeroed. *)
Theorem do_writepage_range
    SHARED BMP map_blocks prepare_ioend discard_page wpc mapping i f :
  0 <= index f < 2 ^ 51 ->
  0 <= i_size i < 2 ^ 63 ->
  iomap_do_writepage SHARED BMP map_blocks prepare_ioend discard_page
                     false wpc mapping i f
  = if i_size i <=? folio_offset f
    then (0, unlock_folio (redirty_page_for_writepage f), wpc, mapping, [])
    else
      iomap_writepage_map
        SHARED BMP map_blocks prepare_ioend discard_page wpc mapping i
        (if i_size i <? folio_offset f + PAGE_SIZE
         then folio_with_data
                f (zero_user_segment (data f) (i_size i - folio_offset f)
                                     PAGE_SIZE)
         else f)
        (Z.min (folio_offset f + PAGE_SIZE) (i_size i)).
Proof.
  intros Hidx Hsz. unfold iomap_do_writepage, i_size_read.
  assert (Hoff : folio_offset f = index f * 4096).
  { unfold folio_offset, PAGE_SHIFT. rewrite Z.shiftl_mul_pow2 by lia.
    change (2 ^ 12) with 4096. apply s64_small. lia. }
  assert (Hend : u64 (Z.shiftr (i_size i) PAGE_SHIFT) = i_size i / 4096).
  { unfold PAGE_SHIFT. rewrite Z.shiftr_div_pow2 by lia.
    change (2 ^ 12) with 4096.
    apply u64_small.
    pose proof (Z.div_pos (i_size i) 4096 ltac:(lia) ltac:(lia)).
    assert (i_size i / 4096 <= i_size i)
      by (apply Z.div_le_upper_bound; lia).
    lia. }
  rewrite Hend, Hoff. change PAGE_SIZE with 4096.
  pose proof (Z.div_mod (i_size i) 4096 ltac:(lia)) as Hdm.
  pose proof (Z.mod_pos_bound (i_size i) 4096 ltac:(lia)) as Hmb.
  assert (Hlow : u32 (Z.land (i_size i) (4096 - 1)) = i_size i mod 4096).
  { change (4096 - 1) with (Z.ones 12). rewrite Z.land_ones by lia.
    change (2 ^ 12) with 4096. apply u32_small. lia. }
  rewrite Hlow.
  set (q := i_size i / 4096) in *. set (r := i_size i mod 4096) in *.
  destruct (Z.ltb_spec (index f) q) as [Hin | Hnin].
  - (* the page lies wholly below end-of-file *)
    replace (i_size i <=? index f * 4096) with false
      by (symmetry; apply Z.leb_gt; lia).
    replace (i_size i <? index f * 4096 + 4096) with false
      by (symmetry; apply Z.ltb_ge; lia).
    rewrite Z.min_l by lia.
    f_equal. rewrite (u64_small (index f + 1)) by lia.
    rewrite (s64_small (index f + 1)) by lia.
    unfold PAGE_SHIFT. rewrite Z.shiftl_mul_pow2 by lia.
    change (2 ^ 12) with 4096.
    rewrite s64_small by lia. rewrite u64_small by lia. lia.
  - destruct (Z.ltb_spec q (index f)) as [Hpast | Hnpast]; cbn [orb].
    + replace (i_size i <=? index f * 4096) with true
        by (symmetry; apply Z.leb_le; lia).
      reflexivity.
    + assert (Heq : index f = q) by lia.
      rewrite Heq, Z.eqb_refl. cbn [andb].
      destruct (Z.eqb_spec r 0) as [Hr0 | Hr0].
      * replace (i_size i <=? q * 4096) with true
          by (symmetry; apply Z.leb_le; lia).
        reflexivity.
      * replace (i_size i <=? q * 4096) with false
          by (symmetry; apply Z.leb_gt; lia).
        replace (i_size i <? q * 4096 + 4096) with true
          by (symmetry; apply Z.ltb_lt; lia).
        rewrite Z.min_r by lia.
        rewrite u64_small by lia.
        replace (i_size i - q * 4096) with r by lia. reflexivity.
Qed.

Lemma do_writepage_range_witness :
  let m := mk_iomap 8192 0 65536 IOMAP_MAPPED 0 1 [] 0 false in
  let f := mk_folio 1 0 true false false false true None
                    (repeat x01 4096) in
  let i := mk_inode 5000 12 in
  iomap_do_writepage 4 16 (fun _ _ => (0, m)) None false
                     false (mk_wpc m None) (mk_mapping 0 [] (fun _ => f)) i f
  = if i_size i <=? folio_offset f
    then (0, unlock_folio (redirty_page_for_writepage f), mk_wpc m None,
          mk_mapping 0 [] (fun _ => f), [])
    else
      iomap_writepage_map
        4 16 (fun _ _ => (0, m)) None false (mk_wpc m None)
        (mk_mapping 0 [] (fun _ => f)) i
        (if i_size i <? folio_offset f + PAGE_SIZE
         then folio_with_data
                f (zero_user_segment (data f) (i_size i - folio_offset f)
                                     PAGE_SIZE)
         else f)
        (Z.min (folio_offset f + PAGE_SIZE) (i_size i)).
Proof.
  intros m f i.
  apply (do_writepage_range 4 16 (fun _ _ => (0, m)) None false
                            (mk_wpc m None) (mk_mapping 0 [] (fun _ => f)) i f);
    cbv; split; try reflexivity; discriminate.
Defined.

Section WritepageRoundTrip.

Variable SHARED : Z.
Variable BMP : Z.
Variable map_blocks : iomap_writepage_ctx -> Z -> Z * iomap.
Variable prepare_ioend : option (ioend_state -> Z -> Z).
Variable discard_page : bool.

Hypothesis BMP_pos : 0 < BMP.

(** What [iomap_do_writepage] leaves of a page that has a record and
    nothing pending. *)
Lemma do_writepage_core in_reclaim wpc mapping i f p :
  0 <= i_blkbits i <= 12 ->
  to_iomap_page f = Some p ->
  write_bytes_pending p = 0 ->
  queued_bytes_in (index f) wpc [] = 0 ->
  ioends_positive (held_ioends wpc []) ->
  PG_writeback f = false ->
  let r := iomap_do_writepage SHARED BMP map_blocks prepare_ioend
                              discard_page in_reclaim wpc mapping i f in
  PG_locked (wb_folio r) = false
  /\ index (wb_folio r) = index f
  /\ write_pending (wb_folio r)
     = queued_bytes_in (index f) (wb_wpc r) (events_ioends (wb_events r))
  /\ 0 <= write_pending (wb_folio r) < 2 ^ 31
  /\ PG_writeback (wb_folio r) = negb (write_pending (wb_folio r) =? 0)
  /\ to_iomap_page (wb_folio r) <> None
  /\ ioends_positive (held_ioends (wb_wpc r) (events_ioends (wb_events r))).
Proof.
  intros Hbits Hp Hz Hq Hpos Hwb.
  assert (Hredirty :
    let r := (0, unlock_folio (redirty_page_for_writepage f), wpc, mapping,
              @nil wb_event) in
    PG_locked (wb_folio r) = false
    /\ index (wb_folio r) = index f
    /\ write_pending (wb_folio r)
       = queued_bytes_in (index f) (wb_wpc r) (events_ioends (wb_events r))
    /\ 0 <= write_pending (wb_folio r) < 2 ^ 31
    /\ PG_writeback (wb_folio r) = negb (write_pending (wb_folio r) =? 0)
    /\ to_iomap_page (wb_folio r) <> None
    /\ ioends_positive
         (held_ioends (wb_wpc r) (events_ioends (wb_events r)))).
  { unfold wb_folio, wb_wpc, wb_events, write_pending, to_iomap_page in *.
    cbn [fst snd private unlock_folio redirty_page_for_writepage
         iomap_set_page_dirty PG_locked PG_writeback events_ioends flat_map
         index].
    rewrite Hp, Hz, Hq, Hwb. repeat split; auto; try lia. discriminate. }
  assert (Hmap : forall g eo,
    to_iomap_page g = Some p -> index g = index f ->
    PG_writeback g = false ->
    let r := iomap_writepage_map SHARED BMP map_blocks prepare_ioend
                                 discard_page wpc mapping i g eo in
    PG_locked (wb_folio r) = false
    /\ index (wb_folio r) = index f
    /\ write_pending (wb_folio r)
       = queued_bytes_in (index f) (wb_wpc r) (events_ioends (wb_events r))
    /\ 0 <= write_pending (wb_folio r) < 2 ^ 31
    /\ PG_writeback (wb_folio r) = negb (write_pending (wb_folio r) =? 0)
    /\ to_iomap_page (wb_folio r) <> None
    /\ ioends_positive
         (held_ioends (wb_wpc r) (events_ioends (wb_events r)))).
  { intros g eo Hg Hgi Hgw r.
    rewrite <- Hgi in Hq.
    destruct (writepage_map_frame SHARED BMP map_blocks prepare_ioend
                discard_page BMP_pos wpc mapping i g eo p Hbits Hg Hz Hq
                _ _ _ _ _ (wb_result_eta r))
      as [A [I [_ [_ [_ [_ [J _]]]]]]].
    destruct (writepage_map_core SHARED BMP map_blocks prepare_ioend
                discard_page BMP_pos wpc mapping i g eo p Hbits Hg Hz Hq
                Hpos Hgw _ _ _ _ _ (wb_result_eta r))
      as [B [C [D [_ [N _]]]]].
    rewrite Hgi in B, I. auto 10. }
  unfold iomap_do_writepage.
  destruct in_reclaim; [ exact Hredirty | ].
  destruct (index f <? _); [ apply Hmap; auto | ].
  destruct (_ || _); [ exact Hredirty | ].
  apply Hmap; auto.
Qed.

(** The same for [iomap_writepage] started with an empty context: every
    ioend that holds bytes of the page was handed over, or failed and
    completed. *)
Lemma writepage_core in_reclaim wpc mapping i f p :
  0 <= i_blkbits i <= 12 ->
  to_iomap_page f = Some p ->
  write_bytes_pending p = 0 ->
  wpc_ioend wpc = None ->
  PG_writeback f = false ->
  let r := iomap_writepage SHARED BMP map_blocks prepare_ioend
                           discard_page in_reclaim wpc mapping i f in
  PG_locked (wb_folio r) = false
  /\ write_pending (wb_folio r)
     = ioends_queued_in (index f) (events_ioends (wb_events r))
  /\ 0 <= write_pending (wb_folio r) < 2 ^ 31
  /\ PG_writeback (wb_folio r) = negb (write_pending (wb_folio r) =? 0)
  /\ to_iomap_page (wb_folio r) <> None
  /\ ioends_positive (events_ioends (wb_events r)).
Proof.
  intros Hbits Hp Hz Hnone Hwb.
  assert (Hq : queued_bytes_in (index f) wpc [] = 0).
  { unfold queued_bytes_in, held_ioends. now rewrite Hnone. }
  assert (Hpos0 : ioends_positive (held_ioends wpc [])).
  { unfold held_ioends. rewrite Hnone. constructor. }
  pose proof (do_writepage_core in_reclaim wpc mapping i f p Hbits Hp Hz Hq
                Hpos0 Hwb) as Hcore.
  cbv zeta in Hcore. unfold iomap_writepage.
  destruct (iomap_do_writepage SHARED BMP map_blocks prepare_ioend
              discard_page in_reclaim wpc mapping i f)
    as [[[[ret f'] wpc'] mapping'] ev].
  unfold wb_folio, wb_wpc, wb_events in Hcore. cbn [fst snd] in Hcore.
  destruct Hcore as [A [I [B [C [D [E F]]]]]].
  unfold queued_bytes_in, held_ioends in B. unfold held_ioends in F.
  destruct (wpc_ioend wpc') as [e |].
  - destruct (iomap_submit_ioend prepare_ioend
                (mapping_with_folio mapping' f') e ret)
      as [[ret' mapping''] ev'] eqn:Hs.
    unfold wb_folio, wb_events. cbn [fst snd].
    inversion F as [| ? ? Fe Frest]; subst.
    pose proof (ioend_bytes_positive (index f) e Fe) as Hbe.
    pose proof (ioends_queued_in_nonneg
                  _ _ (ioends_positive_nonneg (index f) _ Frest)) as Hqe.
    change (fold_right (fun e acc => ioend_bytes_in (index f) e + acc) 0
                       (e :: events_ioends ev))
      with (ioend_bytes_in (index f) e
            + ioends_queued_in (index f) (events_ioends ev)) in B.
    rewrite events_ioends_app, ioends_queued_in_app.
    destruct (submit_ioend_spec prepare_ioend _ e ret (index f') _ _ _ Hs)
      as [[_ [Hm Hev]] | [_ [[err Hev] Hpg]]]; subst ev'.
    + (* the cached ioend is handed over *)
      subst mapping''.
      cbn [i_pages mapping_with_folio mapping_with_pages].
      rewrite pc_set_same.
      change (events_ioends [WbSubmit e]) with [e].
      change (ioends_queued_in (index f) [e])
        with (ioend_bytes_in (index f) e + 0).
      split; [ exact A | ]. split; [ lia | ]. split; [ exact C | ].
      split; [ exact D | ]. split; [ exact E | ].
      unfold ioends_positive. apply Forall_app. split; [ exact Frest | ].
      constructor; [ exact Fe | constructor ].
    + (* the cached ioend fails and is completed *)
      cbn [i_pages mapping_with_folio mapping_with_pages] in Hpg.
      rewrite pc_set_same in Hpg. rewrite Hpg. rewrite I in *.
      change (events_ioends [WbFail e err]) with (@nil ioend_state).
      change (ioends_queued_in (index f) []) with 0.
      rewrite app_nil_r, Z.add_0_r.
      destruct (to_iomap_page f') as [p' |] eqn:Hp'; [ | contradiction ].
      assert (Hwp : write_pending f' = write_bytes_pending p')
        by (unfold write_pending; now rewrite Hp').
      assert (Hone : ioends_queued_in (index f) [e]
                     = ioend_bytes_in (index f) e)
        by (unfold ioends_queued_in; simpl; lia).
      destruct (failed_in_counter (index f) [e] f' p' Hp'
                  ltac:(constructor; [ exact Fe | constructor ])
                  ltac:(lia)) as [Hc [Hw _]].
      destruct (failed_in_frame (index f) [e] f' p' Hp' ltac:(lia))
        as [p3 [Hp3 [_ [_ [_ [_ [_ [Hl _]]]]]]]].
      rewrite Hone in *.
      split; [ now rewrite Hl | ]. split; [ lia | ]. split; [ lia | ].
      split.
      { rewrite Hw, Hc, D, Hwp.
        destruct (Z.ltb_spec 0 (ioend_bytes_in (index f) e)) as [Hsome | Hno].
        - replace (write_bytes_pending p' =? 0) with false
            by (symmetry; apply Z.eqb_neq; lia).
          cbn [negb andb].
          destruct (Z.eqb_spec (write_bytes_pending p')
                               (ioend_bytes_in (index f) e));
            destruct (Z.eqb_spec (write_bytes_pending p'
                                  - ioend_bytes_in (index f) e) 0);
            try reflexivity; lia.
        - replace (ioend_bytes_in (index f) e) with 0 by lia.
          rewrite Z.sub_0_r. cbn [andb negb]. now rewrite andb_true_r. }
      split; [ rewrite Hp3; discriminate | exact Frest ].
  - unfold wb_folio, wb_events. cbn [fst snd]. auto 10.
Qed.

End WritepageRoundTrip.

(** X19: a page with a record and nothing pending is written back
    through an empty writepage context; the ioends whose submission fails
    are completed on the spot, and the ioends handed to the I/O Submission
    Layer are completed later, with or without an error.  At the return
    of [iomap_writepage] the write-pending count of the page is the number
    of its bytes in the ioends handed over, and the page is under
    writeback exactly when that number is not zero; after their completion
    the count is back at zero and the page is no longer under
    writeback. *)
Theorem writepage_then_completion
    SHARED BMP map_blocks prepare_ioend discard_page in_reclaim
    wpc mapping i f p error :
  0 < BMP ->
  0 <= i_blkbits i <= 12 ->
  to_iomap_page f = Some p ->
  write_bytes_pending p = 0 ->
  wpc_ioend wpc = None ->
  PG_writeback f = false ->
  let r := iomap_writepage SHARED BMP map_blocks prepare_ioend
                           discard_page in_reclaim wpc mapping i f in
  let ioends := events_ioends (wb_events r) in
  let pc' := fst (iomap_finish_ioends
                    (pc_set (i_pages (wb_mapping r)) (index f) (wb_folio r))
                    (map ioend_payload ioends) error) in
  PG_locked (wb_folio r) = false
  /\ write_pending (wb_folio r) = ioends_queued_in (index f) ioends
  /\ PG_writeback (wb_folio r) = negb (write_pending (wb_folio r) =? 0)
  /\ write_pending (pc' (index f)) = 0
  /\ PG_writeback (pc' (index f)) = false.
Proof.
  intros HB Hbits Hp Hz Hnone Hwb r ioends pc'.
  destruct (writepage_core SHARED BMP map_blocks prepare_ioend discard_page
              HB in_reclaim wpc mapping i f p Hbits Hp Hz Hnone Hwb)
    as [A [B [C [D [E F]]]]].
  fold r in A, B, C, D, E, F. fold ioends in B, F.
  split; [ exact A | ]. split; [ exact B | ]. split; [ exact D | ].
  unfold pc'. rewrite finish_ioends_at. rewrite pc_set_same.
  pose proof (ioends_segs_payload_bytes (index f) ioends) as Hbytes.
  pose proof (ioends_segs_payload_positive ioends F) as Hposs.
  unfold ioends_bytes_in in Hbytes.
  destruct (to_iomap_page (wb_folio r)) as [p' |] eqn:Hp';
    [ | contradiction ].
  assert (Hwp : write_pending (wb_folio r) = write_bytes_pending p')
    by (unfold write_pending; now rewrite Hp').
  destruct (Z.eqb_spec (write_pending (wb_folio r)) 0) as [Hzero | Hnz].
  - (* nothing of the page was handed over *)
    assert (Hnil : segs_in (index f) (ioends_segs (map ioend_payload ioends))
                   = []).
    { apply seg_bytes_zero; [ now apply segs_in_forall | lia ]. }
    rewrite Hnil. simpl. split; [ exact Hzero | exact D ].
  - destruct (finish_writes_counter
                error (segs_in (index f)
                               (ioends_segs (map ioend_payload ioends)))
                (wb_folio r) p' Hp' (segs_in_forall _ _ _ Hposs)
                ltac:(lia) ltac:(lia)) as [Hc Hl].
    split.
    + rewrite Hc. lia.
    + rewrite Hl. replace (write_bytes_pending p' =? _) with true
        by (symmetry; apply Z.eqb_eq; lia).
      apply andb_false_r.
Qed.

(** A page of eight blocks whose first block is mapped away from the
    others: the submission of the ioend of the first block fails, the
    ioend of the seven others is handed over and completed later. *)
Lemma writepage_then_completion_witness :
  let ma := mk_iomap 8192 0 65536 IOMAP_MAPPED 0 1 [] 0 false in
  let mb := mk_iomap 1048576 0 65536 IOMAP_MAPPED 0 1 [] 0 false in
  let p := mk_iop 0 0 255 in
  let f := mk_folio 0 0 true false false false true (Some p) [] in
  let i := mk_inode 4096 9 in
  let r := iomap_writepage
             4 16 (fun _ off => (0, if off =? 0 then ma else mb))
             (Some (fun e _ => if io_offset (ioend e) =? 0 then -5 else 0))
             false false (mk_wpc ma None) (mk_mapping 0 [] (fun _ => f))
             i f in
  let ioends := events_ioends (wb_events r) in
  let pc' := fst (iomap_finish_ioends
                    (pc_set (i_pages (wb_mapping r)) (index f) (wb_folio r))
                    (map ioend_payload ioends) 0) in
  PG_locked (wb_folio r) = false
  /\ write_pending (wb_folio r) = ioends_queued_in (index f) ioends
  /\ PG_writeback (wb_folio r) = negb (write_pending (wb_folio r) =? 0)
  /\ write_pending (pc' (index f)) = 0
  /\ PG_writeback (pc' (index f)) = false.
Proof.
  intros ma mb p f i.
  apply (writepage_then_completion
           4 16 (fun _ off => (0, if off =? 0 then ma else mb))
           (Some (fun e _ => if io_offset (ioend e) =? 0 then -5 else 0))
           false false (mk_wpc ma None) (mk_mapping 0 [] (fun _ => f))
           i f p 0);
    [ reflexivity | cbv; split; discriminate | reflexivity | reflexivity
    | reflexivity | reflexivity ].
Defined.

(** The same pass, by its values: [iomap_writepage] returns 0, the page
    is left with the seven blocks of the ioend handed over pending, under
    writeback and flagged with an error by the completion of the failed
    ioend. *)
Lemma writepage_failed_then_submitted :
  let ma := mk_iomap 8192 0 65536 IOMAP_MAPPED 0 1 [] 0 false in
  let mb := mk_iomap 1048576 0 65536 IOMAP_MAPPED 0 1 [] 0 false in
  let p := mk_iop 0 0 255 in
  let f := mk_folio 0 0 true false false false true (Some p) [] in
  let r := iomap_writepage
             4 16 (fun _ off => (0, if off =? 0 then ma else mb))
             (Some (fun e _ => if io_offset (ioend e) =? 0 then -5 else 0))
             false false (mk_wpc ma None) (mk_mapping 0 [] (fun _ => f))
             (mk_inode 4096 9) f in
  wb_ret r = 0
  /\ wb_folio r
     = mk_folio 0 0 false false true true true (Some (mk_iop 0 3584 255)) []
  /\ ioends_queued_in 0 (events_failed (wb_events r)) = 512
  /\ ioends_queued_in 0 (events_ioends (wb_events r)) = 3584
  /\ as_wb_err (wb_mapping r) = [-5; -5].
Proof. vm_compute. repeat split; reflexivity. Qed.

Lemma round_down_spec x bits :
  0 <= bits -> round_down x (2 ^ bits) = x - x mod 2 ^ bits.
Proof.
  intros H. unfold round_down.
  replace (2 ^ bits - 1) with (Z.ones bits) by (rewrite Z.ones_equiv; lia).
  rewrite <- Z.ldiff_land, Z.ldiff_ones_r by lia.
  rewrite Z.shiftl_mul_pow2, Z.shiftr_div_pow2 by lia.
  pose proof (Z.div_mod x (2 ^ bits)
                ltac:(pose proof (Z.pow_pos_nonneg 2 bits); lia)).
  lia.
Qed.

Lemma round_up_spec x bits :
  0 <= bits -> - 2 ^ 62 <= x -> x + 2 ^ bits < 2 ^ 63 ->
  round_up x (2 ^ bits) = ((x - 1) / 2 ^ bits + 1) * 2 ^ bits.
Proof.
  intros H Hx Hmax. unfold round_up.
  assert (Hp : 0 < 2 ^ bits) by (apply Z.pow_pos_nonneg; lia).
  replace (2 ^ bits - 1) with (Z.ones bits) by (rewrite Z.ones_equiv; lia).
  pose proof (Z.add_lor_land (x - 1) (Z.ones bits)) as Hl.
  rewrite Z.land_ones in Hl by lia.
  rewrite Z.ones_equiv in Hl at 2.
  pose proof (Z.div_mod (x - 1) (2 ^ bits) ltac:(lia)) as Hdm.
  pose proof (Z.mod_pos_bound (x - 1) (2 ^ bits) Hp) as Hmb.
  replace (Z.lor (x - 1) (Z.ones bits) + 1)
    with (((x - 1) / 2 ^ bits + 1) * 2 ^ bits) by lia.
  apply s64_small. lia.
Qed.

Lemma block_valid_same f g b :
  private g = private f -> PG_uptodate g = PG_uptodate f ->
  block_valid f b -> block_valid g b.
Proof.
  unfold block_valid, to_iomap_page, FolioUptodate. now intros -> ->.
Qed.

Lemma block_valid_set_range i f off len b :
  block_valid f b -> block_valid (iomap_set_range_uptodate i f off len) b.
Proof.
  unfold iomap_set_range_uptodate. destruct (FolioError f); [ auto | ].
  unfold block_valid, to_iomap_page.
  destruct (private f) as [p |] eqn:Hp.
  - rewrite iop_set_range_marked. unfold folio_marked. intros Hv.
    assert (Hv' : test_bit b (Z.lor (uptodate p) (range_bits i (off, len)))
                  = true).
    { unfold test_bit in *. now rewrite Z.lor_spec, Hv. }
    destruct (bitmap_full _ _); simpl; exact Hv'.
  - intros _. simpl. rewrite Hp. reflexivity.
Qed.

Lemma set_range_valid_blocks i f off len b :
  geometry_ok i f -> in_folio_range f (off, len) -> FolioError f = false ->
  off / 2 ^ i_blkbits i <= b <= (off + len - 1) / 2 ^ i_blkbits i ->
  block_valid (iomap_set_range_uptodate i f off len) b.
Proof.
  intros Hg Hin He Hb.
  pose proof (set_range_uptodate_valid i f off len Hg Hin He) as Hv.
  unfold block_valid, to_iomap_page.
  destruct (private (iomap_set_range_uptodate i f off len)) as [p |];
    [ | exact Hv ].
  apply Hv. destruct Hg as [Hbits _].
  rewrite !shiftr_block by lia. exact Hb.
Qed.

Lemma mul_div_exact a bs : 0 < bs -> a * bs / bs = a.
Proof. intros H. apply Z.div_mul. lia. Qed.

Section WriteBeginBlocks.

Variable IOMAP_F_NEW : Z.
Variable submit_bio_wait : Z -> Z -> Z -> Z * list byte.

Variable i : inode.
Variable flags : Z.
Variable srcmap : iomap.
Variable from to_ base ord : Z.

Let bs := 2 ^ i_blkbits i.
Let FS := 2 ^ (12 + ord).
Let A := from / bs.
Let B := (to_ - 1) / bs.
Let block_end := base + (B + 1) * bs.

Hypothesis Hord : 0 <= ord <= 19.
Hypothesis Hbits : 0 <= i_blkbits i <= 12 + ord.
Hypothesis Hfrom : 0 <= from < to_.
Hypothesis Hto : to_ <= FS.
Hypothesis Hbase : 0 <= base.
Hypothesis Hbase_al : base mod FS = 0.
Hypothesis Hbase_max : base + FS < 2 ^ 63.
Hypothesis Hisize : 0 <= i_size i < 2 ^ 63.

Lemma bs_pos : 0 < bs.
Proof. unfold bs. apply Z.pow_pos_nonneg; lia. Qed.

Lemma FS_blocks : exists N, 1 <= N /\ FS = N * bs /\ FS <= 2 ^ 31.
Proof.
  exists (2 ^ (12 + ord - i_blkbits i)). unfold FS, bs. split; [ | split ].
  - change 1 with (2 ^ 0). apply Z.pow_le_mono_r; lia.
  - rewrite <- Z.pow_add_r by lia. f_equal. lia.
  - apply Z.pow_le_mono_r; lia.
Qed.

Lemma AB_bounds :
  0 <= A /\ A <= B /\ A * bs <= from < (A + 1) * bs
  /\ B * bs <= to_ - 1 < (B + 1) * bs /\ (B + 1) * bs <= FS.
Proof.
  pose proof bs_pos as Hp. destruct FS_blocks as [N [HN [HFS _]]].
  unfold A, B.
  pose proof (Z.div_mod from bs ltac:(lia)) as H1.
  pose proof (Z.mod_pos_bound from bs Hp) as H2.
  pose proof (Z.div_mod (to_ - 1) bs ltac:(lia)) as H3.
  pose proof (Z.mod_pos_bound (to_ - 1) bs Hp) as H4.
  assert (H5 : from / bs <= (to_ - 1) / bs)
    by (apply Z.div_le_mono; lia).
  assert (H6 : 0 <= from / bs) by (apply Z.div_pos; lia).
  assert (H7 : (to_ - 1) / bs < N).
  { apply Z.div_lt_upper_bound; [ lia | ]. rewrite Z.mul_comm. lia. }
  repeat split; try lia.
  rewrite HFS. apply Z.mul_le_mono_nonneg_r; lia.
Qed.

Lemma offset_at f s :
  order f = ord -> 0 <= s -> s * bs < FS ->
  offset_in_folio f (base + s * bs) = s * bs.
Proof.
  intros Ho Hs Hlt. pose proof bs_pos as Hp.
  rewrite offset_in_folio_mod by lia.
  rewrite folio_size_pow by lia. rewrite Ho. fold FS.
  assert (0 <= s * bs) by (apply Z.mul_nonneg_nonneg; lia).
  rewrite u64_small by lia.
  rewrite Z.add_mod by (unfold FS; pose proof (Z.pow_pos_nonneg 2 (12 + ord));
                        lia).
  rewrite Hbase_al, Z.add_0_l, Z.mod_mod
    by (unfold FS; pose proof (Z.pow_pos_nonneg 2 (12 + ord)); lia).
  apply Z.mod_small. lia.
Qed.

Lemma base_aligned : base mod bs = 0.
Proof.
  destruct FS_blocks as [N [HN [HFS _]]]. pose proof bs_pos as Hp.
  apply Z.mod_divide in Hbase_al;
    [ | unfold FS; pose proof (Z.pow_pos_nonneg 2 (12 + ord)); lia ].
  destruct Hbase_al as [q Hq]. rewrite Hq, HFS.
  replace (q * (N * bs)) with (q * N * bs) by ring.
  apply Z.mod_mul. lia.
Qed.

Lemma aligned_at s : block_aligned i (base + s * bs).
Proof.
  unfold block_aligned. fold bs. pose proof bs_pos.
  rewrite Z.add_mod by lia. rewrite base_aligned, Z.mod_mul by lia.
  reflexivity.
Qed.

Lemma aligned_len c : block_aligned i (c * bs).
Proof. unfold block_aligned. fold bs. apply Z.mod_mul. pose proof bs_pos. lia. Qed.


Let ready := blocks_ready i flags from to_.

Lemma ready_same f g lo hi :
  private g = private f -> PG_uptodate g = PG_uptodate f ->
  ready f lo hi -> ready g lo hi.
Proof.
  intros Hp Hu H b Hb. destruct (H b Hb) as [Hv | Hi]; [ left | now right ].
  eapply block_valid_same; eauto.
Qed.

Lemma ready_set_range f off len lo hi :
  ready f lo hi -> ready (iomap_set_range_uptodate i f off len) lo hi.
Proof.
  intros H b Hb. destruct (H b Hb) as [Hv | Hi]; [ left | now right ].
  now apply block_valid_set_range.
Qed.

Lemma ready_join f lo mid hi :
  ready f lo mid -> ready f mid hi -> ready f lo hi.
Proof.
  intros H1 H2 b Hb. destruct (Z.lt_ge_cases b mid); [ apply H1 | apply H2 ];
    lia.
Qed.

(** One more chunk: the blocks [s+k, s+k+m) were marked valid. *)
Lemma ready_marked f s k m :
  order f = ord -> FolioError f = false ->
  0 <= s -> 0 <= k -> 0 < m -> (s + k + m) * bs <= FS ->
  ready f A (s + k) ->
  ready (iomap_set_range_uptodate i f ((s + k) * bs) (m * bs)) A (s + k + m).
Proof.
  intros Ho He Hs Hk Hm Hfit Hr. pose proof bs_pos as Hp.
  apply (ready_join _ A (s + k)); [ now apply ready_set_range | ].
  intros b Hb. left. apply set_range_valid_blocks; auto.
  - unfold geometry_ok. rewrite Ho. lia.
  - unfold in_folio_range. cbn [fst snd]. rewrite folio_size_pow by lia.
    rewrite Ho. fold FS.
    assert (0 <= (s + k) * bs) by (apply Z.mul_nonneg_nonneg; lia).
    assert (0 < m * bs) by (apply Z.mul_pos_pos; lia).
    lia.
  - fold bs. rewrite mul_div_exact by lia.
    replace ((s + k) * bs + m * bs - 1) with ((s + k + m) * bs - 1) by ring.
    rewrite div_pred_block by lia. lia.
Qed.

Lemma write_begin_loop_ready :
  forall fuel s f,
    order f = ord -> FolioError f = false ->
    A <= s <= B -> B + 1 - s <= Z.of_nat fuel ->
    ready f A s ->
    exists status f',
      write_begin_loop IOMAP_F_NEW submit_bio_wait fuel i flags f srcmap
                       from to_ (base + s * bs) block_end
      = Some (status, f')
      /\ (status = 0 ->
          ready f' A (B + 1) /\ FolioError f' = false /\ order f' = ord).
Proof.
  pose proof bs_pos as Hp. pose proof AB_bounds as [HA0 [HAB [HA [HB0 HBF]]]].
  destruct FS_blocks as [N [HN [HFS HFSmax]]].
  assert (Hinj : forall a b, a * bs = b * bs -> a = b)
    by (intros a b H; apply Z.mul_cancel_r in H; lia).
  assert (Hinj_lt : forall a b, a * bs < b * bs -> a < b)
    by (intros a b H; apply Z.mul_lt_mono_pos_r in H; lia).
  assert (Hinj_le : forall a b, a * bs <= b * bs -> a <= b)
    by (intros a b H; apply Z.mul_le_mono_pos_r in H; lia).
  induction fuel as [| n IH]; intros s f Ho He Hs Hfuel Hr; [ lia | ].
  assert (Hbif : blocks_in_folio i f) by (unfold blocks_in_folio; rewrite Ho; lia).
  assert (Hsb : 0 <= s * bs) by (apply Z.mul_nonneg_nonneg; lia).
  assert (Hsle : (s + 1) * bs <= (B + 1) * bs)
    by (apply Z.mul_le_mono_nonneg_r; lia).
  assert (Hlen : s64 (block_end - (base + s * bs)) = (B + 1 - s) * bs).
  { unfold block_end. replace (base + (B + 1) * bs - (base + s * bs))
      with ((B + 1 - s) * bs) by ring.
    apply s64_small. lia. }
  destruct (adjust_read_range_blocks i f (base + s * bs) ((B + 1 - s) * bs)
              Hbif ltac:(lia) ltac:(lia) ltac:(lia) (aligned_at s)
              (aligned_len (B + 1 - s)) Hisize)
    as [first0 [c [k [m [[Hf0 [Hc1 [Hk0 [Hm0 Hkm]]]]
         [Hfit [Hoff [Hmin [Hadj [Hmz [Hiop [Hnone _]]]]]]]]]]]].
  fold bs in Hfit, Hoff, Hmin, Hadj.
  rewrite offset_at in Hoff by (auto; lia).
  assert (Hfirst : first0 = s) by (apply Hinj; lia). subst first0.
  rewrite folio_size_pow in Hmin, Hfit by lia. rewrite Ho in Hmin, Hfit.
  fold FS in Hmin, Hfit.
  rewrite Z.min_r in Hmin by lia.
  assert (Hc : c = B + 1 - s) by (apply Hinj; lia). subst c.
  cbn [write_begin_loop]. rewrite Hlen, Hadj.
  (* the blocks the scan skipped are valid *)
  assert (Hskipped : ready f A (s + k)).
  { apply (ready_join _ A s); [ exact Hr | ].
    intros b Hb. left. unfold block_valid.
    destruct (to_iomap_page f) as [p |] eqn:Hp'.
    - destruct (Hiop p eq_refl) as [Hlead _]. apply Hlead. lia.
    - destruct (Hnone eq_refl) as [Hk _]. lia. }
  destruct (Z.eqb_spec (m * bs) 0) as [Hz | Hnz].
  - (* nothing left to bring in *)
    assert (m = 0) by (apply Z.mul_eq_0 in Hz; lia).
    specialize (Hmz ltac:(assumption)).
    exists 0, f. split; [ reflexivity | ]. intros _.
    replace (B + 1) with (s + k) by lia. auto.
  - assert (Hm : 0 < m).
    { destruct (Z.eq_dec m 0) as [E | E]; [ | lia ].
      rewrite E in Hnz. simpl in Hnz. contradiction. }
    assert (Hskm : 0 <= (s + k + m) * bs)
      by (apply Z.mul_nonneg_nonneg; lia).
    assert (Hchunk : (s + k + m) * bs <= (B + 1) * bs)
      by (apply Z.mul_le_mono_nonneg_r; lia).
    assert (Hnext : s64 (base + s * bs + k * bs + m * bs)
                    = base + (s + k + m) * bs).
    { replace (base + s * bs + k * bs + m * bs)
        with (base + (s + k + m) * bs) by ring.
      apply s64_small. lia. }
    (* the rest of the loop, from any folio that is ready up to here *)
    assert (Hagain : forall g,
      order g = ord -> FolioError g = false -> ready g A (s + k + m) ->
      exists status f',
        (if s64 (base + s * bs + k * bs + m * bs) <? block_end
         then write_begin_loop IOMAP_F_NEW submit_bio_wait n i flags g srcmap
                               from to_
                               (s64 (base + s * bs + k * bs + m * bs))
                               block_end
         else Some (0, g))
        = Some (status, f')
        /\ (status = 0 ->
            ready f' A (B + 1) /\ FolioError f' = false /\ order f' = ord)).
    { intros g Hgo Hge Hgr. rewrite Hnext. unfold block_end at 1.
      destruct (Z.ltb_spec (base + (s + k + m) * bs) (base + (B + 1) * bs))
        as [Hlt | Hge'].
      - assert (s + k + m <= B) by (apply Z.lt_succ_r, Hinj_lt; lia).
        apply IH; auto; lia.
      - assert (B + 1 <= s + k + m) by (apply Hinj_le; lia).
        assert (s + k + m = B + 1) by lia.
        exists 0, g. split; [ reflexivity | ]. intros _.
        replace (B + 1) with (s + k + m) by lia. auto. }
    assert (Hu64 : u64 ((s + k) * bs + m * bs) = (s + k + m) * bs).
    { replace ((s + k) * bs + m * bs) with ((s + k + m) * bs) by ring.
      apply u64_small. lia. }
    rewrite Hu64.
    destruct ((Z.land flags IOMAP_WRITE_F_UNSHARE =? 0)
              && ((from <=? (s + k) * bs) || ((s + k + m) * bs <=? from))
              && ((to_ <=? (s + k) * bs) || ((s + k + m) * bs <=? to_)))
      eqn:Hcond.
    + (* the chunk is wholly overwritten: nothing to bring in *)
      apply Hagain; auto.
      apply (ready_join _ A (s + k)); [ exact Hskipped | ].
      apply andb_prop in Hcond. destruct Hcond as [Hcond Hc2].
      apply andb_prop in Hcond. destruct Hcond as [Hun Hc1'].
      apply Z.eqb_eq in Hun.
      assert (Hin1 : from <= (s + k) * bs).
      { apply orb_prop in Hc1'. destruct Hc1' as [H1 | H1].
        - now apply Z.leb_le in H1.
        - apply Z.leb_le in H1.
          assert ((A + 1) * bs <= (s + k + m) * bs)
            by (apply Z.mul_le_mono_nonneg_r; lia).
          lia. }
      assert (Hin2 : (s + k + m) * bs <= to_).
      { apply orb_prop in Hc2. destruct Hc2 as [H2 | H2].
        - apply Z.leb_le in H2.
          assert ((s + k) * bs <= B * bs)
            by (apply Z.mul_le_mono_nonneg_r; lia).
          lia.
        - now apply Z.leb_le in H2. }
      intros b Hb. right. split; [ exact Hun | ].
      unfold block_inside. fold bs.
      assert ((s + k) * bs <= b * bs)
        by (apply Z.mul_le_mono_nonneg_r; lia).
      assert ((b + 1) * bs <= (s + k + m) * bs)
        by (apply Z.mul_le_mono_nonneg_r; lia).
      lia.
    + destruct (iomap_block_needs_zeroing IOMAP_F_NEW i srcmap
                                          (base + s * bs + k * bs)).
      * destruct (negb (Z.land flags IOMAP_WRITE_F_UNSHARE =? 0)).
        -- exists (- EIO), f. split; [ reflexivity | ].
           intros H. discriminate H.
        -- apply Hagain.
           ++ rewrite (proj1 (proj2 (set_range_uptodate_keeps _ _ _ _))).
              exact Ho.
           ++ unfold FolioError.
              rewrite (proj1 (set_range_uptodate_keeps _ _ _ _)).
              exact He.
           ++ apply ready_marked; auto; lia.
      * unfold iomap_read_folio_sync.
        destruct (submit_bio_wait (bdev srcmap)
                    (iomap_sector srcmap (base + s * bs + k * bs)) (m * bs))
          as [st bytes].
        destruct (negb (st =? 0)) eqn:Hst.
        -- exists st, (folio_with_data
                         f (write_bytes (data f) ((s + k) * bs) bytes)).
           split; [ reflexivity | ].
           intros H. subst st. discriminate Hst.
        -- apply Hagain.
           ++ rewrite (proj1 (proj2 (set_range_uptodate_keeps _ _ _ _))).
              exact Ho.
           ++ unfold FolioError.
              rewrite (proj1 (set_range_uptodate_keeps _ _ _ _)).
              exact He.
           ++ apply ready_marked; auto; lia.
Qed.

End WriteBeginBlocks.

Lemma i_blocksize_folio i f :
  blocks_in_folio i f -> i_blocksize i = 2 ^ i_blkbits i.
Proof.
  intros [Ho Hb]. unfold i_blocksize. rewrite Z.shiftl_mul_pow2 by lia.
  rewrite Z.mul_1_l. apply u32_small.
  assert (2 ^ i_blkbits i <= 2 ^ 31) by (apply Z.pow_le_mono_r; lia).
  pose proof (Z.pow_pos_nonneg 2 (i_blkbits i)). lia.
Qed.

(** What [__iomap_write_begin] leaves of the blocks a write touches. *)
Lemma write_begin_core NEW sbw i pos len flags f srcmap :
  blocks_in_folio i f ->
  uptodate_consistent i f = true ->
  0 <= i_size i < 2 ^ 63 ->
  0 <= pos < 2 ^ 62 -> 0 < len ->
  offset_in_folio f pos + len <= folio_size f ->
  exists status f',
    __iomap_write_begin NEW sbw i pos len flags f srcmap = Some (status, f')
    /\ (status = 0 ->
        blocks_ready i flags (offset_in_folio f pos)
                     (offset_in_folio f pos + len) f'
                     (offset_in_folio f pos / 2 ^ i_blkbits i)
                     ((offset_in_folio f pos + len - 1) / 2 ^ i_blkbits i + 1)
        /\ order f' = order f
        /\ (FolioError f' = false
            \/ forall b,
                 block_written i (offset_in_folio f pos)
                               (offset_in_folio f pos + len) b ->
                 block_valid f' b)).
Proof.
  intros Hbif Hc Hisz Hpos Hlen Hfit.
  pose proof Hbif as [Hord Hbits].
  pose proof (folio_size_pow f ltac:(lia)) as HFS.
  pose proof (folio_size_bounds f Hord) as HFSb.
  pose proof (i_blocksize_folio i f Hbif) as Hbsz.
  set (bs := 2 ^ i_blkbits i) in *.
  set (FS := 2 ^ (12 + order f)) in *.
  assert (Hbs : 0 < bs) by (apply Z.pow_pos_nonneg; lia).
  assert (HFSp : 0 < FS) by (apply Z.pow_pos_nonneg; lia).
  assert (Hfrom : offset_in_folio f pos = pos mod FS).
  { rewrite offset_in_folio_mod by lia. rewrite u64_small by lia.
    now rewrite HFS. }
  set (from := offset_in_folio f pos) in *.
  pose proof (Z.mod_pos_bound pos FS HFSp) as Hfr. rewrite <- Hfrom in Hfr.
  pose proof (Z.div_mod pos FS ltac:(lia)) as Hdm. rewrite <- Hfrom in Hdm.
  set (base := FS * (pos / FS)) in *.
  assert (Hbase0 : 0 <= base).
  { unfold base. apply Z.mul_nonneg_nonneg; [ lia | apply Z.div_pos; lia ]. }
  assert (Hbase_al : base mod FS = 0).
  { unfold base. rewrite Z.mul_comm. apply Z.mod_mul. lia. }
  assert (HFSbs : exists N, 1 <= N /\ FS = N * bs).
  { exists (2 ^ (12 + order f - i_blkbits i)). split.
    - change 1 with (2 ^ 0). apply Z.pow_le_mono_r; lia.
    - unfold FS, bs. rewrite <- Z.pow_add_r by lia. f_equal. lia. }
  destruct HFSbs as [N [HN HFSN]].
  assert (Hbase_bs : exists q, base = q * bs).
  { exists (pos / FS * N). unfold base. rewrite HFSN. ring. }
  destruct Hbase_bs as [q Hq].
  set (A := from / bs). set (B := (from + len - 1) / bs).
  pose proof (Z.div_mod from bs ltac:(lia)) as HdA.
  pose proof (Z.mod_pos_bound from bs Hbs) as HmA. fold A in HdA.
  assert (Hrd : round_down pos (i_blocksize i) = base + A * bs).
  { rewrite Hbsz. unfold bs. rewrite round_down_spec by lia. fold bs.
    assert (Hpm : pos mod bs = from mod bs).
    { rewrite Hdm, Hq. rewrite Z.add_comm, Z.mod_add by lia. reflexivity. }
    rewrite Hpm. lia. }
  assert (Hru : round_up (s64 (pos + len)) (i_blocksize i)
                = base + (B + 1) * bs).
  { rewrite Hbsz. rewrite s64_small by lia. unfold bs.
    rewrite round_up_spec; try lia.
    - fold bs. replace (pos + len - 1) with (q * bs + (from + len - 1)) by lia.
      rewrite Z.div_add_l by lia. fold B. rewrite Hq. ring.
    - fold bs. assert (bs <= FS) by (rewrite HFSN; nia). lia. }
  assert (Hto : u64 (from + len) = from + len) by (apply u64_small; lia).
  assert (HA0 : 0 <= A) by (apply Z.div_pos; lia).
  assert (HAB : A <= B) by (apply Z.div_le_mono; lia).
  pose proof (Z.div_mod (from + len - 1) bs ltac:(lia)) as HdB.
  pose proof (Z.mod_pos_bound (from + len - 1) bs Hbs) as HmB. fold B in HdB.
  assert (HBN : B + 1 <= N).
  { assert (B < N); [ | lia ].
    apply Z.div_lt_upper_bound; [ lia | ]. rewrite Z.mul_comm. lia. }
  unfold __iomap_write_begin.
  change (offset_in_folio f pos) with from.
  destruct (page_create_frame i f) as [Hiop [Ho1 [_ [_ [He1 [Hu1 _]]]]]].
  pose proof (consistent_page_create i f Hc) as Hc1.
  destruct (iomap_page_create i f) as [iop f1]. cbn [fst snd] in *.
  destruct (FolioUptodate f1) eqn:Hup.
  - (* already uptodate *)
    assert (Hall : forall b, block_written i from (from + len) b ->
                             block_valid f1 b).
    { intros b Hb. unfold block_valid.
      destruct (to_iomap_page f1) as [p |] eqn:Hp1; [ | exact Hup ].
      unfold uptodate_consistent in Hc1. rewrite Hp1, Hup in Hc1.
      apply eqb_prop in Hc1.
      assert (Hnr : i_blocks_per_folio i f1 = N).
      { unfold i_blocks_per_folio, folio_size. rewrite Ho1.
        fold (folio_size f). rewrite HFS. fold FS.
        rewrite Z.shiftr_div_pow2 by lia. fold bs. rewrite HFSN.
        rewrite Z.div_mul by lia. apply u32_small.
        assert (N <= FS) by (rewrite HFSN; nia). lia. }
      rewrite Hnr in Hc1.
      apply (proj1 (bitmap_full_spec (uptodate p) N ltac:(lia)) Hc1).
      unfold block_written in Hb. fold bs A B in Hb. lia. }
    exists 0, f1. split; [ reflexivity | ]. intros _.
    split; [ | split; [ exact Ho1 | right; exact Hall ] ].
    intros b Hb. left. apply Hall. unfold block_written. fold bs A B.
    replace (from + len - 1) with (from + len - 1) by lia. lia.
  - rewrite Hrd, Hru, Hto.
    replace (Z.shiftr (base + (B + 1) * bs - (base + A * bs)) (i_blkbits i))
      with (B + 1 - A).
    2:{ rewrite Z.shiftr_div_pow2 by lia. fold bs.
        replace (base + (B + 1) * bs - (base + A * bs))
          with ((B + 1 - A) * bs) by ring.
        now rewrite Z.div_mul by lia. }
    destruct (write_begin_loop_ready
                NEW sbw i flags srcmap from (from + len) base (order f)
                Hord Hbits ltac:(lia) ltac:(fold FS; lia) Hbase0 Hbase_al
                ltac:(fold FS; lia) Hisz
                (Z.to_nat (B + 1 - A)) A (ClearFolioError f1))
      as [status [f' [Hloop Hready]]].
    + exact Ho1.
    + reflexivity.
    + fold bs A B. lia.
    + fold bs B. rewrite Z2Nat.id by lia. lia.
    + intros b Hb. fold bs in Hb. lia.
    + fold bs A B in Hloop, Hready.
      exists status, f'. split; [ exact Hloop | ].
      intros Hst. destruct (Hready Hst) as [Hr [He Ho]].
      split; [ exact Hr | ]. split; [ exact Ho | left; exact He ].
Qed.

(** X20: [__iomap_write_begin] returns for every write that lies inside
    the folio, and when it reports success every block holding one of the
    bytes to be written is valid, or lies wholly inside the bytes to be
    written (and then only for a write that is not an unshare). *)
Theorem write_begin_prepares_blocks NEW sbw i pos len flags f srcmap :
  blocks_in_folio i f ->
  uptodate_consistent i f = true ->
  0 <= i_size i < 2 ^ 63 ->
  0 <= pos < 2 ^ 62 -> 0 < len ->
  offset_in_folio f pos + len <= folio_size f ->
  exists status f',
    __iomap_write_begin NEW sbw i pos len flags f srcmap = Some (status, f')
    /\ (status = 0 ->
        forall b,
          block_written i (offset_in_folio f pos)
                        (offset_in_folio f pos + len) b ->
          block_valid f' b
          \/ (Z.land flags IOMAP_WRITE_F_UNSHARE = 0
              /\ block_inside i (offset_in_folio f pos)
                              (offset_in_folio f pos + len) b)).
Proof.
  intros Hbif Hc Hisz Hpos Hlen Hfit.
  destruct (write_begin_core NEW sbw i pos len flags f srcmap
              Hbif Hc Hisz Hpos Hlen Hfit) as [status [f' [Hw Hpost]]].
  exists status, f'. split; [ exact Hw | ].
  intros Hst b Hb. destruct (Hpost Hst) as [Hr _]. apply Hr.
  unfold block_written in Hb. lia.
Qed.

Lemma write_begin_prepares_blocks_witness :
  let i := mk_inode 4096 9 in
  let f := mk_folio 0 0 true false false false false None
                    (repeat x01 4096) in
  let srcmap := mk_iomap 0 0 4096 IOMAP_HOLE 0 0 [] 0 false in
  exists status f',
    __iomap_write_begin 4 (fun _ _ _ => (0, [])) i 100 600 0 f srcmap
    = Some (status, f')
    /\ (status = 0 ->
        forall b,
          block_written i (offset_in_folio f 100)
                        (offset_in_folio f 100 + 600) b ->
          block_valid f' b
          \/ (Z.land 0 IOMAP_WRITE_F_UNSHARE = 0
              /\ block_inside i (offset_in_folio f 100)
                              (offset_in_folio f 100 + 600) b)).
Proof.
  intros i f srcmap.
  apply (write_begin_prepares_blocks 4 (fun _ _ _ => (0, [])) i 100 600 0
                                     f srcmap);
    try reflexivity; cbv; repeat split; try reflexivity; discriminate.
Defined.

(** X21: a write that lies inside the folio goes through
    [__iomap_write_begin] and, once all its bytes were copied, through
    [__iomap_write_end]: all the bytes are reported written, the folio is
    dirty, and every block holding one of the bytes is valid. *)
Theorem write_begin_end_blocks_valid NEW sbw i pos len f srcmap f1 :
  blocks_in_folio i f ->
  uptodate_consistent i f = true ->
  0 <= i_size i < 2 ^ 63 ->
  0 <= pos < 2 ^ 62 -> 0 < len ->
  offset_in_folio f pos + len <= folio_size f ->
  __iomap_write_begin NEW sbw i pos len 0 f srcmap = Some (0, f1) ->
  fst (__iomap_write_end i pos len len f1) = len
  /\ PG_dirty (snd (__iomap_write_end i pos len len f1)) = true
  /\ forall b,
       block_written i (offset_in_folio f pos)
                     (offset_in_folio f pos + len) b ->
       block_valid (snd (__iomap_write_end i pos len len f1)) b.
Proof.
  intros Hbif Hc Hisz Hpos Hlen Hfit Hw.
  destruct (write_begin_core NEW sbw i pos len 0 f srcmap
              Hbif Hc Hisz Hpos Hlen Hfit) as [status [f' [Hw' Hpost]]].
  rewrite Hw in Hw'. injection Hw' as <- <-.
  destruct (Hpost eq_refl) as [_ [Ho Hv]].
  unfold __iomap_write_end. rewrite Z.ltb_irrefl. cbn [andb fst snd].
  split; [ reflexivity | ]. split; [ reflexivity | ].
  assert (Hoff : offset_in_folio f1 pos = offset_in_folio f pos).
  { unfold offset_in_folio, folio_size. now rewrite Ho. }
  rewrite Hoff. intros b Hb.
  apply (block_valid_same
           (iomap_set_range_uptodate i f1 (offset_in_folio f pos) len));
    [ reflexivity | reflexivity | ].
  destruct Hv as [He | Hall].
  - pose proof Hbif as [Hord Hbits].
    apply set_range_valid_blocks; [ | | exact He | exact Hb ].
    + unfold geometry_ok. rewrite Ho. lia.
    + unfold in_folio_range, folio_size. cbn [fst snd]. rewrite Ho.
      fold (folio_size f).
      pose proof (offset_in_folio_range f pos ltac:(lia)). lia.
  - apply block_valid_set_range. now apply Hall.
Qed.

Lemma write_begin_end_blocks_valid_witness :
  let i := mk_inode 4096 9 in
  let f := mk_folio 0 0 true false false false false None
                    (repeat x01 4096) in
  let srcmap := mk_iomap 0 0 4096 IOMAP_HOLE 0 0 [] 0 false in
  let f1 := iomap_set_range_uptodate
              i (folio_with_data
                   (ClearFolioError (snd (iomap_page_create i f)))
                   (zero_user_segments (repeat x01 4096) 0 100 700 1024))
              0 1024 in
  fst (__iomap_write_end i 100 600 600 f1) = 600
  /\ PG_dirty (snd (__iomap_write_end i 100 600 600 f1)) = true
  /\ forall b,
       block_written i (offset_in_folio f 100)
                     (offset_in_folio f 100 + 600) b ->
       block_valid (snd (__iomap_write_end i 100 600 600 f1)) b.
Proof.
  intros i f srcmap f1.
  apply (write_begin_end_blocks_valid 4 (fun _ _ _ => (0, [])) i 100 600
                                      f srcmap f1);
    try reflexivity; cbv; repeat split; try reflexivity; discriminate.
Defined.

Lemma bios_bytes_app k a b :
  fold_right (fun b acc => bio_bytes_in k b + acc) 0 (a ++ b)
  = fold_right (fun b acc => bio_bytes_in k b + acc) 0 a
    + fold_right (fun b acc => bio_bytes_in k b + acc) 0 b.
Proof. induction a as [| x a IH]; simpl; [ reflexivity | rewrite IH; lia ]. Qed.

Lemma ctx_bytes_in_eq k c :
  ctx_bytes_in k c
  = fold_right (fun b acc => bio_bytes_in k b + acc) 0 (submitted c)
    + match ctx_bio c with
      | Some b => bio_bytes_in k b
      | None => 0
      end.
Proof.
  unfold ctx_bytes_in, ctx_bios. rewrite bios_bytes_app.
  destruct (ctx_bio c); simpl; lia.
Qed.

Lemma set_range_uptodate_locked i f off len :
  PG_locked (iomap_set_range_uptodate i f off len) = PG_locked f.
Proof.
  unfold iomap_set_range_uptodate. destruct (FolioError f); [ reflexivity | ].
  destruct (to_iomap_page f) as [p |]; [ | reflexivity ].
  rewrite iop_set_range_marked. unfold folio_marked.
  destruct (bitmap_full _ _); reflexivity.
Qed.

Section ReadAccounting.

Variable IOMAP_F_NEW : Z.
Variable BIO_MAX_PAGES : Z.
Variable bio_alloc_succeeds : bool.

Hypothesis BMP_pos : 0 < BIO_MAX_PAGES.

(** A fresh request takes the region. *)
Lemma fresh_bio_takes length c m sector plen poff k :
  0 < length <= 2 ^ 31 -> 0 <= plen <= 2 ^ 31 ->
  let c1 := ctx_bio_add_page
              (readpage_new_bio BIO_MAX_PAGES bio_alloc_succeeds
                                length c m sector) plen poff in
  ctx_bytes_in k c1
  = ctx_bytes_in k c + bytes_for k (index (cur_folio c)) plen
  /\ cur_folio c1 = cur_folio c
  /\ cur_folio_in_bio c1 = cur_folio_in_bio c.
Proof.
  intros Hlen Hplen. unfold ctx_bio_add_page, readpage_new_bio.
  cbn [ctx_bio cur_folio cur_folio_in_bio rac submitted].
  set (cap := if bio_alloc_succeeds
              then Z.min BIO_MAX_PAGES
                         (s32 (Z.shiftr (u64 (length + PAGE_SIZE - 1))
                                        PAGE_SHIFT))
              else 1).
  assert (Hcap : 1 <= cap).
  { unfold cap. destruct bio_alloc_succeeds; [ | lia ].
    assert (1 <= s32 (Z.shiftr (u64 (length + PAGE_SIZE - 1)) PAGE_SHIFT));
      [ | lia ].
    change PAGE_SIZE with 4096. unfold PAGE_SHIFT.
    rewrite u64_small by lia. rewrite Z.shiftr_div_pow2 by lia.
    change (2 ^ 12) with 4096.
    assert (1 <= (length + 4096 - 1) / 4096)
      by (apply Z.div_le_lower_bound; lia).
    assert ((length + 4096 - 1) / 4096 < 2 ^ 20)
      by (apply Z.div_lt_upper_bound; lia).
    rewrite s32_small by lia. lia. }
  set (fresh := mk_bio (bdev m) sector 0 cap (rac c) []).
  assert (Hnm : __bio_try_merge_page fresh (index (cur_folio c)) plen poff
                = None) by reflexivity.
  assert (Hnf : bio_full fresh plen = false).
  { unfold bio_full, fresh.
    cbn [bi_max_vecs bi_io_vec bi_size List.length Z.of_nat].
    apply orb_false_iff. unfold UINT_MAX.
    split; [ apply Z.leb_gt | apply Z.ltb_ge ]; lia. }
  destruct (bio_add_page_spec fresh (index (cur_folio c)) plen poff Hnm Hnf)
    as [_ [_ [S3 _]]].
  split; [ | split; reflexivity ].
  rewrite !ctx_bytes_in_eq. cbn [ctx_bio submitted].
  unfold bio_bytes_in at 2. rewrite S3. unfold fresh at 1. simpl seg_bytes.
  destruct (ctx_bio c) as [b |].
  - rewrite bios_bytes_app. simpl. lia.
  - lia.
Qed.


Lemma page_create_record i f :
  1 < i_blocks_per_folio i f ->
  exists p, iomap_page_create i f = (Some p, folio_with_private f (Some p))
            /\ read_bytes_pending p = read_pending f.
Proof.
  intros Hn. unfold iomap_page_create, read_pending, to_iomap_page.
  destruct (private f) as [p |] eqn:Hp.
  - exists p. split; [ | reflexivity ].
    f_equal. destruct f; simpl in *. now rewrite Hp.
  - replace (i_blocks_per_folio i f <=? 1) with false
      by (symmetry; apply Z.leb_gt; lia).
    eexists. split; reflexivity.
Qed.

(** What one call of the read actor does to the byte counts. *)
Lemma read_actor_core i pos length c m :
  blocks_in_folio i (cur_folio c) ->
  1 < i_blocks_per_folio i (cur_folio c) ->
  0 <= pos -> 0 < length <= 2 ^ 31 -> pos + length < 2 ^ 63 ->
  block_aligned i pos -> block_aligned i length ->
  0 <= i_size i < 2 ^ 63 ->
  type m <> IOMAP_INLINE ->
  0 <= read_pending (cur_folio c) ->
  read_pending (cur_folio c) + folio_size (cur_folio c) < 2 ^ 31 ->
  exists ret c' added,
    iomap_readpage_actor IOMAP_F_NEW BIO_MAX_PAGES bio_alloc_succeeds
                         i pos length c m = Some (ret, c')
    /\ 0 < ret <= length
    /\ 0 <= added <= folio_size (cur_folio c)
    /\ index (cur_folio c') = index (cur_folio c)
    /\ read_pending (cur_folio c') = read_pending (cur_folio c) + added
    /\ (forall k, ctx_bytes_in k c'
                  = ctx_bytes_in k c
                    + bytes_for k (index (cur_folio c)) added)
    /\ added <= ret /\ block_aligned i ret
    /\ offset_in_folio (cur_folio c) pos + ret <= folio_size (cur_folio c)
    /\ order (cur_folio c') = order (cur_folio c)
    /\ PG_locked (cur_folio c') = PG_locked (cur_folio c)
    /\ cur_folio_in_bio c' = cur_folio_in_bio c || (0 <? added)
    /\ rac c' = rac c
    /\ (bios_positive (ctx_bios c) -> bios_positive (ctx_bios c')).
Proof.
  intros Hgeo Hn Hpos Hlen Hend Hapos Halen Hisize Hty Hrp Hrpmax.
  unfold iomap_readpage_actor.
  destruct (page_create_record i (cur_folio c) Hn) as [p1 [Hpc Hp1]].
  rewrite Hpc. set (f1 := folio_with_private (cur_folio c) (Some p1)).
  assert (Hgeo1 : blocks_in_folio i f1) by exact Hgeo.
  assert (Hrp1 : read_pending f1 = read_pending (cur_folio c)) by exact Hp1.
  destruct (adjust_read_range_blocks i f1 pos length Hgeo1 Hpos
              ltac:(lia) Hend Hapos Halen Hisize)
    as [first0 [c0 [k [m0 [[Hf0 [Hc1 [Hk0 [Hm0 Hkm]]]]
         [Hfit [Hoff [Hmin [Hadj [Hmz _]]]]]]]]]].
  change (folio_size f1) with (folio_size (cur_folio c)) in *.
  destruct (folio_blocks i (cur_folio c) Hgeo) as [N [HN [HFS [HFSmax Hbs]]]].
  set (bs := 2 ^ i_blkbits i) in *.
  assert (Hmono : forall a b, a <= b -> a * bs <= b * bs)
    by (intros; apply Z.mul_le_mono_nonneg_r; lia).
  assert (Hkmb : 0 < (k + m0) * bs).
  { apply Z.mul_pos_pos; [ | lia ].
    destruct (Z.eq_dec m0 0) as [E | E]; [ specialize (Hmz E) | ]; lia. }
  pose proof (Hmono (k + m0) c0 Hkm) as Hkc.
  pose proof (Hmono m0 c0 ltac:(lia)) as Hmc.
  assert (Hmb : 0 <= m0 * bs) by (apply Z.mul_nonneg_nonneg; lia).
  assert (Hkb : 0 <= k * bs) by (apply Z.mul_nonneg_nonneg; lia).
  assert (Hfb : 0 <= first0 * bs) by (apply Z.mul_nonneg_nonneg; lia).
  assert (Hc0len : c0 * bs <= length) by lia.
  assert (Hc0fs : c0 * bs <= folio_size (cur_folio c)) by lia.
  replace (iomap_type_eqb (type m) IOMAP_INLINE) with false
    by (destruct (type m); simpl; congruence).
  rewrite Hadj.
  replace (pos + k * bs - pos + m0 * bs) with ((k + m0) * bs) by ring.
  rewrite (s64_small ((k + m0) * bs)) by lia.
  assert (Hal : block_aligned i ((k + m0) * bs))
    by (unfold block_aligned; fold bs; apply Z.mod_mul; lia).
  assert (Hin : offset_in_folio (cur_folio c) pos + (k + m0) * bs
                <= folio_size (cur_folio c)).
  { change (offset_in_folio f1 pos)
      with (offset_in_folio (cur_folio c) pos) in Hoff.
    rewrite Hoff. lia. }
  assert (Hkadd : m0 * bs <= (k + m0) * bs) by (apply Hmono; lia).
  destruct (Z.eqb_spec (m0 * bs) 0) as [Hz | Hnz].
  - (* everything in the range is uptodate *)
    exists ((k + m0) * bs), (ctx_with_folio c f1), 0.
    split; [ reflexivity | ]. split; [ lia | ]. split; [ lia | ].
    split; [ reflexivity | ]. split; [ | split ].
    + cbn [cur_folio ctx_with_folio]. lia.
    + intros j. unfold bytes_for. destruct (_ =? j); simpl;
        rewrite Z.add_0_r; reflexivity.
    + split; [ lia | ]. split; [ exact Hal | ]. split; [ exact Hin | ].
      cbn [Z.ltb Z.compare]. rewrite orb_false_r.
      repeat split; try reflexivity. intros Hb; exact Hb.
  - destruct (iomap_block_needs_zeroing IOMAP_F_NEW i m (pos + k * bs)).
    + (* zeroed in memory: no request *)
      eexists ((k + m0) * bs), _, 0.
      split; [ reflexivity | ]. split; [ lia | ]. split; [ lia | ].
      set (zeroed := folio_with_data f1 _).
      destruct (set_range_uptodate_frame i zeroed ((first0 + k) * bs)
                                         (m0 * bs)) as [_ [Hp _]].
      destruct (set_range_uptodate_keeps i zeroed ((first0 + k) * bs)
                                         (m0 * bs)) as [_ [_ Hi]].
      destruct (set_range_uptodate_keeps i zeroed ((first0 + k) * bs)
                                         (m0 * bs)) as [_ [Ho _]].
      cbn [cur_folio ctx_with_folio].
      split; [ exact Hi | ]. split; [ | split ].
      * rewrite Hp. change (read_pending zeroed) with (read_pending f1). lia.
      * intros j. unfold bytes_for. destruct (_ =? j); simpl;
          rewrite Z.add_0_r; reflexivity.
      * split; [ lia | ]. split; [ exact Hal | ]. split; [ exact Hin | ].
        cbn [Z.ltb Z.compare cur_folio_in_bio rac]. rewrite orb_false_r.
        split; [ rewrite Ho; reflexivity | ].
        split; [ rewrite set_range_uptodate_locked; reflexivity | ].
        split; [ reflexivity | ]. split; [ reflexivity | ].
        intros Hb; exact Hb.
    + (* a read is issued for the bytes *)
      rewrite (s32_small (read_bytes_pending p1 + m0 * bs)) by lia.
      set (f2 := folio_with_private
                   f1 (Some (iop_with_read_pending
                               p1 (read_bytes_pending p1 + m0 * bs)))).
      assert (Hrp2 : read_pending f2 = read_pending (cur_folio c) + m0 * bs).
      { rewrite <- Hp1. reflexivity. }
      cbn [ctx_bio cur_folio rac submitted].
      set (c1 := mk_ctx f2 true (ctx_bio c) (rac c) (submitted c)).
      assert (Hc1b : forall j, ctx_bytes_in j c1 = ctx_bytes_in j c)
        by reflexivity.
      assert (Hfresh :
        exists c',
          ctx_bio_add_page
            (readpage_new_bio BIO_MAX_PAGES bio_alloc_succeeds length c1 m
                              (iomap_sector m (pos + k * bs)))
            (m0 * bs) ((first0 + k) * bs) = c'
          /\ cur_folio c' = f2 /\ cur_folio_in_bio c' = true
          /\ rac c' = rac c
          /\ (bios_positive (ctx_bios c) -> bios_positive (ctx_bios c'))
          /\ forall j, ctx_bytes_in j c'
                       = ctx_bytes_in j c
                         + bytes_for j (index (cur_folio c)) (m0 * bs)).
      { eexists. split; [ reflexivity | ].
        destruct (fresh_bio_takes length c1 m
                    (iomap_sector m (pos + k * bs)) (m0 * bs)
                    ((first0 + k) * bs) 0 ltac:(lia) ltac:(lia))
          as [_ [Hcf Hib]].
        split; [ exact Hcf | ]. split; [ exact Hib | ].
        split; [ reflexivity | ].
        split.
        { intros Hb. unfold ctx_bio_add_page, readpage_new_bio.
          cbn [ctx_bio cur_folio cur_folio_in_bio rac submitted c1].
          unfold ctx_bios. cbn [ctx_bio submitted].
          unfold bios_positive, ctx_bios in *.
          apply Forall_app. split.
          - destruct (ctx_bio c); [ exact Hb | ].
            rewrite app_nil_r in Hb. exact Hb.
          - constructor; [ | constructor ].
            apply bio_add_positive; [ lia | constructor ]. }
        intros j.
        destruct (fresh_bio_takes length c1 m
                    (iomap_sector m (pos + k * bs)) (m0 * bs)
                    ((first0 + k) * bs) j ltac:(lia) ltac:(lia))
          as [Hb _].
        rewrite Hb, Hc1b. reflexivity. }
      destruct Hfresh as [cf [Hcf [Hff [Hfib [Hfrac [Hfpos Hfb']]]]]].
      assert (Hmpos : 0 < m0 * bs) by lia.
      assert (Hdone : forall c',
        cur_folio c' = f2 -> cur_folio_in_bio c' = true -> rac c' = rac c ->
        (bios_positive (ctx_bios c) -> bios_positive (ctx_bios c')) ->
        (forall j, ctx_bytes_in j c'
                   = ctx_bytes_in j c
                     + bytes_for j (index (cur_folio c)) (m0 * bs)) ->
        exists ret c'' added,
          Some ((k + m0) * bs, c') = Some (ret, c'')
          /\ 0 < ret <= length
          /\ 0 <= added <= folio_size (cur_folio c)
          /\ index (cur_folio c'') = index (cur_folio c)
          /\ read_pending (cur_folio c'')
             = read_pending (cur_folio c) + added
          /\ (forall j, ctx_bytes_in j c''
                        = ctx_bytes_in j c
                          + bytes_for j (index (cur_folio c)) added)
          /\ added <= ret /\ block_aligned i ret
          /\ offset_in_folio (cur_folio c) pos + ret
             <= folio_size (cur_folio c)
          /\ order (cur_folio c'') = order (cur_folio c)
          /\ PG_locked (cur_folio c'') = PG_locked (cur_folio c)
          /\ cur_folio_in_bio c'' = cur_folio_in_bio c || (0 <? added)
          /\ rac c'' = rac c
          /\ (bios_positive (ctx_bios c) -> bios_positive (ctx_bios c''))).
      { intros c' H1 H2 H3 H5 H4. exists ((k + m0) * bs), c', (m0 * bs).
        split; [ reflexivity | ]. split; [ lia | ]. split; [ lia | ].
        rewrite H1, H2, H3.
        split; [ reflexivity | ]. split; [ exact Hrp2 | ].
        split; [ exact H4 | ].
        split; [ exact Hkadd | ]. split; [ exact Hal | ].
        split; [ exact Hin | ].
        replace (0 <? m0 * bs) with true by (symmetry; apply Z.ltb_lt; lia).
        rewrite orb_true_r. repeat split; try reflexivity. exact H5. }
      rewrite Hcf.
      destruct (ctx_bio c) as [b |] eqn:Hbio.
      * destruct (bio_end_sector b =? iomap_sector m (pos + k * bs)).
        -- destruct (__bio_try_merge_page b (index f2) (m0 * bs)
                                          ((first0 + k) * bs))
             as [b' |] eqn:Hmerge.
           ++ apply Hdone; [ reflexivity | reflexivity | reflexivity | | ].
              { intros Hb. unfold bios_positive, ctx_bios in *.
                cbn [ctx_bio submitted]. rewrite Hbio in Hb.
                apply Forall_app in Hb. destruct Hb as [Hb1 Hb2].
                apply Forall_app. split; [ exact Hb1 | ].
                inversion Hb2 as [| ? ? Hbb _]; subst.
                constructor; [ | constructor ].
                apply (try_merge_positive _ _ _ _ _ Hmpos Hbb Hmerge). }
              intros j. rewrite !ctx_bytes_in_eq.
              cbn [ctx_bio submitted]. rewrite Hbio.
              destruct (try_merge_page_spec _ _ _ _ _ Hmerge)
                as [_ [_ [S3 _]]].
              unfold bio_bytes_in. rewrite S3.
              change (index f2) with (index (cur_folio c)). lia.
           ++ destruct (bio_full b (m0 * bs)) eqn:Hfull.
              ** apply Hdone; assumption.
              ** apply Hdone;
                   [ unfold ctx_bio_add_page; cbn [ctx_bio c1];
                     rewrite ?Hbio; reflexivity ..
                   | | ].
                 { intros Hb. unfold ctx_bio_add_page.
                   cbn [ctx_bio c1]. rewrite ?Hbio.
                   unfold bios_positive, ctx_bios in *.
                   cbn [ctx_bio submitted]. rewrite ?Hbio in Hb.
                   apply Forall_app in Hb. destruct Hb as [Hb1 Hb2].
                   apply Forall_app. split; [ exact Hb1 | ].
                   inversion Hb2 as [| ? ? Hbb _]; subst.
                   constructor; [ | constructor ].
                   apply bio_add_positive; [ exact Hmpos | exact Hbb ]. }
                 intros j. unfold ctx_bio_add_page.
                 cbn [ctx_bio c1 cur_folio cur_folio_in_bio rac submitted].
                 rewrite !ctx_bytes_in_eq.
                 cbn [ctx_bio submitted]. rewrite Hbio.
                 destruct (bio_add_page_spec b (index f2) (m0 * bs)
                             ((first0 + k) * bs) Hmerge Hfull)
                   as [_ [_ [S3 _]]].
                 unfold bio_bytes_in. rewrite S3.
                 change (index f2) with (index (cur_folio c)). lia.
        -- apply Hdone; assumption.
      * apply Hdone; assumption.
Qed.

End ReadAccounting.

(** X22: every call of the read actor on a folio with a sub-block
    record makes progress (it returns a positive byte count that does not
    exceed the length it was given), and whenever it counts bytes in the
    folio's read-pending count it queues as many bytes of that folio, and
    of no other, in the requests of the read context. *)
Theorem read_actor_accounting NEW BMP bas i pos length c m :
  0 < BMP ->
  blocks_in_folio i (cur_folio c) ->
  1 < i_blocks_per_folio i (cur_folio c) ->
  0 <= pos -> 0 < length <= 2 ^ 31 -> pos + length < 2 ^ 63 ->
  block_aligned i pos -> block_aligned i length ->
  0 <= i_size i < 2 ^ 63 ->
  type m <> IOMAP_INLINE ->
  0 <= read_pending (cur_folio c) ->
  read_pending (cur_folio c) + folio_size (cur_folio c) < 2 ^ 31 ->
  exists ret c',
    iomap_readpage_actor NEW BMP bas i pos length c m = Some (ret, c')
    /\ 0 < ret <= length
    /\ read_pending (cur_folio c') - read_pending (cur_folio c)
       = ctx_bytes_in (index (cur_folio c)) c'
         - ctx_bytes_in (index (cur_folio c)) c
    /\ forall k, k <> index (cur_folio c) ->
                 ctx_bytes_in k c' = ctx_bytes_in k c.
Proof.
  intros HB Hgeo Hn Hpos Hlen Hend Hapos Halen Hisize Hty Hrp Hrpmax.
  destruct (read_actor_core NEW BMP bas HB i pos length c m Hgeo Hn Hpos
              Hlen Hend Hapos Halen Hisize Hty Hrp Hrpmax)
    as [ret [c' [added [Ha [Hret [_ [_ [Hp [Hb _]]]]]]]]].
  exists ret, c'. split; [ exact Ha | ]. split; [ exact Hret | ]. split.
  - rewrite Hp, Hb. unfold bytes_for. rewrite Z.eqb_refl. lia.
  - intros k Hk. rewrite Hb. unfold bytes_for.
    replace (index (cur_folio c) =? k) with false
      by (symmetry; apply Z.eqb_neq; lia).
    lia.
Qed.

Lemma read_actor_accounting_witness :
  let i := mk_inode 8192 9 in
  let f := mk_folio 0 0 true false false false false
                    (Some (mk_iop 0 0 1)) (repeat x00 4096) in
  let c := mk_ctx f false None false [] in
  let m := mk_iomap 0 0 8192 IOMAP_MAPPED 0 1 [] 0 false in
  exists ret c',
    iomap_readpage_actor 4 16 true i 0 4096 c m = Some (ret, c')
    /\ 0 < ret <= 4096
    /\ read_pending (cur_folio c') - read_pending (cur_folio c)
       = ctx_bytes_in (index (cur_folio c)) c'
         - ctx_bytes_in (index (cur_folio c)) c
    /\ forall k, k <> index (cur_folio c) ->
                 ctx_bytes_in k c' = ctx_bytes_in k c.
Proof.
  intros i f c m.
  apply (read_actor_accounting 4 16 true i 0 4096 c m);
    try reflexivity; cbv; repeat split; try reflexivity; discriminate.
Defined.

Section SingleExtentRead.

Variable IOMAP_F_NEW : Z.
Variable BIO_MAX_PAGES : Z.
Variable bio_alloc_succeeds : bool.

Hypothesis BMP_pos : 0 < BIO_MAX_PAGES.

Variable i : inode.
Variable f : folio.
Variable m : iomap.

Hypothesis Hgeo : blocks_in_folio i f.
Hypothesis Hblocks : 1 < i_blocks_per_folio i f.
Hypothesis Hsize : folio_size f < 2 ^ 31.
Hypothesis Hfresh : to_iomap_page f = None.
Hypothesis Hnotup : FolioUptodate f = false.
Hypothesis Hnoerr : FolioError f = false.
Hypothesis Hindex : 0 <= index f < 2 ^ 51.
Hypothesis Halign : index f mod folio_nr_pages f = 0.
Hypothesis Hmapped : type m = IOMAP_MAPPED.
Hypothesis Hold : Z.land (flags m) IOMAP_F_NEW = 0.
Hypothesis Hbelow : folio_offset f + folio_size f <= i_size i < 2 ^ 63.

Let bs := 2 ^ i_blkbits i.
Let N := i_blocks_per_folio i f.
Let f2 := folio_with_private f (Some (mk_iop (folio_size f) 0 0)).
Let cap :=
  if bio_alloc_succeeds
  then Z.min BIO_MAX_PAGES
             (s32 (Z.shiftr (u64 (folio_size f + PAGE_SIZE - 1)) PAGE_SHIFT))
  else 1.
Let b1 :=
  mk_bio (bdev m) (iomap_sector m (folio_offset f)) (folio_size f) cap false
         [mk_bvec (index f) 0 (folio_size f)].

Lemma folio_blocks_N :
  0 < bs /\ 1 < N /\ folio_size f = N * bs /\ 4096 <= folio_size f.
Proof.
  destruct (folio_blocks i f Hgeo) as [n [Hn [HFS [HFSmax Hbs]]]].
  destruct Hgeo as [Hord Hbits].
  pose proof (folio_size_bounds f Hord).
  assert (HN : N = n).
  { unfold N, i_blocks_per_folio. rewrite Z.shiftr_div_pow2 by lia.
    rewrite HFS, Z.div_mul by lia. apply u32_small.
    assert (n <= n * 2 ^ i_blkbits i) by nia. lia. }
  unfold bs. rewrite HN. pose proof Hblocks as Hb. fold N in Hb. lia.
Qed.

Lemma folio_offset_val : folio_offset f = index f * 4096.
Proof.
  unfold folio_offset, PAGE_SHIFT. rewrite Z.shiftl_mul_pow2 by lia.
  change (2 ^ 12) with 4096. apply s64_small. lia.
Qed.

Lemma offset_at_start : offset_in_folio f (folio_offset f) = 0.
Proof.
  destruct Hgeo as [Hord Hbits].
  rewrite offset_in_folio_mod by lia. rewrite folio_offset_val.
  rewrite u64_small by lia.
  rewrite folio_size_pages by lia.
  apply Z.mod_divide in Halign;
    [ | pose proof (folio_nr_pages_pos f ltac:(lia)); lia ].
  destruct Halign as [q Hq]. rewrite Hq.
  replace (q * folio_nr_pages f * 4096) with (q * (folio_nr_pages f * 4096))
    by ring.
  apply Z.mod_mul. pose proof (folio_nr_pages_pos f ltac:(lia)). lia.
Qed.

Lemma aligned_start : block_aligned i (folio_offset f).
Proof.
  destruct folio_blocks_N as [Hbs [HN [HFS _]]].
  destruct Hgeo as [Hord Hbits].
  unfold block_aligned. fold bs.
  rewrite folio_offset_val.
  apply Z.mod_divide in Halign;
    [ | pose proof (folio_nr_pages_pos f ltac:(lia)); lia ].
  destruct Halign as [q Hq]. rewrite Hq.
  replace (q * folio_nr_pages f * 4096) with (q * folio_size f)
    by (rewrite folio_size_pages by lia; ring).
  rewrite HFS. replace (q * (N * bs)) with (q * N * bs) by ring.
  apply Z.mod_mul. lia.
Qed.

Lemma aligned_size : block_aligned i (folio_size f).
Proof.
  destruct folio_blocks_N as [Hbs [HN [HFS _]]].
  unfold block_aligned. fold bs. rewrite HFS. apply Z.mod_mul. lia.
Qed.

(** The read actor on the whole folio: one request for all its bytes. *)
Lemma actor_whole_folio :
  iomap_readpage_actor IOMAP_F_NEW BIO_MAX_PAGES bio_alloc_succeeds i
                       (folio_offset f) (folio_size f)
                       (mk_ctx f false None false []) m
  = Some (folio_size f, mk_ctx f2 true (Some b1) false []).
Proof.
  destruct folio_blocks_N as [Hbs [HN [HFS HFS4]]].
  pose proof Hgeo as [Hord Hbits].
  pose proof folio_offset_val as Hfo.
  unfold iomap_readpage_actor. cbn [cur_folio].
  unfold iomap_page_create. rewrite Hfresh, Hnotup.
  replace (i_blocks_per_folio i f <=? 1) with false
    by (symmetry; apply Z.leb_gt; exact Hblocks).
  set (f1 := folio_with_private f (Some (mk_iop 0 0 0))).
  rewrite Hmapped. cbn [iomap_type_eqb].
  assert (Hgeo1 : blocks_in_folio i f1) by exact Hgeo.
  destruct (adjust_read_range_blocks i f1 (folio_offset f) (folio_size f)
              Hgeo1 ltac:(lia) ltac:(lia) ltac:(lia)
              aligned_start aligned_size ltac:(lia))
    as [first0 [c0 [k [m0 [[Hf0 [Hc1 [Hk0 [Hm0 Hkm]]]]
         [Hfit [Hoff [Hmin [Hadj [Hmz [Hiop _]]]]]]]]]]].
  change (folio_size f1) with (folio_size f) in *.
  change (offset_in_folio f1 (folio_offset f))
    with (offset_in_folio f (folio_offset f)) in Hoff.
  fold bs in Hfit, Hoff, Hmin, Hadj.
  rewrite offset_at_start in Hoff.
  assert (Hfirst : first0 = 0).
  { symmetry in Hoff. apply Z.mul_eq_0 in Hoff. lia. }
  subst first0. rewrite Z.mul_0_l, Z.sub_0_r, Z.min_id in Hmin.
  assert (Hc0 : c0 = N).
  { apply (Z.mul_cancel_r _ _ bs); lia. }
  subst c0.
  destruct (Hiop (mk_iop 0 0 0) eq_refl) as [Hlead [_ Hnext]].
  assert (Hk : k = 0).
  { destruct (Z.eq_dec k 0) as [E | E]; [ exact E | ].
    specialize (Hlead 0 ltac:(lia)). discriminate Hlead. }
  subst k. rewrite Z.add_0_l in *.
  assert (Hm : m0 = N).
  { destruct (Z.eq_dec m0 N) as [E | E]; [ exact E | ].
    destruct (Hnext ltac:(lia)) as [Hb | [[_ Hst] _]].
    - unfold test_bit in Hb. cbn [uptodate] in Hb.
      rewrite Z.testbit_0_l in Hb. discriminate Hb.
    - lia. }
  subst m0.
  rewrite Hadj. rewrite Z.mul_0_l, Z.add_0_r. rewrite <- HFS.
  replace (folio_offset f - folio_offset f + folio_size f)
    with (folio_size f) by ring.
  rewrite (s64_small (folio_size f)) by lia.
  replace (folio_size f =? 0) with false by (symmetry; apply Z.eqb_neq; lia).
  replace (iomap_block_needs_zeroing IOMAP_F_NEW i m (folio_offset f))
    with false.
  2:{ symmetry. unfold iomap_block_needs_zeroing, i_size_read.
      rewrite Hmapped, Hold. cbn [iomap_type_eqb negb Z.eqb orb].
      apply Z.leb_gt. lia. }
  cbn [read_bytes_pending Z.add ctx_bio rac submitted].
  rewrite (s32_small (folio_size f)) by lia.
  unfold ctx_bio_add_page, readpage_new_bio.
  cbn [ctx_bio cur_folio cur_folio_in_bio rac submitted].
  fold cap.
  assert (Hcap : 1 <= cap).
  { unfold cap. destruct bio_alloc_succeeds; [ | lia ].
    assert (1 <= s32 (Z.shiftr (u64 (folio_size f + PAGE_SIZE - 1))
                               PAGE_SHIFT)); [ | lia ].
    change PAGE_SIZE with 4096. unfold PAGE_SHIFT.
    rewrite u64_small by lia. rewrite Z.shiftr_div_pow2 by lia.
    change (2 ^ 12) with 4096.
    assert (1 <= (folio_size f + 4096 - 1) / 4096)
      by (apply Z.div_le_lower_bound; lia).
    assert ((folio_size f + 4096 - 1) / 4096 < 2 ^ 20)
      by (apply Z.div_lt_upper_bound; lia).
    rewrite s32_small by lia. lia. }
  unfold bio_add_page.
  replace (__bio_try_merge_page _ _ _ _) with (@None bio) by reflexivity.
  replace (bio_full _ (folio_size f)) with false.
  2:{ symmetry. unfold bio_full.
      cbn [bi_max_vecs bi_io_vec bi_size List.length Z.of_nat].
      apply orb_false_iff. unfold UINT_MAX.
      split; [ apply Z.leb_gt | apply Z.ltb_ge ]; lia. }
  reflexivity.
Qed.

(** The page read: one call of the iterator, one request submitted. *)
Lemma readpage_single_extent :
  iomap_readpage
    (single_extent_apply IOMAP_F_NEW BIO_MAX_PAGES bio_alloc_succeeds m) i f
  = Some (0, mk_ctx f2 true (Some b1) false [b1]).
Proof.
  destruct folio_blocks_N as [Hbs [HN [HFS HFS4]]].
  pose proof folio_offset_val as Hfo.
  unfold iomap_readpage.
  destruct (Z.to_nat (folio_size f)) as [| n] eqn:Hfuel; [ lia | ].
  cbn [iomap_readpage_loop].
  replace (0 <? folio_size f) with true by (symmetry; apply Z.ltb_lt; lia).
  rewrite Z.add_0_r, Z.sub_0_r.
  rewrite (s64_small (folio_offset f)) by lia.
  rewrite (s64_small (folio_size f)) by lia.
  unfold single_extent_apply. rewrite actor_whole_folio.
  rewrite (s64_small (folio_size f)) by lia.
  replace (folio_size f <=? 0) with false by (symmetry; apply Z.leb_gt; lia).
  rewrite Z.add_0_l, (u64_small (folio_size f)) by lia.
  destruct n as [| n']; cbn [iomap_readpage_loop];
    rewrite Z.ltb_irrefl; reflexivity.
Qed.

(** Successful completion of that request. *)
Lemma single_extent_completion pc :
  let g := iomap_read_end_io i (pc_set pc (index f) f2) b1 0 (index f) in
  FolioUptodate g = true /\ PG_locked g = false /\ read_pending g = 0
  /\ FolioError g = false /\ uptodate_consistent i g = true.
Proof.
  destruct folio_blocks_N as [Hbs [HN [HFS HFS4]]].
  pose proof Hgeo as [Hord Hbits].
  intros g.
  assert (Hg : g = iomap_finish_folio_read i f2 0 (folio_size f) 0).
  { unfold g. rewrite read_end_io_at, pc_set_same.
    unfold b1. cbn [bi_io_vec]. unfold segs_in. cbn [filter bv_page].
    rewrite Z.eqb_refl. reflexivity. }
  assert (Hc2 : uptodate_consistent i f2 = true).
  { unfold uptodate_consistent, f2. cbn [to_iomap_page private
      folio_with_private uptodate].
    change (i_blocks_per_folio i (folio_with_private f _)) with N.
    rewrite bitmap_full_empty by lia.
    change (FolioUptodate (folio_with_private f _)) with (FolioUptodate f).
    rewrite Hnotup. reflexivity. }
  pose proof (consistent_finish_folio_read i f2 0 (folio_size f) 0
                eq_refl Hc2) as Hcg.
  destruct (finish_folio_read_counter i f2 0 (folio_size f) 0
              (mk_iop (folio_size f) 0 0) eq_refl) as [p' [Hp' [Hcnt Hlock]]];
    [ cbn [read_bytes_pending]; lia | cbn [read_bytes_pending]; lia | ].
  cbn [read_bytes_pending] in Hcnt, Hlock.
  rewrite Z.eqb_refl in Hlock. cbn [negb] in Hlock.
  rewrite andb_false_r in Hlock.
  destruct (finish_folio_read_frame i f2 0 (folio_size f) 0)
    as [Hbm [Hup [Herr [Hordg [Hidx _]]]]].
  cbn [Z.eqb negb] in Hbm, Hup, Herr, Hordg, Hidx.
  assert (Hvalid : folio_range_valid i
                     (iomap_set_range_uptodate i f2 0 (folio_size f))
                     0 (folio_size f)).
  { apply set_range_uptodate_valid.
    - unfold geometry_ok. change (order f2) with (order f). lia.
    - unfold in_folio_range. cbn [fst snd].
      change (folio_size f2) with (folio_size f). lia.
    - exact Hnoerr. }
  rewrite <- Hg in *.
  assert (Hfull : bitmap_full (uptodate p') N = true).
  { apply bitmap_full_spec; [ lia | ]. intros b Hb.
    unfold folio_range_valid in Hvalid.
    unfold to_iomap_page in Hp'. rewrite Hp' in Hbm. cbn [option_map] in Hbm.
    destruct (to_iomap_page (iomap_set_range_uptodate i f2 0 (folio_size f)))
      as [q |] eqn:Hq.
    - unfold to_iomap_page in Hq. rewrite Hq in Hbm. cbn [option_map] in Hbm.
      injection Hbm as Hbm. rewrite Hbm. apply Hvalid.
      rewrite !shiftr_block by lia. rewrite Z.add_0_l. fold bs.
      rewrite HFS, div_pred_block by lia.
      rewrite Z.div_0_l by lia. lia.
    - unfold to_iomap_page in Hq. rewrite Hq in Hbm. discriminate Hbm. }
  assert (HNg : i_blocks_per_folio i g = N).
  { destruct (set_range_uptodate_frame i f2 0 (folio_size f))
      as [_ [_ Hof]].
    unfold N, i_blocks_per_folio, folio_size. rewrite Hordg, Hof.
    reflexivity. }
  assert (Hupg : FolioUptodate g = true).
  { unfold uptodate_consistent in Hcg. rewrite Hp', HNg, Hfull in Hcg.
    destruct (FolioUptodate g); [ reflexivity | discriminate Hcg ]. }
  split; [ exact Hupg | ].
  split; [ exact Hlock | ].
  split; [ unfold read_pending; rewrite Hp'; lia | ].
  split; [ | exact Hcg ].
  destruct (set_range_uptodate_keeps i f2 0 (folio_size f)) as [Hke _].
  unfold FolioError. rewrite Herr, Hke. exact Hnoerr.
Qed.

(** The page read and the completion of its request, together. *)
Lemma single_extent_core pc :
  exists c b,
    iomap_readpage (single_extent_apply IOMAP_F_NEW BIO_MAX_PAGES bio_alloc_succeeds m) i f = Some (0, c)
    /\ submitted c = [b]
    /\ bi_io_vec b = [mk_bvec (index f) 0 (folio_size f)]
    /\ bi_sector b = iomap_sector m (folio_offset f)
    /\ read_pending (cur_folio c) = folio_size f
    /\ PG_locked (cur_folio c) = PG_locked f
    /\ FolioUptodate
         (iomap_read_end_io i (pc_set pc (index f) (cur_folio c)) b 0
                            (index f)) = true
    /\ PG_locked
         (iomap_read_end_io i (pc_set pc (index f) (cur_folio c)) b 0
                            (index f)) = false
    /\ read_pending
         (iomap_read_end_io i (pc_set pc (index f) (cur_folio c)) b 0
                            (index f)) = 0
    /\ FolioError
         (iomap_read_end_io i (pc_set pc (index f) (cur_folio c)) b 0
                            (index f)) = false
    /\ uptodate_consistent i
         (iomap_read_end_io i (pc_set pc (index f) (cur_folio c)) b 0
                            (index f)) = true.
Proof.
  exists (mk_ctx f2 true (Some b1) false [b1]), b1.
  split; [ exact readpage_single_extent | ].
  cbn [submitted cur_folio].
  split; [ reflexivity | ].
  split; [ reflexivity | ].
  split; [ reflexivity | ].
  split; [ reflexivity | ].
  split; [ reflexivity | ].
  exact (single_extent_completion pc).
Qed.

End SingleExtentRead.

(** X23: reading a fresh folio of several blocks that lies inside the file
    and inside one mapped extent returns 0, attaches a record and submits
    exactly one request, for the whole folio at the extent's sector, with
    the folio's bytes counted as pending and its lock left alone; when that
    request completes without error the folio is uptodate, unlocked, free
    of the error flag, with nothing pending and its bitmap full. *)
Theorem readpage_single_extent_round_trip
    NEW BMP bas i f m pc :
  0 < BMP ->
  blocks_in_folio i f -> 1 < i_blocks_per_folio i f ->
  folio_size f < 2 ^ 31 ->
  to_iomap_page f = None -> FolioUptodate f = false ->
  FolioError f = false ->
  0 <= index f < 2 ^ 51 -> index f mod folio_nr_pages f = 0 ->
  type m = IOMAP_MAPPED -> Z.land (flags m) NEW = 0 ->
  folio_offset f + folio_size f <= i_size i < 2 ^ 63 ->
  exists c b,
    iomap_readpage (single_extent_apply NEW BMP bas m) i f = Some (0, c)
    /\ submitted c = [b]
    /\ bi_io_vec b = [mk_bvec (index f) 0 (folio_size f)]
    /\ bi_sector b = iomap_sector m (folio_offset f)
    /\ read_pending (cur_folio c) = folio_size f
    /\ PG_locked (cur_folio c) = PG_locked f
    /\ FolioUptodate
         (iomap_read_end_io i (pc_set pc (index f) (cur_folio c)) b 0
                            (index f)) = true
    /\ PG_locked
         (iomap_read_end_io i (pc_set pc (index f) (cur_folio c)) b 0
                            (index f)) = false
    /\ read_pending
         (iomap_read_end_io i (pc_set pc (index f) (cur_folio c)) b 0
                            (index f)) = 0
    /\ FolioError
         (iomap_read_end_io i (pc_set pc (index f) (cur_folio c)) b 0
                            (index f)) = false
    /\ uptodate_consistent i
         (iomap_read_end_io i (pc_set pc (index f) (cur_folio c)) b 0
                            (index f)) = true.
Proof.
  intros HBMP Hgeo Hblocks Hsize Hfresh Hnotup Hnoerr Hindex Halign Hmapped
         Hold Hbelow.
  apply single_extent_core; assumption.
Qed.

Lemma readpage_single_extent_round_trip_witness :
  exists c b,
    iomap_readpage
      (single_extent_apply 1 256 true
         (mk_iomap 1048576 0 65536 IOMAP_MAPPED 0 7 [] 0 false))
      (mk_inode 65536 10)
      (mk_folio 2 0 true false false false false None []) = Some (0, c)
    /\ submitted c = [b]
    /\ bi_io_vec b = [mk_bvec 2 0 4096]
    /\ FolioUptodate
         (iomap_read_end_io (mk_inode 65536 10)
            (pc_set (fun _ => mk_folio 0 0 false false false false false None [])
                    2 (cur_folio c)) b 0 2) = true.
Proof.
  destruct (readpage_single_extent_round_trip 1 256 true
              (mk_inode 65536 10)
              (mk_folio 2 0 true false false false false None [])
              (mk_iomap 1048576 0 65536 IOMAP_MAPPED 0 7 [] 0 false)
              (fun _ => mk_folio 0 0 false false false false false None []))
    as [c [b [H1 [H2 [H3 [_ [_ [_ [H4 _]]]]]]]]];
    [ cbv; repeat split; try reflexivity; discriminate .. | ].
  exists c, b.
  split; [ exact H1 | ]. split; [ exact H2 | ]. split; [ exact H3 | exact H4 ].
Defined.

Lemma write_bytes_length d s src :
  (List.length d <= List.length (write_bytes d s src))%nat.
Proof.
  unfold write_bytes. rewrite !length_app, length_firstn, length_skipn. lia.
Qed.

Lemma zero_user_segment_length d a b :
  (List.length d <= List.length (zero_user_segment d a b))%nat.
Proof.
  unfold zero_user_segment. destruct (a <? b); [ | lia ].
  apply write_bytes_length.
Qed.

Lemma zero_user_segments_length d a b c e :
  (List.length d <= List.length (zero_user_segments d a b c e))%nat.
Proof.
  unfold zero_user_segments.
  pose proof (zero_user_segment_length d a b).
  pose proof (zero_user_segment_length (zero_user_segment d a b) c e). lia.
Qed.

(** Zeroing a range leaves the bytes after it as they were. *)
Lemma zero_user_after d poff plen k :
  0 <= poff -> 0 < plen -> poff + plen <= Z.of_nat (List.length d) ->
  poff + plen <= k ->
  nth_error (zero_user d poff plen) (Z.to_nat k) = nth_error d (Z.to_nat k).
Proof.
  intros Hpoff Hplen Hlen Hk.
  unfold zero_user, zero_user_segments, zero_user_segment.
  destruct (Z.ltb_spec poff (poff + plen)); [ | lia ].
  change (0 <? 0) with false. cbv iota.
  unfold write_bytes.
  replace (poff + plen - poff) with plen by lia.
  assert (Hfirst : List.length (firstn (Z.to_nat poff) d) = Z.to_nat poff).
  { apply firstn_length_le. lia. }
  rewrite nth_error_app2 by lia. rewrite Hfirst.
  rewrite nth_error_app2 by (rewrite repeat_length; lia).
  rewrite repeat_length.
  rewrite nth_error_skipn. f_equal. lia.
Qed.

Lemma set_range_uptodate_data_index i f off len :
  data (iomap_set_range_uptodate i f off len) = data f
  /\ index (iomap_set_range_uptodate i f off len) = index f.
Proof.
  destruct (set_range_uptodate_frame i f off len) as [Hd _].
  destruct (set_range_uptodate_keeps i f off len) as [_ [_ Hi]].
  split; assumption.
Qed.

(** [__iomap_write_begin] keeps the folio's index and does not shorten its
    bytes. *)
Lemma write_begin_loop_frame NEW sbw i fl srcmap from to_ block_end :
  forall fuel f block_start st f',
    write_begin_loop NEW sbw fuel i fl f srcmap from to_ block_start block_end
    = Some (st, f') ->
    index f' = index f
    /\ (List.length (data f) <= List.length (data f'))%nat.
Proof.
  induction fuel as [| n IH]; intros f bstart st f' H;
    cbn [write_begin_loop] in H;
    destruct (iomap_adjust_read_range i f bstart (s64 (block_end - bstart)))
      as [[[bs1 poff] plen] |]; try discriminate H;
    (destruct (plen =? 0);
     [ injection H as <- <-; split; [ reflexivity | lia ] | ]).
  - (* no fuel left *)
    destruct (_ && _ && _).
    + destruct (s64 (bs1 + plen) <? block_end); [ discriminate H | ].
      injection H as <- <-. split; [ reflexivity | lia ].
    + destruct (iomap_block_needs_zeroing NEW i srcmap bs1).
      * destruct (negb _); [ injection H as <- <-; split; [ reflexivity | lia ] | ].
        destruct (s64 (bs1 + plen) <? block_end); [ discriminate H | ].
        injection H as <- <-.
        destruct (set_range_uptodate_data_index i
                    (folio_with_data f
                       (zero_user_segments (data f) poff from to_
                                           (u64 (poff + plen)))) poff plen)
          as [Hd Hi].
        rewrite Hd, Hi. split; [ reflexivity | ].
        apply zero_user_segments_length.
      * unfold iomap_read_folio_sync in H.
        destruct (sbw (bdev srcmap) (iomap_sector srcmap bs1) plen)
          as [status bytes].
        destruct (negb (status =? 0)).
        -- injection H as <- <-. split; [ reflexivity | ].
           apply write_bytes_length.
        -- destruct (s64 (bs1 + plen) <? block_end); [ discriminate H | ].
           injection H as <- <-.
           destruct (set_range_uptodate_data_index i
                       (folio_with_data f (write_bytes (data f) poff bytes))
                       poff plen) as [Hd Hi].
           rewrite Hd, Hi. split; [ reflexivity | ].
           apply write_bytes_length.
  - destruct (_ && _ && _).
    + destruct (s64 (bs1 + plen) <? block_end).
      * apply IH in H. exact H.
      * injection H as <- <-. split; [ reflexivity | lia ].
    + destruct (iomap_block_needs_zeroing NEW i srcmap bs1).
      * destruct (negb _); [ injection H as <- <-; split; [ reflexivity | lia ] | ].
        destruct (set_range_uptodate_data_index i
                    (folio_with_data f
                       (zero_user_segments (data f) poff from to_
                                           (u64 (poff + plen)))) poff plen)
          as [Hd Hi].
        pose proof (zero_user_segments_length (data f) poff from to_
                      (u64 (poff + plen))) as Hz.
        destruct (s64 (bs1 + plen) <? block_end).
        -- apply IH in H. rewrite Hd, Hi in H. cbn [data index folio_with_data] in H.
           destruct H as [H1 H2]. split; [ exact H1 | lia ].
        -- injection H as <- <-. rewrite Hd, Hi. split; [ reflexivity | exact Hz ].
      * unfold iomap_read_folio_sync in H.
        destruct (sbw (bdev srcmap) (iomap_sector srcmap bs1) plen)
          as [status bytes].
        pose proof (write_bytes_length (data f) poff bytes) as Hz.
        destruct (negb (status =? 0)).
        -- injection H as <- <-. split; [ reflexivity | exact Hz ].
        -- destruct (set_range_uptodate_data_index i
                       (folio_with_data f (write_bytes (data f) poff bytes))
                       poff plen) as [Hd Hi].
           destruct (s64 (bs1 + plen) <? block_end).
           ++ apply IH in H. rewrite Hd, Hi in H.
              cbn [data index folio_with_data] in H.
              destruct H as [H1 H2]. split; [ exact H1 | lia ].
           ++ injection H as <- <-. rewrite Hd, Hi.
              split; [ reflexivity | exact Hz ].
Qed.

Lemma write_begin_frame NEW sbw i pos len fl f srcmap st f' :
  __iomap_write_begin NEW sbw i pos len fl f srcmap = Some (st, f') ->
  index f' = index f
  /\ (List.length (data f) <= List.length (data f'))%nat
  /\ (FolioUptodate f = true -> st = 0 /\ data f' = data f).
Proof.
  unfold __iomap_write_begin. intros H.
  destruct (iomap_page_create i f) as [r f1] eqn:Hpc.
  pose proof (page_create_frame i f) as Hfr. rewrite Hpc in Hfr.
  cbn [snd] in Hfr.
  assert (Hi1 : index f1 = index f /\ data f1 = data f
                /\ FolioUptodate f1 = FolioUptodate f).
  { unfold iomap_page_create in Hpc.
    destruct (to_iomap_page f); [ injection Hpc as <- <-; auto | ].
    destruct (i_blocks_per_folio i f <=? 1);
      [ injection Hpc as <- <-; auto | ].
    injection Hpc as <- <-. auto. }
  destruct Hi1 as [Hi1 [Hd1 Hu1]].
  destruct (FolioUptodate f1) eqn:Hup.
  - injection H as <- <-. rewrite Hi1, Hd1.
    split; [ reflexivity | ]. split; [ lia | ]. auto.
  - apply write_begin_loop_frame in H.
    cbn [index data ClearFolioError] in H. rewrite Hi1, Hd1 in H.
    destruct H as [H1 H2]. split; [ exact H1 | ]. split; [ exact H2 | ].
    intros Hf. rewrite Hf in Hu1. discriminate Hu1.
Qed.

Lemma offset_in_page_mod pos :
  0 <= pos < 2 ^ 62 -> offset_in_page pos = pos mod 4096.
Proof.
  intros H. unfold offset_in_page. rewrite u64_small by lia.
  change (PAGE_SIZE - 1) with (Z.ones 12).
  rewrite Z.land_ones by lia. reflexivity.
Qed.

(** A range that stays in the page of its first byte stays in the folio. *)
Lemma page_range_in_folio f pos n :
  0 <= order f <= 19 -> 0 <= pos < 2 ^ 62 ->
  n <= 4096 - pos mod 4096 ->
  offset_in_folio f pos + n <= folio_size f
  /\ offset_in_folio f pos mod 4096 = pos mod 4096.
Proof.
  intros Ho Hpos Hn.
  rewrite offset_in_folio_mod by lia. rewrite u64_small by lia.
  rewrite folio_size_pages by lia.
  pose proof (folio_nr_pages_pos f ltac:(lia)) as Hnr.
  set (P := folio_nr_pages f) in *.
  assert (Hmm : (pos mod (P * 4096)) mod 4096 = pos mod 4096).
  { apply Z.mod_mod_divide. exists P. reflexivity. }
  split; [ | exact Hmm ].
  pose proof (Z.mod_pos_bound pos (P * 4096) ltac:(lia)) as Hb.
  pose proof (Z.div_mod (pos mod (P * 4096)) 4096 ltac:(lia)) as Hdm.
  rewrite Hmm in Hdm.
  assert (Hq : (pos mod (P * 4096)) / 4096 < P)
    by (apply Z.div_lt_upper_bound; lia).
  lia.
Qed.

Lemma iomap_type_eqb_neq a b : a <> b -> iomap_type_eqb a b = false.
Proof. destruct a, b; intros H; try reflexivity; contradiction H; reflexivity. Qed.

Section ZeroCore.

Variable IOMAP_F_NEW : Z.
Variable IOMAP_F_BUFFER_HEAD : Z.
Variable IOMAP_F_SIZE_CHANGED : Z.
Variable submit_bio_wait : Z -> Z -> Z -> Z * list byte.
Variable block_write_end : Z -> Z -> Z -> folio -> Z * folio.
Variable __block_write_begin_int : Z -> Z -> folio -> iomap -> Z * folio.
Variable page_prepare : option (Z -> Z -> iomap -> Z).
Variable filemap_get_stable_folio : page_cache -> Z -> option folio.
Variable dax_iomap_zero : Z -> Z -> iomap -> Z.

Variable i : inode.
Variable pc : page_cache.
Variable pos len : Z.
Variable m : iomap.
Variable src : option iomap.
Variable f : folio.

Let srcmap := srcmap_of m src.
Let off := pos mod 4096.
Let bytes := Z.min (4096 - off) len.

Hypothesis Hprep : page_prepare = None.
Hypothesis Hget : filemap_get_stable_folio pc (pos / 4096) = Some f.
Hypothesis Hgeo : blocks_in_folio i f.
Hypothesis Hcons : uptodate_consistent i f = true.
Hypothesis Hisize : 0 <= i_size i < 2 ^ 63.
Hypothesis Hpos : 0 <= pos < 2 ^ 62.
Hypothesis Hlen : 0 < len < 2 ^ 63.
Hypothesis Hnotinline : type srcmap <> IOMAP_INLINE.
Hypothesis Hnobh : Z.land (flags m) IOMAP_F_BUFFER_HEAD = 0.
Hypothesis Hnobh_src : Z.land (flags srcmap) IOMAP_F_BUFFER_HEAD = 0.
Hypothesis Hextent : pos + bytes <= offset m + length m < 2 ^ 64.
Hypothesis Hextent_src : pos + bytes <= offset srcmap + length srcmap < 2 ^ 64.
Hypothesis Hdata : folio_size f <= Z.of_nat (List.length (data f)).

Lemma zero_bytes_bounds : 0 <= off < 4096 /\ 0 < bytes <= 4096 - off.
Proof.
  unfold bytes, off. pose proof (Z.mod_pos_bound pos 4096 ltac:(lia)). lia.
Qed.

Lemma zero_offset_val : u32 (offset_in_page pos) = off.
Proof.
  pose proof zero_bytes_bounds. rewrite offset_in_page_mod by exact Hpos.
  apply u32_small. fold off. lia.
Qed.

Lemma zero_bytes_val :
  u32 (Z.min (u64 (PAGE_SIZE - off)) (u64 len)) = bytes.
Proof.
  pose proof zero_bytes_bounds. change PAGE_SIZE with 4096.
  rewrite !u64_small by lia. apply u32_small. fold bytes. lia.
Qed.

(** The folio [iomap_zero] leaves when [__iomap_write_begin] gave [f1]. *)
Let zeroed_folio (f1 : folio) : folio :=
  unlock_folio
    (iomap_set_page_dirty
       (iomap_set_range_uptodate
          i (folio_with_data f1 (zero_user (data f1) off bytes))
          (offset_in_folio f pos) bytes)).

Lemma iomap_zero_core :
  exists st f1,
    __iomap_write_begin IOMAP_F_NEW submit_bio_wait i pos bytes 0 f srcmap
    = Some (st, f1)
    /\ (st <> 0 ->
        iomap_zero IOMAP_F_NEW IOMAP_F_BUFFER_HEAD IOMAP_F_SIZE_CHANGED
                   submit_bio_wait block_write_end __block_write_begin_int
                   false page_prepare filemap_get_stable_folio
                   i pc pos len m src
        = Some (st, i, pc_set pc (index f) (unlock_folio f1), m,
                [EvPutFolio] ++ iomap_write_failed i pos bytes
                ++ if page_done m then [EvPageDone pos 0] else []))
    /\ (st = 0 ->
        exists i' m' ev,
          iomap_zero IOMAP_F_NEW IOMAP_F_BUFFER_HEAD IOMAP_F_SIZE_CHANGED
                     submit_bio_wait block_write_end __block_write_begin_int
                     false page_prepare filemap_get_stable_folio
                     i pc pos len m src
          = Some (bytes, i', pc_set pc (index f) (zeroed_folio f1), m', ev)
          /\ i_size i' = Z.max (i_size i) (pos + bytes)
          /\ i_blkbits i' = i_blkbits i
          /\ order (zeroed_folio f1) = order f
          /\ PG_dirty (zeroed_folio f1) = true
          /\ PG_locked (zeroed_folio f1) = false
          /\ zero_filled (zeroed_folio f1) off bytes
          /\ (forall b,
                block_written i (offset_in_folio f pos)
                              (offset_in_folio f pos + bytes) b ->
                block_valid (zeroed_folio f1) b)
          /\ (FolioUptodate f = true ->
              forall k, off + bytes <= k ->
                nth_error (data (zeroed_folio f1)) (Z.to_nat k)
                = nth_error (data f) (Z.to_nat k))).
Proof.
  pose proof zero_bytes_bounds as [Hoff Hbytes].
  pose proof Hgeo as [Hord Hbits].
  destruct (page_range_in_folio f pos bytes Hord Hpos ltac:(fold off; lia))
    as [Hfit _].
  pose proof (folio_size_bounds f Hord) as HFS.
  pose proof (offset_in_folio_range f pos ltac:(lia)) as Hofr.
  destruct (write_begin_core IOMAP_F_NEW submit_bio_wait i pos bytes 0 f
              srcmap Hgeo Hcons Hisize Hpos ltac:(lia) Hfit)
    as [st [f1 [Hwb Hpost]]].
  destruct (write_begin_frame _ _ _ _ _ _ _ _ _ _ Hwb) as [Hidx [Hdl Hupd]].
  exists st, f1. split; [ exact Hwb | ].
  assert (Hbegin :
            iomap_write_begin IOMAP_F_NEW IOMAP_F_BUFFER_HEAD submit_bio_wait
              __block_write_begin_int false page_prepare
              filemap_get_stable_folio i pc pos bytes 0 m srcmap
            = if negb (st =? 0)
              then Some (st, pc_set pc (index f1) (unlock_folio f1), None,
                         [EvPutFolio] ++ iomap_write_failed i pos bytes
                         ++ if page_done m then [EvPageDone pos 0] else [])
              else Some (0, pc, Some f1, [])).
  { unfold iomap_write_begin.
    replace (u64 (offset m + length m) <? u64 (pos + bytes)) with false
      by (symmetry; rewrite !u64_small by lia; apply Z.ltb_ge; lia).
    replace (u64 (offset srcmap + length srcmap) <? u64 (pos + bytes))
      with false
      by (symmetry; rewrite !u64_small by lia; apply Z.ltb_ge; lia).
    rewrite Hprep. cbn [Z.eqb negb].
    assert (Hpage : u64 (Z.shiftr pos PAGE_SHIFT) = pos / 4096).
    { unfold PAGE_SHIFT. rewrite Z.shiftr_div_pow2 by lia.
      change (2 ^ 12) with 4096.
      assert (0 <= pos / 4096) by (apply Z.div_pos; lia).
      assert (pos / 4096 <= pos)
        by (apply Z.div_le_upper_bound; lia).
      apply u64_small. lia. }
    rewrite Hpage, Hget.
    rewrite (iomap_type_eqb_neq _ _ Hnotinline).
    rewrite Hnobh. cbn [Z.eqb negb].
    rewrite Hwb. reflexivity. }
  split.
  - intros Hst. unfold iomap_zero.
    rewrite zero_offset_val, zero_bytes_val. fold srcmap. rewrite Hbegin.
    assert (Hneg : negb (st =? 0) = true)
      by (apply negb_true_iff, Z.eqb_neq; exact Hst).
    rewrite Hneg. cbv iota. rewrite Hneg, Hidx. reflexivity.
  - intros Hst. subst st.
    destruct (Hpost eq_refl) as [_ [Ho Hv]].
    cbn [Z.eqb negb] in Hbegin.
    set (z := folio_with_data f1 (zero_user (data f1) off bytes)).
    assert (Hoz : offset_in_folio z pos = offset_in_folio f pos).
    { unfold offset_in_folio, folio_size. cbn [z order folio_with_data].
      now rewrite Ho. }
    assert (Hend :
              __iomap_write_end i pos bytes bytes z
              = (bytes,
                 iomap_set_page_dirty
                   (iomap_set_range_uptodate i z (offset_in_folio f pos)
                                             bytes))).
    { unfold __iomap_write_end. rewrite Z.ltb_irrefl. cbn [andb].
      now rewrite Hoz. }
    eexists. eexists. eexists.
    split.
    { unfold iomap_zero.
      rewrite zero_offset_val, zero_bytes_val. fold srcmap. rewrite Hbegin.
      cbn [Z.eqb negb]. fold z.
      unfold iomap_write_end.
      rewrite (iomap_type_eqb_neq _ _ Hnotinline).
      rewrite Hnobh_src. cbn [Z.eqb negb]. rewrite Hend.
      cbv zeta. cbn [index unlock_folio iomap_set_page_dirty].
      destruct (set_range_uptodate_data_index i z (offset_in_folio f pos)
                                              bytes) as [_ Hiz].
      rewrite Hiz. cbn [z index folio_with_data]. rewrite Hidx.
      rewrite (s64_small bytes) by lia.
      unfold zeroed_folio. fold z. reflexivity. }
    rewrite !u64_small by lia.
    split.
    { destruct (Z.ltb_spec (i_size i) (pos + bytes)) as [Hg | Hg];
        cbn [i_size]; [ rewrite s64_small by lia | ]; lia. }
    split.
    { destruct (i_size i <? pos + bytes); reflexivity. }
    destruct (set_range_uptodate_frame i z (offset_in_folio f pos) bytes)
      as [Hdz [_ Hordz]].
    split.
    { unfold zeroed_folio. fold z.
      cbn [order unlock_folio iomap_set_page_dirty]. rewrite Hordz.
      exact Ho. }
    split; [ reflexivity | ]. split; [ reflexivity | ].
    assert (Hlen1 : off + bytes <= Z.of_nat (List.length (data f1))) by lia.
    split.
    { intros k Hk. unfold zeroed_folio. fold z.
      cbn [data unlock_folio iomap_set_page_dirty]. rewrite Hdz.
      cbn [z data folio_with_data].
      apply zero_user_zeroes; lia. }
    split.
    { intros b Hb. unfold zeroed_folio. fold z.
      apply (block_valid_same
               (iomap_set_range_uptodate i z (offset_in_folio f pos) bytes));
        [ reflexivity | reflexivity | ].
      destruct Hv as [He | Hall].
      - apply set_range_valid_blocks; [ | | exact He | exact Hb ].
        + unfold geometry_ok. cbn [z order folio_with_data]. rewrite Ho. lia.
        + unfold in_folio_range, folio_size. cbn [fst snd z order
            folio_with_data]. rewrite Ho. fold (folio_size f). lia.
      - apply block_valid_set_range.
        apply (block_valid_same f1); [ reflexivity | reflexivity | ].
        now apply Hall. }
    intros Hup k Hk. destruct (Hupd Hup) as [_ Hd1].
    unfold zeroed_folio. fold z.
    cbn [data unlock_folio iomap_set_page_dirty]. rewrite Hdz.
    cbn [z data folio_with_data]. rewrite <- Hd1.
    apply zero_user_after; lia.
Qed.

End ZeroCore.

(** X24: [iomap_zero] works on the part of the range that lies in the page
    of its first byte.  When [__iomap_write_begin] fails, its status is
    returned and the folio is unlocked; otherwise the number of bytes of
    that part is returned, the folio is left dirty and unlocked, the blocks
    of the folio that hold the range are valid, the file size is raised to
    the end of the range when it was smaller, and the bytes zeroed are
    those at the page offset of the position, counted from the start of
    the folio. *)
Theorem iomap_zero_zeroes_page_range
    NEW BH SC sbw bwe bwbi prep get i pc pos len m src f :
  prep = None ->
  get pc (pos / 4096) = Some f ->
  blocks_in_folio i f -> uptodate_consistent i f = true ->
  0 <= i_size i < 2 ^ 63 -> 0 <= pos < 2 ^ 62 -> 0 < len < 2 ^ 63 ->
  type (srcmap_of m src) <> IOMAP_INLINE ->
  Z.land (flags m) BH = 0 -> Z.land (flags (srcmap_of m src)) BH = 0 ->
  pos + Z.min (4096 - pos mod 4096) len <= offset m + length m < 2 ^ 64 ->
  pos + Z.min (4096 - pos mod 4096) len
  <= offset (srcmap_of m src) + length (srcmap_of m src) < 2 ^ 64 ->
  folio_size f <= Z.of_nat (List.length (data f)) ->
  exists st f1,
    __iomap_write_begin NEW sbw i pos (Z.min (4096 - pos mod 4096) len) 0 f
                        (srcmap_of m src) = Some (st, f1)
    /\ (st <> 0 ->
        exists ev,
          iomap_zero NEW BH SC sbw bwe bwbi false prep get i pc pos len m src
          = Some (st, i, pc_set pc (index f) (unlock_folio f1), m, ev))
    /\ (st = 0 ->
        exists i' g m' ev,
          iomap_zero NEW BH SC sbw bwe bwbi false prep get i pc pos len m src
          = Some (Z.min (4096 - pos mod 4096) len, i',
                  pc_set pc (index f) g, m', ev)
          /\ i_size i'
             = Z.max (i_size i) (pos + Z.min (4096 - pos mod 4096) len)
          /\ PG_dirty g = true /\ PG_locked g = false
          /\ zero_filled g (pos mod 4096) (Z.min (4096 - pos mod 4096) len)
          /\ forall b,
               block_written i (offset_in_folio f pos)
                 (offset_in_folio f pos + Z.min (4096 - pos mod 4096) len) b ->
               block_valid g b).
Proof.
  intros Hprep Hget Hgeo Hcons Hisize Hpos Hlen Hni Hbh Hbhs Hext Hexts Hdata.
  destruct (iomap_zero_core NEW BH SC sbw bwe bwbi prep get i pc pos len m
              src f Hprep Hget Hgeo Hcons Hisize Hpos Hlen Hni Hbh Hbhs Hext
              Hexts Hdata) as [st [f1 [Hwb [Hfail Hok]]]].
  exists st, f1. split; [ exact Hwb | ]. split.
  - intros Hst. eexists. exact (Hfail Hst).
  - intros Hst.
    destruct (Hok Hst)
      as [i' [m' [ev [Hz [Hsz [_ [_ [Hd [Hl [Hzf [Hbv _]]]]]]]]]]].
    exists i'. eexists. exists m', ev.
    split; [ exact Hz | ]. split; [ exact Hsz | ].
    split; [ exact Hd | ]. split; [ exact Hl | ].
    split; [ exact Hzf | exact Hbv ].
Qed.

Lemma iomap_zero_zeroes_page_range_witness :
  exists st f1,
    __iomap_write_begin 4 (fun _ _ _ => (0, [])) (mk_inode 8192 9) 100
      (Z.min (4096 - 100 mod 4096) 600) 0
      (mk_folio 0 0 true false false false false None (repeat x01 4096))
      (srcmap_of (mk_iomap 0 0 8192 IOMAP_MAPPED 0 0 [] 0 false) None)
    = Some (st, f1)
    /\ (st = 0 ->
        exists i' g m' ev,
          iomap_zero 4 8 16 (fun _ _ _ => (0, []))
            (fun _ _ _ f => (0, f)) (fun _ _ f _ => (0, f)) false None
            (fun _ _ =>
               Some (mk_folio 0 0 true false false false false None
                              (repeat x01 4096)))
            (mk_inode 8192 9)
            (fun _ => mk_folio 0 0 false false false false false None [])
            100 600 (mk_iomap 0 0 8192 IOMAP_MAPPED 0 0 [] 0 false) None
          = Some (Z.min (4096 - 100 mod 4096) 600, i',
                  pc_set
                    (fun _ => mk_folio 0 0 false false false false false
                                       None [])
                    0 g, m', ev)
          /\ zero_filled g (100 mod 4096) (Z.min (4096 - 100 mod 4096) 600)).
Proof.
  destruct (iomap_zero_zeroes_page_range 4 8 16 (fun _ _ _ => (0, []))
              (fun _ _ _ f => (0, f)) (fun _ _ f _ => (0, f)) None
              (fun _ _ =>
                 Some (mk_folio 0 0 true false false false false None
                                (repeat x01 4096)))
              (mk_inode 8192 9)
              (fun _ => mk_folio 0 0 false false false false false None [])
              100 600 (mk_iomap 0 0 8192 IOMAP_MAPPED 0 0 [] 0 false) None
              (mk_folio 0 0 true false false false false None
                        (repeat x01 4096)))
    as [st [f1 [Hwb [_ Hok]]]];
    [ reflexivity | reflexivity
    | cbv; repeat split; try reflexivity; discriminate .. | ].
  exists st, f1. split; [ exact Hwb | ].
  intros Hst. destruct (Hok Hst) as [i' [g [m' [ev [Hz [_ [_ [_ [Hzf _]]]]]]]]].
  exists i', g, m', ev. split; [ exact Hz | exact Hzf ].
Defined.

(** X25: on an uptodate folio of several pages, for a position past the
    folio's first page, [iomap_zero] reports the bytes as zeroed and marks
    the folio dirty, but the bytes of the range it was asked to zero keep
    the values they had: the zeroing falls in the first page of the folio,
    at the same page offset. *)
Theorem iomap_zero_large_folio_misses_range
    NEW BH SC sbw bwe bwbi prep get i pc pos len m src f :
  prep = None ->
  get pc (pos / 4096) = Some f ->
  blocks_in_folio i f -> uptodate_consistent i f = true ->
  0 <= i_size i < 2 ^ 63 -> 0 <= pos < 2 ^ 62 -> 0 < len < 2 ^ 63 ->
  type (srcmap_of m src) <> IOMAP_INLINE ->
  Z.land (flags m) BH = 0 -> Z.land (flags (srcmap_of m src)) BH = 0 ->
  pos + Z.min (4096 - pos mod 4096) len <= offset m + length m < 2 ^ 64 ->
  pos + Z.min (4096 - pos mod 4096) len
  <= offset (srcmap_of m src) + length (srcmap_of m src) < 2 ^ 64 ->
  folio_size f <= Z.of_nat (List.length (data f)) ->
  FolioUptodate f = true ->
  4096 <= offset_in_folio f pos ->
  exists i' g m' ev,
    iomap_zero NEW BH SC sbw bwe bwbi false prep get i pc pos len m src
    = Some (Z.min (4096 - pos mod 4096) len, i', pc_set pc (index f) g,
            m', ev)
    /\ PG_dirty g = true
    /\ zero_filled g (pos mod 4096) (Z.min (4096 - pos mod 4096) len)
    /\ forall k,
         offset_in_folio f pos <= k ->
         nth_error (data g) (Z.to_nat k) = nth_error (data f) (Z.to_nat k).
Proof.
  intros Hprep Hget Hgeo Hcons Hisize Hpos Hlen Hni Hbh Hbhs Hext Hexts Hdata
         Hup Hpast.
  destruct (iomap_zero_core NEW BH SC sbw bwe bwbi prep get i pc pos len m
              src f Hprep Hget Hgeo Hcons Hisize Hpos Hlen Hni Hbh Hbhs Hext
              Hexts Hdata) as [st [f1 [Hwb [_ Hok]]]].
  destruct (write_begin_frame _ _ _ _ _ _ _ _ _ _ Hwb) as [_ [_ Hupd]].
  destruct (Hupd Hup) as [Hst _].
  destruct (Hok Hst)
    as [i' [m' [ev [Hz [_ [_ [_ [Hd [_ [Hzf [_ Hafter]]]]]]]]]]].
  exists i'. eexists. exists m', ev.
  split; [ exact Hz | ]. split; [ exact Hd | ]. split; [ exact Hzf | ].
  intros k Hk. apply (Hafter Hup).
  pose proof (Z.mod_pos_bound pos 4096 ltac:(lia)). lia.
Qed.

Lemma iomap_zero_large_folio_misses_range_witness :
  exists i' g m' ev,
    iomap_zero 4 8 16 (fun _ _ _ => (0, []))
      (fun _ _ _ f => (0, f)) (fun _ _ f _ => (0, f)) false None
      (fun _ _ =>
         Some (mk_folio 0 1 true false false false true None
                        (repeat x01 (Z.to_nat 8192))))
      (mk_inode 8192 12)
      (fun _ => mk_folio 0 0 false false false false false None [])
      4196 600 (mk_iomap 0 0 8192 IOMAP_MAPPED 0 0 [] 0 false) None
    = Some (Z.min (4096 - 4196 mod 4096) 600, i',
            pc_set
              (fun _ => mk_folio 0 0 false false false false false None [])
              0 g, m', ev)
    /\ zero_filled g (4196 mod 4096) (Z.min (4096 - 4196 mod 4096) 600)
    /\ nth_error (data g) (Z.to_nat 4196) = Some x01.
Proof.
  destruct (iomap_zero_large_folio_misses_range 4 8 16 (fun _ _ _ => (0, []))
              (fun _ _ _ f => (0, f)) (fun _ _ f _ => (0, f)) None
              (fun _ _ =>
                 Some (mk_folio 0 1 true false false false true None
                                (repeat x01 (Z.to_nat 8192))))
              (mk_inode 8192 12)
              (fun _ => mk_folio 0 0 false false false false false None [])
              4196 600 (mk_iomap 0 0 8192 IOMAP_MAPPED 0 0 [] 0 false) None
              (mk_folio 0 1 true false false false true None
                        (repeat x01 (Z.to_nat 8192))))
    as [i' [g [m' [ev [Hz [_ [Hzf Hkeep]]]]]]];
    [ reflexivity | reflexivity
    | cbv; repeat split; try reflexivity; discriminate .. | ].
  exists i', g, m', ev. split; [ exact Hz | ]. split; [ exact Hzf | ].
  rewrite (Hkeep 4196); [ reflexivity | cbv; discriminate ].
Defined.

(** The rest of the block of a position lies in the page of the position
    when blocks are no larger than pages. *)
Lemma block_tail_in_page bits pos :
  0 <= bits <= 12 -> 0 <= pos ->
  pos mod 2 ^ bits <> 0 ->
  0 < 2 ^ bits - pos mod 2 ^ bits <= 4096 - pos mod 4096.
Proof.
  intros Hbits Hpos Hoff.
  set (bs := 2 ^ bits) in *.
  assert (Hbs : 0 < bs) by (apply Z.pow_pos_nonneg; lia).
  set (K := 2 ^ (12 - bits)).
  assert (HK : 4096 = K * bs).
  { unfold K, bs. rewrite <- Z.pow_add_r by lia.
    replace (12 - bits + bits) with 12 by lia. reflexivity. }
  pose proof (Z.mod_pos_bound pos bs Hbs) as Hr.
  pose proof (Z.mod_pos_bound pos 4096 ltac:(lia)) as Hr4.
  assert (Hmm : (pos mod 4096) mod bs = pos mod bs).
  { apply Z.mod_mod_divide. exists K. exact HK. }
  pose proof (Z.div_mod (pos mod 4096) bs ltac:(lia)) as Hdm.
  rewrite Hmm in Hdm.
  assert (Hq : (pos mod 4096) / bs < K)
    by (apply Z.div_lt_upper_bound; lia).
  assert (Hq0 : 0 <= (pos mod 4096) / bs) by (apply Z.div_pos; lia).
  assert (Hle : bs * ((pos mod 4096) / bs) <= bs * (K - 1))
    by (apply Z.mul_le_mono_nonneg_l; lia).
  lia.
Qed.

Section TruncateCore.

Variable IOMAP_F_NEW : Z.
Variable IOMAP_F_BUFFER_HEAD : Z.
Variable IOMAP_F_SIZE_CHANGED : Z.
Variable submit_bio_wait : Z -> Z -> Z -> Z * list byte.
Variable block_write_end : Z -> Z -> Z -> folio -> Z * folio.
Variable __block_write_begin_int : Z -> Z -> folio -> iomap -> Z * folio.
Variable page_prepare : option (Z -> Z -> iomap -> Z).
Variable filemap_get_stable_folio : page_cache -> Z -> option folio.
Variable dax_iomap_zero : Z -> Z -> iomap -> Z.

Variable st0 : zero_state.
Variable pos : Z.
Variable m : iomap.
Variable src : option iomap.
Variable f : folio.

Let i := zs_inode st0.
Let pc := zs_pc st0.
Let srcmap := srcmap_of m src.
Let tail := 2 ^ i_blkbits i - pos mod 2 ^ i_blkbits i.

Hypothesis Hprep : page_prepare = None.
Hypothesis Hget : filemap_get_stable_folio pc (pos / 4096) = Some f.
Hypothesis Hord : order f = 0.
Hypothesis Hbits : 0 <= i_blkbits i <= 12.
Hypothesis Hcons : uptodate_consistent i f = true.
Hypothesis Hisize : 0 <= i_size i < 2 ^ 63.
Hypothesis Hpos : 0 <= pos < 2 ^ 62.
Hypothesis Hunaligned : pos mod 2 ^ i_blkbits i <> 0.
Hypothesis Hnotinline : type srcmap <> IOMAP_INLINE.
Hypothesis Hnothole : type srcmap <> IOMAP_HOLE.
Hypothesis Hwritten : type srcmap <> IOMAP_UNWRITTEN.
Hypothesis Hnobh : Z.land (flags m) IOMAP_F_BUFFER_HEAD = 0.
Hypothesis Hnobh_src : Z.land (flags srcmap) IOMAP_F_BUFFER_HEAD = 0.
Hypothesis Hextent : pos + tail <= offset m + length m < 2 ^ 64.
Hypothesis Hextent_src : pos + tail <= offset srcmap + length srcmap < 2 ^ 64.
Hypothesis Hdata : 4096 <= Z.of_nat (List.length (data f)).

Let apply :=
  zero_extent_apply IOMAP_F_NEW IOMAP_F_BUFFER_HEAD IOMAP_F_SIZE_CHANGED
                    submit_bio_wait block_write_end __block_write_begin_int
                    false page_prepare filemap_get_stable_folio
                    false dax_iomap_zero m src.

Lemma truncate_geometry :
  blocks_in_folio i f /\ folio_size f = 4096
  /\ 0 < tail <= 4096 - pos mod 4096
  /\ Z.min (4096 - pos mod 4096) tail = tail
  /\ i_blocksize i = 2 ^ i_blkbits i
  /\ 0 < 2 ^ i_blkbits i <= 4096.
Proof.
  assert (Hgeo : blocks_in_folio i f)
    by (unfold blocks_in_folio; rewrite Hord; lia).
  pose proof (block_tail_in_page (i_blkbits i) pos Hbits ltac:(lia)
                Hunaligned) as Ht.
  fold tail in Ht.
  split; [ exact Hgeo | ].
  split; [ rewrite folio_size_pow by lia; rewrite Hord; reflexivity | ].
  split; [ exact Ht | ].
  split; [ lia | ].
  split; [ exact (i_blocksize_folio i f Hgeo) | ].
  split; [ apply Z.pow_pos_nonneg; lia | ].
  change 4096 with (2 ^ 12). apply Z.pow_le_mono_r; lia.
Qed.

Lemma truncate_calls_zero_range :
  iomap_truncate_page apply pos st0
  = zero_range_loop apply (Z.to_nat tail) pos tail st0.
Proof.
  destruct truncate_geometry as [Hgeo [HFS [Ht [Hmin [Hbsz Hbs]]]]].
  unfold iomap_truncate_page, iomap_zero_range. fold i. rewrite Hbsz.
  rewrite (u32_small (2 ^ i_blkbits i - 1)) by lia.
  replace (2 ^ i_blkbits i - 1) with (Z.ones (i_blkbits i))
    by (rewrite Z.ones_equiv; lia).
  rewrite Z.land_ones by lia.
  pose proof (Z.mod_pos_bound pos (2 ^ i_blkbits i) ltac:(lia)) as Hr.
  rewrite (u32_small (pos mod 2 ^ i_blkbits i)) by lia.
  replace (pos mod 2 ^ i_blkbits i =? 0) with false
    by (symmetry; apply Z.eqb_neq; exact Hunaligned).
  fold tail. rewrite (u32_small tail) by lia. reflexivity.
Qed.

Lemma truncate_core :
  exists status f1,
    __iomap_write_begin IOMAP_F_NEW submit_bio_wait i pos tail 0 f srcmap
    = Some (status, f1)
    /\ (- 2 ^ 31 <= status < 0 ->
        exists st',
          iomap_truncate_page apply pos st0 = Some (status, st')
          /\ zs_did_zero st' = zs_did_zero st0
          /\ zs_pc st' = pc_set pc (index f) (unlock_folio f1))
    /\ (status = 0 ->
        exists st',
          iomap_truncate_page apply pos st0 = Some (0, st')
          /\ zs_did_zero st'
             = match zs_did_zero st0 with
               | Some _ => Some true
               | None => None
               end
          /\ i_size (zs_inode st') = Z.max (i_size i) (pos + tail)
          /\ (forall k, k <> index f -> zs_pc st' k = pc k)
          /\ PG_dirty (zs_pc st' (index f)) = true
          /\ PG_locked (zs_pc st' (index f)) = false
          /\ zero_filled (zs_pc st' (index f)) (pos mod 4096) tail
          /\ (forall b,
                block_written i (pos mod 4096) (pos mod 4096 + tail) b ->
                block_valid (zs_pc st' (index f)) b)).
Proof.
  destruct truncate_geometry as [Hgeo [HFS [Ht [Hmin [Hbsz Hbs]]]]].
  pose proof (Z.mod_pos_bound pos 4096 ltac:(lia)) as Hr4.
  assert (Htail : 0 < tail < 2 ^ 63) by lia.
  assert (Hext1 : pos + Z.min (4096 - pos mod 4096) tail
                  <= offset m + length m < 2 ^ 64)
    by (rewrite Hmin; exact Hextent).
  assert (Hext2 : pos + Z.min (4096 - pos mod 4096) tail
                  <= offset srcmap + length srcmap < 2 ^ 64)
    by (rewrite Hmin; exact Hextent_src).
  assert (Hdata1 : folio_size f <= Z.of_nat (List.length (data f)))
    by (rewrite HFS; exact Hdata).
  destruct (iomap_zero_core IOMAP_F_NEW IOMAP_F_BUFFER_HEAD
              IOMAP_F_SIZE_CHANGED submit_bio_wait block_write_end
              __block_write_begin_int page_prepare filemap_get_stable_folio
              i pc pos tail m src f Hprep Hget Hgeo Hcons Hisize Hpos
              Htail Hnotinline Hnobh Hnobh_src Hext1 Hext2 Hdata1)
    as [status [f1 [Hwb [Hfail Hok]]]].
  rewrite Hmin in Hwb, Hfail, Hok.
  assert (Hoff : offset_in_folio f pos = pos mod 4096).
  { rewrite offset_in_folio_mod by lia. rewrite u64_small by lia.
    now rewrite HFS. }
  rewrite Hoff in Hok.
  exists status, f1. split; [ exact Hwb | ].
  assert (Hactor :
            forall r,
              iomap_zero IOMAP_F_NEW IOMAP_F_BUFFER_HEAD IOMAP_F_SIZE_CHANGED
                submit_bio_wait block_write_end __block_write_begin_int
                false page_prepare filemap_get_stable_folio
                i pc pos tail m src = Some r ->
              iomap_zero_range_actor
                IOMAP_F_NEW IOMAP_F_BUFFER_HEAD IOMAP_F_SIZE_CHANGED
                submit_bio_wait block_write_end __block_write_begin_int
                false page_prepare filemap_get_stable_folio
                false dax_iomap_zero pos tail st0 m src
              = zero_range_actor_loop
                  IOMAP_F_NEW IOMAP_F_BUFFER_HEAD IOMAP_F_SIZE_CHANGED
                  submit_bio_wait block_write_end __block_write_begin_int
                  false page_prepare filemap_get_stable_folio
                  false dax_iomap_zero (Z.to_nat tail) pos tail 0 st0 m src).
  { intros r _. unfold iomap_zero_range_actor. fold srcmap.
    rewrite (iomap_type_eqb_neq _ _ Hnothole).
    rewrite (iomap_type_eqb_neq _ _ Hwritten). reflexivity. }
  rewrite truncate_calls_zero_range.
  destruct (Z.to_nat tail) as [| n] eqn:Hfuel; [ lia | ].
  split.
  - intros Hst. specialize (Hfail ltac:(lia)).
    eexists. split; [ | split ].
    + cbn [zero_range_loop].
      replace (0 <? tail) with true by (symmetry; apply Z.ltb_lt; lia).
      unfold apply, zero_extent_apply.
      rewrite (Hactor _ Hfail). rewrite ?Hfuel.
      cbn [zero_range_actor_loop]. fold i pc. rewrite Hfail.
      replace (status <? 0) with true by (symmetry; apply Z.ltb_lt; lia).
      rewrite (s64_small status) by lia.
      replace (status <=? 0) with true by (symmetry; apply Z.leb_le; lia).
      rewrite (s32_small status) by lia. reflexivity.
    + reflexivity.
    + reflexivity.
  - intros Hst.
    destruct (Hok Hst)
      as [i' [m' [ev [Hz [Hsz [_ [_ [Hd [Hl [Hzf [Hbv _]]]]]]]]]]].
    eexists. split; [ | split; [ | split; [ | split ] ] ].
    + cbn [zero_range_loop].
      replace (0 <? tail) with true by (symmetry; apply Z.ltb_lt; lia).
      unfold apply, zero_extent_apply.
      rewrite (Hactor _ Hz). rewrite ?Hfuel.
      cbn [zero_range_actor_loop]. fold i pc. rewrite Hz.
      replace (tail <? 0) with false by (symmetry; apply Z.ltb_ge; lia).
      rewrite Z.sub_diag, Z.add_0_l.
      rewrite (s64_small 0) by lia. rewrite (s64_small tail) by lia.
      cbn [Z.ltb Z.compare].
      rewrite (s64_small tail) by lia.
      replace (tail <=? 0) with false by (symmetry; apply Z.leb_gt; lia).
      rewrite Z.sub_diag. rewrite (s64_small 0) by lia.
      destruct n; cbn [zero_range_loop Z.ltb Z.compare]; reflexivity.
    + reflexivity.
    + cbn [zs_inode]. exact Hsz.
    + intros k Hk. cbn [zs_pc]. apply pc_set_other. exact Hk.
    + cbn [zs_pc]. rewrite pc_set_same.
      split; [ exact Hd | ]. split; [ exact Hl | ].
      split; [ exact Hzf | exact Hbv ].
Qed.

End TruncateCore.

(** X26: [iomap_truncate_page] at a position that is not on a block
    boundary, for a single-page folio inside one extent that is neither a
    hole nor unwritten nor inline: one pass of [iomap_zero_range], one call
    of the zeroing actor and one of [iomap_zero].  When
    [__iomap_write_begin] succeeds, 0 is returned, the flag behind
    [did_zero] is set, the bytes from the position to the end of its block
    are zero in the cached page, that block is valid, the page is dirty and
    unlocked and no other page changed; when it fails with an error code,
    that code is returned and the flag is left alone. *)
Theorem truncate_page_zeroes_block_tail
    NEW BH SC sbw bwe bwbi prep get dax st0 pos m src f :
  prep = None ->
  get (zs_pc st0) (pos / 4096) = Some f ->
  order f = 0 -> 0 <= i_blkbits (zs_inode st0) <= 12 ->
  uptodate_consistent (zs_inode st0) f = true ->
  0 <= i_size (zs_inode st0) < 2 ^ 63 -> 0 <= pos < 2 ^ 62 ->
  pos mod 2 ^ i_blkbits (zs_inode st0) <> 0 ->
  type (srcmap_of m src) <> IOMAP_INLINE ->
  type (srcmap_of m src) <> IOMAP_HOLE ->
  type (srcmap_of m src) <> IOMAP_UNWRITTEN ->
  Z.land (flags m) BH = 0 -> Z.land (flags (srcmap_of m src)) BH = 0 ->
  pos + (2 ^ i_blkbits (zs_inode st0) - pos mod 2 ^ i_blkbits (zs_inode st0))
  <= offset m + length m < 2 ^ 64 ->
  pos + (2 ^ i_blkbits (zs_inode st0) - pos mod 2 ^ i_blkbits (zs_inode st0))
  <= offset (srcmap_of m src) + length (srcmap_of m src) < 2 ^ 64 ->
  4096 <= Z.of_nat (List.length (data f)) ->
  exists status f1,
    __iomap_write_begin NEW sbw (zs_inode st0) pos
      (2 ^ i_blkbits (zs_inode st0) - pos mod 2 ^ i_blkbits (zs_inode st0))
      0 f (srcmap_of m src) = Some (status, f1)
    /\ (- 2 ^ 31 <= status < 0 ->
        exists st',
          iomap_truncate_page
            (zero_extent_apply NEW BH SC sbw bwe bwbi false prep get false
                               dax m src) pos st0
          = Some (status, st')
          /\ zs_did_zero st' = zs_did_zero st0)
    /\ (status = 0 ->
        exists st',
          iomap_truncate_page
            (zero_extent_apply NEW BH SC sbw bwe bwbi false prep get false
                               dax m src) pos st0
          = Some (0, st')
          /\ zs_did_zero st'
             = match zs_did_zero st0 with
               | Some _ => Some true
               | None => None
               end
          /\ (forall k, k <> index f -> zs_pc st' k = zs_pc st0 k)
          /\ PG_dirty (zs_pc st' (index f)) = true
          /\ PG_locked (zs_pc st' (index f)) = false
          /\ zero_filled (zs_pc st' (index f)) (pos mod 4096)
               (2 ^ i_blkbits (zs_inode st0)
                - pos mod 2 ^ i_blkbits (zs_inode st0))
          /\ block_valid (zs_pc st' (index f))
                         (pos mod 4096 / 2 ^ i_blkbits (zs_inode st0))).
Proof.
  intros Hprep Hget Hord Hbits Hcons Hisize Hpos Hun Hni Hnh Hnu Hbh Hbhs
         Hext Hexts Hdata.
  destruct (truncate_core NEW BH SC sbw bwe bwbi prep get dax st0 pos m src f
              Hprep Hget Hord Hbits Hcons Hisize Hpos Hun Hni Hnh Hnu Hbh
              Hbhs Hext Hexts Hdata)
    as [status [f1 [Hwb [Hfail Hok]]]].
  exists status, f1. split; [ exact Hwb | ]. split.
  - intros Hst. destruct (Hfail Hst) as [st' [Ht [Hdz _]]].
    exists st'. split; [ exact Ht | exact Hdz ].
  - intros Hst.
    destruct (Hok Hst) as [st' [Ht [Hdz [_ [Hoth [Hd [Hl [Hzf Hbv]]]]]]]].
    exists st'. split; [ exact Ht | ]. split; [ exact Hdz | ].
    split; [ exact Hoth | ]. split; [ exact Hd | ]. split; [ exact Hl | ].
    split; [ exact Hzf | ].
    apply Hbv. unfold block_written.
    pose proof (block_tail_in_page (i_blkbits (zs_inode st0)) pos Hbits
                  ltac:(lia) Hun) as Htail.
    split; [ lia | ].
    apply Z.div_le_mono; [ apply Z.pow_pos_nonneg; lia | lia ].
Qed.

Lemma truncate_page_zeroes_block_tail_witness :
  exists status f1,
    __iomap_write_begin 4 (fun _ _ _ => (0, [])) (mk_inode 8192 9) 100
      (2 ^ 9 - 100 mod 2 ^ 9) 0
      (mk_folio 0 0 true false false false false None (repeat x01 4096))
      (mk_iomap 0 0 8192 IOMAP_MAPPED 0 0 [] 0 false)
    = Some (status, f1)
    /\ (status = 0 ->
        exists st',
          iomap_truncate_page
            (zero_extent_apply 4 8 16 (fun _ _ _ => (0, []))
               (fun _ _ _ f => (0, f)) (fun _ _ f _ => (0, f)) false None
               (fun _ _ =>
                  Some (mk_folio 0 0 true false false false false None
                                 (repeat x01 4096)))
               false (fun _ _ _ => 0)
               (mk_iomap 0 0 8192 IOMAP_MAPPED 0 0 [] 0 false) None)
            100
            (mk_zs (mk_inode 8192 9)
                   (fun _ => mk_folio 0 0 false false false false false
                                      None [])
                   (Some false) [])
          = Some (0, st')
          /\ zs_did_zero st' = Some true
          /\ zero_filled (zs_pc st' 0) (100 mod 4096)
                         (2 ^ 9 - 100 mod 2 ^ 9)).
Proof.
  destruct (truncate_page_zeroes_block_tail 4 8 16 (fun _ _ _ => (0, []))
              (fun _ _ _ f => (0, f)) (fun _ _ f _ => (0, f)) None
              (fun _ _ =>
                 Some (mk_folio 0 0 true false false false false None
                                (repeat x01 4096)))
              (fun _ _ _ => 0)
              (mk_zs (mk_inode 8192 9)
                     (fun _ => mk_folio 0 0 false false false false false
                                        None [])
                     (Some false) [])
              100 (mk_iomap 0 0 8192 IOMAP_MAPPED 0 0 [] 0 false) None
              (mk_folio 0 0 true false false false false None
                        (repeat x01 4096)))
    as [status [f1 [Hwb [_ Hok]]]];
    [ reflexivity | reflexivity | reflexivity
    | cbv; repeat split; try reflexivity; discriminate .. | ].
  exists status, f1. split; [ exact Hwb | ].
  intros Hst.
  destruct (Hok Hst) as [st' [Ht [Hdz [_ [_ [_ [Hzf _]]]]]]].
  exists st'. split; [ exact Ht | ]. split; [ exact Hdz | exact Hzf ].
Defined.

(** ** Readahead *)

Lemma window_nr_pages i room pc idx f rest :
  readahead_window i room pc idx (f :: rest) -> 1 <= folio_nr_pages f.
Proof.
  intros [_ [_ [_ [[Ho _] _]]]]. apply folio_nr_pages_pos. lia.
Qed.

Lemma readahead_window_pages i room pc fs :
  forall idx, readahead_window i room pc idx fs ->
              0 <= window_pages fs /\ (fs <> [] -> 0 < window_pages fs).
Proof.
  induction fs as [| f rest IH]; intros idx H.
  - split; [ cbn; lia | congruence ].
  - pose proof (window_nr_pages _ _ _ _ _ _ H) as Hf.
    destruct H as [_ [_ [_ [_ [_ [_ [_ Hrest]]]]]]].
    destruct (IH _ Hrest) as [H0 _].
    unfold window_pages in *. cbn [fold_right]. split; [ lia | intros _; lia ].
Qed.

Lemma readahead_window_set i room pc k g fs :
  forall idx,
    readahead_window i room pc idx fs -> k < idx ->
    readahead_window i room (pc_set pc k g) idx fs.
Proof.
  induction fs as [| f rest IH]; intros idx H Hk; [ exact I | ].
  pose proof (window_nr_pages _ _ _ _ _ _ H) as Hf.
  destruct H as [H1 [H2 [H3 [H4 [H5 [H6 [H7 Hrest]]]]]]].
  cbn [readahead_window].
  split; [ rewrite pc_set_other by lia; exact H1 | ].
  split; [ exact H2 | ]. split; [ exact H3 | ]. split; [ exact H4 | ].
  split; [ exact H5 | ]. split; [ exact H6 | ]. split; [ exact H7 | ].
  apply IH; [ exact Hrest | lia ].
Qed.

Lemma block_aligned_add i a b :
  0 <= i_blkbits i ->
  block_aligned i a -> block_aligned i b -> block_aligned i (a + b).
Proof.
  unfold block_aligned. intros Hb Ha Hbb.
  assert (0 < 2 ^ i_blkbits i) by (apply Z.pow_pos_nonneg; lia).
  rewrite Z.add_mod by lia. rewrite Ha, Hbb. reflexivity.
Qed.

Lemma block_aligned_sub i a b :
  0 <= i_blkbits i ->
  block_aligned i a -> block_aligned i b -> block_aligned i (a - b).
Proof.
  unfold block_aligned. intros Hb Ha Hbb.
  assert (0 < 2 ^ i_blkbits i) by (apply Z.pow_pos_nonneg; lia).
  rewrite Zminus_mod. rewrite Ha, Hbb. reflexivity.
Qed.

(** Positions in a folio that lies at a multiple of its size. *)
Lemma offset_in_aligned_folio f k p :
  0 <= order f <= 19 -> 0 <= k -> k mod folio_nr_pages f = 0 ->
  k * 4096 <= p <= (k + folio_nr_pages f) * 4096 -> p < 2 ^ 62 ->
  (p < (k + folio_nr_pages f) * 4096 -> offset_in_folio f p = p - k * 4096)
  /\ (p = (k + folio_nr_pages f) * 4096 -> offset_in_folio f p = 0)
  /\ folio_size f = folio_nr_pages f * 4096.
Proof.
  intros Ho Hk Hal Hp Hmax.
  pose proof (folio_nr_pages_pos f ltac:(lia)) as Hnr.
  pose proof (folio_size_pages f ltac:(lia)) as HFS.
  set (P := folio_nr_pages f) in *.
  apply Z.mod_divide in Hal; [ | lia ]. destruct Hal as [q Hq].
  assert (Hq0 : 0 <= q).
  { destruct (Z.le_gt_cases 0 q) as [H | H]; [ exact H | ].
    assert (q * P <= (-1) * P) by (apply Z.mul_le_mono_nonneg_r; lia).
    lia. }
  rewrite offset_in_folio_mod by lia.
  rewrite u64_small by lia. rewrite HFS.
  split; [ | split; [ | reflexivity ] ].
  - intros Hlt. symmetry.
    apply (Z.mod_unique_pos _ _ q). lia. subst k. ring.
  - intros ->. subst k.
    replace ((q * P + P) * 4096) with ((q + 1) * (P * 4096)) by ring.
    apply Z.mod_mul. lia.
Qed.


Ltac inv_destruct H :=
  destruct H as [[Hd Hdal] [[Hr1 [Hr2 [Hr3 [Hr4 Hr5]]]]
                 [Hwin [Hfit [Hfs [Hacc [Hbytes [Hdrop [Hzero [Hsame [Hbelow [Hposv Hcur]]]]]]]]]]]].

Section ReadaheadLoop.

Variable IOMAP_F_NEW : Z.
Variable BIO_MAX_PAGES : Z.
Variable bio_alloc_succeeds : bool.

Hypothesis BMP_pos : 0 < BIO_MAX_PAGES.

Variable i : inode.
Variable m : iomap.
Variable pos length : Z.
Variable pc0 : page_cache.
Variable fs0 : list folio.

Hypothesis Hbits0 : 0 <= i_blkbits i.
Hypothesis Hisize : 0 <= i_size i < 2 ^ 63.
Hypothesis Hty : type m <> IOMAP_INLINE.
Hypothesis Hpos : 0 <= pos.
Hypothesis Hlen : 0 < length <= 2 ^ 31.
Hypothesis Hend : pos + length < 2 ^ 62.
Hypothesis Hapos : block_aligned i pos.
Hypothesis Halen : block_aligned i length.

(** Leaving a folio that has been passed. *)
Lemma inv_leave done st dropped rest :
  readahead_inv i pos length pc0 fs0 done st dropped rest ->
  (forall k, ra_cur st = Some k -> k * 4096 < pos + done) ->
  exists dropped1,
    readahead_inv i pos length pc0 fs0 done
                  (ra_leave_folio (pos + done) st) dropped1 rest
    /\ (forall k, ra_cur (ra_leave_folio (pos + done) st) = Some k ->
                  pos + done < ra_next (ra_leave_folio (pos + done) st) * 4096).
Proof.
  intros H Hstrict. unfold ra_leave_folio.
  destruct (ra_cur st) as [k |] eqn:Hc.
  2:{ exists dropped. split; [ exact H | ].
      intros k Hk. rewrite Hc in Hk. discriminate Hk. }
  specialize (Hstrict k eq_refl).
  pose proof H as H'. inv_destruct H'. rewrite Hc in Hcur, Hdrop, Hfs.
  destruct Hcur as [Hk [Hik [Hi0 [Hok [Hnr [Hkal [Hgeo [Hblk [Hp [Hp0 [Hroom
                     [Hlk [Hib Hge]]]]]]]]]]]]].
  pose proof Hgeo as [Hord _].
  assert (Hnext : ra_next st = k + folio_nr_pages (ra_pc st k))
    by (unfold ra_next; lia).
  rewrite Hnext in Hp.
  destruct (offset_in_aligned_folio (ra_pc st k) k (pos + done) Hord
              ltac:(lia) Hkal Hp ltac:(lia)) as [Hin [Hat _]].
  pose proof (folio_nr_pages_pos (ra_pc st k) ltac:(lia)) as Hnrp.
  destruct (Z.eqb_spec (offset_in_folio (ra_pc st k) (pos + done)) 0)
    as [Hz | Hnz].
  - (* the position is at the end of the folio *)
    assert (Hpe : pos + done = (k + folio_nr_pages (ra_pc st k)) * 4096).
    { destruct (Z.eq_dec (pos + done)
                         ((k + folio_nr_pages (ra_pc st k)) * 4096))
        as [E | E]; [ exact E | ].
      rewrite Hin in Hz by lia. lia. }
    exists (dropped ++ [pc0 k]).
    split; [ | intros j Hj; discriminate Hj ].
    assert (Hpend : forall j, read_pending (ra_drop_folio st k j)
                              = read_pending (ra_pc st j)).
    { intros j. unfold ra_drop_folio. destruct (ra_in_bio st); [ reflexivity | ].
      unfold pc_set. destruct (j =? k) eqn:E; [ | reflexivity ].
      apply Z.eqb_eq in E. subst j. reflexivity. }
    assert (Hother : forall j, j <> k -> ra_drop_folio st k j = ra_pc st j).
    { intros j Hj. unfold ra_drop_folio.
      destruct (ra_in_bio st); [ reflexivity | ].
      apply pc_set_other. exact Hj. }
    unfold readahead_inv.
    cbn [ra_pc ra_rac ra_cur ra_in_bio ra_bio ra_submitted].
    change (ra_next (mk_ra (ra_drop_folio st k) (ra_rac st) None
                           (ra_in_bio st) (ra_bio st) (ra_submitted st)))
      with (ra_next st).
    change (ra_bytes_in ?j (mk_ra (ra_drop_folio st k) (ra_rac st) None
                              (ra_in_bio st) (ra_bio st) (ra_submitted st)))
      with (ra_bytes_in j st).
    split; [ split; assumption | ].
    split; [ repeat split; assumption | ].
    split.
    { unfold ra_drop_folio. destruct (ra_in_bio st); [ exact Hwin | ].
      apply readahead_window_set; [ exact Hwin | lia ]. }
    split; [ exact Hfit | ].
    split; [ rewrite Hfs; rewrite <- !app_assoc; reflexivity | ].
    split; [ intros j; rewrite Hpend; apply Hacc | ].
    split; [ exact Hbytes | ].
    split.
    { intros f Hf. apply in_app_or in Hf. destruct Hf as [Hf | Hf].
      - destruct (Hdrop f Hf) as [Hlt Hl]. split; [ lia | ].
        rewrite Hother by lia. exact Hl.
      - destruct Hf as [<- | []]. rewrite Hi0. split; [ lia | ].
        unfold ra_drop_folio. rewrite <- Hib.
        destruct (ra_in_bio st).
        + rewrite andb_true_r. exact Hlk.
        + rewrite pc_set_same, andb_false_r. reflexivity. }
    split; [ exact Hzero | ].
    split; [ intros j Hj; rewrite Hother by lia; apply Hsame; exact Hj | ].
    split; [ intros j Hj; rewrite Hother by lia; apply Hbelow; exact Hj | ].
    split; [ exact Hposv | ].
    lia.
  - exists dropped. split; [ exact H | ].
    intros j Hj. rewrite Hc in Hj. injection Hj as <-.
    rewrite Hnext.
    destruct (Z.eq_dec (pos + done)
                       ((k + folio_nr_pages (ra_pc st k)) * 4096))
      as [E | E]; [ | lia ].
    specialize (Hat E). contradiction.
Qed.

(** Taking the next folio of the window. *)
Lemma inv_take done st dropped rest :
  readahead_inv i pos length pc0 fs0 done st dropped rest ->
  done < length ->
  (forall k, ra_cur st = Some k -> pos + done < ra_next st * 4096) ->
  exists st2 k rest2,
    ra_take_folio st = Some st2 /\ ra_cur st2 = Some k
    /\ readahead_inv i pos length pc0 fs0 done st2 dropped rest2
    /\ pos + done < ra_next st2 * 4096.
Proof.
  intros H Hlt Hstrict. unfold ra_take_folio.
  destruct (ra_cur st) as [k |] eqn:Hc.
  { exists st, k, rest. split; [ reflexivity | ]. split; [ exact Hc | ].
    split; [ exact H | ]. apply (Hstrict k eq_refl). }
  clear Hstrict. pose proof H as H'. inv_destruct H'.
  rewrite Hc in Hcur, Hdrop, Hfs. cbv beta iota in Hcur, Hdrop, Hfs.
  destruct (readahead_window_pages _ _ _ _ _ Hwin) as [Hwp0 _].
  destruct rest as [| f rest'].
  { unfold window_pages in Hfit. cbn [fold_right] in Hfit. exfalso. lia. }
  pose proof (window_nr_pages _ _ _ _ _ _ Hwin) as Hnrp.
  pose proof Hwin as [W1 [W2 [W3 [W4 [W5 [W6 [W7 Wrest]]]]]]].
  pose proof W4 as [Hord _].
  assert (Hnrmax : folio_nr_pages f <= 2 ^ 19).
  { rewrite folio_nr_pages_pow by lia. apply Z.pow_le_mono_r; lia. }
  assert (Hwp : window_pages (f :: rest')
                = folio_nr_pages f + window_pages rest') by reflexivity.
  destruct (readahead_window_pages _ _ _ _ _ Wrest) as [Hwr0 _].
  unfold readahead_folio.
  replace (_nr_pages (ra_rac st) <? _batch_count (ra_rac st)) with false
    by (symmetry; apply Z.ltb_ge; lia).
  rewrite Hr3.
  replace (_batch_count (ra_rac st) + window_pages (f :: rest')
           - _batch_count (ra_rac st)) with (window_pages (f :: rest'))
    by ring.
  rewrite (u32_small (window_pages (f :: rest'))) by lia.
  replace (window_pages (f :: rest') =? 0) with false
    by (symmetry; apply Z.eqb_neq; lia).
  fold (ra_next st). rewrite (u64_small (ra_next st))
    by (unfold ra_next; lia).
  rewrite W1. rewrite (u32_small (folio_nr_pages f)) by lia.
  set (st2 := mk_ra (ra_pc st)
                    (mk_rac (ra_next st) (window_pages (f :: rest'))
                            (folio_nr_pages f))
                    (Some (ra_next st)) false (ra_bio st) (ra_submitted st)).
  exists st2, (ra_next st), rest'.
  assert (Hn2 : ra_next st2 = ra_next st + folio_nr_pages f) by reflexivity.
  assert (Hb : forall j, ra_bytes_in j st2 = ra_bytes_in j st)
    by reflexivity.
  assert (Hp0 : pc0 (ra_next st) = f)
    by (rewrite <- (Hsame (ra_next st)) by lia; exact W1).
  assert (Hnn : 0 <= ra_next st) by (unfold ra_next; lia).
  assert (Hnmax : ra_next st + window_pages (f :: rest') < 2 ^ 50)
    by (unfold ra_next; lia).
  split; [ reflexivity | ]. split; [ reflexivity | ].
  split; [ | rewrite Hn2; lia ].
  unfold readahead_inv. rewrite Hn2.
  change (ra_pc st2) with (ra_pc st).
  change (ra_rac st2)
    with (mk_rac (ra_next st) (window_pages (f :: rest'))
                 (folio_nr_pages f)).
  change (ra_cur st2) with (Some (ra_next st)).
  change (ra_in_bio st2) with false.
  cbn [_index _nr_pages _batch_count].
  split; [ split; assumption | ].
  split; [ repeat split; lia | ].
  split; [ exact Wrest | ].
  split; [ rewrite Hwp in Hfit; lia | ].
  split; [ rewrite Hfs, Hp0; reflexivity | ].
  split; [ intros j; rewrite Hb; apply Hacc | ].
  split; [ intros j; rewrite Hb; apply Hbytes | ].
  split.
  { intros g Hg. destruct (Hdrop g Hg) as [D1 D2]. rewrite Hb.
    split; assumption. }
  split; [ intros j Hj; rewrite Hb; apply Hzero; lia | ].
  split; [ intros j Hj; apply Hsame; lia | ].
  split; [ exact Hbelow | ].
  split; [ exact Hposv | ].
  rewrite W1, Hp0, Hb.
  split; [ reflexivity | ]. split; [ exact W2 | ]. split; [ exact W2 | ].
  split; [ reflexivity | ]. split; [ reflexivity | ].
  split; [ exact W3 | ]. split; [ exact W4 | ]. split; [ exact W5 | ].
  split; [ lia | ]. split; [ exact W6 | ]. split; [ exact W7 | ].
  split; [ reflexivity | ].
  split; [ rewrite (Hzero (ra_next st)) by lia; reflexivity | lia ].
Qed.

(** One call of the read actor on the folio the context points to. *)
Lemma inv_act done st dropped rest k :
  readahead_inv i pos length pc0 fs0 done st dropped rest ->
  ra_cur st = Some k -> done < length ->
  pos + done < ra_next st * 4096 ->
  exists ret c,
    iomap_readpage_actor IOMAP_F_NEW BIO_MAX_PAGES bio_alloc_succeeds
                         i (pos + done) (length - done) (ra_ctx st k) m
    = Some (ret, c)
    /\ 0 < ret /\ done + ret <= length
    /\ readahead_inv i pos length pc0 fs0 (done + ret)
         (mk_ra (pc_set (ra_pc st) k (cur_folio c)) (ra_rac st) (Some k)
                (cur_folio_in_bio c) (ctx_bio c) (submitted c))
         dropped rest
    /\ k * 4096 < pos + done + ret.
Proof.
  intros H Hc Hlt Hin. pose proof H as H'. inv_destruct H'.
  rewrite Hc in Hcur, Hdrop, Hfs. cbv beta iota in Hcur, Hdrop, Hfs.
  destruct Hcur as [Hk [Hik [Hi0 [Hok [Hnr [Hkal [Hgeo [Hblk [Hp [Hp0 [Hroom
                     [Hlk [Hib Hge]]]]]]]]]]]]].
  pose proof Hgeo as [Hord _].
  assert (Hnext : ra_next st = k + folio_nr_pages (ra_pc st k))
    by (unfold ra_next; lia).
  rewrite Hnext in Hp, Hin.
  destruct (offset_in_aligned_folio (ra_pc st k) k (pos + done) Hord
              ltac:(lia) Hkal Hp ltac:(lia)) as [Hoff [_ HFS]].
  specialize (Hoff Hin).
  pose proof (Hbytes k) as Hbk. pose proof (Hacc k) as Hak.
  destruct (read_actor_core IOMAP_F_NEW BIO_MAX_PAGES bio_alloc_succeeds
              BMP_pos i (pos + done) (length - done) (ra_ctx st k) m)
    as [ret [c [added [Ha [Hret [Hadd [Hci [Hcp [Hcb [Har [Hral [Hfit'
         [Hco [Hcl [Hcib [Hcr Hcpos]]]]]]]]]]]]]]]];
    cbn [cur_folio ra_ctx];
    try assumption; try lia.
  { apply block_aligned_add; assumption. }
  { apply block_aligned_sub; assumption. }
  cbn [cur_folio ra_ctx cur_folio_in_bio rac] in *.
  exists ret, c. split; [ exact Ha | ]. split; [ lia | ]. split; [ lia | ].
  split; [ | lia ].
  set (st3 := mk_ra (pc_set (ra_pc st) k (cur_folio c)) (ra_rac st) (Some k)
                    (cur_folio_in_bio c) (ctx_bio c) (submitted c)).
  assert (Hb3 : forall j, ra_bytes_in j st3
                          = ra_bytes_in j st + bytes_for j k added).
  { intros j. change (ra_bytes_in j st3) with (ctx_bytes_in j c).
    rewrite Hcb, Hik. reflexivity. }
  assert (Hn3 : ra_next st3 = ra_next st) by reflexivity.
  assert (Hbf : forall j, j <> k -> bytes_for j k added = 0).
  { intros j Hj. unfold bytes_for.
    destruct (Z.eqb_spec k j); [ congruence | reflexivity ]. }
  assert (Hbk3 : bytes_for k k added = added)
    by (unfold bytes_for; now rewrite Z.eqb_refl).
  pose proof (folio_nr_pages_pos (ra_pc st k) ltac:(lia)) as Hnrp.
  assert (Hnr3 : folio_nr_pages (cur_folio c) = folio_nr_pages (ra_pc st k))
    by (unfold folio_nr_pages; now rewrite Hco).
  assert (HFS3 : folio_size (cur_folio c) = folio_size (ra_pc st k))
    by (unfold folio_size; now rewrite Hco).
  unfold readahead_inv. rewrite Hn3.
  change (ra_pc st3) with (pc_set (ra_pc st) k (cur_folio c)).
  change (ra_rac st3) with (ra_rac st).
  change (ra_cur st3) with (Some k).
  change (ra_in_bio st3) with (cur_folio_in_bio c).
  split.
  { split; [ lia | ]. apply block_aligned_add; assumption. }
  split; [ repeat split; assumption | ].
  split; [ apply readahead_window_set; [ exact Hwin | lia ] | ].
  split; [ exact Hfit | ].
  split; [ exact Hfs | ].
  split.
  { intros j. rewrite Hb3. destruct (Z.eq_dec j k) as [-> | Hj].
    - rewrite pc_set_same, Hbk3, Hcp, Hak. lia.
    - rewrite pc_set_other, Hbf by assumption. rewrite Hacc. lia. }
  split.
  { intros j. rewrite Hb3. pose proof (Hbytes j) as Hbj.
    destruct (Z.eq_dec j k) as [-> | Hj].
    - rewrite Hbk3. lia.
    - rewrite Hbf by assumption. lia. }
  split.
  { intros g Hg. destruct (Hdrop g Hg) as [D1 D2].
    split; [ exact D1 | ].
    rewrite pc_set_other, Hb3, Hbf by lia. rewrite Z.add_0_r. exact D2. }
  split.
  { intros j Hj. rewrite Hb3, Hbf by lia. rewrite Hzero by assumption. lia. }
  split; [ intros j Hj; rewrite pc_set_other by lia; apply Hsame; exact Hj | ].
  split; [ intros j Hj; rewrite pc_set_other by lia; apply Hbelow; exact Hj | ].
  split; [ exact (Hcpos Hposv) | ].
  rewrite pc_set_same, Hb3, Hbk3.
  split; [ exact Hk | ]. split; [ lia | ]. split; [ exact Hi0 | ].
  split; [ lia | ]. split; [ lia | ].
  split; [ rewrite Hnr3; exact Hkal | ].
  split; [ unfold blocks_in_folio; rewrite Hco; exact Hgeo | ].
  split.
  { unfold i_blocks_per_folio. rewrite HFS3. exact Hblk. }
  split; [ clear - Hp Hnext Hoff HFS Hfit' Hret; lia | ].
  split; [ exact Hp0 | ]. split; [ rewrite HFS3; exact Hroom | ].
  split; [ rewrite Hcl; exact Hlk | ].
  split; [ | exact Hge ].
  rewrite Hcib, Hib.
  destruct (Z.ltb_spec 0 (ra_bytes_in k st));
    destruct (Z.ltb_spec 0 added);
    destruct (Z.ltb_spec 0 (ra_bytes_in k st + added));
    try reflexivity; lia.
Qed.

(** The loop of the readahead actor runs to the end of the range. *)
Lemma readahead_actor_loop_inv :
  forall fuel done st dropped rest,
    readahead_inv i pos length pc0 fs0 done st dropped rest ->
    (forall k, ra_cur st = Some k -> k * 4096 < pos + done) ->
    length - done <= Z.of_nat fuel ->
    exists st' dropped' rest',
      readahead_actor_loop IOMAP_F_NEW BIO_MAX_PAGES bio_alloc_succeeds
                           fuel i pos length done st m
      = Some (length, st')
      /\ readahead_inv i pos length pc0 fs0 length st' dropped' rest'.
Proof.
  induction fuel as [| n IH]; intros done st dropped rest H Hstrict Hfuel;
    pose proof H as [[Hd _] _].
  - assert (done = length) by lia. subst done.
    exists st, dropped, rest. split; [ | exact H ].
    cbn [readahead_actor_loop]. rewrite Z.ltb_irrefl. reflexivity.
  - cbn [readahead_actor_loop].
    destruct (Z.ltb_spec done length) as [Hlt | Hge].
    2:{ assert (done = length) by lia. subst done.
        exists st, dropped, rest. split; [ reflexivity | exact H ]. }
    rewrite (s64_small (pos + done)) by lia.
    rewrite (s64_small (length - done)) by lia.
    destruct (inv_leave done st dropped rest H Hstrict)
      as [dropped1 [H1 Hs1]].
    destruct (inv_take done _ dropped1 rest H1 Hlt Hs1)
      as [st2 [k [rest2 [Etake [Ecur [H2 Hin2]]]]]].
    rewrite Etake, Ecur.
    destruct (inv_act done st2 dropped1 rest2 k H2 Ecur Hlt Hin2)
      as [ret [c [Ea [Hret [Hle [H3 Hs3]]]]]].
    rewrite Ea. rewrite (s64_small (done + ret)) by lia.
    apply (IH (done + ret) _ dropped1 rest2 H3).
    + intros k' Hk'. cbn [ra_cur] in Hk'. injection Hk' as <-. lia.
    + lia.
Qed.

End ReadaheadLoop.

Lemma readahead_window_at i room pc fs :
  forall idx,
    readahead_window i room pc idx fs ->
    forall f, In f fs ->
      pc (index f) = f /\ idx <= index f < idx + window_pages fs.
Proof.
  induction fs as [| g rest IH]; intros idx H f Hf; [ destruct Hf | ].
  pose proof (window_nr_pages _ _ _ _ _ _ H) as Hg.
  destruct H as [H1 [H2 [_ [_ [_ [_ [_ Hrest]]]]]]].
  destruct (readahead_window_pages _ _ _ _ _ Hrest) as [Hw _].
  assert (Hwp : window_pages (g :: rest)
                = folio_nr_pages g + window_pages rest) by reflexivity.
  rewrite Hwp.
  destruct Hf as [<- | Hf].
  - rewrite H2. split; [ exact H1 | lia ].
  - destruct (IH _ Hrest f Hf) as [Hp Hi]. split; [ exact Hp | lia ].
Qed.


(** [iomap_readahead] on a window that lies in one extent. *)
Lemma readahead_core NEW BMP bas i m pc r fs :
  0 < BMP ->
  0 <= i_blkbits i <= 12 -> 0 <= i_size i < 2 ^ 63 ->
  type m <> IOMAP_INLINE ->
  0 <= _index r -> _batch_count r = 0 ->
  _nr_pages r = window_pages fs -> 0 < _nr_pages r ->
  _index r + _nr_pages r < 2 ^ 50 ->
  readahead_window i (_nr_pages r * 4096) pc (_index r) fs ->
  exists pc' r' subs,
    iomap_readahead (readahead_extent_apply NEW BMP bas m) i pc r
    = Some (pc', r', subs, false)
    /\ (forall f, In f fs ->
          read_pending (pc' (index f))
          = read_pending f + bios_bytes_in (index f) subs
          /\ PG_locked (pc' (index f))
             = PG_locked f && (0 <? bios_bytes_in (index f) subs))
    /\ (forall k, k < _index r \/ _index r + _nr_pages r <= k ->
                  pc' k = pc k)
    /\ bios_positive subs
    /\ (forall k, bios_bytes_in k subs <= _nr_pages r * 4096).
Proof.
  intros HB Hbits Hisize Hty Hidx Hbatch Hnr Hpos Hmax HW.
  set (pos := _index r * 4096).
  set (len := _nr_pages r * 4096).
  assert (Hlen : 0 < len <= 2 ^ 31).
  { destruct fs as [| f rest].
    - unfold window_pages in Hnr. cbn [fold_right] in Hnr. lia.
    - destruct HW as [_ [_ [_ [Hgeo [_ [Hp0 [Hroom _]]]]]]].
      destruct Hgeo as [Ho _]. pose proof (folio_size_bounds f Ho).
      fold len in Hroom. unfold len. lia. }
  assert (Hal : forall q, block_aligned i (q * 4096)).
  { intros q. unfold block_aligned.
    replace 4096 with (2 ^ (12 - i_blkbits i) * 2 ^ i_blkbits i)
      by (rewrite <- Z.pow_add_r by lia;
          replace (12 - i_blkbits i + i_blkbits i) with 12 by lia;
          reflexivity).
    rewrite Z.mul_assoc. apply Z.mod_mul.
    assert (0 < 2 ^ i_blkbits i) by (apply Z.pow_pos_nonneg; lia). lia. }
  set (st0 := mk_ra pc r None false None []).
  assert (Hn0 : ra_next st0 = _index r)
    by (unfold ra_next; cbn [st0 ra_rac]; lia).
  assert (Hinv0 : readahead_inv i pos len pc fs 0 st0 [] fs).
  { unfold readahead_inv. rewrite Hn0. cbn [st0 ra_rac ra_pc ra_cur].
    split; [ split; [ lia | reflexivity ] | ].
    split; [ repeat split; lia | ].
    split; [ exact HW | ].
    split; [ unfold pos, len; lia | ].
    split; [ reflexivity | ].
    split; [ intros k; cbn; lia | ].
    split; [ intros k; cbn; lia | ].
    split; [ intros f [] | ].
    split; [ intros k _; reflexivity | ].
    split; [ intros k _; reflexivity | ].
    split; [ intros k _; reflexivity | ].
    split; [ constructor | ].
    unfold pos. lia. }
  destruct (readahead_actor_loop_inv NEW BMP bas HB i m pos len pc fs
              ltac:(lia) Hisize Hty ltac:(unfold pos; lia) Hlen
              ltac:(unfold pos, len; lia) (Hal _) (Hal _)
              (Z.to_nat len) 0 st0 [] fs Hinv0)
    as [st' [dropped [rest [Hloop Hinv]]]].
  { intros k Hk. discriminate Hk. }
  { lia. }
  assert (Happly : readahead_extent_apply NEW BMP bas m i pos len st0
                   = (len, st')).
  { unfold readahead_extent_apply, iomap_readahead_actor.
    rewrite Hloop. reflexivity. }
  assert (Hrun : readahead_loop (readahead_extent_apply NEW BMP bas m)
                                (Z.to_nat len) i pos len st0
                 = Some (st', false)).
  { destruct (Z.to_nat len) as [| n] eqn:Hfuel; [ lia | ].
    cbn [readahead_loop].
    replace (0 <? len) with true by (symmetry; apply Z.ltb_lt; lia).
    rewrite Happly. rewrite (s64_small len) by lia.
    replace (len <=? 0) with false by (symmetry; apply Z.leb_gt; lia).
    rewrite Z.sub_diag. rewrite (s64_small 0) by lia.
    destruct n; cbn [readahead_loop Z.ltb Z.compare]; reflexivity. }
  assert (Hrpos : readahead_pos r = pos).
  { unfold readahead_pos. change PAGE_SIZE with 4096.
    apply s64_small. unfold pos. lia. }
  assert (Hrlen : readahead_length r = len).
  { unfold readahead_length. change PAGE_SIZE with 4096.
    apply s64_small. lia. }
  unfold iomap_readahead. rewrite Hrpos, Hrlen. fold st0. rewrite Hrun.
  eexists. eexists. eexists. split; [ reflexivity | ].
  inv_destruct Hinv.
  assert (Hsub : forall k,
            bios_bytes_in k match ra_bio st' with
                            | Some b => ra_submitted st' ++ [b]
                            | None => ra_submitted st'
                            end
            = ra_bytes_in k st').
  { intros k. unfold ra_bytes_in, ra_bios. destruct (ra_bio st');
      [ reflexivity | now rewrite app_nil_r ]. }
  destruct (readahead_window_pages _ _ _ _ _ Hwin) as [Hw0 Hwpos].
  assert (Hrest : rest = []).
  { destruct rest as [| g rest']; [ reflexivity | exfalso ].
    specialize (Hwpos ltac:(discriminate)).
    destruct (ra_cur st') as [k |].
    - destruct Hcur as [_ [_ [_ [_ [_ [_ [_ [_ [Hp _]]]]]]]]]. lia.
    - lia. }
  subst rest. rewrite app_nil_r in Hfs.
  assert (Hpend : forall k j,
            read_pending (ra_drop_folio st' k j)
            = read_pending (ra_pc st' j)).
  { intros k j. unfold ra_drop_folio.
    destruct (ra_in_bio st'); [ reflexivity | ].
    unfold pc_set. destruct (j =? k) eqn:E; [ | reflexivity ].
    apply Z.eqb_eq in E. subst j. reflexivity. }
  assert (Hother : forall k j, j <> k ->
            ra_drop_folio st' k j = ra_pc st' j).
  { intros k j Hj. unfold ra_drop_folio.
    destruct (ra_in_bio st'); [ reflexivity | ].
    apply pc_set_other. exact Hj. }
  split; [ | split; [ | split ] ].
  3:{ unfold ra_bios in Hposv. destruct (ra_bio st');
        [ exact Hposv | now rewrite app_nil_r in Hposv ]. }
  3:{ intros k. rewrite Hsub. apply Hbytes. }
  - intros f Hf. rewrite !Hsub.
    destruct (readahead_window_at _ _ _ _ _ HW f Hf) as [Hpf _].
    rewrite Hfs in Hf. apply in_app_or in Hf.
    destruct (ra_cur st') as [k |].
    + destruct Hcur as [Hk [Hik [Hi0 [Hok [Hnrk [Hkal [Hgeo [Hblk [Hp [Hp0
                        [Hroom [Hlk [Hib Hge]]]]]]]]]]]]].
      rewrite Hpend, Hacc, Hpf. split; [ reflexivity | ].
      destruct Hf as [Hf | [<- | []]].
      * destruct (Hdrop f Hf) as [D1 D2]. rewrite Hother by lia. exact D2.
      * rewrite Hi0. unfold ra_drop_folio. rewrite <- Hib.
        destruct (ra_in_bio st').
        -- rewrite andb_true_r. exact Hlk.
        -- rewrite pc_set_same, andb_false_r. reflexivity.
    + rewrite Hacc, Hpf. split; [ reflexivity | ].
      destruct Hf as [Hf | []].
      destruct (Hdrop f Hf) as [_ D2]. exact D2.
  - intros k Hk.
    assert (Hnext : ra_next st' * 4096 = pos + len).
    { unfold window_pages in Hfit. cbn [fold_right] in Hfit. lia. }
    assert (Hk' : ra_pc st' k = pc k).
    { destruct Hk as [Hk | Hk].
      - apply Hbelow. unfold pos. lia.
      - apply Hsame. unfold pos, len in Hnext. lia. }
    destruct (ra_cur st') as [c |]; [ | exact Hk' ].
    destruct Hcur as [Hc [_ [_ [_ [Hnrc [_ [Hgeo [_ [Hp [_ [_ [_ [_ Hge]]]]]]]]]]]]].
    destruct Hgeo as [Ho _].
    pose proof (folio_nr_pages_pos (ra_pc st' c) ltac:(lia)) as Hnrp.
    rewrite Hother; [ exact Hk' | ].
    unfold ra_next in Hnext. unfold pos, len in *.
    clear - Hk Hnext Hc Hnrc Hnrp Hge. lia.
Qed.

(** X27: [iomap_readahead] over a window of folios with sub-block records
    that lies in one extent (not inline data) calls the readahead actor
    once, which walks the whole window, taking each folio from
    [readahead_folio] in turn.  It returns with every request it built
    handed to [submit_bio]; the read-pending count of each folio of the
    window has grown by exactly the number of its bytes in those requests;
    a folio is left locked exactly when it was locked and some of its
    bytes are in a request, so that every folio is unlocked either here or
    by the completion of its last request; no folio outside the window is
    touched. *)
Theorem readahead_accounts_and_unlocks NEW BMP bas i m pc r fs :
  0 < BMP ->
  0 <= i_blkbits i <= 12 -> 0 <= i_size i < 2 ^ 63 ->
  type m <> IOMAP_INLINE ->
  0 <= _index r -> _batch_count r = 0 ->
  _nr_pages r = window_pages fs -> 0 < _nr_pages r ->
  _index r + _nr_pages r < 2 ^ 50 ->
  readahead_window i (_nr_pages r * 4096) pc (_index r) fs ->
  exists pc' r' subs,
    iomap_readahead (readahead_extent_apply NEW BMP bas m) i pc r
    = Some (pc', r', subs, false)
    /\ (forall f, In f fs ->
          read_pending (pc' (index f))
          = read_pending f + bios_bytes_in (index f) subs
          /\ PG_locked (pc' (index f))
             = PG_locked f && (0 <? bios_bytes_in (index f) subs))
    /\ (forall k, k < _index r \/ _index r + _nr_pages r <= k ->
                  pc' k = pc k).
Proof.
  intros HB Hbits Hisize Hty Hidx Hbatch Hnr Hpos Hmax HW.
  destruct (readahead_core NEW BMP bas i m pc r fs HB Hbits Hisize Hty Hidx
              Hbatch Hnr Hpos Hmax HW)
    as [pc' [r' [subs [Hrun [Hfs [Hout _]]]]]].
  exists pc', r', subs. split; [ exact Hrun | ].
  split; [ exact Hfs | exact Hout ].
Qed.


Lemma readahead_accounts_and_unlocks_witness :
  exists pc' r' subs,
    iomap_readahead
      (readahead_extent_apply 4 16 true
         (mk_iomap 0 0 16384 IOMAP_MAPPED 0 1 [] 0 false))
      (mk_inode 16384 9)
      (fun k => if k =? 1
                then mk_folio 1 0 true false false false false None []
                else mk_folio 0 0 true false false false false None [])
      (mk_rac 0 2 0)
    = Some (pc', r', subs, false)
    /\ read_pending (pc' 0) = 0 + bios_bytes_in 0 subs
    /\ PG_locked (pc' 1) = true && (0 <? bios_bytes_in 1 subs).
Proof.
  destruct (readahead_accounts_and_unlocks 4 16 true (mk_inode 16384 9)
              (mk_iomap 0 0 16384 IOMAP_MAPPED 0 1 [] 0 false)
              (fun k => if k =? 1
                        then mk_folio 1 0 true false false false false None []
                        else mk_folio 0 0 true false false false false None [])
              (mk_rac 0 2 0)
              [mk_folio 0 0 true false false false false None [];
               mk_folio 1 0 true false false false false None []])
    as [pc' [r' [subs [Hrun [Hfs _]]]]];
    [ cbv; repeat split; try reflexivity; discriminate .. | ].
  exists pc', r', subs. split; [ exact Hrun | ].
  split.
  - exact (proj1 (Hfs _ (or_introl eq_refl))).
  - exact (proj2 (Hfs _ (or_intror (or_introl eq_refl)))).
Defined.

(** Completion of a request that carries nothing of a folio leaves the
    folio alone. *)
Lemma read_end_io_untouched i pc b error k :
  Forall (fun bv => 0 < bv_len bv) (bi_io_vec b) ->
  bio_bytes_in k b = 0 ->
  iomap_read_end_io i pc b error k = pc k.
Proof.
  intros Hpos Hz. rewrite read_end_io_at.
  unfold bio_bytes_in in Hz.
  rewrite (seg_bytes_zero _ (segs_in_forall _ k _ Hpos) Hz). reflexivity.
Qed.

Lemma bio_bytes_in_nonneg k b :
  Forall (fun bv => 0 < bv_len bv) (bi_io_vec b) -> 0 <= bio_bytes_in k b.
Proof.
  intros H. unfold bio_bytes_in. apply seg_bytes_nonneg.
  now apply segs_in_forall.
Qed.

Lemma bios_bytes_in_nonneg k bios :
  bios_positive bios -> 0 <= bios_bytes_in k bios.
Proof.
  induction 1 as [| b bios Hb _ IH]; [ cbn; lia | ].
  pose proof (bio_bytes_in_nonneg k b Hb).
  unfold bios_bytes_in in *. cbn [fold_right]. lia.
Qed.

(** Completion of a list of requests: the bytes they carried for a folio
    are taken off its read-pending count, and the folio is unlocked when
    the count reaches zero. *)
Lemma complete_reads_counter i k done :
  forall pc,
    bios_positive (map fst done) ->
    bios_bytes_in k (map fst done) <= read_pending (pc k) ->
    read_pending (pc k) < 2 ^ 31 ->
    read_pending (complete_reads i pc done k)
    = read_pending (pc k) - bios_bytes_in k (map fst done)
    /\ PG_locked (complete_reads i pc done k)
       = PG_locked (pc k)
         && negb ((0 <? bios_bytes_in k (map fst done))
                  && (read_pending (pc k)
                      =? bios_bytes_in k (map fst done))).
Proof.
  induction done as [| [b e] done IH]; intros pc Hpos Htot Hmax.
  - cbn. rewrite Z.sub_0_r, andb_true_r. split; reflexivity.
  - cbn [map fst] in Hpos, Htot |- *.
    inversion Hpos as [| ? ? Hb Hrest]; subst.
    pose proof (bio_bytes_in_nonneg k b Hb) as Hb0.
    pose proof (bios_bytes_in_nonneg k _ Hrest) as Hr0.
    assert (Hsum : bios_bytes_in k (b :: map fst done)
                   = bio_bytes_in k b + bios_bytes_in k (map fst done))
      by reflexivity.
    rewrite Hsum in *.
    unfold complete_reads. cbn [fold_left fst snd].
    fold (complete_reads i (iomap_read_end_io i pc b e) done).
    destruct (Z.eq_dec (bio_bytes_in k b) 0) as [Hz | Hnz].
    + pose proof (read_end_io_untouched i pc b e k Hb Hz) as Hsame.
      destruct (IH (iomap_read_end_io i pc b e) Hrest) as [I1 I2];
        rewrite ?Hsame; try lia.
      rewrite I1, I2, Hsame, Hz, Z.add_0_l. split; reflexivity.
    + assert (Hrec : exists p, to_iomap_page (pc k) = Some p
                               /\ read_bytes_pending p = read_pending (pc k)).
      { unfold read_pending in *.
        destruct (to_iomap_page (pc k)) as [p |]; [ | lia ].
        exists p. split; reflexivity. }
      destruct Hrec as [p [Hp Hpp]].
      destruct (read_end_io_counter i pc b e k p Hp Hb ltac:(lia) ltac:(lia))
        as [C1 C2].
      rewrite Hpp in C1, C2.
      destruct (IH (iomap_read_end_io i pc b e) Hrest) as [I1 I2];
        rewrite ?C1; try lia.
      rewrite I1, I2, C1, C2. split; [ lia | ].
      destruct (PG_locked (pc k)); [ | reflexivity ]. cbn [andb].
      destruct (Z.eqb_spec (read_pending (pc k)) (bio_bytes_in k b));
        destruct (Z.ltb_spec 0 (bios_bytes_in k (map fst done)));
        destruct (Z.eqb_spec (read_pending (pc k) - bio_bytes_in k b)
                             (bios_bytes_in k (map fst done)));
        destruct (Z.ltb_spec 0 (bio_bytes_in k b
                                + bios_bytes_in k (map fst done)));
        destruct (Z.eqb_spec (read_pending (pc k))
                             (bio_bytes_in k b
                              + bios_bytes_in k (map fst done)));
        cbn [andb negb]; try reflexivity; lia.
Qed.

(** X28: after [iomap_readahead] over a window of folios with nothing
    pending, once every request it submitted has completed, in the order
    of submission and whatever the status of each, no folio of the window
    is left locked and none has bytes pending. *)
Theorem readahead_then_completion NEW BMP bas i m pc r fs :
  0 < BMP ->
  0 <= i_blkbits i <= 12 -> 0 <= i_size i < 2 ^ 63 ->
  type m <> IOMAP_INLINE ->
  0 <= _index r -> _batch_count r = 0 ->
  _nr_pages r = window_pages fs -> 0 < _nr_pages r ->
  _index r + _nr_pages r < 2 ^ 50 ->
  readahead_window i (_nr_pages r * 4096) pc (_index r) fs ->
  (forall f, In f fs -> read_pending f = 0) ->
  exists pc' r' subs,
    iomap_readahead (readahead_extent_apply NEW BMP bas m) i pc r
    = Some (pc', r', subs, false)
    /\ forall done,
         map fst done = subs ->
         forall f, In f fs ->
           read_pending (complete_reads i pc' done (index f)) = 0
           /\ PG_locked (complete_reads i pc' done (index f)) = false.
Proof.
  intros HB Hbits Hisize Hty Hidx Hbatch Hnr Hpos Hmax HW Hfresh.
  destruct (readahead_core NEW BMP bas i m pc r fs HB Hbits Hisize Hty Hidx
              Hbatch Hnr Hpos Hmax HW)
    as [pc' [r' [subs [Hrun [Hfs [_ [Hposv Hle]]]]]]].
  exists pc', r', subs. split; [ exact Hrun | ].
  intros done Hdone f Hf. subst subs.
  destruct (Hfs f Hf) as [Hp Hl]. rewrite (Hfresh f Hf), Z.add_0_l in Hp.
  pose proof (bios_bytes_in_nonneg (index f) _ Hposv) as H0.
  assert (Hroom : _nr_pages r * 4096 < 2 ^ 31).
  { destruct fs as [| g rest]; [ destruct Hf | ].
    destruct HW as [_ [_ [_ [Hgeo [_ [Hp0 [Hr _]]]]]]].
    destruct Hgeo as [Ho _]. pose proof (folio_size_bounds g Ho). lia. }
  pose proof (Hle (index f)) as Hlef.
  destruct (complete_reads_counter i (index f) done pc' Hposv
              ltac:(lia) ltac:(lia)) as [C1 C2].
  rewrite C1, C2, Hp, Hl. split; [ lia | ].
  rewrite Z.eqb_refl, andb_true_r.
  destruct (PG_locked f); [ | reflexivity ].
  destruct (0 <? bios_bytes_in (index f) (map fst done)); reflexivity.
Qed.

Lemma readahead_then_completion_witness :
  exists pc' r' subs,
    iomap_readahead
      (readahead_extent_apply 4 16 true
         (mk_iomap 0 0 16384 IOMAP_MAPPED 0 1 [] 0 false))
      (mk_inode 16384 9)
      (fun k => if k =? 1
                then mk_folio 1 0 true false false false false None []
                else mk_folio 0 0 true false false false false None [])
      (mk_rac 0 2 0)
    = Some (pc', r', subs, false)
    /\ read_pending
         (complete_reads (mk_inode 16384 9) pc'
                         (map (fun b => (b, -5)) subs) 0) = 0
    /\ PG_locked
         (complete_reads (mk_inode 16384 9) pc'
                         (map (fun b => (b, -5)) subs) 1) = false.
Proof.
  destruct (readahead_then_completion 4 16 true (mk_inode 16384 9)
              (mk_iomap 0 0 16384 IOMAP_MAPPED 0 1 [] 0 false)
              (fun k => if k =? 1
                        then mk_folio 1 0 true false false false false None []
                        else mk_folio 0 0 true false false false false None [])
              (mk_rac 0 2 0)
              [mk_folio 0 0 true false false false false None [];
               mk_folio 1 0 true false false false false None []])
    as [pc' [r' [subs [Hrun Hdone]]]];
    [ cbv; repeat split; try reflexivity; discriminate ..
    | intros f [<- | [<- | []]]; reflexivity
    | ].
  exists pc', r', subs. split; [ exact Hrun | ].
  assert (Hm : map fst (map (fun b : bio => (b, -5)) subs) = subs)
    by (rewrite map_map; apply map_id).
  split.
  - exact (proj1 (Hdone _ Hm _ (or_introl eq_refl))).
  - exact (proj2 (Hdone _ Hm _ (or_intror (or_introl eq_refl)))).
Defined.

Section UnshareCore.

Variable IOMAP_F_NEW : Z.
Variable IOMAP_F_SHARED : Z.
Variable IOMAP_F_BUFFER_HEAD : Z.
Variable IOMAP_F_SIZE_CHANGED : Z.
Variable submit_bio_wait : Z -> Z -> Z -> Z * list byte.
Variable block_write_end : Z -> Z -> Z -> folio -> Z * folio.
Variable __block_write_begin_int : Z -> Z -> folio -> iomap -> Z * folio.
Variable page_prepare : option (Z -> Z -> iomap -> Z).
Variable filemap_get_stable_folio : page_cache -> Z -> option folio.

Variable i : inode.
Variable pc : page_cache.
Variable pos len : Z.
Variable m : iomap.
Variable src : option iomap.
Variable f : folio.

Let srcmap := srcmap_of m src.
Let from := offset_in_folio f pos.

Hypothesis Hprep : page_prepare = None.
Hypothesis Hget : filemap_get_stable_folio pc (pos / 4096) = Some f.
Hypothesis Hgeo : blocks_in_folio i f.
Hypothesis Hcons : uptodate_consistent i f = true.
Hypothesis Hisize : 0 <= i_size i < 2 ^ 63.
Hypothesis Hpos : 0 <= pos < 2 ^ 62.
Hypothesis Hlen : 0 < len <= 4096 - pos mod 4096.
Hypothesis Hshared : Z.land (flags m) IOMAP_F_SHARED <> 0.
Hypothesis Hnotinline : type srcmap <> IOMAP_INLINE.
Hypothesis Hnothole : type srcmap <> IOMAP_HOLE.
Hypothesis Hwritten : type srcmap <> IOMAP_UNWRITTEN.
Hypothesis Hnobh : Z.land (flags m) IOMAP_F_BUFFER_HEAD = 0.
Hypothesis Hnobh_src : Z.land (flags srcmap) IOMAP_F_BUFFER_HEAD = 0.
Hypothesis Hextent : pos + len <= offset m + length m < 2 ^ 64.
Hypothesis Hextent_src : pos + len <= offset srcmap + length srcmap < 2 ^ 64.

Let unshared (f1 : folio) : folio :=
  unlock_folio
    (iomap_set_page_dirty (iomap_set_range_uptodate i f1 from len)).

Lemma unshare_core :
  exists st f1,
    __iomap_write_begin IOMAP_F_NEW submit_bio_wait i pos len
                        IOMAP_WRITE_F_UNSHARE f srcmap = Some (st, f1)
    /\ (st <> 0 ->
        exists ev,
          iomap_unshare_actor
            IOMAP_F_NEW IOMAP_F_SHARED IOMAP_F_BUFFER_HEAD
            IOMAP_F_SIZE_CHANGED submit_bio_wait block_write_end
            __block_write_begin_int false page_prepare
            filemap_get_stable_folio i pc pos len m src
          = Some (st, i, pc_set pc (index f) (unlock_folio f1), m, ev, false))
    /\ (st = 0 ->
        (forall b, block_written i from (from + len) b -> block_valid f1 b)
        /\ exists i' m' ev,
             iomap_unshare_actor
               IOMAP_F_NEW IOMAP_F_SHARED IOMAP_F_BUFFER_HEAD
               IOMAP_F_SIZE_CHANGED submit_bio_wait block_write_end
               __block_write_begin_int false page_prepare
               filemap_get_stable_folio i pc pos len m src
             = Some (len, i', pc_set pc (index f) (unshared f1), m', ev,
                     false)
             /\ PG_dirty (unshared f1) = true
             /\ PG_locked (unshared f1) = false
             /\ data (unshared f1) = data f1
             /\ forall b, block_written i from (from + len) b ->
                          block_valid (unshared f1) b).
Proof.
  pose proof Hgeo as [Hord Hbits].
  pose proof (Z.mod_pos_bound pos 4096 ltac:(lia)) as Hoff.
  destruct (page_range_in_folio f pos len Hord Hpos ltac:(lia))
    as [Hfit _].
  fold from in Hfit.
  pose proof (folio_size_bounds f Hord) as HFS.
  pose proof (offset_in_folio_range f pos ltac:(lia)) as Hofr.
  fold from in Hofr.
  destruct (write_begin_core IOMAP_F_NEW submit_bio_wait i pos len
              IOMAP_WRITE_F_UNSHARE f srcmap Hgeo Hcons Hisize Hpos
              ltac:(lia) Hfit)
    as [st [f1 [Hwb Hpost]]].
  fold from in Hpost.
  destruct (write_begin_frame _ _ _ _ _ _ _ _ _ _ Hwb) as [Hidx _].
  exists st, f1. split; [ exact Hwb | ].
  assert (Hbytes : u64 (Z.min (s64 (PAGE_SIZE - offset_in_page pos)) len)
                   = len).
  { rewrite offset_in_page_mod by exact Hpos. change PAGE_SIZE with 4096.
    rewrite s64_small by lia. rewrite Z.min_r by lia.
    apply u64_small. lia. }
  assert (Hbegin :
            iomap_write_begin IOMAP_F_NEW IOMAP_F_BUFFER_HEAD submit_bio_wait
              __block_write_begin_int false page_prepare
              filemap_get_stable_folio i pc pos len IOMAP_WRITE_F_UNSHARE
              m srcmap
            = if negb (st =? 0)
              then Some (st, pc_set pc (index f1) (unlock_folio f1), None,
                         [EvPutFolio] ++ iomap_write_failed i pos len
                         ++ if page_done m then [EvPageDone pos 0] else [])
              else Some (0, pc, Some f1, [])).
  { unfold iomap_write_begin.
    replace (u64 (offset m + length m) <? u64 (pos + len)) with false
      by (symmetry; rewrite !u64_small by lia; apply Z.ltb_ge; lia).
    replace (u64 (offset srcmap + length srcmap) <? u64 (pos + len))
      with false
      by (symmetry; rewrite !u64_small by lia; apply Z.ltb_ge; lia).
    rewrite Hprep. cbn [Z.eqb negb].
    assert (Hpage : u64 (Z.shiftr pos PAGE_SHIFT) = pos / 4096).
    { unfold PAGE_SHIFT. rewrite Z.shiftr_div_pow2 by lia.
      change (2 ^ 12) with 4096.
      assert (0 <= pos / 4096) by (apply Z.div_pos; lia).
      assert (pos / 4096 <= pos)
        by (apply Z.div_le_upper_bound; lia).
      apply u64_small. lia. }
    rewrite Hpage, Hget.
    rewrite (iomap_type_eqb_neq _ _ Hnotinline).
    rewrite Hnobh. cbn [Z.eqb negb].
    rewrite Hwb. reflexivity. }
  assert (Hactor :
            iomap_unshare_actor
              IOMAP_F_NEW IOMAP_F_SHARED IOMAP_F_BUFFER_HEAD
              IOMAP_F_SIZE_CHANGED submit_bio_wait block_write_end
              __block_write_begin_int false page_prepare
              filemap_get_stable_folio i pc pos len m src
            = unshare_loop
                IOMAP_F_NEW IOMAP_F_BUFFER_HEAD
                IOMAP_F_SIZE_CHANGED submit_bio_wait block_write_end
                __block_write_begin_int false page_prepare
                filemap_get_stable_folio (Z.to_nat len) i pc pos len 0 m src
                []).
  { unfold iomap_unshare_actor. fold srcmap.
    replace (Z.land (flags m) IOMAP_F_SHARED =? 0) with false
      by (symmetry; apply Z.eqb_neq; exact Hshared).
    rewrite (iomap_type_eqb_neq _ _ Hnothole).
    rewrite (iomap_type_eqb_neq _ _ Hwritten). reflexivity. }
  rewrite Hactor.
  split.
  - intros Hst.
    assert (Hneg : negb (st =? 0) = true)
      by (apply negb_true_iff, Z.eqb_neq; exact Hst).
    eexists.
    destruct (Z.to_nat len); cbn [unshare_loop]; rewrite Hbytes;
      rewrite (u32_small len) by lia; fold srcmap;
      rewrite Hbegin, Hneg; cbv iota; rewrite Hneg, Hidx; reflexivity.
  - intros Hst. subst st. destruct (Hpost eq_refl) as [Hready [Ho Hv]].
    cbn [Z.eqb negb] in Hbegin.
    assert (Hvalid : forall b, block_written i from (from + len) b ->
                               block_valid f1 b).
    { intros b Hb. unfold block_written in Hb.
      destruct (Hready b ltac:(lia)) as [Hbv | [Hflag _]];
        [ exact Hbv | discriminate Hflag ]. }
    split; [ exact Hvalid | ].
    assert (Hof1 : offset_in_folio f1 pos = from).
    { unfold from, offset_in_folio, folio_size. now rewrite Ho. }
    assert (Hend : __iomap_write_end i pos len len f1
                   = (len, iomap_set_page_dirty
                             (iomap_set_range_uptodate i f1 from len))).
    { unfold __iomap_write_end. rewrite Z.ltb_irrefl. cbn [andb].
      now rewrite Hof1. }
    destruct (set_range_uptodate_data_index i f1 from len) as [Hd1 Hi1].
    eexists. eexists. eexists. split.
    { destruct (Z.to_nat len); cbn [unshare_loop]; rewrite Hbytes;
        rewrite (u32_small len) by lia; fold srcmap;
        rewrite Hbegin; cbn [Z.eqb negb];
        unfold iomap_write_end;
        rewrite (iomap_type_eqb_neq _ _ Hnotinline);
        rewrite Hnobh_src; cbn [Z.eqb negb]; rewrite Hend;
        cbv zeta; cbn [index unlock_folio iomap_set_page_dirty];
        rewrite Hi1, Hidx; rewrite (s64_small len) by lia;
        replace (len =? 0) with false by (symmetry; apply Z.eqb_neq; lia);
        rewrite Z.sub_diag, Z.add_0_l; rewrite (s64_small 0) by lia;
        rewrite (s64_small len) by lia;
        cbn [Z.eqb]; unfold unshared; reflexivity. }
    split; [ reflexivity | ]. split; [ reflexivity | ].
    split; [ exact Hd1 | ].
    intros b Hb. unfold unshared.
    apply (block_valid_same (iomap_set_range_uptodate i f1 from len));
      [ reflexivity | reflexivity | ].
    apply block_valid_set_range. apply Hvalid. exact Hb.
Qed.

End UnshareCore.

(** X29: [iomap_unshare_actor] leaves an extent alone that is not shared,
    or whose source is a hole or unwritten, and reports the whole length
    as done.  For a shared extent and a range that lies in one page it
    makes one round of [iomap_write_begin] with the unshare flag and
    [iomap_write_end]: when the first fails its status is returned and the
    folio is unlocked; otherwise every block holding a byte of the range
    is valid before anything is marked dirty (none is skipped for lying
    wholly inside the range), the length is returned, and the folio is
    left dirty and unlocked with its bytes as read. *)
Theorem unshare_reads_then_dirties
    NEW SHARED BH SC sbw bwe bwbi prep get i pc pos len m src f :
  prep = None ->
  get pc (pos / 4096) = Some f ->
  blocks_in_folio i f -> uptodate_consistent i f = true ->
  0 <= i_size i < 2 ^ 63 -> 0 <= pos < 2 ^ 62 ->
  0 < len <= 4096 - pos mod 4096 ->
  type (srcmap_of m src) <> IOMAP_INLINE ->
  Z.land (flags m) BH = 0 -> Z.land (flags (srcmap_of m src)) BH = 0 ->
  pos + len <= offset m + length m < 2 ^ 64 ->
  pos + len <= offset (srcmap_of m src) + length (srcmap_of m src) < 2 ^ 64 ->
  (Z.land (flags m) SHARED = 0
   \/ type (srcmap_of m src) = IOMAP_HOLE
   \/ type (srcmap_of m src) = IOMAP_UNWRITTEN ->
   iomap_unshare_actor NEW SHARED BH SC sbw bwe bwbi false prep get
                       i pc pos len m src
   = Some (len, i, pc, m, [], false))
  /\ (Z.land (flags m) SHARED <> 0 ->
      type (srcmap_of m src) <> IOMAP_HOLE ->
      type (srcmap_of m src) <> IOMAP_UNWRITTEN ->
      exists st f1,
        __iomap_write_begin NEW sbw i pos len IOMAP_WRITE_F_UNSHARE f
                            (srcmap_of m src) = Some (st, f1)
        /\ (st <> 0 ->
            exists ev,
              iomap_unshare_actor NEW SHARED BH SC sbw bwe bwbi false prep
                                  get i pc pos len m src
              = Some (st, i, pc_set pc (index f) (unlock_folio f1), m, ev,
                      false))
        /\ (st = 0 ->
            (forall b,
               block_written i (offset_in_folio f pos)
                             (offset_in_folio f pos + len) b ->
               block_valid f1 b)
            /\ exists i' g m' ev,
                 iomap_unshare_actor NEW SHARED BH SC sbw bwe bwbi false
                                     prep get i pc pos len m src
                 = Some (len, i', pc_set pc (index f) g, m', ev, false)
                 /\ PG_dirty g = true /\ PG_locked g = false
                 /\ data g = data f1
                 /\ forall b,
                      block_written i (offset_in_folio f pos)
                                    (offset_in_folio f pos + len) b ->
                      block_valid g b)).
Proof.
  intros Hprep Hget Hgeo Hcons Hisize Hpos Hlen Hni Hbh Hbhs Hext Hexts.
  split.
  - intros Hskip. unfold iomap_unshare_actor.
    destruct (Z.eqb_spec (Z.land (flags m) SHARED) 0) as [_ | Hsh];
      [ reflexivity | ].
    destruct Hskip as [Hz | [Hh | Hu]]; [ contradiction | | ].
    + rewrite Hh. reflexivity.
    + rewrite Hu. cbn [iomap_type_eqb orb]. reflexivity.
  - intros Hsh Hnh Hnu.
    destruct (unshare_core NEW SHARED BH SC sbw bwe bwbi prep get i pc pos
                len m src f Hprep Hget Hgeo Hcons Hisize Hpos Hlen Hsh Hni
                Hnh Hnu Hbh Hbhs Hext Hexts)
      as [st [f1 [Hwb [Hfail Hok]]]].
    exists st, f1. split; [ exact Hwb | ]. split; [ exact Hfail | ].
    intros Hst. destruct (Hok Hst) as [Hv [i' [m' [ev [Ha [Hd [Hl [Hdt Hbv]]]]]]]].
    split; [ exact Hv | ].
    exists i'. eexists. exists m', ev.
    split; [ exact Ha | ]. split; [ exact Hd | ]. split; [ exact Hl | ].
    split; [ exact Hdt | exact Hbv ].
Qed.

Lemma unshare_reads_then_dirties_witness :
  exists st f1,
    __iomap_write_begin 4 (fun _ _ _ => (0, [])) (mk_inode 8192 9) 100 600
      IOMAP_WRITE_F_UNSHARE
      (mk_folio 0 0 true false false false false None (repeat x01 4096))
      (mk_iomap 0 0 8192 IOMAP_MAPPED 2 0 [] 0 false)
    = Some (st, f1)
    /\ (st = 0 ->
        exists i' g m' ev,
          iomap_unshare_actor 4 2 8 16 (fun _ _ _ => (0, []))
            (fun _ _ _ f => (0, f)) (fun _ _ f _ => (0, f)) false None
            (fun _ _ =>
               Some (mk_folio 0 0 true false false false false None
                              (repeat x01 4096)))
            (mk_inode 8192 9)
            (fun _ => mk_folio 0 0 false false false false false None [])
            100 600 (mk_iomap 0 0 8192 IOMAP_MAPPED 2 0 [] 0 false) None
          = Some (600, i',
                  pc_set
                    (fun _ => mk_folio 0 0 false false false false false
                                       None [])
                    0 g, m', ev, false)
          /\ PG_dirty g = true).
Proof.
  destruct (unshare_reads_then_dirties 4 2 8 16 (fun _ _ _ => (0, []))
              (fun _ _ _ f => (0, f)) (fun _ _ f _ => (0, f)) None
              (fun _ _ =>
                 Some (mk_folio 0 0 true false false false false None
                                (repeat x01 4096)))
              (mk_inode 8192 9)
              (fun _ => mk_folio 0 0 false false false false false None [])
              100 600 (mk_iomap 0 0 8192 IOMAP_MAPPED 2 0 [] 0 false) None
              (mk_folio 0 0 true false false false false None
                        (repeat x01 4096)))
    as [_ Hshared];
    [ reflexivity | reflexivity
    | cbv; repeat split; try reflexivity; discriminate .. | ].
  destruct Hshared as [st [f1 [Hwb [_ Hok]]]];
    [ cbv; discriminate .. | ].
  exists st, f1. split; [ exact Hwb | ].
  intros Hst. destruct (Hok Hst) as [_ [i' [g [m' [ev [Ha [Hd _]]]]]]].
  exists i', g, m', ev. split; [ exact Ha | exact Hd ].
Defined.

Lemma unlock_lock_folio f f0 :
  lock_folio f = Some f0 ->
  unlock_folio f0 = f /\ PG_locked f = false
  /\ index f0 = index f /\ order f0 = order f
  /\ private f0 = private f /\ PG_uptodate f0 = PG_uptodate f
  /\ data f0 = data f /\ PG_locked f0 = true.
Proof.
  unfold lock_folio. destruct f as [ix od lk dt wb er up pv da]; cbn.
  destruct lk; [ discriminate | ]. intros H. injection H as <-.
  cbn. repeat split; reflexivity.
Qed.

(** X30: a write fault on an unlocked folio of a file, lying at a multiple
    of its size in an extent that does not use buffer heads.  When some
    byte of the folio lies below end-of-file, [iomap_page_mkwrite] returns
    [VM_FAULT_LOCKED] with the folio locked and dirty, its bytes and its
    uptodate flag unchanged, the sub-block record attached when the folio
    has more than one block, and "bitmap full iff uptodate" kept; a
    warning is raised exactly when the folio was not uptodate.  When the
    folio lies at or past end-of-file the fault is refused with the code
    for [-EFAULT] and the folio is left as it was, unlocked and not
    dirtied. *)
Theorem page_mkwrite_dirties_or_refuses
    BH bwbi bcw bpmr VMFL m i f :
  PG_locked f = false ->
  0 <= order f <= 19 -> 0 <= index f < 2 ^ 51 ->
  index f mod folio_nr_pages f = 0 ->
  0 <= i_size i < 2 ^ 63 ->
  Z.land (flags m) BH = 0 ->
  uptodate_consistent i f = true ->
  (folio_offset f < i_size i ->
   exists g,
     iomap_page_mkwrite bpmr VMFL (mkwrite_extent_apply BH bwbi bcw m)
                        true None i f
     = Some (VMFL, g, negb (FolioUptodate f))
     /\ PG_locked g = true /\ PG_dirty g = true
     /\ FolioUptodate g = FolioUptodate f /\ data g = data f
     /\ uptodate_consistent i g = true
     /\ (1 < i_blocks_per_folio i f -> to_iomap_page g <> None))
  /\ (i_size i <= folio_offset f ->
      iomap_page_mkwrite bpmr VMFL (mkwrite_extent_apply BH bwbi bcw m)
                         true None i f
      = Some (bpmr (- EFAULT), f, false)).
Proof.
  intros Hlk Hord Hidx Hal Hisize Hbh Hcons.
  assert (Hlock : exists f0, lock_folio f = Some f0).
  { unfold lock_folio. rewrite Hlk. eexists. reflexivity. }
  destruct Hlock as [f0 Hf0].
  destruct (unlock_lock_folio f f0 Hf0)
    as [Hun [_ [Hi0 [Ho0 [Hp0 [Hu0 [Hd0 Hl0]]]]]]].
  assert (Hnr0 : folio_nr_pages f0 = folio_nr_pages f)
    by (unfold folio_nr_pages; now rewrite Ho0).
  assert (HFS0 : folio_size f0 = folio_size f)
    by (unfold folio_size; now rewrite Ho0).
  assert (Hoff0 : folio_offset f0 = folio_offset f)
    by (unfold folio_offset; now rewrite Hi0).
  pose proof (check_truncate_value f0 i ltac:(lia) ltac:(lia)
                ltac:(rewrite Hnr0, Hi0; exact Hal) Hisize) as Hct.
  rewrite Hoff0, HFS0 in Hct.
  pose proof (folio_size_bounds f Hord) as HFS.
  assert (Hfo : folio_offset f = index f * 4096).
  { unfold folio_offset, PAGE_SHIFT. rewrite Z.shiftl_mul_pow2 by lia.
    change (2 ^ 12) with 4096. apply s64_small. lia. }
  unfold iomap_page_mkwrite. rewrite Hf0, Hct.
  split.
  - intros Hin.
    replace (folio_offset f <? i_size i) with true
      by (symmetry; apply Z.ltb_lt; exact Hin).
    set (n := Z.min (folio_size f) (i_size i - folio_offset f)).
    assert (Hn : 0 < n <= 2 ^ 31) by (unfold n; lia).
    replace (n <? 0) with false by (symmetry; apply Z.ltb_ge; lia).
    rewrite (u64_small n) by lia. rewrite Hoff0.
    set (g := iomap_set_page_dirty (snd (iomap_page_create i f0))).
    exists g.
    assert (Hloop : mkwrite_loop (mkwrite_extent_apply BH bwbi bcw m)
                                 (Z.to_nat n) i (folio_offset f) n f0 false
                    = Some (inr tt, g, negb (FolioUptodate f))).
    { destruct (Z.to_nat n) as [| k] eqn:Hfuel; [ lia | ].
      cbn [mkwrite_loop].
      replace (0 <? n) with true by (symmetry; apply Z.ltb_lt; lia).
      unfold mkwrite_extent_apply, iomap_page_mkwrite_actor.
      rewrite Hbh. cbn [Z.eqb negb orb]. fold g.
      rewrite (s64_small n) by lia.
      replace (n <=? 0) with false by (symmetry; apply Z.leb_gt; lia).
      rewrite Z.sub_diag. rewrite (u64_small 0) by lia.
      unfold FolioUptodate. rewrite Hu0.
      destruct k; cbn [mkwrite_loop Z.ltb Z.compare]; reflexivity. }
    rewrite Hloop. split; [ reflexivity | ].
    destruct (page_create_frame i f0)
      as [Hrec [_ [_ [Hdat [_ [Hup _]]]]]].
    assert (Hlkc : PG_locked (snd (iomap_page_create i f0)) = true).
    { unfold iomap_page_create.
      destruct (to_iomap_page f0); [ exact Hl0 | ].
      destruct (i_blocks_per_folio i f0 <=? 1); exact Hl0. }
    split; [ exact Hlkc | ]. split; [ reflexivity | ].
    split; [ unfold FolioUptodate, g; cbn [PG_uptodate iomap_set_page_dirty];
             rewrite Hup; exact Hu0 | ].
    split; [ unfold g; cbn [data iomap_set_page_dirty]; rewrite Hdat;
             exact Hd0 | ].
    assert (Hc0 : uptodate_consistent i f0 = true).
    { rewrite <- Hcons. unfold uptodate_consistent, to_iomap_page,
        i_blocks_per_folio, FolioUptodate. now rewrite Hp0, Hu0, HFS0. }
    split; [ exact (consistent_page_create i f0 Hc0) | ].
    intros Hblk. unfold g, to_iomap_page.
    cbn [private iomap_set_page_dirty]. unfold iomap_page_create.
    unfold to_iomap_page. destruct (private f0) eqn:E;
      [ cbn [snd]; rewrite E; discriminate | ].
    replace (i_blocks_per_folio i f0 <=? 1) with false
      by (symmetry; apply Z.leb_gt; unfold i_blocks_per_folio;
          rewrite HFS0; exact Hblk).
    cbn [snd private folio_with_private]. discriminate.
  - intros Hout.
    replace (folio_offset f <? i_size i) with false
      by (symmetry; apply Z.ltb_ge; exact Hout).
    cbn. rewrite Hun. reflexivity.
Qed.

Lemma page_mkwrite_dirties_or_refuses_witness :
  exists g,
    iomap_page_mkwrite (fun e => - e) 512
      (mkwrite_extent_apply 8 (fun _ _ f _ => (0, f)) (fun f _ _ => f)
         (mk_iomap 0 0 16384 IOMAP_MAPPED 0 0 [] 0 false))
      true None (mk_inode 10000 9)
      (mk_folio 2 0 false false false false true None [])
    = Some (512, g, negb (FolioUptodate
                            (mk_folio 2 0 false false false false true
                                      None [])))
    /\ PG_locked g = true /\ PG_dirty g = true.
Proof.
  destruct (page_mkwrite_dirties_or_refuses 8 (fun _ _ f _ => (0, f))
              (fun f _ _ => f) (fun e => - e) 512
              (mk_iomap 0 0 16384 IOMAP_MAPPED 0 0 [] 0 false)
              (mk_inode 10000 9)
              (mk_folio 2 0 false false false false true None []))
    as [Hin _];
    [ reflexivity
    | cbv; repeat split; try reflexivity; discriminate .. | ].
  destruct Hin as [g [Hr [Hl [Hd _]]]]; [ cbv; reflexivity | ].
  exists g. split; [ exact Hr | ]. split; [ exact Hl | exact Hd ].
Defined.

(** ** The invariant of the record across the engine *)

Section WriteBeginInvariant.

Variable IOMAP_F_NEW : Z.
Variable IOMAP_F_BUFFER_HEAD : Z.
Variable submit_bio_wait : Z -> Z -> Z -> Z * list byte.
Variable __block_write_begin_int : Z -> Z -> folio -> iomap -> Z * folio.
Variable fatal_signal_pending : bool.
Variable page_prepare : option (Z -> Z -> iomap -> Z).
Variable filemap_get_stable_folio : page_cache -> Z -> option folio.



End WriteBeginInvariant.



